(* ===== verification/_CoqProject ===== *)
-Q . S2P
Prelude.v
Js.v
Http.v
Errors.v
RateLimit.v
Validation.v
ApiKeys.v
Decimal.v
Paging.v
Soroban.v
Horizon.v
Xdr.v
Db.v
Cache.v
Dispatcher.v
Webhooks.v
Transactions.v
Sync.v
Indexer.v
Polling.v
Ledger.v
Contract.v
Caps.v
EndToEnd.v
Url.v
GitHub.v
Admin.v
Contributors.v
Browser.v
Preferences.v
IssueService.v
ContractErrors.v
Client.v
Maintainer.v
Orgs.v
IssueLists.v
Wiring.v
TxFlows.v
Forms.v
Issues.v
Regex.v
Markdown.v
Pages.v
LiveUpdates.v
RepoSync.v
Health.v
Jobs.v
Schedulers.v
Cancellations.v
Activity.v
Widgets.v
DashboardPage.v
Assignments.v
OrgSelector.v
Shell.v
Gates.v
IssuesPage.v
MaintainerScreens.v
FormScreens.v
ContractPage.v
