(* ===== verification/Prelude.v ===== *)
(** * WorkloadGovernor: a verification library

    The program is a service around the WorkloadGovernor contract on Stellar: contributors
    apply for issues of registered organisations, maintainers assign, complete and revoke,
    and the contract enforces the caps.  [src/] is the contract in Rust, the Express API and its
    background services; [backend/src/] is a second service that keeps GitHub issues and
    application TTLs up to date; [frontend/src/] is the React application.  The library models
    the logic of all four as executable definitions, one file per component, and proves what
    makes each correct and what their compositions do.

    ** How the program is modelled

    - A handler is a function of a request in the monad [M S] of this file: it runs over a
      state [S] of the services it talks to and returns a value or throws.  Every awaited
      call to the database, Redis or a remote node goes through [call], which consults a
      schedule of faults: a call may be refused before its effect or lose its reply after
      it.  A theorem over an arbitrary [world] holds under every pattern of failures; one
      over [World s []] is about a run without failures.
    - [zoom] runs a component on its part of a larger state, the classes [HasDb] (file [Db])
      and [HasCache] (file [Cache]) name these parts.
    - Code outside the repository is a parameter: [Redis] and [RedisStore] (commands of a
      Redis server), [Zod] (the documented meaning of a schema), [Rpc], [TtlRpc] and
      [EventServer] (the Stellar SDK and a Soroban node), [Client] (the generated client of the
      contract), [Temporary] and [Persistent] with their laws (the storage of a Soroban host),
      [StrKey], [Cron], hash functions, random bytes, [fetch].  The laws that theorems need are
      fields of the classes, and every class with laws has a concrete instance that the witnesses
      use.
    - Concurrency is Node's and the browser's: one callback at a time.  Components with
      interleavings ([Sync], [Polling], the event streams of [Cache], [Dispatcher], [RateLimit],
      every hook of the frontend) are step functions over lists of events, and their theorems
      are about all lists.
    - Numbers: [parseInt] and arithmetic on its results are integers or [NaN] ([jsnum] of
      [Js]); BigInt division truncates; the INTEGER range of the database is a requirement
      a statement checks ([Int4] of [Db]); the 32-bit counters of the contract check their
      additions ([Ledger]).
    - A component of React is a function of its properties and state to what it shows, its
      effects and handlers are steps; markup and styles are left out.

    ** The files

    Shared:
    - [Prelude]: outcomes, the monad, its run lemmas and tactics, the hint database [wg].
    - [Js]: strings, [parseInt], [Number], [BigInt], JSON, dates.
    - [Http]: requests, responses, middlewares and routers.
    - [Url], [Browser]: URLs, reading properties of an answer, [localStorage], sorting, pagers.
    - [Decimal], [Paging]: printed numbers; query numbers and windows of rows.
    - [Db]: the tables of [src/db.ts], the schema check of a statement, ORDER BY.
    - [Regex]: regular expressions of the language with their matcher.

    The contract:
    - [Ledger] ([storage.rs], [errors.rs]): the entries, their lifetimes, the host.
    - [Contract] ([lib.rs], [events.rs]): every entry point, calls, passing ledgers.
    - [Caps]: the counters are coherent with the entries, hence the caps; who authorises what;
      how long an application lives; what the published events tell the indexer.

    Middlewares:
    - [RateLimit] ([middleware/rate-limit.ts]): the wallet limiter refines a fixed window
      per wallet ([wallet_limiter_refines_window]); at most 19 requests pass in a minute.
    - [Validation] ([middleware/validation.ts], [schemas/]): what passes, what is answered.
    - [ApiKeys] ([middleware/api-key-auth.ts], [routes/api-keys.ts]): who is let in, and
      that a revoked key is not.
    - [Errors] ([errors.ts], [logger.ts], the error chain of [app.ts]).
    - [Wiring] ([app.ts]): the layers and routes in order, and the URLs of the frontend in them.

    Chain and transactions:
    - [Soroban] ([soroban.ts]): building, simulation, submission with polling, fees.
    - [Horizon] ([horizon.ts], [backend/src/HorizonService.ts]): retries and back-off.
    - [Xdr] ([xdrVerifier.ts], [xdr-signature.ts], [signature.ts]): the verifier accepts
      exactly the acceptable envelopes.
    - [Transactions] ([routes/transactions.ts]): an application is admitted only below the
      caps and only a verified transaction is broadcast.
    - [Indexer], [Polling] ([eventIndexer.ts]): parsing inverts what the contract publishes;
      however its loops are started, stopped and interrupted, the indexer skips no event, and
      catches up; one event the table cannot take stops it.
    - [EndToEnd]: the contract, a node, the loops and the table together: what the rows say of
      assignments is what the contract holds.

    Events and caches:
    - [Sync] ([sync.ts]): the queues are first-in first-out and drain.
    - [Cache] ([services/redis.ts], [services/event-bus.ts], streams of [routes/events.ts]).
    - [Dispatcher] ([services/webhook-dispatcher.ts]): deliveries, retries, dead letters.
    - [Webhooks] ([routes/webhooks.ts], [services/github-webhook.ts]).

    Routes and services of the API:
    - [Admin], [Contributors], [Orgs], [Issues] (the routes of these names; [Issues] holds the
      list of [routes/events.ts] as well), [GitHub] ([github.ts]), [Cancellations]
      ([services/auditService.ts]), [IssueService] ([services/issueService.ts]).

    Second service:
    - [RepoSync] ([backend/src/github.ts]): the transaction that mirrors a repository is
      atomic, its result is the mirror, and a run isolates failures.
    - [Jobs], [Schedulers] ([backend/src/scheduler.ts], [soroban.ts], [app.ts]): batches and
      totals; when jobs start and how the process ends.
    - [Health] ([backend/src/health.ts]): the status is that of the dependencies.

    Frontend:
    - [Client] (data hooks), [IssueLists], [LiveUpdates], [Pages], [Maintainer]: what is shown
      of the answers of the API, whatever order they come in, and what a click does.
    - [TxFlows] (withdrawal, confirmation dialog, buttons), [Forms] (validators, wizards),
      [ContractErrors] (messages): composed with the routes and schemas that answer them.
    - [Markdown] ([renderMarkdown]): which tags the body of an issue can have.
    - [MaintainerScreens], [ContractPage], [FormScreens]: what is drawn of the states of
      [Maintainer] and [Forms] and what can be clicked there: the rows of the maintainer
      dashboard are the answer with the accepted actions applied, the page over the contract
      acts on listed rows only and, one action at a time, does what its handlers do, what is
      reviewed in the wizard is what is registered, a form that is not sent says why.
    - [DashboardPage], [IssuesPage], [Assignments], [OrgSelector]: whole pages and components as
      state machines over their requests, jobs, notifications, URL and keyboard, and everything
      they show; the dashboard over the routes it reads shows the tables, and keeps its books
      whatever happens.
    - [Preferences] (theme, settings, wallet, pins over [localStorage]), [Widgets]
      (notifications, shortcuts), [Activity] (streak, chart, CSV export), [Shell] (clipboard,
      moving counts, the banner of the network, breadcrumbs, the focus trap, the navigation).

    Tools:
    - [Gates] ([scripts/check-benchmarks.js], [scripts/mutation-report.js]): when the gates of
      the continuous integration fail; the score in the doubles it is computed with.

    ** Fuel

    Loops whose bound is in the code carry it: thirty polls ([Soroban.maxPolls],
    [Jobs.MAX_POLLS]), three deliveries ([Dispatcher]), [maxRetries] of [Horizon], two attempts
    of [RepoSync.syncRepo].  The page loops of [GitHub.fetch_pages] and [RepoSync.fetch_loop]
    end only when the remote side says so: they take a number of requests, return [None]
    when it is used up, and [fetchIssues_pages] and [fetchIssuesForRepo_all] prove that as
    many requests as there are pages are enough.  [Jobs.chunk] uses the length of its list,
    which [chunk_partition] shows to be enough.  The matcher of [Regex] repeats a quantifier at
    most once per character left, and its theorems state that it decides the relation of a match,
    not only that what it finds is one.  The loops of [Polling] need none: a step is one stretch between two awaits, and
    [indexer_catches_up] says how many steps are enough.

    ** Schemas

    A statement over columns or constraints that do not exist fails.  Routes are proved
    correct over a schema with what they need; [migrate_schema] is the one [migrate] creates,
    and theorems such as [apply_over_migrate_schema] say what happens over it.

    ** Not modelled

    Markup, styles, drawings and what the browser animates; [App.tsx] and
    [EventHistoryTable.js], which cannot run as they stand; nor can [OnboardingWizard.tsx], which
    calls [useCallback] without importing it, and [SettingsPage.tsx] always redirects: of these
    two only what they keep in the storage is in [Preferences].  Log output, the connection pools,
    the OpenAPI document, and the scheduler of [src/], which nothing starts.
    [cancellation_audit.rs] is not a module of the contract; [seed_assignment] is for its tests.
    [routes/auditRoutes.ts] only mounts controllers and middlewares that are not in the
    repository.  Tests and deployment files.

    ** Plan

    Nothing of the plan is left.  The components of [frontend/components/] that are older
    versions of those of [frontend/src/components/] are modelled where they differ
    ([Shell], [TxFlows]). *)

From stdpp Require Export base option list strings gmap numbers pretty.

#[global] Open Scope Z_scope.
#[global] Set Default Goal Selector "!".

(** ** Thrown values and outcomes

    A JavaScript [throw] carries either an [Error] object (its [name] and its [message])
    or any other value; the handlers of this code base only distinguish
    [err instanceof Error ? err.message : String(err)]. *)
Inductive exn :=
  | ErrorObj (name msg : string)
  | OtherValue (shown : string).

Inductive outcome (A : Type) :=
  | Ret (a : A)
  | Throw (e : exn).
Arguments Ret {A} a.
Arguments Throw {A} e.

#[export] Instance exn_eq_dec : EqDecision exn.
Proof. solve_decision. Defined.

#[export] Instance outcome_eq_dec {A} `{EqDecision A} : EqDecision (outcome A).
Proof. solve_decision. Defined.

Definition is_ret {A} (o : outcome A) : bool :=
  match o with Ret _ => true | Throw _ => false end.

(** [err instanceof Error ? err.message : fallback], the idiom of every route. *)
Definition error_message (fallback : string) (e : exn) : string :=
  match e with ErrorObj _ m => m | OtherValue _ => fallback end.

(** [err instanceof Error ? err.message : String(err)]. *)
Definition error_text (e : exn) : string :=
  match e with ErrorObj _ m => m | OtherValue s => s end.

Definition Error (msg : string) : exn := ErrorObj "Error" msg.

(** ** The world a handler runs in

    A handler talks to services that may fail at any call.  A [world] pairs the state of
    the modelled services with a schedule of faults: the next awaited call consults the
    head of the schedule.  [FailBefore] is a call that is refused, [FailAfter] one whose
    effect is applied but whose reply is lost; an empty schedule is a fault-free run. *)
Inductive fault :=
  | Fine
  | FailBefore (e : exn)
  | FailAfter (e : exn).

Record world (S : Type) := World { st : S; sched : list fault }.
Arguments World {S} st sched.
Arguments st {S} w.
Arguments sched {S} w.

Definition M (S A : Type) : Type := world S → outcome A * world S.

#[export] Instance M_ret S : MRet (M S) := λ A a w, (Ret a, w).

#[export] Instance M_bind S : MBind (M S) := λ A B k m w,
  match m w with
  | (Ret a, w') => k a w'
  | (Throw e, w') => (Throw e, w')
  end.

Definition throw {S A} (e : exn) : M S A := λ w, (Throw e, w).

(** [try { m } catch (e) { h(e) }]. *)
Definition try_catch {S A} (m : M S A) (h : exn → M S A) : M S A := λ w,
  match m w with
  | (Ret a, w') => (Ret a, w')
  | (Throw e, w') => h e w'
  end.

(** One awaited call to a modelled service. *)
Definition call {S A} (f : S → outcome A * S) : M S A := λ w,
  match sched w with
  | [] => let '(o, s) := f (st w) in (o, World s [])
  | Fine :: fs => let '(o, s) := f (st w) in (o, World s fs)
  | FailBefore e :: fs => (Throw e, World (st w) fs)
  | FailAfter e :: fs => let '(_, s) := f (st w) in (Throw e, World s fs)
  end.

(** A synchronous read or write of in-process state: it cannot fail. *)
Definition local {S A} (f : S → A * S) : M S A := λ w,
  let '(a, s) := f (st w) in (Ret a, World s (sched w)).

Definition gets {S A} (f : S → A) : M S A := local (λ s, (f s, s)).
Definition modify {S} (f : S → S) : M S unit := local (λ s, (tt, f s)).

(** [for (const x of l) body(x)]: stops at the first throw. *)
Fixpoint for_each {S A} (body : A → M S unit) (l : list A) : M S unit :=
  match l with
  | [] => mret tt
  | x :: l' => body x ≫= λ _, for_each body l'
  end.

(** [for (const x of l) acc = body(acc, x)]. *)
Fixpoint for_fold {S A B} (body : B → A → M S B) (acc : B) (l : list A) : M S B :=
  match l with
  | [] => mret acc
  | x :: l' => body acc x ≫= λ acc', for_fold body acc' l'
  end.

(** A computation on a part of the state. *)
Definition zoom {S T A} (get : T → S) (set : S → T → T) (m : M S A) : M T A := λ w,
  let '(o, w') := m (World (get (st w)) (sched w)) in
  (o, World (set (st w') (st w)) (sched w')).

(** Running a computation from a state with no faults pending. *)
Definition run {S A} (m : M S A) (s : S) : outcome A * S :=
  let '(o, w) := m (World s []) in (o, st w).

(** ** Tactics *)

(** Compute the monadic plumbing of the goal (or of [H]) without unfolding the model. *)
Ltac unfold_m :=
  unfold mbind, M_bind, mret, M_ret, try_catch, throw, gets, modify, local, run in *.

Tactic Notation "inv" hyp(H) := inversion H; subst; clear H.

(** Split every [match]/[if] on the way and close the absurd branches. *)
Ltac splitc := repeat (case_match; simplify_eq/=; try done).

(** ** Generic lemmas *)

Create HintDb wg discriminated.

Section monad.
Context {S : Type}.

Lemma bind_ret_l {A B} (a : A) (k : A → M S B) : (mret a ≫= k) = k a.
Proof. reflexivity. Qed.

Lemma bind_Ret {A B} (m : M S A) (k : A → M S B) w b w' :
  (m ≫= k) w = (Ret b, w') →
  ∃ a w1, m w = (Ret a, w1) ∧ k a w1 = (Ret b, w').
Proof. unfold_m. destruct (m w) as [[a|e] w1]; naive_solver. Qed.

(** Both outcomes of a sequence. *)
Lemma bind_cases {A B} (m : M S A) (k : A → M S B) w o w' :
  (m ≫= k) w = (o, w') →
  (∃ a w1, m w = (Ret a, w1) ∧ k a w1 = (o, w')) ∨ (∃ e, m w = (Throw e, w') ∧ o = Throw e).
Proof. unfold_m. destruct (m w) as [[a|e] w1]; naive_solver. Qed.

Lemma try_cases {A} (m : M S A) h w o w' :
  try_catch m h w = (o, w') →
  (∃ a, m w = (Ret a, w') ∧ o = Ret a) ∨ (∃ e w1, m w = (Throw e, w1) ∧ h e w1 = (o, w')).
Proof. unfold try_catch. destruct (m w) as [[a|e] w1]; naive_solver. Qed.

Lemma bind_intro {A B} (m : M S A) (k : A → M S B) w a w1 :
  m w = (Ret a, w1) → (m ≫= k) w = k a w1.
Proof. unfold_m. by intros ->. Qed.

Lemma bind_throw {A B} (m : M S A) (k : A → M S B) w e w1 :
  m w = (Throw e, w1) → (m ≫= k) w = (Throw e, w1).
Proof. unfold_m. by intros ->. Qed.

Lemma try_Ret {A} (m : M S A) h w a w' :
  m w = (Ret a, w') → try_catch m h w = (Ret a, w').
Proof. unfold_m. by intros ->. Qed.

Lemma try_Throw {A} (m : M S A) h w e w' :
  m w = (Throw e, w') → try_catch m h w = h e w'.
Proof. unfold_m. by intros ->. Qed.

(** A handler that returns a default makes the whole computation total. *)
Lemma try_default {A} (m : M S A) (d : A) w :
  ∃ a w', try_catch m (λ _, mret d) w = (Ret a, w').
Proof. unfold try_catch. destruct (m w) as [[a|e] w']; unfold_m; eauto. Qed.

(** A fault-free call is the service's own answer. *)
Lemma call_fine {A} (f : S → outcome A * S) s :
  call f (World s []) = ((f s).1, World (f s).2 []).
Proof. unfold call; simpl. by destruct (f s). Qed.

(** A call never lengthens the fault schedule. *)
Lemma call_sched {A} (f : S → outcome A * S) w o w' :
  call f w = (o, w') → sched w' = tail (sched w).
Proof.
  unfold call. destruct w as [s [|[|e|e] fs]]; simpl; destruct (f s); naive_solver.
Qed.

End monad.

(** *** Invariants of a computation

    [keeps P m]: whatever the faults, running [m] preserves [P] on the service state. *)
Definition keeps {S A} (P : S → Prop) (m : M S A) : Prop :=
  ∀ w o w', m w = (o, w') → P (st w) → P (st w').

Section keeps.
Context {S : Type} (P : S → Prop).

Lemma keeps_ret {A} (a : A) : keeps P (mret a : M S A).
Proof. intros w o w' H; unfold_m. by simplify_eq. Qed.

Lemma keeps_throw {A} e : keeps P (throw e : M S A).
Proof. intros w o w' H; unfold_m. by simplify_eq. Qed.

Lemma keeps_bind {A B} (m : M S A) (k : A → M S B) :
  keeps P m → (∀ a, keeps P (k a)) → keeps P (m ≫= k).
Proof.
  intros Hm Hk w o w' H HP. unfold_m.
  destruct (m w) as [[a|e] w1] eqn:E.
  - eapply Hk; eauto.
  - simplify_eq. eauto.
Qed.

Lemma keeps_try {A} (m : M S A) h :
  keeps P m → (∀ e, keeps P (h e)) → keeps P (try_catch m h).
Proof.
  intros Hm Hh w o w' H HP. unfold_m.
  destruct (m w) as [[a|e] w1] eqn:E.
  - simplify_eq. eauto.
  - eapply Hh; eauto.
Qed.

Lemma keeps_call {A} (f : S → outcome A * S) :
  (∀ s, P s → P (f s).2) → keeps P (call f).
Proof.
  intros Hf w o w' H HP. unfold call in H.
  destruct w as [s [|[|e|e] fs]]; simpl in *;
    specialize (Hf s HP); destruct (f s); simplify_eq; done.
Qed.

Lemma keeps_local {A} (f : S → A * S) :
  (∀ s, P s → P (f s).2) → keeps P (local f).
Proof.
  intros Hf w o w' H HP. unfold local in H. specialize (Hf _ HP).
  destruct (f (st w)). by simplify_eq.
Qed.

Lemma keeps_zoom {T A} (get : S → T) (set : T → S → S) (m : M T A) :
  (∀ t s, P s → P (set t s)) → keeps P (zoom get set m).
Proof.
  intros Hset w o w' H HP. unfold zoom in H.
  destruct (m _) as [o1 w1]. simplify_eq. simpl. by apply Hset.
Qed.

Lemma keeps_for_each {A} (body : A → M S unit) l :
  (∀ a, keeps P (body a)) → keeps P (for_each body l).
Proof.
  intros Hb. induction l as [|x l IH]; simpl; [apply keeps_ret|].
  apply keeps_bind; auto.
Qed.

Lemma keeps_for_fold {A B} (body : B → A → M S B) l acc :
  (∀ b a, keeps P (body b a)) → keeps P (for_fold body acc l).
Proof.
  intros Hb. revert acc. induction l as [|x l IH]; intros acc; simpl; [apply keeps_ret|].
  apply keeps_bind; auto.
Qed.

End keeps.

#[export] Hint Resolve keeps_ret keeps_throw : wg.

(** Syntax-directed proof of [keeps]: the lemmas of the operations are found in the hint
    database, the raw service calls are left as goals. *)
Ltac keeps_step :=
  first
    [ solve [eauto 2 with wg nocore]
    | match goal with
      | |- keeps _ (mret _) => apply keeps_ret
      | |- keeps _ (throw _) => apply keeps_throw
      | |- keeps _ (_ ≫= _) => apply keeps_bind; [|intros ?]
      | |- keeps _ (try_catch _ _) => apply keeps_try; [|intros ?]
      | |- keeps _ (for_each _ _) => apply keeps_for_each; intros ?
      | |- keeps _ (for_fold _ _ _) => apply keeps_for_fold; intros ? ?
      | |- keeps _ (call _) => apply keeps_call; intros ? ?
      | |- keeps _ (local _) => apply keeps_local; intros ? ?
      | |- keeps _ (match ?x with _ => _ end) => destruct x
      end ].

(** *** Fault schedules

    [shrinks m]: [m] consumes the schedule from the front; a fault-free run stays so. *)
Definition shrinks {S A} (m : M S A) : Prop :=
  ∀ w o w', m w = (o, w') → sched w' `suffix_of` sched w.

Section shrinks.
Context {S : Type}.

Lemma shrinks_ret {A} (a : A) : shrinks (S := S) (mret a).
Proof. intros w o w' H. unfold_m. by simplify_eq. Qed.

Lemma shrinks_throw {A} e : shrinks (S := S) (A := A) (throw e).
Proof. intros w o w' H. unfold_m. by simplify_eq. Qed.

Lemma shrinks_bind {A B} (m : M S A) (k : A → M S B) :
  shrinks m → (∀ a, shrinks (k a)) → shrinks (m ≫= k).
Proof.
  intros Hm Hk w o w' H. unfold_m. destruct (m w) as [[a|e] w1] eqn:E.
  - etrans; [by eapply Hk|by eapply Hm].
  - simplify_eq. by eapply Hm.
Qed.

Lemma shrinks_try {A} (m : M S A) h :
  shrinks m → (∀ e, shrinks (h e)) → shrinks (try_catch m h).
Proof.
  intros Hm Hh w o w' H. unfold try_catch in H. destruct (m w) as [[a|e] w1] eqn:E.
  - simplify_eq. by eapply Hm.
  - etrans; [by eapply Hh|by eapply Hm].
Qed.

Lemma shrinks_call {A} (f : S → outcome A * S) : shrinks (call f).
Proof.
  intros w o w' H. apply call_sched in H as ->. destruct (sched w); [done|].
  simpl. by apply suffix_cons_r.
Qed.

Lemma shrinks_local {A} (f : S → A * S) : shrinks (local f).
Proof. intros w o w' H. unfold local in H. destruct (f (st w)). by simplify_eq. Qed.

Lemma shrinks_zoom {T A} (get : S → T) set (m : M T A) :
  shrinks m → shrinks (zoom get set m).
Proof.
  intros Hm w o w' H. unfold zoom in H. destruct (m _) as [o1 w1] eqn:E. simplify_eq.
  exact (Hm _ _ _ E).
Qed.

Lemma shrinks_fine {A} (m : M S A) s o w' :
  shrinks m → m (World s []) = (o, w') → w' = World (st w') [].
Proof.
  intros Hm H. apply Hm in H. simpl in H. apply suffix_nil_inv in H.
  destruct w'; simpl in *; by subst.
Qed.

End shrinks.

#[export] Hint Resolve shrinks_ret shrinks_throw shrinks_call shrinks_local shrinks_zoom
  shrinks_bind shrinks_try : wg.

(** *** Results of a computation

    [yields Q m]: a result of [m] satisfies [Q]; [ensures Q m]: [m] always returns, with
    a result that satisfies [Q].  Both hold whatever the state and the faults. *)
Definition yields {S A} (Q : A → Prop) (m : M S A) : Prop :=
  ∀ w a w', m w = (Ret a, w') → Q a.

Definition ensures {S A} (Q : A → Prop) (m : M S A) : Prop :=
  ∀ w, ∃ a w', m w = (Ret a, w') ∧ Q a.

Section results.
Context {S : Type}.

Lemma yields_ret {A} (Q : A → Prop) (a : A) : Q a → yields (S := S) Q (mret a).
Proof. intros Ha w a' w' H. unfold_m. by simplify_eq. Qed.

Lemma yields_throw {A} (Q : A → Prop) e : yields (S := S) Q (throw e).
Proof. intros w a' w' H. unfold_m. by simplify_eq. Qed.

Lemma yields_bind {A B} (Q : B → Prop) (m : M S A) (k : A → M S B) :
  (∀ a, yields Q (k a)) → yields Q (m ≫= k).
Proof. intros Hk w b w' (a & w1 & _ & H)%bind_Ret. by eapply Hk. Qed.

Lemma yields_bind_post {A B} (Q : A → Prop) (R : B → Prop) (m : M S A) (k : A → M S B) :
  yields Q m → (∀ a, Q a → yields R (k a)) → yields R (m ≫= k).
Proof. intros Hm Hk w b w' (a & w1 & Ha & H)%bind_Ret. eapply Hk; [by eapply Hm|done]. Qed.

Lemma yields_try {A} (Q : A → Prop) (m : M S A) h :
  yields Q m → (∀ e, yields Q (h e)) → yields Q (try_catch m h).
Proof.
  intros Hm Hh w a w' H. unfold try_catch in H.
  destruct (m w) as [[b|e] w1] eqn:E; [simplify_eq; by eapply Hm|by eapply Hh].
Qed.

Lemma ensures_yields {A} (Q : A → Prop) (m : M S A) : ensures Q m → yields Q m.
Proof. intros Hm w a w' H. destruct (Hm w) as (a1 & w1 & H1 & Ha). rewrite H in H1. by simplify_eq. Qed.

Lemma ensures_ret {A} (Q : A → Prop) (a : A) : Q a → ensures (S := S) Q (mret a).
Proof. intros Ha w. by exists a, w. Qed.

Lemma ensures_bind {A B} (Q : B → Prop) (m : M S A) (k : A → M S B) :
  ensures (λ _, True) m → (∀ a, ensures Q (k a)) → ensures Q (m ≫= k).
Proof.
  intros Hm Hk w. destruct (Hm w) as (a & w1 & H & _).
  rewrite (bind_intro m k w a w1 H). apply Hk.
Qed.

Lemma ensures_try {A} (Q : A → Prop) (m : M S A) h :
  yields Q m → (∀ e, ensures Q (h e)) → ensures Q (try_catch m h).
Proof.
  intros Hm Hh w. unfold try_catch. destruct (m w) as [[a|e] w1] eqn:E; [|apply Hh].
  exists a, w1. split; [done|by eapply Hm].
Qed.

Lemma ensures_local {A} (f : S → A * S) : ensures (λ _, True) (local f).
Proof. intros w. unfold local. destruct (f (st w)). eauto. Qed.

End results.

#[export] Hint Resolve yields_throw ensures_local : wg.

(** Syntax-directed proof of [yields] and [ensures] goals. *)
Ltac result_step :=
  first
    [ solve [eauto 2 with wg nocore]
    | match goal with
      | |- yields _ (mret _) => apply yields_ret
      | |- yields _ (throw _) => apply yields_throw
      | |- yields _ (_ ≫= _) => apply yields_bind; intros ?
      | |- yields _ (try_catch _ _) => apply yields_try; [|intros ?]
      | |- yields _ (match ?x with _ => _ end) => destruct x eqn:?
      | |- ensures _ (mret _) => apply ensures_ret
      | |- ensures _ (try_catch _ _) => apply ensures_try; [|intros ?]
      | |- ensures _ (_ ≫= _) => apply ensures_bind; [|intros ?]
      | |- ensures _ (match ?x with _ => _ end) => destruct x eqn:?
      end ].

(** *** Lists *)

Lemma filter_iff_on {A} (P Q : A → Prop) `{∀ x, Decision (P x), ∀ x, Decision (Q x)} (l : list A) :
  (∀ x, x ∈ l → P x ↔ Q x) → filter P l = filter Q l.
Proof.
  induction l as [|x l IH]; intros Hl; [done|]. rewrite !filter_cons, IH by set_solver.
  repeat case_decide; try done; exfalso; specialize (Hl x); set_solver.
Qed.

Lemma filter_all {A} (P : A → Prop) `{∀ x, Decision (P x)} (l : list A) :
  Forall P l → filter P l = l.
Proof. induction 1; [done|]. rewrite filter_cons_True by done. by f_equal. Qed.

Lemma filter_none {A} (P : A → Prop) `{∀ x, Decision (P x)} (l : list A) :
  Forall (λ x, ¬ P x) l → filter P l = [].
Proof. induction 1; [done|]. by rewrite filter_cons_False. Qed.

Lemma length_filter_le {A} (P : A → Prop) `{∀ x, Decision (P x)} (l : list A) :
  (length (filter P l) ≤ length l)%nat.
Proof. induction l as [|x l IH]; [done|]. rewrite filter_cons. case_decide; simpl; lia. Qed.

Lemma length_filter_split {A} (P : A → Prop) `{∀ x, Decision (P x)} (l : list A) :
  length l = (length (filter P l) + length (filter (λ x, ¬ P x) l))%nat.
Proof.
  induction l as [|x l IH]; [done|]. rewrite !filter_cons.
  repeat case_decide; simpl; try lia; exfalso; tauto.
Qed.

(** A key that is unique in a list identifies its element. *)
Lemma NoDup_fmap_inj {A B} (f : A → B) (l : list A) x y :
  NoDup (f <$> l) → x ∈ l → y ∈ l → f x = f y → x = y.
Proof.
  induction l as [|z l IH]; intros Hn Hx Hy He; [set_solver|].
  apply NoDup_cons in Hn as [Hz Hn].
  apply elem_of_cons in Hx as [->|Hx], Hy as [->|Hy]; [done| | |by apply IH];
    exfalso; apply Hz, list_elem_of_fmap; [by exists y|by exists x].
Qed.

(** Replacing an element whose contribution grows by [new]. *)
Lemma concat_insert_perm {A B} (f : A → list B) (xs : list A) i x x' new :
  xs !! i = Some x → f x' ≡ₚ f x ++ new →
  concat (f <$> <[i := x']> xs) ≡ₚ concat (f <$> xs) ++ new.
Proof.
  intros Hx Hf. assert (i < length xs)%nat by (by eapply lookup_lt_Some).
  rewrite insert_take_drop by done. rewrite <- (take_drop_middle xs i x Hx) at 3.
  rewrite !fmap_app, !concat_app. cbn. rewrite Hf. solve_Permutation.
Qed.

(** Ceiling division, [Math.ceil(a / b)] for integers and [b > 0]. *)
Definition ceil_div (a b : Z) : Z := - ((- a) / b).

Lemma ceil_div_spec a b : 0 < b → b * (ceil_div a b - 1) < a ≤ b * ceil_div a b.
Proof.
  intros Hb. unfold ceil_div.
  pose proof (Z.div_mod (- a) b ltac:(lia)). pose proof (Z.mod_pos_bound (- a) b Hb). nia.
Qed.
