(* ===== verification/Js.v ===== *)
(** * The JavaScript values and library functions the program uses

    Strings are byte strings: the sources only compare, split, trim and match ASCII text.
    Numbers that come out of [parseInt] are integers or [NaN] ([jsnum]); numbers inside a
    JSON document are decimals [m / 10^k] ([JNum m k]); both are exact, which is what the
    runtime computes as long as values stay within the safe-integer range. *)

From Stdlib Require Import Ascii String.
From S2P Require Import Prelude.

#[local] Open Scope Z_scope.

(** ** Strings as character lists *)

Definition lst (s : string) : list ascii := list_ascii_of_string s.
Definition str (l : list ascii) : string := string_of_list_ascii l.

Definition code (c : ascii) : Z := Z.of_nat (nat_of_ascii c).

Definition in_range (lo hi : ascii) (c : ascii) : bool :=
  (code lo <=? code c) && (code c <=? code hi).

(** The ASCII members of the regular-expression class [\s]. *)
Definition is_ws (c : ascii) : bool :=
  (code c =? 32) || ((9 <=? code c) && (code c <=? 13)).

Definition is_digit : ascii → bool := in_range "0" "9".
Definition is_upper : ascii → bool := in_range "A" "Z".
Definition is_lower : ascii → bool := in_range "a" "z".

(** The class [[A-Z2-7]] of the Stellar address pattern. *)
Definition is_base32 (c : ascii) : bool := is_upper c || in_range "2" "7" c.

Fixpoint drop_ws (l : list ascii) : list ascii :=
  match l with
  | [] => []
  | c :: l' => if is_ws c then drop_ws l' else l
  end.

Definition trim_list (l : list ascii) : list ascii := rev (drop_ws (rev (drop_ws l))).

Definition trim (s : string) : string := str (trim_list (lst s)).

Definition to_lower_char (c : ascii) : ascii :=
  if is_upper c then ascii_of_nat (nat_of_ascii c + 32) else c.

Definition toLowerCase (s : string) : string := str (to_lower_char <$> lst s).

Definition to_upper_char (c : ascii) : ascii :=
  if is_lower c then ascii_of_nat (nat_of_ascii c - 32) else c.

Definition toUpperCase (s : string) : string := str (to_upper_char <$> lst s).

(** [s.split(sep)] for a one-character separator: never empty. *)
Fixpoint split_list (sep : ascii) (cur : list ascii) (l : list ascii) : list string :=
  match l with
  | [] => [str (rev cur)]
  | c :: l' => if Ascii.eqb c sep then str (rev cur) :: split_list sep [] l'
               else split_list sep (c :: cur) l'
  end.

Definition split (sep : ascii) (s : string) : list string := split_list sep [] (lst s).

Definition startsWith (pre s : string) : bool := String.prefix pre s.

(** [s.includes(sub)]. *)
Definition includes (sub s : string) : bool :=
  match String.index 0 sub s with Some _ => true | None => false end.

(** [s.slice(n)], [s.slice(0, n)]. *)
Definition slice_from (n : nat) (s : string) : string := str (drop n (lst s)).
Definition slice_to (n : nat) (s : string) : string := str (take n (lst s)).

Definition strlen (s : string) : Z := Z.of_nat (length (lst s)).

(** [parts.join(sep)]. *)
Fixpoint join (sep : string) (l : list string) : string :=
  match l with
  | [] => ""
  | [s] => s
  | s :: l' => s +:+ sep +:+ join sep l'
  end.

(** ** Numbers *)

Inductive jsnum := NaN | Fin (z : Z).

#[export] Instance jsnum_eq_dec : EqDecision jsnum.
Proof. solve_decision. Defined.

Definition lift2 (f : Z → Z → Z) (a b : jsnum) : jsnum :=
  match a, b with Fin x, Fin y => Fin (f x y) | _, _ => NaN end.

(** [Math.min] and [Math.max] return [NaN] as soon as one argument is [NaN]. *)
Definition js_min := lift2 Z.min.
Definition js_max := lift2 Z.max.
Definition js_add := lift2 Z.add.
Definition js_sub := lift2 Z.sub.
Definition js_mul := lift2 Z.mul.

(** Comparisons with [NaN] are false. *)
Definition js_cmp (f : Z → Z → bool) (a b : jsnum) : bool :=
  match a, b with Fin x, Fin y => f x y | _, _ => false end.
Definition js_lt := js_cmp Z.ltb.
Definition js_gt := js_cmp Z.gtb.
Definition js_ge := js_cmp Z.geb.

Definition is_NaN (a : jsnum) : bool := match a with NaN => true | Fin _ => false end.

(** [a || d]: [NaN] and [0] are falsy. *)
Definition js_or (a : jsnum) (d : Z) : Z :=
  match a with NaN => d | Fin 0 => d | Fin z => z end.

Definition digit_val (c : ascii) : Z := code c - 48.

Fixpoint digits_value (acc : Z) (l : list ascii) : Z :=
  match l with
  | c :: l' => if is_digit c then digits_value (10 * acc + digit_val c) l' else acc
  | [] => acc
  end.

(** [parseInt(s, 10)]: leading white space, an optional sign, the longest run of digits;
    [NaN] when there is no digit. *)
Definition parseInt_list (l : list ascii) : jsnum :=
  let unsigned l :=
    match l with
    | c :: _ => if is_digit c then Fin (digits_value 0 l) else NaN
    | [] => NaN
    end in
  match drop_ws l with
  | "-"%char :: l' => lift2 Z.sub (Fin 0) (unsigned l')
  | "+"%char :: l' => unsigned l'
  | l' => unsigned l'
  end.

Definition parseInt (s : string) : jsnum := parseInt_list (lst s).

(** ** [Array.prototype.slice] *)

(** The relative index of a slice bound: [NaN] is 0, a negative bound counts from the end. *)
Definition slice_index (len : nat) (i : jsnum) : nat :=
  match i with
  | NaN => 0
  | Fin z => if z <? 0 then Z.to_nat (Z.of_nat len + z) else Nat.min (Z.to_nat z) len
  end.

Definition js_slice {A} (from to : jsnum) (l : list A) : list A :=
  let a := slice_index (length l) from in
  let b := slice_index (length l) to in
  take (b - a) (drop a l).

(** ** JSON values

    [JNum m k] is the number [m / 10^k].  A missing property is [undefined], modelled by
    [None] at the places that look a property up. *)
Inductive json :=
  | JNull
  | JBool (b : bool)
  | JNum (m : Z) (k : nat)
  | JStr (s : string)
  | JArr (l : list json)
  | JObj (l : list (string * json)).

Definition jint (z : Z) : json := JNum z 0.

(** The number is an integer, and which. *)
Definition pow10 (k : nat) : Z := 10 ^ Z.of_nat k.
Definition jnum_is_int (m : Z) (k : nat) : bool := m mod pow10 k =? 0.
Definition jnum_int (m : Z) (k : nat) : Z := m / pow10 k.

Fixpoint assoc {A} (k : string) (l : list (string * A)) : option A :=
  match l with
  | [] => None
  | (k', v) :: l' => if String.eqb k k' then Some v else assoc k l'
  end.

(** [o.k] where [o] is any value but [null]/[undefined]; properties of primitives that the
    code never relies on are [undefined]. *)
Definition prop (k : string) (o : json) : option json :=
  match o with JObj l => assoc k l | _ => None end.

Definition truthy (v : json) : bool :=
  match v with
  | JNull => false
  | JBool b => b
  | JNum m _ => negb (m =? 0)
  | JStr s => negb (String.eqb s "")
  | JArr _ | JObj _ => true
  end.

(** Truthiness of a possibly undefined value. *)
Definition truthy_opt (v : option json) : bool :=
  match v with Some v => truthy v | None => false end.

(** Decimal printing of [m / 10^k] with no trailing zero, the shortest form [String(n)]
    prints for the numbers in the safe range. *)
Fixpoint strip_zeros (l : list ascii) : list ascii :=
  match l with "0"%char :: l' => strip_zeros l' | _ => l end.

Definition pad_left (n : nat) (c : ascii) (l : list ascii) : list ascii :=
  replicate (n - length l) c ++ l.

Definition print_num (m : Z) (k : nat) : string :=
  let a := Z.abs m in
  let whole := pretty (a / pow10 k) in
  let frac := pad_left k "0" (lst (pretty (a mod pow10 k))) in
  let frac' := if (k =? 0)%nat then [] else rev (strip_zeros (rev frac)) in
  (if m <? 0 then "-" else "") +:+ whole +:+
  match frac' with [] => "" | _ => "." +:+ str frac' end.

(** [String(v)]. *)
Fixpoint js_String (v : json) : string :=
  match v with
  | JNull => "null"
  | JBool b => if b then "true" else "false"
  | JNum m k => print_num m k
  | JStr s => s
  | JArr l => join "," ((fix go l := match l with
                                    | [] => []
                                    | JNull :: l' => "" :: go l'
                                    | x :: l' => js_String x :: go l'
                                    end) l)
  | JObj _ => "[object Object]"
  end.

(** [typeof v === 'string'] and [Array.isArray(v)] as partial projections. *)
Definition as_string (v : json) : option string :=
  match v with JStr s => Some s | _ => None end.
Definition as_array (v : json) : option (list json) :=
  match v with JArr l => Some l | _ => None end.

(** An object literal: properties whose value is [undefined] are dropped by
    [JSON.stringify]. *)
Definition obj (l : list (string * option json)) : json :=
  JObj (omap (λ '(k, v), pair k <$> v) l).

(** ** [Number(s)] and [BigInt(s)] *)

(** The value of a numeric string: [m * 10^e], an infinity, or [NaN]. *)
Inductive numval := NumNaN | NumInf (neg : bool) | NumDec (m : Z) (e : Z).

(** The longest prefix of digits: its digits and the rest. *)
Fixpoint span_digits (l : list ascii) : list ascii * list ascii :=
  match l with
  | c :: l' => if is_digit c then let '(d, r) := span_digits l' in (c :: d, r) else ([], l)
  | [] => ([], [])
  end.

(** The digit value in radix 16 of a character (lower case first). *)
Definition hex_val (c : ascii) : option Z :=
  let c := to_lower_char c in
  if is_digit c then Some (code c - 48)
  else if in_range "a" "f" c then Some (code c - 87) else None.

Fixpoint radix_value (radix : Z) (acc : Z) (l : list ascii) : option Z :=
  match l with
  | [] => Some acc
  | c :: l' =>
      match hex_val c with
      | Some v => if v <? radix then radix_value radix (radix * acc + v) l' else None
      | None => None
      end
  end.

(** [0x..], [0o..], [0b..] (either case), at least one digit, no sign. *)
Definition radix_literal (l : list ascii) : option Z :=
  match l with
  | "0"%char :: x :: d :: l' =>
      let radix := match to_lower_char x with
                   | "x"%char => Some 16 | "o"%char => Some 8 | "b"%char => Some 2
                   | _ => None end in
      r ← radix; radix_value r 0 (d :: l')
  | _ => None
  end.

(** The exponent part [e[+-]digits], or nothing. *)
Definition exponent (l : list ascii) : option Z :=
  match l with
  | [] => Some 0
  | c :: l' =>
      if Ascii.eqb (to_lower_char c) "e" then
        let '(neg, ds) := match l' with
                          | "-"%char :: r => (true, r)
                          | "+"%char :: r => (false, r)
                          | _ => (false, l')
                          end in
        match span_digits ds with
        | ([], _) => None
        | (d, []) => Some (if neg : bool then - digits_value 0 d else digits_value 0 d)
        | _ => None
        end
      else None
  end.

Definition unsigned_decimal (neg : bool) (l : list ascii) : numval :=
  if decide (l = lst "Infinity") then NumInf neg else
  let sgn z := if neg then - z else z in
  let '(ip, r) := span_digits l in
  let '(fp, r') := match r with
                   | "."%char :: r1 => span_digits r1
                   | _ => ([], r)
                   end in
  match ip ++ fp with
  | [] => NumNaN
  | ds => match exponent r' with
          | Some e => NumDec (sgn (digits_value 0 ds)) (e - Z.of_nat (length fp))
          | None => NumNaN
          end
  end.

Definition js_Number (s : string) : numval :=
  match trim_list (lst s) with
  | [] => NumDec 0 0
  | l => match radix_literal l with
         | Some v => NumDec v 0
         | None => match l with
                   | "-"%char :: l' => unsigned_decimal true l'
                   | "+"%char :: l' => unsigned_decimal false l'
                   | _ => unsigned_decimal false l
                   end
         end
  end.

(** [n > 0]. *)
Definition numval_pos (n : numval) : bool :=
  match n with NumNaN => false | NumInf neg => negb neg | NumDec m _ => 0 <? m end.

(** [Number.isInteger(n)]. *)
Definition numval_is_int (n : numval) : bool :=
  match n with
  | NumDec m e => (0 <=? e) || (m mod 10 ^ (- e) =? 0)
  | _ => false
  end.

(** [BigInt(s)]: [None] is the [SyntaxError]. *)
Definition js_BigInt (s : string) : option Z :=
  match trim_list (lst s) with
  | [] => Some 0
  | l =>
      match radix_literal l with
      | Some v => Some v
      | None =>
          let '(neg, ds) := match l with
                            | "-"%char :: r => (true, r)
                            | "+"%char :: r => (false, r)
                            | _ => (false, l)
                            end in
          match span_digits ds with
          | ([], _) => None
          | (d, []) => Some (if neg : bool then - digits_value 0 d else digits_value 0 d)
          | _ => None
          end
      end
  end.

(** ** The Stellar account pattern [/^G[A-Z2-7]+$/] *)
Definition matches_G_base32 (s : string) : bool :=
  match lst s with
  | "G"%char :: ((_ :: _) as l) => forallb is_base32 l
  | _ => false
  end.

(** ** Lemmas *)

Lemma str_lst s : str (lst s) = s.
Proof. apply string_of_list_ascii_of_string. Qed.

Lemma lst_str l : lst (str l) = l.
Proof. apply list_ascii_of_string_of_list_ascii. Qed.

#[export] Instance str_inj : Inj (=) (=) str.
Proof. intros l1 l2 H. by rewrite <- (lst_str l1), <- (lst_str l2), H. Qed.

#[export] Instance lst_inj : Inj (=) (=) lst.
Proof. intros l1 l2 H. by rewrite <- (str_lst l1), <- (str_lst l2), H. Qed.

Lemma lst_app s t : lst (s +:+ t) = lst s ++ lst t.
Proof. induction s as [|c s IH]; [done|]. simpl. unfold lst in *. simpl. by f_equal. Qed.

Lemma str_app l k : str (l ++ k) = str l +:+ str k.
Proof. apply (inj lst). by rewrite lst_app, !lst_str. Qed.

Lemma startsWith_app pre s : startsWith pre (pre +:+ s) = true.
Proof.
  unfold startsWith. induction pre as [|c pre IH]; [by destruct s|].
  simpl. destruct (ascii_dec c c); [done|congruence].
Qed.

Lemma startsWith_spec pre s : startsWith pre s = true ↔ ∃ rest, s = pre +:+ rest.
Proof.
  split; [|intros [r ->]; apply startsWith_app].
  unfold startsWith. revert s. induction pre as [|c pre IH]; intros s H; [by exists s|].
  destruct s as [|d s]; simpl in H; [done|].
  destruct (ascii_dec c d) as [->|]; [|done].
  destruct (IH _ H) as [r ->]. by exists r.
Qed.

Lemma slice_index_le len i : (slice_index len i ≤ len)%nat.
Proof. destruct i as [|z]; simpl; [lia|]. destruct (Z.ltb_spec z 0); lia. Qed.

Lemma js_slice_fin {A} (a b : Z) (l : list A) :
  0 ≤ a → a ≤ b → js_slice (Fin a) (Fin b) l = take (Z.to_nat (b - a)) (drop (Z.to_nat a) l).
Proof.
  intros Ha Hb. unfold js_slice, slice_index.
  replace (a <? 0) with false by lia. replace (b <? 0) with false by lia.
  destruct (decide (Z.to_nat a ≤ length l)%nat) as [H|H].
  - rewrite (Nat.min_l (Z.to_nat a)) by lia.
    destruct (decide (Z.to_nat b ≤ length l)%nat).
    + f_equal. lia.
    + rewrite Nat.min_r by lia. rewrite !take_ge; [done| |]; rewrite length_drop; lia.
  - rewrite (drop_ge l (Z.to_nat a)) by lia. rewrite (Nat.min_r (Z.to_nat a)) by lia.
    rewrite drop_all. by rewrite !take_nil.
Qed.

Lemma js_slice_NaN_to {A} from (l : list A) : js_slice from NaN l = [].
Proof. unfold js_slice. simpl. by rewrite take_0. Qed.

Lemma length_js_slice {A} from to (l : list A) :
  (length (js_slice from to l) ≤ length l)%nat.
Proof. unfold js_slice. rewrite length_take, length_drop. lia. Qed.

Lemma js_slice_sublist {A} from to (l : list A) : js_slice from to l `sublist_of` l.
Proof.
  unfold js_slice.
  etrans; [apply sublist_take|apply sublist_drop].
Qed.

Lemma drop_ws_suffix l : drop_ws l `suffix_of` l.
Proof.
  induction l as [|c l IH]; [done|]. simpl. destruct (is_ws c); [|done].
  by apply suffix_cons_r.
Qed.

Lemma split_nonempty sep s : split sep s ≠ [].
Proof.
  unfold split. generalize (@nil ascii). induction (lst s) as [|c l IH]; intros cur; simpl.
  - done.
  - by destruct (Ascii.eqb c sep).
Qed.

Lemma js_or_nonzero a d : d ≠ 0 → js_or a d ≠ 0.
Proof. intros Hd. destruct a as [|[]]; simpl; lia. Qed.

Lemma matches_G_base32_spec s :
  matches_G_base32 s = true ↔
  ∃ l, lst s = "G"%char :: l ∧ l ≠ [] ∧ Forall (λ c, is_base32 c = true) l.
Proof.
  unfold matches_G_base32. split.
  - destruct (lst s) as [|c [|d l]]; [done| |].
    + destruct c as [[] [] [] [] [] [] [] []]; done.
    + intros H. exists (d :: l). 
      assert (c = "G"%char) as ->.
      { destruct c as [[] [] [] [] [] [] [] []]; try done. }
      split; [done|]. split; [done|]. apply Forall_forall. intros x Hx.
      apply (proj1 (forallb_forall is_base32 (d :: l)) H). by apply list_elem_of_In.
  - intros (l & -> & Hl & HF). destruct l as [|d l]; [done|]. simpl.
    apply (forallb_forall is_base32 (d :: l)). intros x Hx.
    rewrite Forall_forall in HF. apply HF. by apply list_elem_of_In.
Qed.

(** ** Dates

    A [Date] is its time value in milliseconds since the epoch; the process runs in UTC. *)

(** The civil date (year, month, day) of a day number, for the proleptic Gregorian
    calendar: eras of 400 years starting on the first of March. *)
Definition civil_of_days (days : Z) : Z * Z * Z :=
  let z := days + 719468 in
  let era := z / 146097 in
  let doe := z mod 146097 in
  let yoe := (doe - doe / 1460 + doe / 36524 - doe / 146096) / 365 in
  let doy := doe - (365 * yoe + yoe / 4 - yoe / 100) in
  let mp := (5 * doy + 2) / 153 in
  let d := doy - (153 * mp + 2) / 5 + 1 in
  let m := if mp <? 10 then mp + 3 else mp - 9 in
  let y := yoe + era * 400 + (if m <=? 2 then 1 else 0) in
  (y, m, d).

Definition pad2 (z : Z) : string := str (pad_left 2 "0" (lst (pretty z))).
Definition pad3 (z : Z) : string := str (pad_left 3 "0" (lst (pretty z))).
Definition pad4 (z : Z) : string := str (pad_left 4 "0" (lst (pretty z))).

Definition pad6 (z : Z) : string := str (pad_left 6 "0" (lst (pretty z))).

(** Years outside 0 to 9999 are printed with a sign and six digits. *)
Definition iso_year (y : Z) : string :=
  if (0 <=? y) && (y <=? 9999) then pad4 y
  else (if (y <? 0)%Z then "-" else "+")%string +:+ pad6 (Z.abs y).

(** The time values a [Date] can hold; outside them [toISOString] throws. *)
Definition valid_time (ms : Z) : bool := Z.abs ms <=? 8640000000000000.

(** [date.toISOString()] of a valid date. *)
Definition toISOString (ms : Z) : string :=
  let '(y, m, d) := civil_of_days (ms / 86400000) in
  let t := ms mod 86400000 in
  (iso_year y +:+ "-" +:+ pad2 m +:+ "-" +:+ pad2 d +:+ "T" +:+
   pad2 (t / 3600000) +:+ ":" +:+ pad2 (t / 60000 mod 60) +:+ ":" +:+
   pad2 (t / 1000 mod 60) +:+ "." +:+ pad3 (t mod 1000) +:+ "Z")%string.

Example toISOString_epoch : toISOString 1784548800123 = "2026-07-20T12:00:00.123Z".
Proof. reflexivity. Qed.

(** *** [split] undoes [join] *)

Lemma split_list_plain sep a : ∀ cur,
  sep ∉ a → split_list sep cur a = [str (rev cur ++ a)].
Proof.
  induction a as [|c a IH]; intros cur Ha; cbn; [by rewrite app_nil_r|].
  destruct (Ascii.eqb_spec c sep) as [->|Hne]; [set_solver|].
  rewrite IH by set_solver. cbn. by rewrite <- app_assoc.
Qed.

Lemma split_list_sep sep a rest : ∀ cur,
  sep ∉ a → split_list sep cur (a ++ sep :: rest) = str (rev cur ++ a) :: split_list sep [] rest.
Proof.
  induction a as [|c a IH]; intros cur Ha; cbn.
  - by rewrite Ascii.eqb_refl, app_nil_r.
  - destruct (Ascii.eqb_spec c sep) as [->|Hne]; [set_solver|].
    rewrite IH by set_solver. cbn. by rewrite <- app_assoc.
Qed.

Lemma split_join sep l :
  l ≠ [] → Forall (λ s, sep ∉ lst s) l → split sep (join (String sep "") l) = l.
Proof.
  unfold split. induction l as [|s [|s2 l] IH]; intros Hne Hall; [done|..].
  - inv Hall. cbn [join]. rewrite split_list_plain by done. cbn. by rewrite str_lst.
  - inv Hall. change (join (String sep "") (s :: s2 :: l)) with
      (s +:+ String sep "" +:+ join (String sep "") (s2 :: l)).
    rewrite !lst_app. cbn [lst list_ascii_of_string app].
    change (lst (String sep "")) with [sep]. cbn [app].
    rewrite split_list_sep by done. cbn [rev app]. rewrite str_lst. f_equal. by apply IH.
Qed.

Lemma drop_ws_none l : Forall (λ c, is_ws c = false) l → drop_ws l = l.
Proof. destruct 1 as [|c l Hc]; [done|]. cbn. by rewrite Hc. Qed.

Lemma trim_none s : Forall (λ c, is_ws c = false) (lst s) → trim s = s.
Proof.
  intros H. unfold trim, trim_list. rewrite (drop_ws_none (lst s)) by done.
  rewrite drop_ws_none by (by apply Forall_rev). by rewrite rev_involutive, str_lst.
Qed.
