(* ===== verification/Http.v ===== *)
(** * Requests, responses and middleware

    The part of Express the handlers rely on: a request with its headers, query, route
    parameters and parsed body; a response with a status, headers and an optional JSON
    body; a middleware that either answers or passes on; a router that tries the handlers
    registered for a method and path in registration order. *)

From Stdlib Require Import String.
From S2P Require Import Prelude Js.

#[local] Open Scope string_scope.
#[local] Open Scope list_scope.
#[local] Open Scope Z_scope.

Record response := Response {
  status : Z;
  rheaders : list (string * string);
  rbody : option json;
}.

(** [res.status(code).json(body)] and [res.status(code).send()]. *)
Definition send_json (code : Z) (body : json) : response := Response code [] (Some body).
Definition send_empty (code : Z) : response := Response code [] None.

(** Headers set on [res] before the response is sent. *)
Definition with_headers (h : list (string * string)) (r : response) : response :=
  Response (status r) (h ++ rheaders r) (rbody r).

(** [{ error: msg }], the error body of most routes. *)
Definition error_body (msg : string) : json := obj [("error", Some (JStr msg))].
Definition error_response (code : Z) (msg : string) : response :=
  send_json code (error_body msg).

Record request := Request {
  req_headers : list (string * string);
  req_query : list (string * json);
  req_params : list (string * json);
  req_body : option json;
  remoteAddress : option string;
}.

Definition header (k : string) (r : request) : option string := assoc k (req_headers r).
Definition query (k : string) (r : request) : option json := assoc k (req_query r).
Definition param (k : string) (r : request) : string :=
  default "undefined" (js_String <$> assoc k (req_params r)).

(** [req.body?.k]: the body may be [undefined]. *)
Definition body_prop (k : string) (r : request) : option json := req_body r ≫= prop k.

Definition set_body (b : json) (r : request) : request :=
  Request (req_headers r) (req_query r) (req_params r) (Some b) (remoteAddress r).
Definition set_params (p : list (string * json)) (r : request) : request :=
  Request (req_headers r) (req_query r) p (req_body r) (remoteAddress r).
Definition set_query (q : list (string * json)) (r : request) : request :=
  Request (req_headers r) q (req_params r) (req_body r) (remoteAddress r).

(** What a middleware does: answer, or call [next()] after possibly replacing the request
    and setting response headers. *)
Inductive verdict :=
  | Respond (r : response)
  | Next (req : request) (set : list (string * string)).

Definition is_next (v : verdict) : bool :=
  match v with Next _ _ => true | Respond _ => false end.

(** [router.METHOD(path, h1); router.METHOD(path, h2); ...] for handlers of one method and
    path: the first one runs, the following ones only if it passes on. *)
Fixpoint dispatch {S} (handlers : list (request → M S verdict)) (r : request) : M S verdict :=
  match handlers with
  | [] => mret (Next r [])
  | h :: hs =>
      v ← h r;
      match v with
      | Respond res => mret (Respond res)
      | Next r' set =>
          v' ← dispatch hs r';
          mret (match v' with
                | Respond res => Respond (with_headers set res)
                | Next r'' set' => Next r'' (set ++ set')
                end)
      end
  end.

(** A handler that always answers hides the ones registered after it. *)
Lemma dispatch_shadow {S} (h : request → M S verdict) hs r w res w' :
  h r w = (Ret (Respond res), w') → dispatch (h :: hs) r w = (Ret (Respond res), w').
Proof. intros H. simpl. by erewrite bind_intro by exact H. Qed.

Lemma dispatch_throw {S} (h : request → M S verdict) hs r w e w' :
  h r w = (Throw e, w') → dispatch (h :: hs) r w = (Throw e, w').
Proof. intros H. simpl. by erewrite bind_throw by exact H. Qed.
