(* ===== verification/Errors.v ===== *)
(** * Error classes and the terminal error handlers

    [src/errors.ts] (error classes, HTTP status of a contract error, [errorHandler]), the
    JSON-body error middleware and the mounting order of [src/app.ts], and the older
    handler of [src/logger.ts]. *)

From Stdlib Require Import String.
From S2P Require Import Prelude Js Http.

#[local] Open Scope string_scope.
#[local] Open Scope list_scope.
#[local] Open Scope Z_scope.

(** What the [instanceof] tests of the handlers distinguish, with the fields the classes
    add; [status] of a [SyntaxError] is the property body-parser sets. *)
Inductive error_class :=
  | ContractError (code : Z)
  | HorizonError (hstatus : Z)
  | ValidationError (details : option json)
  | SyntaxError (sstatus : option Z)
  | PlainError.

(** An [Error] handed to an error middleware; [type] is set by body-parser. *)
Record app_error := mkError {
  class : error_class;
  err_message : string;
  err_type : option string;
  err_stack : string;
}.

(** What [logger.error] receives; [stack] is dropped in production. *)
Record log_entry := LogEntry {
  log_correlation : string;
  log_error : string;
  log_stack : option string;
}.

Definition contractCodeToHttpStatus (code : Z) : Z :=
  if (code =? 3) || (code =? 4) || (code =? 5) then 403
  else if (code =? 8) || (code =? 11) then 409
  else if (code =? 9) || (code =? 10) then 404
  else 400.

(** [ApiErrorResponse]: [{ error: { code, message, details? }, correlationId }]. *)
Definition api_error (code message : string) (details : option json) (cid : string) : json :=
  obj [("error", Some (obj [("code", Some (JStr code)); ("message", Some (JStr message));
                            ("details", details)]));
       ("correlationId", Some (JStr cid))].

Definition errorHandler (isProd : bool) (correlationId : option string) (err : app_error)
    : response * option log_entry :=
  let cid := default "unknown" correlationId in
  let fallthrough :=
    (send_json 500 (api_error "INTERNAL_SERVER_ERROR" "An unexpected error occurred" None cid),
     Some (LogEntry cid (err_message err) (if isProd then None else Some (err_stack err)))) in
  match class err with
  | SyntaxError (Some s) =>
      if s =? 400 then
        (send_json 400 (api_error "INVALID_JSON" "Request body is not valid JSON" None cid), None)
      else fallthrough
  | ValidationError d =>
      (send_json 400 (api_error "VALIDATION_ERROR" (err_message err) d cid), None)
  | ContractError c =>
      (send_json (contractCodeToHttpStatus c)
         (api_error ("CONTRACT_ERROR_" +:+ pretty c) (err_message err)
            (Some (obj [("contractCode", Some (jint c))])) cid), None)
  | HorizonError s =>
      let status := if (400 <=? s) && (s <? 600) then s else 502 in
      (send_json status (api_error "HORIZON_ERROR" (err_message err) None cid), None)
  | _ => fallthrough
  end.

(** The older handler still exported by [src/logger.ts]. *)
Definition logger_errorHandler (correlationId : option string) (err : app_error)
    : response * option log_entry :=
  let cid := default "unknown" correlationId in
  (send_json 500 (obj [("error", Some (JStr "internal server error"));
                       ("correlationId", Some (JStr cid))]),
   Some (LogEntry cid (err_message err) (Some (err_stack err)))).

(** The malformed-body middleware of [src/app.ts]: [None] is [next(err)]. *)
Definition malformed_json_handler (err : app_error) : option response :=
  let is_syntax_400 := match class err with
                       | SyntaxError (Some s) => s =? 400
                       | _ => false
                       end in
  let is_parse_failed := match err_type err with
                         | Some t => String.eqb t "entity.parse.failed"
                         | None => false
                         end in
  if is_syntax_400 || is_parse_failed
  then Some (error_response 400 "malformed JSON body")
  else None.

(** The two error middlewares in the order [createApp] mounts them. *)
Definition app_error_chain (isProd : bool) (correlationId : option string) (err : app_error)
    : response * option log_entry :=
  match malformed_json_handler err with
  | Some r => (r, None)
  | None => errorHandler isProd correlationId err
  end.

(** The [error.code] of a response body. *)
Definition response_code (r : response) : option string :=
  b ← rbody r; e ← prop "error" b; c ← prop "code" e; as_string c.

(** ** Theorems *)

Lemma contractCodeToHttpStatus_range c :
  contractCodeToHttpStatus c ∈ [400; 403; 404; 409].
Proof. unfold contractCodeToHttpStatus. repeat case_match; set_solver. Qed.

(** every error that reaches the end of the chain is answered with a client or server
    error status, whatever status a [HorizonError] carries. *)
Lemma app_error_chain_status isProd cid err :
  400 ≤ status (app_error_chain isProd cid err).1 < 600.
Proof.
  unfold app_error_chain, malformed_json_handler.
  case_match eqn:E; [case_match; simplify_eq; simpl; lia|].
  unfold errorHandler. destruct err as [[c|s| |[s|]|] m t k]; simpl in *; try lia.
  - pose proof (contractCodeToHttpStatus_range c). set_unfold. lia.
  - destruct (400 <=? s) eqn:?, (s <? 600) eqn:?; simpl; lia.
  - destruct (s =? 400); simpl; lia.
Qed.

(** The message, type and stack of an unexpected error never leave the process: whatever
    they are, the response is the same. *)
Lemma internal_error_opaque isProd cid err err' :
  class err = PlainError → class err' = PlainError →
  malformed_json_handler err = None → malformed_json_handler err' = None →
  (app_error_chain isProd cid err).1 = (app_error_chain isProd cid err').1.
Proof. unfold app_error_chain, errorHandler. by intros -> -> -> ->. Qed.

(** The [INVALID_JSON] branch of [errorHandler] cannot be reached through [createApp]. *)
Lemma invalid_json_unreachable isProd cid err :
  response_code (app_error_chain isProd cid err).1 ≠ Some "INVALID_JSON".
Proof.
  unfold app_error_chain. destruct (malformed_json_handler err) eqn:E.
  - unfold malformed_json_handler in E. case_match; simplify_eq. by vm_compute.
  - destruct err as [[c|s| |[s|]|] m t k]; try (by vm_compute).
    unfold malformed_json_handler in E. cbn in *. destruct (s =? 400); [done|]. by vm_compute.
Qed.
