(* ===== verification/RateLimit.v ===== *)
(** * Request rate limiting ([src/middleware/rate-limit.ts])

    The wallet limiter keeps, per wallet, a counter and the time its window ends.  The
    store is a finite map; the clock is an argument of each step.  The module proves that
    the limiter refines a per-wallet fixed-window counter, whatever the other wallets and
    the periodic cleanup do, and what that allows in a period of one minute. *)

From Stdlib Require Import String Ascii.
From S2P Require Import Prelude Js Http.

#[local] Open Scope string_scope.
#[local] Open Scope list_scope.
#[local] Open Scope Z_scope.

(** ** Helpers *)

Definition getClientIp (r : request) : string :=
  match header "x-forwarded-for" r with
  | Some fwd => trim (default "" (head (split "," fwd)))
  | None => default "unknown" (remoteAddress r)
  end.

(** [req.query['wallet'] ?? req.body?.wallet]: [??] skips [undefined] and [null]. *)
Definition nullish (o : option json) : bool :=
  match o with None | Some JNull => true | _ => false end.

Definition getWalletAddress (r : request) : option string :=
  let wallet := if nullish (query "wallet" r) then body_prop "wallet" r
                else query "wallet" r in
  match wallet with
  | Some w => if truthy w then Some (js_String w) else None
  | None => None
  end.

(** ** Global limiter: the 429 handler *)

(** [rlInfo.resetTime]: a number, some other value, or absent. *)
Inductive reset_time := ResetNumber (ms : Z) | ResetOther | ResetAbsent.

Definition global_retry_after (reset : reset_time) (now : Z) : Z :=
  let retryAfter := match reset with
                    | ResetNumber t => if t =? 0 then 60 else ceil_div (t - now) 1000
                    | _ => 60
                    end in
  if retryAfter >? 0 then retryAfter else 60.

Definition globalLimiter_handler (reset : reset_time) (now : Z) : response :=
  let ra := global_retry_after reset now in
  with_headers [("Retry-After", pretty ra)]
    (send_json 429 (obj [("error", Some (JStr "too many requests"));
                         ("retryAfter", Some (jint ra))])).

(** ** Wallet limiter *)

Record WindowEntry := mkEntry { count : Z; resetTime : Z }.

Definition WALLET_LIMIT : Z := 10.
Definition WALLET_WINDOW_MS : Z := 60 * 1000.

Notation store := (gmap string WindowEntry).

(** The entry the request is counted against: the stored one, or a new window when there
    is none or it has expired. *)
Definition current_entry (now : Z) (e : option WindowEntry) : WindowEntry :=
  match e with
  | Some e => if now >? resetTime e then mkEntry 0 (now + WALLET_WINDOW_MS) else e
  | None => mkEntry 0 (now + WALLET_WINDOW_MS)
  end.

Definition limit_headers (e : WindowEntry) : list (string * string) :=
  [("X-RateLimit-Limit", pretty WALLET_LIMIT);
   ("X-RateLimit-Remaining", pretty (Z.max 0 (WALLET_LIMIT - count e)));
   ("X-RateLimit-Reset", pretty (ceil_div (resetTime e) 1000))].

Definition wallet_retry_after (e : WindowEntry) (now : Z) : Z :=
  let retryAfter := ceil_div (resetTime e - now) 1000 in
  if retryAfter >? 0 then retryAfter else WALLET_WINDOW_MS / 1000.

Definition walletLimiter (now : Z) (r : request) (s : store) : verdict * store :=
  match getWalletAddress r with
  | None => (Next r [], s)
  | Some wallet =>
      let entry := current_entry now (s !! wallet) in
      let s := <[wallet := entry]> s in
      if count entry >=? WALLET_LIMIT then
        let ra := wallet_retry_after entry now in
        (Respond (with_headers (limit_headers entry ++ [("Retry-After", pretty ra)])
           (send_json 429 (obj [("error", Some (JStr "wallet rate limit exceeded"));
                                ("retryAfter", Some (jint ra))]))), s)
      else
        (Next r (limit_headers entry),
         <[wallet := mkEntry (count entry + 1) (resetTime entry)]> s)
  end.

(** [cleanupExpiredLimits]: drop the entries whose window has ended. *)
Definition cleanupExpiredLimits (now : Z) (s : store) : store :=
  filter (λ kv : string * WindowEntry, ¬ resetTime kv.2 < now) s.

Definition clearWalletLimitStore (s : store) : store := ∅.

(** ** Runs of the middleware

    The process interleaves requests and the one-minute cleanup timer. *)
Inductive event :=
  | Req (now : Z) (r : request)
  | Cleanup (now : Z).

Definition event_time (e : event) : Z :=
  match e with Req t _ | Cleanup t => t end.

Definition step (s : store) (e : event) : option verdict * store :=
  match e with
  | Req now r => let '(v, s') := walletLimiter now r s in (Some v, s')
  | Cleanup now => (None, cleanupExpiredLimits now s)
  end.

(** Whether the request of a given wallet was let through, for each of its requests. *)
Fixpoint decisions (w : string) (s : store) (es : list event) : list bool :=
  match es with
  | [] => []
  | e :: es' =>
      let '(v, s') := step s e in
      match e, v with
      | Req _ r, Some v =>
          if decide (getWalletAddress r = Some w) then is_next v :: decisions w s' es'
          else decisions w s' es'
      | _, _ => decisions w s' es'
      end
  end.

Fixpoint final_store (s : store) (es : list event) : store :=
  match es with
  | [] => s
  | e :: es' => final_store (step s e).2 es'
  end.

(** The times at which a wallet makes requests. *)
Definition request_times (w : string) (es : list event) : list Z :=
  omap (λ e, match e with
             | Req now r => if decide (getWalletAddress r = Some w) then Some now else None
             | Cleanup _ => None
             end) es.

(** The events happen in the order of the clock, from [t] on. *)
Fixpoint ordered_from (t : Z) (ts : list Z) : Prop :=
  match ts with
  | [] => True
  | t' :: ts' => t ≤ t' ∧ ordered_from t' ts'
  end.

(** *** The abstract limiter: one fixed-window counter, no store, no cleanup *)

Definition window_step (e : option WindowEntry) (now : Z) : bool * option WindowEntry :=
  let entry := current_entry now e in
  if count entry >=? WALLET_LIMIT then (false, Some entry)
  else (true, Some (mkEntry (count entry + 1) (resetTime entry))).

Fixpoint window_run (e : option WindowEntry) (ts : list Z) : list bool :=
  match ts with
  | [] => []
  | t :: ts' => let '(b, e') := window_step e t in b :: window_run e' ts'
  end.

Fixpoint passed (bs : list bool) : Z :=
  match bs with
  | [] => 0
  | b :: bs' => Z.b2z b + passed bs'
  end.

(** ** Lemmas *)

(** Two views of an entry that no later request can tell apart at time [t]. *)
Definition same_entry (t : Z) (e1 e2 : option WindowEntry) : Prop :=
  e1 = e2 ∨ (e1 = None ∧ ∃ e, e2 = Some e ∧ resetTime e < t).

Lemma current_entry_same t t' e1 e2 :
  same_entry t e1 e2 → t ≤ t' → current_entry t' e1 = current_entry t' e2.
Proof.
  intros [->|[-> (e & -> & He)]] Ht; [done|]. simpl.
  destruct (Z.gtb_spec t' (resetTime e)); [done|lia].
Qed.

Lemma same_entry_mono t t' e1 e2 : same_entry t e1 e2 → t ≤ t' → same_entry t' e1 e2.
Proof. intros [->|[-> (e & -> & He)]] Ht; [by left|]. right. eauto with lia. Qed.

(** What one request of wallet [w] does to the store, entry by entry. *)
Lemma walletLimiter_hit now r s w :
  getWalletAddress r = Some w →
  is_next (walletLimiter now r s).1 = (window_step (s !! w) now).1 ∧
  (walletLimiter now r s).2 !! w = (window_step (s !! w) now).2.
Proof.
  intros Hw. unfold walletLimiter, window_step. rewrite Hw.
  destruct (_ >=? _); simpl; (split; [done|by rewrite lookup_insert_eq]).
Qed.

Lemma walletLimiter_miss now r s w :
  getWalletAddress r ≠ Some w → (walletLimiter now r s).2 !! w = s !! w.
Proof.
  intros Hw. unfold walletLimiter.
  destruct (getWalletAddress r) as [w'|]; [|done].
  assert (w' ≠ w) by congruence.
  destruct (_ >=? _); simpl; by rewrite !lookup_insert_ne.
Qed.

Lemma cleanup_same now s w e t :
  t ≤ now → same_entry t (s !! w) e → same_entry now (cleanupExpiredLimits now s !! w) e.
Proof.
  intros Ht Hs. unfold cleanupExpiredLimits.
  destruct (s !! w) as [e'|] eqn:E.
  - destruct Hs as [<-|[? _]]; [|done].
    destruct (decide (resetTime e' < now)).
    + right. split; [|eauto].
      apply map_lookup_filter_None. right. intros x Hx. simplify_eq. simpl. tauto.
    + left. apply map_lookup_filter_Some. done.
  - assert (filter (λ kv : string * WindowEntry, ¬ resetTime kv.2 < now) s !! w = None) as ->
      by (apply map_lookup_filter_None; by left).
    by eapply same_entry_mono.
Qed.

Lemma decisions_refine w es : ∀ s e t,
  same_entry t (s !! w) e →
  ordered_from t (event_time <$> es) →
  decisions w s es = window_run e (request_times w es).
Proof.
  induction es as [|[now r|now] es IH]; intros s e t Hs Ho; [done| |]; simpl in Ho;
    destruct Ho as [Ht Ho]; unfold decisions; fold decisions; simpl.
  - destruct (walletLimiter now r s) as [v s'] eqn:E.
    destruct (decide (getWalletAddress r = Some w)) as [Hw|Hw].
    + pose proof (walletLimiter_hit now r s w Hw) as [H1 H2]. rewrite E in H1, H2. simpl in *.
      assert (window_step (s !! w) now = window_step e now) as Heq.
      { unfold window_step. by rewrite (current_entry_same _ _ _ _ Hs Ht). }
      rewrite H1. destruct (window_step e now) as [b e'] eqn:Ew. rewrite Heq in H2 |- *.
      simpl. f_equal. apply (IH _ _ now); [|done]. left. by rewrite H2.
    + pose proof (walletLimiter_miss now r s w Hw) as Hm. rewrite E in Hm. simpl in *.
      apply (IH _ _ now); [|done]. rewrite Hm. by eapply same_entry_mono.
  - apply (IH _ _ now); [|done]. by eapply cleanup_same.
Qed.

(** *** Counting what the abstract limiter lets through *)

(** The counter of a live window stays between 1 and the limit. *)
Definition entry_ok (e : option WindowEntry) : Prop :=
  match e with Some e => 1 ≤ count e ≤ WALLET_LIMIT | None => True end.

Lemma window_step_ok e t : entry_ok e → entry_ok (window_step e t).2.
Proof.
  unfold window_step. intros He.
  assert (0 ≤ count (current_entry t e) ≤ WALLET_LIMIT) as H.
  { unfold current_entry, entry_ok, WALLET_LIMIT in *. repeat case_match; simpl; lia. }
  destruct (Z.geb_spec (count (current_entry t e)) WALLET_LIMIT); simpl;
    unfold WALLET_LIMIT in *; lia.
Qed.

(** Until the current window ends, at most the remaining quota passes. *)
Lemma passed_in_window ts : ∀ e t hi,
  ordered_from t ts → Forall (λ t, t ≤ hi) ts → hi ≤ resetTime e →
  count e ≤ WALLET_LIMIT →
  passed (window_run (Some e) ts) ≤ WALLET_LIMIT - count e.
Proof.
  induction ts as [|t' ts IH]; intros e t hi Ho Hf Hr Hc; simpl; [lia|].
  destruct Ho as [? Ho]. inv Hf.
  unfold window_step. simpl. destruct (Z.gtb_spec t' (resetTime e)); [lia|].
  destruct (Z.geb_spec (count e) WALLET_LIMIT).
  - simpl. by apply (IH e t' hi).
  - specialize (IH (mkEntry (count e + 1) (resetTime e)) t' hi). simpl in *.
    specialize (IH ltac:(done) ltac:(done) ltac:(lia) ltac:(lia)). lia.
Qed.

Lemma passed_fresh ts t0 t hi e :
  ordered_from t ts → Forall (λ t, t ≤ hi) ts → t0 ≤ t → hi ≤ t0 + WALLET_WINDOW_MS →
  match e with Some e => ∀ t', t' ∈ ts → resetTime e < t' | None => True end →
  passed (window_run e ts) ≤ WALLET_LIMIT.
Proof.
  intros Ho Hf Ht Hhi He. destruct ts as [|t' ts]; simpl; [by unfold WALLET_LIMIT; lia|].
  destruct Ho as [? Ho]. inv Hf.
  assert (current_entry t' e = mkEntry 0 (t' + WALLET_WINDOW_MS)) as Hc.
  { destruct e as [e|]; simpl; [|done].
    specialize (He t' ltac:(set_solver)). by destruct (Z.gtb_spec t' (resetTime e)); [|lia]. }
  unfold window_step. rewrite Hc. simpl.
  pose proof (passed_in_window ts (mkEntry 1 (t' + WALLET_WINDOW_MS)) t' hi) as Hp.
  simpl in Hp. specialize (Hp ltac:(done) ltac:(done) ltac:(lia) ltac:(done)).
  change (count (mkEntry 0 (t' + WALLET_WINDOW_MS)) >=? WALLET_LIMIT) with false. cbn [count resetTime passed Z.b2z].
  change (0 + 1) with 1. simpl. lia.
Qed.

Lemma ordered_from_lower ts : ∀ t, ordered_from t ts → Forall (λ t', t ≤ t') ts.
Proof.
  induction ts as [|t' ts IH]; intros t Ho; [constructor|]. destruct Ho as [Hle Ho].
  constructor; [done|]. eapply Forall_impl; [by apply IH|]. simpl. lia.
Qed.

Lemma passed_minute ts : ∀ e t0 t,
  ordered_from t ts → t0 ≤ t → Forall (λ t, t ≤ t0 + WALLET_WINDOW_MS) ts →
  match e with Some e => 1 ≤ count e ≤ WALLET_LIMIT | None => True end →
  passed (window_run e ts) ≤
    match e with Some e => WALLET_LIMIT - count e | None => 0 end + WALLET_LIMIT.
Proof.
  induction ts as [|t' ts IH]; intros e t0 t Ho Ht Hf Hok.
  { simpl. destruct e; unfold WALLET_LIMIT in *; lia. }
  destruct e as [e|].
  2: { pose proof (passed_fresh (t' :: ts) t0 t _ None Ho Hf Ht ltac:(lia) I). lia. }
  destruct (Z.gtb_spec t' (resetTime e)).
  - pose proof (passed_fresh (t' :: ts) t0 t _ (Some e) Ho Hf Ht ltac:(lia)) as Hp.
    cut (passed (window_run (Some e) (t' :: ts)) ≤ WALLET_LIMIT); [lia|]. apply Hp.
    destruct Ho as [_ Ho%ordered_from_lower]. rewrite Forall_forall in Ho.
    intros x [->|Hx]%elem_of_cons; [lia|]. specialize (Ho x Hx). simpl in Ho. lia.
  - destruct Ho as [? Ho]. inv Hf. simpl. unfold window_step. simpl.
    destruct (Z.gtb_spec t' (resetTime e)); [lia|].
    destruct (Z.geb_spec (count e) WALLET_LIMIT).
    + simpl. by apply (IH (Some e) t0 t' Ho ltac:(lia)).
    + specialize (IH (Some (mkEntry (count e + 1) (resetTime e))) t0 t' Ho ltac:(lia)
                    ltac:(done)). simpl in IH. simpl. lia.
Qed.

(** *** From the events of a run to the times of one wallet *)

Lemma ordered_weaken a b ts : a ≤ b → ordered_from b ts → ordered_from a ts.
Proof. intros Hab. destruct ts as [|x ts]; [done|]. intros [? ?]. split; [lia|done]. Qed.

Lemma request_times_ordered w es : ∀ t,
  ordered_from t (event_time <$> es) → ordered_from t (request_times w es).
Proof.
  induction es as [|[now r|now] es IH]; intros t Ho; [done| |];
    destruct Ho as [Ht Ho]; unfold request_times in *; simpl in *.
  - case_decide; simpl; [split; [done|by apply IH]|].
    eapply ordered_weaken; [exact Ht|by apply IH].
  - eapply ordered_weaken; [exact Ht|by apply IH].
Qed.

Lemma request_times_upper w es hi :
  Forall (λ e, event_time e ≤ hi) es → Forall (λ t, t ≤ hi) (request_times w es).
Proof.
  induction 1 as [|[now r|now] es He Hf IH]; [constructor| |];
    unfold request_times in *; simpl in *; [case_decide|]; simpl; auto.
Qed.

(** *** Reachable stores *)

Definition store_ok (s : store) : Prop := ∀ w, entry_ok (s !! w).

Lemma step_ok s e : store_ok s → store_ok (step s e).2.
Proof.
  intros Hs w. destruct e as [now r|now]; simpl.
  - destruct (walletLimiter now r s) as [v s'] eqn:E. simpl.
    destruct (decide (getWalletAddress r = Some w)) as [Hw|Hw].
    + pose proof (walletLimiter_hit now r s w Hw) as [_ H]. rewrite E in H. simpl in H.
      rewrite H. by apply window_step_ok.
    + pose proof (walletLimiter_miss now r s w Hw) as H. rewrite E in H. simpl in H.
      by rewrite H.
  - unfold cleanupExpiredLimits. 
    destruct (filter _ s !! w) as [e|] eqn:E; [|done].
    apply map_lookup_filter_Some in E as [E _]. specialize (Hs w). by rewrite E in Hs.
Qed.

Lemma final_store_ok es : ∀ s, store_ok s → store_ok (final_store s es).
Proof. induction es as [|e es IH]; intros s Hs; [done|]. simpl. by apply IH, step_ok. Qed.

Lemma store_ok_empty : store_ok ∅.
Proof. intros w. by rewrite lookup_empty. Qed.

#[export] Hint Resolve store_ok_empty final_store_ok step_ok : wg.

(** ** Theorems *)

(** C11: the limiter, run on any clock-ordered interleaving of requests of all wallets with
    the cleanup timer, decides the requests of each wallet exactly as a lone fixed-window
    counter fed with the times of that wallet's requests. *)
Theorem wallet_limiter_refines_window w es t :
  ordered_from t (event_time <$> es) →
  decisions w ∅ es = window_run None (request_times w es).
Proof.
  intros Ho. apply (decisions_refine w es ∅ None t); [|done].
  left. apply lookup_empty.
Qed.

(** from any store the middleware can reach, in a period of one minute a wallet passes
    at most 19 requests: nine left in the current window and ten in the next. *)
Theorem wallet_minute_bound w before es t0 :
  ordered_from t0 (event_time <$> es) →
  Forall (λ e, event_time e ≤ t0 + WALLET_WINDOW_MS) es →
  passed (decisions w (final_store ∅ before) es) ≤ 19.
Proof.
  intros Ho Hf.
  assert (store_ok (final_store ∅ before)) as Hok by eauto with wg.
  rewrite (decisions_refine w es _ (final_store ∅ before !! w) t0 (or_introl eq_refl) Ho).
  pose proof (passed_minute _ (final_store ∅ before !! w) t0 t0
    (request_times_ordered w es t0 Ho) ltac:(lia) (request_times_upper w es _ Hf)) as Hp.
  specialize (Hok w). unfold entry_ok in Hok.
  destruct (final_store ∅ before !! w) as [e|]; specialize (Hp Hok);
    unfold WALLET_LIMIT in *; lia.
Qed.

(** The requests of one wallet at the given times, from any address. *)
Definition wallet_req (w : string) (t : Z) : event :=
  Req t (Request [] [("wallet", JStr w)] [] None None).

(** nineteen is reached: one request opens the window, nine more pass at its end and
    ten right after, within two milliseconds. *)
Theorem wallet_minute_bound_attained :
  passed (decisions "G" (final_store ∅ [wallet_req "G" 0])
            (replicate 9 (wallet_req "G" 60000) ++ replicate 12 (wallet_req "G" 60001))) = 19.
Proof. vm_compute. reflexivity. Qed.

(** a request without a wallet is never limited and leaves the store alone. *)
Theorem wallet_limiter_anonymous now r s :
  getWalletAddress r = None → walletLimiter now r s = (Next r [], s).
Proof. intros H. unfold walletLimiter. by rewrite H. Qed.

(** every refusal tells the client to wait between 1 and 60 seconds, and a client that
    waits that long is let through (if nothing else of that wallet ran in between). *)
Theorem wallet_retry_after_sound now w s r later :
  getWalletAddress r = Some w →
  store_ok s →
  (∀ e, s !! w = Some e → resetTime e ≤ now + WALLET_WINDOW_MS) →
  is_next (walletLimiter now r s).1 = false →
  let ra := wallet_retry_after (current_entry now (s !! w)) now in
  1 ≤ ra ≤ 60 ∧
  (now + 1000 * ra < later →
   is_next (walletLimiter later r (walletLimiter now r s).2).1 = true).
Proof.
  intros Hw Hok Hreset Hn ra.
  pose proof (walletLimiter_hit now r s w Hw) as [H1 H2]. rewrite Hn in H1.
  unfold window_step in H1, H2.
  destruct (Z.geb_spec (count (current_entry now (s !! w))) WALLET_LIMIT) as [Hc|]; [|done].
  clear H1. simpl in H2. subst ra.
  assert (∃ e, s !! w = Some e ∧ current_entry now (s !! w) = e ∧ now ≤ resetTime e)
    as (e & He & -> & Hnow).
  { destruct (s !! w) as [e|] eqn:He; simpl in *; [|unfold WALLET_LIMIT in *; lia].
    destruct (Z.gtb_spec now (resetTime e)); [simpl in *; unfold WALLET_LIMIT in *; lia|].
    exists e. split_and!; [done..|lia]. }
  rewrite He in H2. simpl in H2.
  specialize (Hreset e He).
  pose proof (ceil_div_spec (resetTime e - now) 1000 ltac:(lia)) as Hceil.
  unfold wallet_retry_after, WALLET_WINDOW_MS in *. change (60 * 1000 / 1000) with 60.
  destruct (Z.gtb_spec (ceil_div (resetTime e - now) 1000) 0); (split; [lia|]);
    intros Hlater;
    pose proof (walletLimiter_hit later r (walletLimiter now r s).2 w Hw) as [-> _];
    rewrite H2; unfold window_step; simpl;
    (destruct (Z.gtb_spec now (resetTime e)); [lia|]); simpl;
    (destruct (Z.gtb_spec later (resetTime e)); [done|lia]).
Qed.

(** ** Concrete runs *)

Definition sample_run : list event :=
  [wallet_req "G" 0; wallet_req "H" 10; Cleanup 60000; wallet_req "G" 60001; Cleanup 120001;
   wallet_req "G" 120002].

Lemma wallet_limiter_refines_window_witness :
  ordered_from 0 (event_time <$> sample_run) ∧
  decisions "G" ∅ sample_run = window_run None (request_times "G" sample_run).
Proof.
  split; [simpl; lia|].
  apply (wallet_limiter_refines_window "G" sample_run 0). simpl. lia.
Defined.

Lemma wallet_minute_bound_witness :
  passed (decisions "G" (final_store ∅ [wallet_req "G" 0]) (replicate 3 (wallet_req "G" 5))) ≤ 19.
Proof.
  apply (wallet_minute_bound "G" [wallet_req "G" 0] (replicate 3 (wallet_req "G" 5)) 5).
  - simpl. lia.
  - repeat constructor; simpl; unfold WALLET_WINDOW_MS; lia.
Defined.

(** A wallet that used up its window, half a minute before the end of it. *)
Definition full_store : store := {[ "G" := mkEntry 10 60000 ]}.
Definition refused_request : request := Request [] [("wallet", JStr "G")] [] None None.

Lemma wallet_retry_after_sound_witness :
  is_next (walletLimiter 60001 refused_request (walletLimiter 30000 refused_request full_store).2).1
  = true.
Proof.
  apply (wallet_retry_after_sound 30000 "G" full_store refused_request 60001).
  - reflexivity.
  - intros w. unfold full_store. destruct (decide (w = "G")) as [->|Hn].
    + rewrite lookup_singleton_eq. simpl. unfold WALLET_LIMIT. lia.
    + by rewrite lookup_singleton_ne.
  - intros e. vm_compute. intros [= <-]. done.
  - reflexivity.
  - vm_compute. reflexivity.
Defined.
