(* ===== verification/Validation.v ===== *)
(** * Request validation ([src/middleware/validation.ts], [src/schemas/*.ts])

    The schemas are Zod declarations; they are translated as data ([schema]).  Zod itself
    is not part of the repository: [safeParse] is a parameter, and the class [Zod] states
    the documented behaviour the middleware relies on — which inputs a schema accepts and
    the value it returns, unknown keys dropped; the issues of a rejected input are left to
    the library.  [parse] is that documented meaning as an executable function. *)

From Stdlib Require Import String Ascii.
From S2P Require Import Prelude Js Http.

#[local] Open Scope string_scope.
#[local] Open Scope list_scope.
#[local] Open Scope Z_scope.

(** ** Schemas as data *)

(** A refinement of a value with the message it reports. *)
Record check (A : Type) := Check { holds : A → bool; message : string }.
Arguments Check {A} holds message.
Arguments holds {A} c.
Arguments message {A} c.

(** The numbers are [m / 10^k]. *)
Inductive schema :=
  | ZString (cs : list (check string))
  | ZNumber (cs : list (check (Z * nat)))
  | ZEnum (vals : list string)
  | ZOptional (s : schema)
  | ZDefault (s : schema) (d : json)
  | ZArray (s : schema) (cs : list (check nat))
  | ZUnion (a b : schema)
  | ZRefine (s : schema) (c : check json)
  | ZObject (fields : list (string * schema)).

Definition min_len (n : Z) (msg : string) : check string := Check (λ s, n <=? strlen s) msg.
Definition max_len (n : Z) (msg : string) : check string := Check (λ s, strlen s <=? n) msg.
Definition regex (p : string → bool) (msg : string) : check string := Check p msg.
Definition int_check (msg : string) : check (Z * nat) :=
  Check (λ '(m, k), jnum_is_int m k) msg.
Definition positive_check (msg : string) : check (Z * nat) := Check (λ '(m, _), 0 <? m) msg.
Definition min_num (n : Z) (msg : string) : check (Z * nat) :=
  Check (λ '(m, k), n * pow10 k <=? m) msg.
Definition max_num (n : Z) (msg : string) : check (Z * nat) :=
  Check (λ '(m, k), m <=? n * pow10 k) msg.
Definition min_items (n : nat) (msg : string) : check nat := Check (λ l, (n <=? l)%nat) msg.
Definition max_items (n : nat) (msg : string) : check nat := Check (λ l, (l <=? n)%nat) msg.

Definition all_hold {A} (cs : list (check A)) (a : A) : bool := forallb (λ c, holds c a) cs.

(** ** The documented meaning of a schema

    [parse s v] is [Some v'] when [s] accepts [v] and returns [v']; [undefined] is [None]. *)
Fixpoint parse (s : schema) (v : option json) : option (option json) :=
  match s with
  | ZString cs =>
      match v with
      | Some (JStr x) => if all_hold cs x then Some v else None
      | _ => None
      end
  | ZNumber cs =>
      match v with
      | Some (JNum m k) => if all_hold cs (m, k) then Some v else None
      | _ => None
      end
  | ZEnum vals =>
      match v with
      | Some (JStr x) => if existsb (String.eqb x) vals then Some v else None
      | _ => None
      end
  | ZOptional s => match v with None => Some None | _ => parse s v end
  | ZDefault s d => match v with None => parse s (Some d) | _ => parse s v end
  | ZArray s cs =>
      match v with
      | Some (JArr l) =>
          if all_hold cs (length l) then
            l' ← mapM (λ x, r ← parse s (Some x); r) l; Some (Some (JArr l'))
          else None
      | _ => None
      end
  | ZUnion a b => match parse a v with Some r => Some r | None => parse b v end
  | ZRefine s c =>
      r ← parse s v;
      match r with
      | Some x => if holds c x then Some (Some x) else None
      | None => None
      end
  | ZObject fields =>
      match v with
      | Some (JObj o) =>
          let go := fix go (fs : list (string * schema)) : option (list (string * json)) :=
            match fs with
            | [] => Some []
            | (k, s) :: fs' =>
                r ← parse s (assoc k o);
                rest ← go fs';
                Some (match r with Some x => (k, x) :: rest | None => rest end)
            end in
          o' ← go fields; Some (Some (JObj o'))
      | _ => None
      end
  end.

(** An object with a field its schema rejects is rejected. *)
Lemma parse_bad_field fields k sc l : (k, sc) ∈ fields → parse sc (assoc k l) = None →
  parse (ZObject fields) (Some (JObj l)) = None.
Proof.
  intros Hin Hs. cbn [parse].
  match goal with |- (?g fields ≫= _) = None => set (go := g) end.
  enough (go fields = None) as -> by done.
  induction fields as [|[k' sc'] fields IH]; [by apply elem_of_nil in Hin|].
  cbn [go]. apply elem_of_cons in Hin as [He|Hin].
  - simplify_eq. by rewrite Hs.
  - destruct (parse sc' (assoc k' l)) as [r|]; [|done]. cbn. by rewrite IH.
Qed.

(** ** The library *)

Record issue := Issue { path : list string; issue_message : string }.

Inductive parse_result := Success (data : json) | Failure (issues : list issue).

(** What the middleware relies on of [schema.safeParse]. *)
Class Zod := {
  safeParse : schema → option json → parse_result;
  safeParse_success : ∀ s v d, parse s v = Some (Some d) → safeParse s v = Success d;
  safeParse_failure : ∀ s v, parse s v = None → ∃ iss, safeParse s v = Failure iss;
}.

(** A library that behaves as documented, with one issue per rejection. *)
#[export, program] Instance reference_zod : Zod := {|
  safeParse s v := match parse s v with
                   | Some (Some d) => Success d
                   | Some None => Success JNull
                   | None => Failure [Issue [] "Invalid input"]
                   end |}.
Next Obligation. intros s v d H. simpl. by rewrite H. Qed.
Next Obligation. intros s v H. simpl. rewrite H. eauto. Qed.

(** ** The middleware *)

Record FieldError := mkFieldError { field : string; fmessage : string }.

Definition formatZodErrors (error : list issue) : list FieldError :=
  (λ i, mkFieldError (match path i with [] => "_root" | p => join "." p end)
                     (issue_message i)) <$> error.

Definition field_error_json (f : FieldError) : json :=
  obj [("field", Some (JStr (field f))); ("message", Some (JStr (fmessage f)))].

Definition validation_failed (errs : list FieldError) : response :=
  send_json 400 (obj [("error", Some (JStr "validation failed"));
                      ("details", Some (JArr (field_error_json <$> errs)))]).

Section middleware.
Context `{Zod}.

Definition validateBody (s : schema) (r : request) : verdict :=
  match safeParse s (req_body r) with
  | Failure iss => Respond (validation_failed (formatZodErrors iss))
  | Success d => Next (set_body d r) []
  end.

(** [req.query = result.data]. *)
Definition object_fields (d : json) : list (string * json) :=
  match d with JObj l => l | _ => [] end.

Definition validateQuery (s : schema) (r : request) : verdict :=
  match safeParse s (Some (JObj (req_query r))) with
  | Failure iss => Respond (validation_failed (formatZodErrors iss))
  | Success d => Next (set_query (object_fields d) r) []
  end.

Record ValidationSchemas := mkSchemas {
  body_schema : option schema;
  query_schema : option schema;
  params_schema : option schema;
}.

(** One of the three blocks of [validateRequest]: errors are appended, a success replaces
    the validated part of the request. *)
Definition validate_part (s : option schema) (v : request → option json)
    (store : json → request → request) (acc : list FieldError * request)
    : list FieldError * request :=
  match s with
  | None => acc
  | Some s =>
      let '(errs, r) := acc in
      match safeParse s (v r) with
      | Failure iss => (errs ++ formatZodErrors iss, r)
      | Success d => (errs, store d r)
      end
  end.

Definition validateRequest (s : ValidationSchemas) (r : request) : verdict :=
  let acc := validate_part (body_schema s) req_body set_body ([], r) in
  let acc := validate_part (query_schema s) (λ r, Some (JObj (req_query r)))
               (λ d, set_query (object_fields d)) acc in
  let '(errs, r') := validate_part (params_schema s) (λ r, Some (JObj (req_params r)))
                       (λ d, set_params (object_fields d)) acc in
  if (0 <? length errs)%nat then Respond (validation_failed errs) else Next r' [].

End middleware.

(** ** The schemas of [src/schemas] *)

Definition digits_only (s : string) : bool :=
  match lst s with [] => false | l => forallb is_digit l end.

Definition slug (s : string) : bool :=
  match lst s with
  | [] => false
  | l => forallb (λ c, is_upper c || is_lower c || is_digit c ||
                       Ascii.eqb c "_" || Ascii.eqb c "-") l
  end.

(** [schemas/transactions.ts] *)
Definition stellarAddress : schema :=
  ZString [min_len 50 "invalid stellar address"; max_len 56 "invalid stellar address";
           regex matches_G_base32 "invalid stellar address"].
Definition orgId : schema :=
  ZString [min_len 1 "org_id must be a non-empty string";
           max_len 256 "org_id must be at most 256 characters"].
Definition issueId : schema :=
  ZNumber [int_check "issue_id must be a positive integer";
           positive_check "issue_id must be a positive integer"].
Definition sequence_ok (val : string) : bool :=
  match js_BigInt val with Some n => 0 <=? n | None => false end.
Definition sequence : schema :=
  ZString [Check sequence_ok "sequence must be a valid number string"].
Definition applySchema : schema :=
  ZObject [("contributor", stellarAddress); ("org_id", orgId); ("issue_id", issueId);
           ("sequence", sequence)].
Definition withdrawSchema : schema :=
  ZObject [("contributor", stellarAddress); ("org_id", orgId); ("issue_id", issueId);
           ("sequence", sequence)].
Definition assignSchema : schema :=
  ZObject [("maintainer", stellarAddress); ("contributor", stellarAddress);
           ("org_id", orgId); ("issue_id", issueId); ("sequence", sequence)].
Definition completeSchema : schema :=
  ZObject [("maintainer", stellarAddress); ("contributor", stellarAddress);
           ("org_id", orgId); ("issue_id", issueId); ("sequence", sequence)].
Definition revokeSchema : schema :=
  ZObject [("maintainer", stellarAddress); ("contributor", stellarAddress);
           ("org_id", orgId); ("issue_id", issueId); ("sequence", sequence)].
Definition submitSchema : schema :=
  ZObject [("signed_xdr", ZString [min_len 1 "signed_xdr is required and must be a string"])].

(** [schemas/orgs.ts] *)
Definition orgs_stellarAddress : schema :=
  ZString [min_len 50 ""; max_len 56 ""; regex matches_G_base32 "Invalid Stellar address"].
Definition registerOrgSchema : schema :=
  ZObject
    [("github_org", ZString [min_len 1 "github_org is required";
                             max_len 100 "github_org must be ≤ 100 characters"]);
     ("org_id", ZString [min_len 1 "org_id is required";
                         max_len 64 "org_id must be ≤ 64 characters";
                         regex slug "org_id may only contain letters, digits, hyphens, and underscores"]);
     ("maintainers", ZArray orgs_stellarAddress
                       [min_items 1 "At least one maintainer is required";
                        max_items 10 "At most 10 maintainers allowed"]);
     ("org_cap", ZDefault (ZOptional (ZNumber [int_check "org_cap must be an integer";
                                               min_num 1 "org_cap must be at least 1";
                                               max_num 20 "org_cap must be at most 20"]))
                          (jint 4))].
Definition orgApplyBodySchema : schema := ZObject [("contributor", orgs_stellarAddress)].

(** [schemas/issues.ts] *)
Definition status_enum : schema := ZEnum ["open"; "closed"].
Definition createIssueSchema : schema :=
  ZObject [("org_id", ZString [min_len 1 "org_id is required"]);
           ("title", ZString [min_len 1 "title is required"]);
           ("status", ZOptional status_enum)].
Definition updateIssueSchema : schema :=
  ZObject [("title", ZOptional (ZString [min_len 1 ""])); ("status", ZOptional status_enum)].
Definition issueParamsSchema : schema :=
  ZObject [("id", ZString [regex digits_only "id must be a number"])].
Definition issueQuerySchema : schema :=
  ZObject [("org_id", ZOptional (ZString [])); ("status", ZOptional status_enum)].

(** [const num = Number(val); !isNaN(num) && num > 0]. *)
Definition positive_number (v : json) : bool :=
  match v with
  | JStr s => numval_pos (js_Number s)
  | JNum m _ => 0 <? m
  | _ => false
  end.
Definition applyIssueSchema : schema :=
  ZObject
    [("contributor", ZString [min_len 50 "invalid stellar address";
                              max_len 56 "invalid stellar address";
                              regex matches_G_base32 "invalid stellar address"]);
     ("org_id", ZString [min_len 1 "org_id is required"]);
     ("issue_id", ZRefine (ZUnion (ZString [min_len 1 "issue_id is required"])
                                  (ZNumber [int_check ""; positive_check "issue_id must be positive"]))
                          (Check positive_number "issue_id must be a positive number"));
     ("sequence", ZOptional (ZString []))].

(** [schemas/admin.ts] *)
Definition addMaintainerSchema : schema :=
  ZObject [("address", ZString [min_len 1 "address is required"]);
           ("org_id", ZString [min_len 1 "org_id is required"])].
Definition registerMaintainerBodySchema : schema :=
  ZObject [("maintainer_address", ZString [min_len 1 "maintainer_address is required"]);
           ("org_id", ZString [min_len 1 "org_id is required"]);
           ("sequence", ZString [min_len 1 "sequence is required"])].
Definition deregisterMaintainerBodySchema : schema :=
  ZObject [("maintainer_address", ZString [min_len 1 "maintainer_address is required"]);
           ("org_id", ZString [min_len 1 "org_id is required"]);
           ("sequence", ZOptional (ZString []))].

(** Every schema a route validates with. *)
Definition all_schemas : list schema :=
  [applySchema; withdrawSchema; assignSchema; completeSchema; revokeSchema; submitSchema;
   registerOrgSchema; orgApplyBodySchema; createIssueSchema; updateIssueSchema;
   issueParamsSchema; issueQuerySchema; applyIssueSchema; addMaintainerSchema;
   registerMaintainerBodySchema; deregisterMaintainerBodySchema].

(** ** Lemmas *)

Section schema_ind.
Variable P : schema → Prop.
Hypothesis HString : ∀ cs, P (ZString cs).
Hypothesis HNumber : ∀ cs, P (ZNumber cs).
Hypothesis HEnum : ∀ vals, P (ZEnum vals).
Hypothesis HOptional : ∀ s, P s → P (ZOptional s).
Hypothesis HDefault : ∀ s d, P s → P (ZDefault s d).
Hypothesis HArray : ∀ s cs, P s → P (ZArray s cs).
Hypothesis HUnion : ∀ a b, P a → P b → P (ZUnion a b).
Hypothesis HRefine : ∀ s c, P s → P (ZRefine s c).
Hypothesis HObject : ∀ fields, Forall (λ f, P f.2) fields → P (ZObject fields).

Fixpoint schema_induction (s : schema) : P s :=
  match s with
  | ZString cs => HString cs
  | ZNumber cs => HNumber cs
  | ZEnum vals => HEnum vals
  | ZOptional s => HOptional s (schema_induction s)
  | ZDefault s d => HDefault s d (schema_induction s)
  | ZArray s cs => HArray s cs (schema_induction s)
  | ZUnion a b => HUnion a b (schema_induction a) (schema_induction b)
  | ZRefine s c => HRefine s c (schema_induction s)
  | ZObject fields =>
      HObject fields ((fix go (l : list (string * schema)) : Forall (λ f, P f.2) l :=
        match l with
        | [] => Forall_nil_2 _
        | f :: l' => Forall_cons_2 _ f l' (schema_induction f.2) (go l')
        end) fields)
  end.
End schema_ind.

(** The object case of [parse] as a function of its own. *)
Fixpoint parse_fields (o : list (string * json)) (fs : list (string * schema))
    : option (list (string * json)) :=
  match fs with
  | [] => Some []
  | (k, s) :: fs' =>
      r ← parse s (assoc k o);
      rest ← parse_fields o fs';
      Some (match r with Some x => (k, x) :: rest | None => rest end)
  end.

Lemma parse_object fields o :
  parse (ZObject fields) (Some (JObj o)) =
  (o' ← parse_fields o fields; Some (Some (JObj o'))).
Proof.
  simpl. f_equal. induction fields as [|[k s] fs IH]; [done|].
  simpl. destruct (parse s (assoc k o)); [|done]. simpl. by rewrite IH.
Qed.

Lemma parse_array s cs l :
  parse (ZArray s cs) (Some (JArr l)) =
  if all_hold cs (length l) then
    l' ← mapM (λ x, r ← parse s (Some x); r) l; Some (Some (JArr l'))
  else None.
Proof. reflexivity. Qed.

Lemma parse_fields_keys o fs o' :
  parse_fields o fs = Some o' → o'.*1 `sublist_of` fs.*1.
Proof.
  revert o'. induction fs as [|[k s] fs IH]; intros o' H; simpl in *; [by simplify_eq|].
  destruct (parse s (assoc k o)) as [r|]; [|done]. simpl in H.
  destruct (parse_fields o fs) as [rest|]; [|done]. simplify_eq/=.
  destruct r; simpl; [apply sublist_skip|apply sublist_cons]; auto.
Qed.

Lemma assoc_None {A} k (l : list (string * A)) : k ∉ l.*1 → assoc k l = None.
Proof.
  induction l as [|[k' v] l IH]; intros H; [done|]. simpl in *.
  destruct (String.eqb_spec k k'); set_solver.
Qed.

(** What a field of the returned object holds: the value its schema returned. *)
Lemma parse_fields_lookup o fs o' k s :
  NoDup fs.*1 → parse_fields o fs = Some o' → (k, s) ∈ fs →
  parse s (assoc k o) = Some (assoc k o').
Proof.
  revert o'. induction fs as [|[k' s'] fs IH]; intros o' Hnd H Hin; [set_solver|].
  simpl in *. apply NoDup_cons in Hnd as [Hk Hnd].
  destruct (parse s' (assoc k' o)) as [r|] eqn:E; [|done]. simpl in H.
  destruct (parse_fields o fs) as [rest|] eqn:Er; [|done]. simplify_eq/=.
  apply elem_of_cons in Hin as [[= -> ->]|Hin].
  - rewrite E. destruct r as [x|]; simpl; [by rewrite String.eqb_refl|].
    f_equal. rewrite assoc_None; [done|].
    intros Hc. apply Hk. eapply (sublist_subseteq _ _ (parse_fields_keys _ _ _ Er) _ Hc).
  - assert (k ≠ k').
    { intros ->. apply Hk. apply list_elem_of_fmap. by exists (k', s). }
    destruct r as [x|]; simpl; [|by apply IH].
    destruct (String.eqb_spec k k'); [done|by apply IH].
Qed.

(** A schema is stable when the declared field names are distinct; every schema of the
    repository is. *)
Inductive wf : schema → Prop :=
  | wf_string cs : wf (ZString cs)
  | wf_number cs : wf (ZNumber cs)
  | wf_enum vals : wf (ZEnum vals)
  | wf_optional s : wf s → wf (ZOptional s)
  | wf_default s d : wf s → wf (ZDefault s d)
  | wf_array s cs : wf s → wf (ZArray s cs)
  | wf_union_scalar cs ns : wf (ZUnion (ZString cs) (ZNumber ns))
  | wf_refine s c : wf s → wf (ZRefine s c)
  | wf_object fields :
      NoDup fields.*1 → Forall (λ f, wf f.2) fields → wf (ZObject fields).

#[export] Hint Constructors wf : wg.

Definition stable (s : schema) : Prop := ∀ v v', parse s v = Some v' → parse s v' = Some v'.

Lemma parse_fields_stable o fs o' full :
  Forall (λ f, stable f.2) fs →
  parse_fields o fs = Some o' →
  (∀ k s, (k, s) ∈ fs → parse s (assoc k o) = Some (assoc k full)) →
  parse_fields full fs = Some o'.
Proof.
  revert o'. induction fs as [|[k s] fs IH]; intros o' Hst H Hfull; [done|].
  inv Hst. simpl in *.
  pose proof (Hfull k s ltac:(set_solver)) as Hk. rewrite Hk in H. simpl in H.
  destruct (parse_fields o fs) as [rest|] eqn:E; [|done]. simplify_eq/=.
  match goal with Hs : stable s |- _ => rewrite (Hs _ _ Hk) end. simpl.
  rewrite (IH rest); [done..|]. intros. apply Hfull. set_solver.
Qed.

Lemma mapM_stable (s : schema) l l' :
  stable s →
  mapM (λ x, r ← parse s (Some x); r) l = Some l' →
  length l' = length l ∧ mapM (λ x, r ← parse s (Some x); r) l' = Some l'.
Proof.
  intros Hs. revert l'. induction l as [|x l IH]; intros l' H; simpl in H; [by inv H|].
  destruct (parse s (Some x)) as [[y|]|] eqn:E; try done. simpl in H.
  destruct (mapM _ l) as [ys|]; [|done]. inv H. simpl.
  destruct (IH ys eq_refl) as [-> ->]. split; [done|]. by rewrite (Hs _ _ E).
Qed.

(** A defined value is never parsed to [undefined]. *)
Lemma parse_defined s x v' : parse s (Some x) = Some v' → is_Some v'.
Proof.
  induction s as [cs|cs|vals|s IH|s d IH|s cs IH|a b IHa IHb|s c IH|fields IH]
    using schema_induction; simpl; intros H; try (repeat case_match; by simplify_eq);
    try (by apply IH).
  - destruct x; try done. case_match; [|done]. by simplify_option_eq.
  - destruct (parse a (Some x)) eqn:E; [simplify_eq; by apply IHa|by apply IHb].
  - destruct (parse s (Some x)) as [[y|]|]; simpl in *; try done. case_match; by simplify_eq.
  - destruct x; try done. by simplify_option_eq.
Qed.

(** Parsing the value a schema returned returns it unchanged. *)
Lemma parse_stable s : wf s → stable s.
Proof.
  induction s as [cs|cs|vals|s IH|s d IH|s cs IH|a b IHa IHb|s c IH|fields IH]
    using schema_induction; intros Hwf v v' H; inversion Hwf; subst; simpl in H.
  - destruct v as [[]|]; try done. simpl. case_match; simplify_eq. simpl. by case_match.
  - destruct v as [[]|]; try done. simpl. case_match; simplify_eq. simpl. by case_match.
  - destruct v as [[]|]; try done. simpl. case_match; simplify_eq. simpl. by case_match.
  - destruct v as [v|]; [|by simplify_eq].
    destruct v' as [v'|]; [by eapply IH|done].
  - assert (∃ u, parse s (Some u) = Some v') as [u Hu] by (destruct v; eauto).
    destruct (parse_defined _ _ _ Hu) as [x ->]. simpl. by eapply IH.
  - destruct v as [[]|]; try done. case_match; [|done].
    destruct (mapM _ l) as [l'|] eqn:E; [|done]. simpl in H. simplify_eq.
    destruct (mapM_stable s l l' (IH ltac:(done)) E) as [Hlen Hm].
    rewrite parse_array, Hlen, Hm. by case_match.
  - destruct v as [[| |m k|x| |]|]; try done; simpl in H.
    + destruct (all_hold ns (m, k)) eqn:E; simplify_eq. simpl. by rewrite E.
    + destruct (all_hold cs x) eqn:E; simplify_eq. simpl. by rewrite E.
  - destruct (parse s v) as [[x|]|] eqn:E; try done. simpl in *.
    case_match; [|done]. simplify_eq. rewrite (IH ltac:(done) _ _ E). simpl. by case_match.
  - destruct v as [[| | | | |o]|]; try done.
    change (parse (ZObject fields) (Some (JObj o)) = Some v') in H.
    rewrite parse_object in H. destruct (parse_fields o fields) as [o'|] eqn:E; [|done].
    simplify_eq/=. change (parse (ZObject fields) (Some (JObj o')) = Some (Some (JObj o'))).
    rewrite parse_object.
    erewrite parse_fields_stable; [done| |exact E|].
    + rewrite Forall_forall in IH. match goal with Hf : Forall _ fields |- _ =>
        rewrite Forall_forall in Hf; apply Forall_forall; intros f Hin; apply IH; auto end.
    + intros k s Hin. by eapply parse_fields_lookup.
Qed.

Lemma all_schemas_wf : Forall wf all_schemas.
Proof.
  unfold all_schemas. repeat apply Forall_cons_2; [..|apply Forall_nil_2];
    (apply wf_object; [by apply (bool_decide_unpack _); vm_compute|]);
    repeat apply Forall_cons_2; try apply Forall_nil_2; simpl; repeat constructor.
Qed.

Lemma parse_object_inv fields v r :
  parse (ZObject fields) v = Some r →
  ∃ o o', v = Some (JObj o) ∧ r = Some (JObj o') ∧ parse_fields o fields = Some o'.
Proof.
  intros H. destruct v as [[| | | | |o]|]; try done.
  rewrite parse_object in H. destruct (parse_fields o fields) as [o'|] eqn:E; [|done].
  simpl in H. simplify_eq. eauto.
Qed.

Definition is_object_schema (s : schema) : Prop :=
  match s with ZObject _ => True | _ => False end.

Lemma all_schemas_objects : Forall is_object_schema all_schemas.
Proof. repeat constructor. Qed.

Definition declared_keys (s : schema) : list string :=
  match s with ZObject fields => fields.*1 | _ => [] end.

(** ** Theorems *)

Section theorems.
Context `{Zod}.

Lemma validateBody_cases s r :
  s ∈ all_schemas →
  (∃ d, parse s (req_body r) = Some (Some (JObj d)) ∧
        validateBody s r = Next (set_body (JObj d) r) [] ∧
        d.*1 ⊆ declared_keys s) ∨
  (parse s (req_body r) = None ∧
   ∃ errs, validateBody s r = Respond (validation_failed errs)).
Proof.
  intros Hs. pose proof all_schemas_objects as Ho. rewrite Forall_forall in Ho.
  specialize (Ho s Hs). destruct s as [| | | | | | | |fields]; try done. clear Hs Ho.
  unfold validateBody.
  destruct (parse (ZObject fields) (req_body r)) as [v|] eqn:E.
  - left. destruct (parse_object_inv _ _ _ E) as (o & o' & Hb & -> & Hf). exists o'.
    rewrite (safeParse_success _ _ _ E). split_and!; [done..|].
    apply sublist_subseteq. by eapply parse_fields_keys.
  - right. destruct (safeParse_failure _ _ E) as [iss ->]. eauto.
Qed.

(** what [validateBody] does with a schema of the repository: it passes on exactly the
    bodies the schema accepts, the body then holding the returned value, whose properties
    are among the declared ones; any other body is answered 400. *)
Theorem validateBody_spec s r :
  s ∈ all_schemas →
  (∃ d, parse s (req_body r) = Some (Some (JObj d)) ∧
        validateBody s r = Next (set_body (JObj d) r) [] ∧
        d.*1 ⊆ declared_keys s) ∨
  (parse s (req_body r) = None ∧
   ∃ errs, validateBody s r = Respond (validation_failed errs)).
Proof. apply validateBody_cases. Qed.

(** [validateBody] is transparent on its own output: a request it passed on is passed
    on again by the same schema, unchanged. *)
Theorem validateBody_stable s r r' :
  s ∈ all_schemas →
  validateBody s r = Next r' [] → validateBody s r' = Next r' [].
Proof.
  intros Hs Hv. pose proof all_schemas_wf as Hwf. rewrite Forall_forall in Hwf.
  destruct (validateBody_cases s r Hs) as [(d & Hp & Heq & _)|[_ [errs Heq]]];
    rewrite Heq in Hv; simplify_eq.
  unfold validateBody. simpl.
  rewrite (safeParse_success s (Some (JObj d)) (JObj d)); [done|].
  by apply (parse_stable s (Hwf s Hs) _ _ Hp).
Qed.

Lemma validate_part_errors (s : option schema) v store (errs : list FieldError) r errs' r' :
  validate_part s v store (errs, r) = (errs', r') → ∃ more, errs' = errs ++ more.
Proof.
  unfold validate_part. destruct s as [s|]; [|intros [= <- <-]; exists []; by rewrite app_nil_r].
  case_match; intros [= <- <-]; [exists []; by rewrite app_nil_r|eauto].
Qed.

End theorems.

(** ** Concrete bodies *)

Definition submit_body : request :=
  Request [] [] [] (Some (JObj [("signed_xdr", JStr "AAAA"); ("extra", JNull)])) None.

Definition submit_body_stripped : request :=
  set_body (JObj [("signed_xdr", JStr "AAAA")]) submit_body.

Lemma submit_in_all_schemas : submitSchema ∈ all_schemas.
Proof. unfold all_schemas. set_solver. Qed.

Lemma validateBody_spec_witness :
  (∃ d, parse submitSchema (req_body submit_body) = Some (Some (JObj d)) ∧
        validateBody submitSchema submit_body = Next (set_body (JObj d) submit_body) [] ∧
        d.*1 ⊆ declared_keys submitSchema) ∨
  (parse submitSchema (req_body submit_body) = None ∧
   ∃ errs, validateBody submitSchema submit_body = Respond (validation_failed errs)).
Proof. exact (validateBody_spec submitSchema submit_body submit_in_all_schemas). Defined.

Lemma validateBody_stable_witness :
  validateBody submitSchema submit_body = Next submit_body_stripped [] ∧
  validateBody submitSchema submit_body_stripped = Next submit_body_stripped [].
Proof.
  split; [reflexivity|].
  apply (validateBody_stable submitSchema submit_body); [exact submit_in_all_schemas|reflexivity].
Defined.
