(* ===== verification/ApiKeys.v ===== *)
(** * API keys ([src/middleware/api-key-auth.ts], [src/routes/api-keys.ts])

    The authentication middleware and the admin routes that create and revoke keys, over
    one state: the [api_keys] table and a Redis connection.  Redis, SHA-256 and the random
    generator are not part of the repository: the section takes them as parameters. *)

From Stdlib Require Import String Ascii.
From S2P Require Import Prelude Js Http.

#[local] Open Scope string_scope.
#[local] Open Scope list_scope.
#[local] Open Scope Z_scope.

Definition KEY_LIMIT : Z := 120.
Definition IP_LIMIT : Z := 30.
Definition WINDOW_SEC : Z := 60.
Definition DEFAULT_TTL_DAYS : Z := 90.

Record ApiKeyContext := mkContext {
  ctx_id : Z;
  ctx_label : string;
  ctx_scopes : list string;
  ctx_keyHash : string;
}.

(** A row of the [api_keys] table; [key_hash] is UNIQUE. *)
Record ApiKeyRow := mkKeyRow {
  k_id : Z;
  k_hash : string;
  k_label : string;
  k_scopes : option (list string);
  k_expires_at : option Z;
}.

(** The three Redis commands of the limiter.  The answer [None] is a command that did not
    complete within the 300 ms of [withTimeout]. *)
Class Redis (R : Type) := {
  incr : string → R → option Z * R;
  expire : string → Z → R → option Z * R;
  ttl : string → R → option Z * R;
}.

Record auth_state (R : Type) := AuthState {
  api_keys : list ApiKeyRow;
  next_key_id : Z;
  redis : R;
}.
Arguments AuthState {R} api_keys next_key_id redis.
Arguments api_keys {R} a.
Arguments next_key_id {R} a.
Arguments redis {R} a.

(** [value.replace(/^Bearer\s+/i, '')]. *)
Definition strip_bearer (h : string) : string :=
  let l := lst h in
  if String.eqb (toLowerCase (slice_to 6 h)) "bearer" then
    match drop 6 l with
    | c :: _ => if is_ws c then str (drop_ws (drop 6 l)) else h
    | [] => h
    end
  else h.

Definition getIp (r : request) : string :=
  let raw := match header "x-forwarded-for" r with
             | Some fwd => trim (default "" (head (split "," fwd)))
             | None => default "unknown" (remoteAddress r)
             end in
  if startsWith "::ffff:" raw then slice_from 7 raw else raw.

Section ApiKeys.
Context {R : Type} `{Redis R}.
(** [createHash('sha256').update(raw).digest('hex')]. *)
Variable sha256_hex : string → string.
(** [process.env['ADMIN_TOKEN']]. *)
Variable ADMIN_TOKEN : option string.

Notation state := (auth_state R).

Definition hashKey (raw : string) : string := sha256_hex raw.

(** [withTimeout(redis.command(...))]: [null] on a timeout, throws when Redis fails. *)
Definition redis_command (f : R → option Z * R) : M state (option Z) :=
  call (λ s, let '(a, r) := f (redis s) in
             (Ret a, AuthState (api_keys s) (next_key_id s) r)).

Definition lookupApiKey (raw : string) : M state (option ApiKeyRow) :=
  call (λ s, (Ret (list_find (λ k, k_hash k = hashKey raw) (api_keys s) ≫= λ p, Some p.2), s)).

(** [true] is the left injection, with the informational headers; [false] is the 429
    response already sent. *)
Definition checkRedisLimit (identifier : string) (limit : Z)
    : M state (list (string * string) + response) :=
  let key := "rl:" +:+ identifier in
  count ← redis_command (incr key);
  match count with
  | None => mret (inl [])
  | Some count =>
      _ ← (if count =? 1
           then try_catch (redis_command (expire key WINDOW_SEC)) (λ _, mret None)
           else mret None);
      if count >? limit then
        ttlRaw ← redis_command (ttl key);
        let ttl := default WINDOW_SEC ttlRaw in
        let retryAfter := if ttl >? 0 then ttl else WINDOW_SEC in
        mret (inr (with_headers [("Retry-After", pretty retryAfter);
                                 ("X-RateLimit-Limit", pretty limit);
                                 ("X-RateLimit-Remaining", "0")]
                (send_json 429 (obj [("error", Some (JStr "rate limit exceeded"));
                                     ("retryAfter", Some (jint retryAfter))]))))
      else
        mret (inl [("X-RateLimit-Limit", pretty limit);
                   ("X-RateLimit-Remaining", pretty (Z.max 0 (limit - count)))])
  end.

Definition invalid_key : response := error_response 401 "invalid api key".
Definition expired_key : response :=
  send_json 401 (obj [("error", Some (JStr "invalid api key"));
                      ("code", Some (JStr "key_expired"))]).

(** [apiKeyAuth] at time [now]: the verdict and the context attached to the request. *)
Definition apiKeyAuth (now : Z) (r : request) : M state (verdict * option ApiKeyContext) :=
  match strip_bearer <$> header "authorization" r with
  | Some raw =>
      if decide (Some raw = ADMIN_TOKEN) then mret (Next r [], None)
      else
        try_catch
          (row ← lookupApiKey raw;
           match row with
           | None => mret (Respond invalid_key, None)
           | Some row =>
               if match k_expires_at row with Some e => e <? now | None => false end then
                 mret (Respond expired_key, None)
               else
                 let ctx := mkContext (k_id row) (k_label row)
                              (default [] (k_scopes row)) (hashKey raw) in
                 allowed ← checkRedisLimit ("key:" +:+ hashKey raw) KEY_LIMIT;
                 match allowed with
                 | inr res => mret (Respond res, Some ctx)
                 | inl hs => mret (Next r hs, Some ctx)
                 end
           end)
          (λ _, mret (Respond invalid_key, None))
  | None =>
      try_catch
        (allowed ← checkRedisLimit ("ip:" +:+ getIp r) IP_LIMIT;
         match allowed with
         | inr res => mret (Respond res, None)
         | inl hs => mret (Next r hs, None)
         end)
        (λ _, mret (Next r [], None))
  end.

(** ** Admin routes *)

Definition requireAdmin (r : request) : bool :=
  match strip_bearer <$> header "authorization" r with
  | Some token => negb (String.eqb token "") && bool_decide (Some token = ADMIN_TOKEN)
  | None => false
  end.

Definition unauthorized : response := error_response 401 "unauthorized".

(** [INSERT INTO api_keys ... RETURNING id]: a duplicate hash violates the UNIQUE
    constraint; the serial id is consumed either way. *)
Definition insert_key (h label : string) (scopes : option (list string)) (exp : option Z)
    : M state Z :=
  call (λ s,
    let id := next_key_id s in
    if existsb (λ k, String.eqb (k_hash k) h) (api_keys s) then
      (Throw (Error "duplicate key value violates unique constraint"),
       AuthState (api_keys s) (id + 1) (redis s))
    else
      (Ret id, AuthState (api_keys s ++ [mkKeyRow id h label scopes exp]) (id + 1) (redis s))).

(** The number of days of a [ttl_days] property: a positive number (whole days, as
    [setDate] truncates), the default otherwise. *)
Definition ttl_days (body : option json) : Z :=
  match body ≫= prop "ttl_days" with
  | Some (JNum m k) => if 0 <? m then m / pow10 k else DEFAULT_TTL_DAYS
  | _ => DEFAULT_TTL_DAYS
  end.

Definition scope_array (body : option json) : list string :=
  match (body ≫= prop "scopes") ≫= as_array with
  | Some l => js_String <$> l
  | None => []
  end.

(** [POST /api/api-keys]; [key] is [randomBytes(32).toString('hex')]. *)
Definition create_key (now : Z) (key : string) (r : request) : M state response :=
  if negb (requireAdmin r) then mret unauthorized
  else match body_prop "label" r with
  | Some l =>
      if truthy l then
        let label := js_String l in
        let keyHash := hashKey key in
        let expiresAt := now + ttl_days (req_body r) * 86400000 in
        try_catch
          (id ← try_catch
                  (insert_key keyHash label (Some (scope_array (req_body r))) (Some expiresAt))
                  (λ _, insert_key keyHash label (Some []) None);
           mret (send_json 201 (obj [("key", Some (JStr key)); ("id", Some (jint id));
                                     ("expires_at", Some (JStr (toISOString expiresAt)))])))
          (λ e, mret (error_response 500 (error_message "internal error" e)))
      else mret (error_response 400 "label required")
  | None => mret (error_response 400 "label required")
  end.

(** [DELETE FROM api_keys WHERE id = $1 RETURNING id, label]. *)
Definition delete_key_rows (id : Z) : M state (list ApiKeyRow) :=
  call (λ s, (Ret (filter (λ k, k_id k = id) (api_keys s)),
              AuthState (filter (λ k, k_id k ≠ id) (api_keys s)) (next_key_id s) (redis s))).

(** [DELETE /api/api-keys/:id]. *)
Definition revoke_key (r : request) : M state response :=
  if negb (requireAdmin r) then mret unauthorized
  else match parseInt (param "id" r) with
  | NaN => mret (error_response 400 "invalid id")
  | Fin id =>
      try_catch
        (rows ← delete_key_rows id;
         match rows with
         | [] => mret (error_response 404 "key not found")
         | _ => mret (send_empty 204)
         end)
        (λ e, mret (error_response 500 (error_message "internal error" e)))
  end.

(** ** Lemmas *)

(** The limiter never touches the table. *)
Lemma checkRedisLimit_keys id limit w o w' :
  checkRedisLimit id limit w = (o, w') → api_keys (st w') = api_keys (st w).
Proof.
  intros Hc. eapply (keeps_bind (λ s, api_keys s = api_keys (st w))); [..|exact Hc|done].
  - apply keeps_call. intros s Hs. by destruct (incr _ _).
  - intros [count|]; [|apply keeps_ret].
    apply keeps_bind.
    + case_match; [|apply keeps_ret]. apply keeps_try; [|intros; apply keeps_ret].
      apply keeps_call. intros s Hs. by destruct (expire _ _ _).
    + intros _. case_match; [|apply keeps_ret].
      apply keeps_bind; [|intros; apply keeps_ret].
      apply keeps_call. intros s Hs. by destruct (ttl _ _).
Qed.

Lemma lookupApiKey_result raw w o w' :
  lookupApiKey raw w = (o, w') →
  api_keys (st w') = api_keys (st w) ∧
  match o with
  | Ret (Some row) => row ∈ api_keys (st w) ∧ k_hash row = hashKey raw
  | Ret None => Forall (λ k, k_hash k ≠ hashKey raw) (api_keys (st w))
  | Throw _ => True
  end.
Proof.
  unfold lookupApiKey, call.
  destruct w as [s [|[|e|e] fs]]; simpl; intros [= <- <-]; simpl; (split; [done|]); try done;
    (destruct (list_find (λ k, k_hash k = hashKey raw) (api_keys s)) as [[i row]|] eqn:E; simpl;
     [apply list_find_Some in E as (? & ? & _); split; [by eapply list_elem_of_lookup_2|done]
     |by apply list_find_None in E]).
Qed.

(** *** The table invariant: ids and hashes are unique, ids come from the sequence *)
Definition keys_ok (s : state) : Prop :=
  NoDup (k_hash <$> api_keys s) ∧ NoDup (k_id <$> api_keys s) ∧
  Forall (λ k, k_id k < next_key_id s) (api_keys s).

Lemma existsb_hash h (ks : list ApiKeyRow) :
  existsb (λ k, String.eqb (k_hash k) h) ks = false → h ∉ k_hash <$> ks.
Proof.
  intros He Hin. apply list_elem_of_fmap in Hin as (k & -> & Hk).
  apply not_true_iff_false in He. apply He, existsb_exists. exists k.
  split; [by apply list_elem_of_In|apply String.eqb_refl].
Qed.

Lemma insert_key_ok h label scopes exp : keeps keys_ok (insert_key h label scopes exp).
Proof.
  apply keeps_call. intros s (Hh & Hi & Hn).
  destruct (existsb _ _) eqn:E; simpl; split_and!; simpl; try done.
  - eapply Forall_impl; [exact Hn|]. simpl. lia.
  - rewrite fmap_app. apply NoDup_app. split_and!; [done| |by apply NoDup_singleton].
    apply existsb_hash in E. set_solver.
  - rewrite fmap_app. apply NoDup_app. split_and!; [done| |by apply NoDup_singleton].
    intros x Hx [= ->]%list_elem_of_singleton.
    apply list_elem_of_fmap in Hx as (k & Hk & Hin). rewrite Forall_forall in Hn.
    specialize (Hn k Hin). simpl in Hn. lia.
  - apply Forall_app. split; [|by repeat constructor; simpl; lia].
    eapply Forall_impl; [exact Hn|]. simpl. lia.
Qed.

Lemma delete_key_rows_ok id : keeps keys_ok (delete_key_rows id).
Proof.
  apply keeps_call. intros s (Hh & Hi & Hn). simpl. 
  assert (filter (λ k, k_id k ≠ id) (api_keys s) `sublist_of` api_keys s) as Hs
    by apply sublist_filter.
  split_and!; simpl.
  - eapply sublist_NoDup; [exact Hh|]. by apply fmap_sublist.
  - eapply sublist_NoDup; [exact Hi|]. by apply fmap_sublist.
  - rewrite Forall_forall in Hn |- *. intros k Hk. apply Hn. by eapply sublist_subseteq.
Qed.

#[local] Hint Resolve insert_key_ok delete_key_rows_ok : wg.

(** A token whose hash is not in the table is refused, whatever else fails. *)
Lemma apiKeyAuth_unknown now r w raw o w' :
  strip_bearer <$> header "authorization" r = Some raw →
  ADMIN_TOKEN ≠ Some raw →
  Forall (λ k, k_hash k ≠ hashKey raw) (api_keys (st w)) →
  apiKeyAuth now r w = (o, w') → o = Ret (Respond invalid_key, None).
Proof.
  intros Hraw Hadm Hno. unfold apiKeyAuth. rewrite Hraw.
  case_decide; [done|]. unfold try_catch.
  destruct ((lookupApiKey raw ≫= _) w) as [[p|e] w1] eqn:E; [|by unfold_m; naive_solver].
  intros [= <- <-]. apply bind_Ret in E as ([row|] & w2 & Hl & E); [|by unfold_m; simplify_eq].
  destruct (lookupApiKey_result _ _ _ _ Hl) as (_ & Hin & Hh).
  rewrite Forall_forall in Hno. by destruct (Hno row Hin).
Qed.

(** ** Theorems *)

(** creating and revoking keys, under any faults, keeps the hashes and the ids of the
    table unique and the ids below the sequence. *)
Theorem api_key_routes_invariant now key r :
  keeps keys_ok (create_key now key r) ∧ keeps keys_ok (revoke_key r).
Proof.
  split.
  - unfold create_key. repeat keeps_step.
  - unfold revoke_key. repeat keeps_step.
Qed.

(** revocation is effective: once the row of a token has been deleted with a 204, the
    token is refused at any later time, whatever the faults. *)
Theorem revoked_key_refused r w w1 raw row :
  keys_ok (st w) →
  row ∈ api_keys (st w) → k_hash row = hashKey raw →
  parseInt (param "id" r) = Fin (k_id row) →
  revoke_key r w = (Ret (send_empty 204), w1) →
  ADMIN_TOKEN ≠ Some raw →
  ∀ later r' faults o w2,
    strip_bearer <$> header "authorization" r' = Some raw →
    apiKeyAuth later r' (World (st w1) faults) = (o, w2) →
    o = Ret (Respond invalid_key, None).
Proof.
  intros (Hh & Hi & _) Hin Hhash Hid Hrev Hadm later r' faults o w2 Hraw Ha.
  unfold revoke_key in Hrev. destruct (requireAdmin r); [|by unfold_m; simplify_eq].
  simpl in Hrev. rewrite Hid in Hrev. unfold try_catch in Hrev.
  destruct ((delete_key_rows (k_id row) ≫= _) w) as [[p|e] w3] eqn:E;
    [|by unfold_m; simplify_eq].
  simplify_eq. apply bind_Ret in E as (rows & w4 & Hd & E).
  assert (st w4 = st w1) as Hst by (destruct rows; unfold_m; by simplify_eq).
  eapply apiKeyAuth_unknown; [exact Hraw|done| |exact Ha]. simpl. rewrite <- Hst.
  assert (api_keys (st w4) = filter (λ k, k_id k ≠ k_id row) (api_keys (st w))) as ->.
  { unfold delete_key_rows, call in Hd.
    destruct w as [s [|[|?|?] fs]]; simpl in *; by simplify_eq. }
  apply Forall_forall. intros k [Hk Hkin]%list_elem_of_filter Heq. apply Hk.
  f_equal. eapply (NoDup_fmap_inj k_hash); eauto. congruence.
Qed.

(** a transient failure of the first INSERT makes the fallback store the key with no
    expiry, although the answer promises one. *)
Theorem create_key_fallback_never_expires now key r s e l :
  requireAdmin r = true → body_prop "label" r = Some l → truthy l = true →
  hashKey key ∉ k_hash <$> api_keys s →
  ∃ body w', create_key now key r (World s [FailBefore e]) = (Ret (send_json 201 body), w') ∧
    prop "expires_at" body = Some (JStr (toISOString (now + ttl_days (req_body r) * 86400000))) ∧
    ∃ row, row ∈ api_keys (st w') ∧ k_hash row = hashKey key ∧ k_expires_at row = None.
Proof.
  intros Hadm Hl Ht Hh. unfold create_key. rewrite Hadm, Hl, Ht. simpl.
  assert (existsb (λ k, String.eqb (k_hash k) (hashKey key)) (api_keys s) = false) as Hx.
  { apply not_true_iff_false. intros (k & Hk & Heq)%existsb_exists.
    apply String.eqb_eq in Heq. apply Hh, list_elem_of_fmap. exists k.
    split; [done|by apply list_elem_of_In]. }
  unfold_m. unfold insert_key, call. simpl. rewrite Hx. simpl.
  eexists _, _. split_and!; [reflexivity|done|].
  eexists. split_and!; [apply elem_of_app; right; by apply list_elem_of_singleton|done..].
Qed.

(** C10: a presented token opens the door only if it is the admin token or the hash of it is
    in the table with an expiry that has not passed, and the attached context is that
    row's; this holds whatever fails in the database or in Redis. *)
Theorem apiKeyAuth_token_safe now r w v ctx w' raw :
  apiKeyAuth now r w = (Ret (v, ctx), w') →
  strip_bearer <$> header "authorization" r = Some raw →
  is_next v = true →
  ADMIN_TOKEN = Some raw ∨
  ∃ row, row ∈ api_keys (st w) ∧ k_hash row = hashKey raw ∧
         (∀ e, k_expires_at row = Some e → now ≤ e) ∧
         ctx = Some (mkContext (k_id row) (k_label row) (default [] (k_scopes row))
                      (hashKey raw)).
Proof.
  unfold apiKeyAuth. intros Ha Hraw Hv. rewrite Hraw in Ha.
  case_decide as Hadm; [by left|]. right.
  unfold try_catch in Ha.
  destruct ((lookupApiKey raw ≫= _) w) as [[[v1 c1]|e] w1] eqn:E; [|by unfold_m; simplify_eq].
  simplify_eq. apply bind_Ret in E as ([row|] & w2 & Hl & E); [|by unfold_m; simplify_eq].
  destruct (lookupApiKey_result _ _ _ _ Hl) as (_ & Hin & Hh).
  destruct (match k_expires_at row with Some e => e <? now | None => false end) eqn:Hexp;
    [by unfold_m; simplify_eq|].
  apply bind_Ret in E as ([hs|res] & w3 & Hc & E); unfold_m; simplify_eq.
  exists row. split_and!; [done..| |done].
  intros e He. rewrite He in Hexp. lia.
Qed.

(** any request that presents no token passes or is answered 429; it is never
    rejected because Redis is down. *)
Theorem apiKeyAuth_anonymous now r w :
  header "authorization" r = None →
  ∃ v w', apiKeyAuth now r w = (Ret (v, None), w') ∧
          match v with Respond res => status res = 429 | Next r' _ => r' = r end.
Proof.
  intros Hh. unfold apiKeyAuth. rewrite Hh. simpl. unfold try_catch.
  destruct ((checkRedisLimit _ IP_LIMIT ≫= _) w) as [[[v c]|e] w1] eqn:E.
  - exists v, w1. apply bind_Ret in E as ([hs|res] & w2 & Hc & E); unfold_m; simplify_eq;
      (split; [done|]); [done|].
    unfold checkRedisLimit in Hc.
    apply bind_Ret in Hc as ([count|] & w3 & _ & Hc); [|by unfold_m; simplify_eq].
    apply bind_Ret in Hc as (u & w4 & _ & Hc).
    destruct (count >? IP_LIMIT); [|by unfold_m; simplify_eq].
    apply bind_Ret in Hc as (t & w5 & _ & Hc). by unfold_m; simplify_eq.
  - eexists _, _. split; [reflexivity|done].
Qed.

End ApiKeys.

(** ** Concrete runs: counters that never expire, a hash that is the identity *)

Definition counter_redis : Redis (gmap string Z) := {|
  incr k r := let n := default 0 (r !! k) + 1 in (Some n, <[k := n]> r);
  expire _ _ r := (Some 1, r);
  ttl _ r := (Some 60, r);
|}.

Definition demo_hash (s : string) : string := s.
Definition demo_admin : option string := Some "root".
Definition demo_row : ApiKeyRow := mkKeyRow 1 "tok" "ci" (Some ["read"]) (Some 1000).
Definition demo_keys : auth_state (gmap string Z) := AuthState [demo_row] 2 ∅.
Definition bearer (t : string) : request :=
  Request [("authorization", "Bearer " +:+ t)] [] [("id", JStr "1")] None None.
Definition label_request : request :=
  Request [("authorization", "Bearer root")] [] []
    (Some (JObj [("label", JStr "ci"); ("ttl_days", JNum 7 0)])) None.

Lemma revoked_key_refused_witness :
  let w1 := (@revoke_key _ demo_admin (set_params [("id", JStr "1")] (bearer "root"))
               (World demo_keys [])).2 in
  @apiKeyAuth _ counter_redis demo_hash demo_admin 500 (bearer "tok") (World (st w1) []) =
  (Ret (Respond invalid_key, None), World (st w1) []).
Proof.
  intros w1.
  destruct (@apiKeyAuth _ counter_redis demo_hash demo_admin 500 (bearer "tok")
              (World (st w1) [])) as [o w2] eqn:E.
  assert (w2 = World (st w1) []) as -> by (vm_compute in E; by simplify_eq).
  rewrite (@revoked_key_refused _ counter_redis demo_hash demo_admin
    (set_params [("id", JStr "1")] (bearer "root")) (World demo_keys []) w1 "tok" demo_row)
    with (later := 500) (r' := bearer "tok") (faults := []) (o := o)
         (w2 := World (st w1) []); try done.
  - split_and!; repeat constructor; set_solver.
  - simpl. set_solver.
Defined.

Lemma create_key_fallback_never_expires_witness :
  ∃ body w', @create_key _ demo_hash demo_admin 0 "k9" label_request
               (World demo_keys [FailBefore (Error "timeout")]) = (Ret (send_json 201 body), w') ∧
    prop "expires_at" body =
      Some (JStr (toISOString (0 + ttl_days (req_body label_request) * 86400000))) ∧
    ∃ row, row ∈ api_keys (st w') ∧ k_hash row = demo_hash "k9" ∧ k_expires_at row = None.
Proof.
  apply (create_key_fallback_never_expires demo_hash demo_admin 0 "k9" label_request demo_keys
           (Error "timeout") (JStr "ci")); try reflexivity.
  vm_compute. set_solver.
Defined.

Lemma apiKeyAuth_token_safe_witness :
  Some "root" = Some "tok" ∨
  ∃ row, row ∈ api_keys demo_keys ∧ k_hash row = demo_hash "tok" ∧
         (∀ e, k_expires_at row = Some e → 500 ≤ e) ∧
         Some (mkContext 1 "ci" ["read"] "tok") =
         Some (mkContext (k_id row) (k_label row) (default [] (k_scopes row)) (demo_hash "tok")).
Proof.
  refine (@apiKeyAuth_token_safe _ counter_redis demo_hash demo_admin 500 (bearer "tok")
    (World demo_keys []) (Next (bearer "tok") [("X-RateLimit-Limit", "120");
       ("X-RateLimit-Remaining", "119")]) _
    (@apiKeyAuth _ counter_redis demo_hash demo_admin 500 (bearer "tok") (World demo_keys [])).2
    "tok" _ _ _); vm_compute; reflexivity.
Defined.

Lemma apiKeyAuth_anonymous_witness :
  ∃ v w', @apiKeyAuth _ counter_redis demo_hash demo_admin 500 (Request [] [] [] None None)
            (World demo_keys []) = (Ret (v, None), w') ∧
    match v with
    | Respond res => status res = 429
    | Next r' _ => r' = Request [] [] [] None None
    end.
Proof.
  exact (@apiKeyAuth_anonymous _ counter_redis demo_hash demo_admin 500
    (Request [] [] [] None None) (World demo_keys []) eq_refl).
Defined.
