(* ===== verification/Decimal.v ===== *)
(** * Decimal numerals

    What printing a number produces and what the digit readers of [Js] make of it; shared
    by the fee conversion, the cache keys and the paging cursors. *)

From Stdlib Require Import String Ascii.
From S2P Require Import Prelude Js.

#[local] Open Scope string_scope.
#[local] Open Scope list_scope.
#[local] Open Scope Z_scope.

(** The value of a list of digits after [acc]. *)
Definition dval (acc : Z) (ds : list ascii) : Z :=
  foldl (λ a c, 10 * a + digit_val c) acc ds.

Definition digits (ds : list ascii) : Prop := Forall (λ c, is_digit c = true) ds.

Lemma dval_app acc ds es : dval acc (ds ++ es) = dval (dval acc ds) es.
Proof. unfold dval. by rewrite foldl_app. Qed.

Lemma dval_acc acc ds : dval acc ds = acc * 10 ^ Z.of_nat (length ds) + dval 0 ds.
Proof.
  revert acc. induction ds as [|c ds IH]; intros acc; simpl; [unfold dval; simpl; lia|].
  change (dval (10 * acc + digit_val c) ds =
          acc * 10 ^ Z.of_nat (S (length ds)) + dval (10 * 0 + digit_val c) ds).
  rewrite (IH (10 * acc + digit_val c)), (IH (10 * 0 + digit_val c)).
  rewrite Nat2Z.inj_succ, Z.pow_succ_r by lia. lia.
Qed.

Lemma dval_zeros acc k : dval acc (replicate k "0"%char) = acc * 10 ^ Z.of_nat k.
Proof.
  rewrite dval_acc, length_replicate.
  assert (∀ a, dval (10 * a) (replicate k "0"%char) = 10 * dval a (replicate k "0"%char) ∧
               dval 0 (replicate k "0"%char) = 0) as H; [|by destruct (H 0) as [_ ->]; lia].
  induction k as [|k IH]; intros a; [done|]. simpl. unfold dval in *. simpl.
  change (digit_val "0") with 0. rewrite !Z.add_0_r. destruct (IH (10 * a)) as [H1 _].
  split; [apply H1|apply (IH 0)].
Qed.

Lemma digit_bounds c : is_digit c = true → 0 ≤ digit_val c ≤ 9.
Proof. unfold is_digit, in_range, digit_val. change (code "0") with 48. change (code "9") with 57. lia. Qed.

Lemma dval_bound ds : digits ds → 0 ≤ dval 0 ds < 10 ^ Z.of_nat (length ds).
Proof.
  induction ds as [|c ds IH]; intros Hd; [unfold dval; simpl; lia|].
  inv Hd. specialize (IH ltac:(done)). pose proof (digit_bounds c ltac:(done)).
  change (dval 0 (c :: ds)) with (dval (10 * 0 + digit_val c) ds). rewrite dval_acc.
  simpl length. rewrite Nat2Z.inj_succ, Z.pow_succ_r by lia. nia.
Qed.

Lemma pretty_char_digit d :
  (d < 10)%N → is_digit (pretty_N_char d) = true ∧ digit_val (pretty_N_char d) = Z.of_N d.
Proof.
  intros Hd.
  assert (d = 0 ∨ d = 1 ∨ d = 2 ∨ d = 3 ∨ d = 4 ∨ d = 5 ∨ d = 6 ∨ d = 7 ∨ d = 8 ∨ d = 9)%N
    as Hc by lia.
  by repeat destruct Hc as [->|Hc]; [..|subst].
Qed.

Lemma pretty_N_go_digits x : ∀ s, ∃ ds,
  lst (pretty_N_go x s) = ds ++ lst s ∧ digits ds ∧ dval 0 ds = Z.of_N x ∧
  ∀ n : nat, Z.of_N x < 10 ^ Z.of_nat n → (length ds ≤ n)%nat.
Proof.
  induction (N.lt_wf_0 x) as [x _ IH]. intros s.
  destruct (decide (x = 0)%N) as [->|Hx].
  { exists []. rewrite pretty_N_go_0. split_and!; [done|constructor|done|simpl; lia]. }
  rewrite pretty_N_go_step by lia.
  assert (x `div` 10 < x)%N as Hlt by (apply N.div_lt; lia).
  destruct (IH _ Hlt (String (pretty_N_char (x `mod` 10)) s)) as (ds & Hs & Hd & Hv & Hn).
  destruct (pretty_char_digit (x `mod` 10)) as [Hc Hcv]; [by apply N.mod_lt|].
  exists (ds ++ [pretty_N_char (x `mod` 10)]).
  pose proof (N.div_mod x 10 ltac:(done)) as Hdm.
  split_and!.
  - rewrite Hs, <- app_assoc. done.
  - apply Forall_app. split; [done|by repeat constructor].
  - rewrite dval_app, Hv. unfold dval. simpl. rewrite Hcv. lia.
  - intros n Hlen. rewrite length_app. simpl. destruct n as [|n].
    + change (10 ^ Z.of_nat 0) with 1 in Hlen. lia.
    + rewrite Nat2Z.inj_succ, Z.pow_succ_r in Hlen by lia.
      assert (Z.of_N (x `div` 10) < 10 ^ Z.of_nat n) as Hq
        by (rewrite N2Z.inj_div; apply Z.div_lt_upper_bound; lia).
      specialize (Hn n Hq). lia.
Qed.

(** [String(n)] for a natural number: a non-empty list of digits whose value is [n], with
    no more digits than needed. *)
Lemma pretty_digits n :
  0 ≤ n → digits (lst (pretty n)) ∧ dval 0 (lst (pretty n)) = n ∧ lst (pretty n) ≠ [] ∧
  ∀ k : nat, (0 < k)%nat → n < 10 ^ Z.of_nat k → (length (lst (pretty n)) ≤ k)%nat.
Proof.
  intros Hn. destruct n as [|p|p]; [|clear Hn|lia].
  { split_and!; [by repeat constructor|done|done|]. simpl. lia. }
  change (pretty (Z.pos p)) with (pretty_N_go (N.pos p) "").
  destruct (pretty_N_go_digits (N.pos p) "") as (ds & Hs & Hd & Hv & Hlen).
  rewrite app_nil_r in Hs. rewrite Hs. split_and!; [done|by rewrite Hv| |].
  - intros ->. done.
  - intros k _ Hk. by apply Hlen.
Qed.

Lemma digits_value_all acc ds : digits ds → digits_value acc ds = dval acc ds.
Proof.
  revert acc. induction ds as [|c ds IH]; intros acc Hd; [done|]. inv Hd. simpl.
  match goal with H : is_digit c = true |- _ => rewrite H end. by apply IH.
Qed.

Lemma span_digits_all ds : digits ds → span_digits ds = (ds, []).
Proof.
  induction 1 as [|c ds Hc Hd IH]; [done|]. simpl. by rewrite Hc, IH.
Qed.

Lemma digit_not_ws c : is_digit c = true → is_ws c = false.
Proof.
  unfold is_digit, in_range, is_ws. change (code "0") with 48. change (code "9") with 57. lia.
Qed.

(** Reading back a printed natural number. *)
Lemma parseInt_pretty n : 0 ≤ n → parseInt (pretty n) = Fin n.
Proof.
  intros Hn. destruct (pretty_digits n Hn) as (Hd & Hv & Hne & _).
  unfold parseInt, parseInt_list. destruct (lst (pretty n)) as [|c l] eqn:E; [done|].
  assert (is_digit c = true) as Hc by (by inv Hd).
  simpl. rewrite (digit_not_ws c Hc).
  assert (digits_value 0 (c :: l) = n) as Hval by (by rewrite digits_value_all).
  destruct c as [[] [] [] [] [] [] [] []]; try done; simpl in *; by rewrite Hval.
Qed.
