(* ===== verification/Paging.v ===== *)
(** * Pages

    What the paginated routes share: a number read from the query string, its printed and
    its JSON form, and the rows of one page.  [windows_cover] is why [LIMIT]/[OFFSET] and
    [slice] pagination is correct. *)

From Stdlib Require Import String Ascii.
From S2P Require Import Prelude Js Http Decimal.

#[local] Open Scope string_scope.
#[local] Open Scope list_scope.
#[local] Open Scope Z_scope.

(** [parseInt(String(req.query[k] ?? dflt), 10)]. *)
Definition query_int (k dflt : string) (r : request) : jsnum :=
  parseInt (match query k r with
            | None | Some JNull => dflt
            | Some v => js_String v
            end).

(** [String(n)] and the JSON form of a number; [NaN] is serialised as [null]. *)
Definition show_num (n : jsnum) : string :=
  match n with NaN => "NaN" | Fin z => pretty z end.
Definition num_json (n : jsnum) : json :=
  match n with NaN => JNull | Fin z => jint z end.

(** The rows of page [page], counted from 1, of [limit] rows each. *)
Definition window {A} (page limit : Z) (l : list A) : list A :=
  take (Z.to_nat limit) (drop (Z.to_nat ((page - 1) * limit)) l).

(** The number of pages. *)
Definition page_count (total limit : Z) : nat := Z.to_nat (ceil_div total limit).

(** ** Lemmas *)

Lemma take_drop_more {A} (l : list A) a b :
  take a l ++ take b (drop a l) = take (a + b) l.
Proof. by rewrite take_take_drop. Qed.

(** The first [n] pages are the first [n * limit] rows. *)
Lemma windows_take {A} (l : list A) limit n : 0 ≤ limit →
  concat ((λ i, window (Z.of_nat i + 1) limit l) <$> seq 0 n) = take (n * Z.to_nat limit) l.
Proof.
  intros Hl. induction n as [|n IH]; [done|].
  rewrite seq_S, fmap_app, concat_app, IH. cbn [fmap list_fmap concat].
  rewrite app_nil_r. unfold window.
  replace (Z.to_nat ((Z.of_nat (0 + n) + 1 - 1) * limit)) with (n * Z.to_nat limit)%nat by lia.
  rewrite take_drop_more. f_equal. lia.
Qed.

(** All pages together are all rows, in order, each once. *)
Lemma windows_cover {A} (l : list A) limit : 0 < limit →
  concat ((λ i, window (Z.of_nat i + 1) limit l) <$>
            seq 0 (page_count (Z.of_nat (length l)) limit)) = l.
Proof.
  intros Hl. rewrite windows_take by lia. apply take_ge. unfold page_count.
  pose proof (ceil_div_spec (Z.of_nat (length l)) limit Hl). nia.
Qed.

Lemma window_slice {A} (page limit : Z) (l : list A) : 1 ≤ page → 0 ≤ limit →
  js_slice (Fin ((page - 1) * limit)) (Fin ((page - 1) * limit + limit)) l = window page limit l.
Proof. intros Hp Hl. rewrite js_slice_fin by nia. unfold window. do 2 f_equal. lia. Qed.

Lemma length_window {A} (page limit : Z) (l : list A) :
  (length (window page limit l) ≤ Z.to_nat limit)%nat.
Proof. unfold window. rewrite length_take. lia. Qed.

Lemma window_lookup_in {A} (page limit : Z) n x (l : list A) : window page limit l !! n = Some x → x ∈ l.
Proof.
  unfold window. intros H%list_elem_of_lookup_2. apply elem_of_take in H as (k & Hk & _).
  rewrite lookup_drop in Hk. by eapply list_elem_of_lookup_2.
Qed.

(** A page past the last one is empty. *)
Lemma window_past {A} (page limit : Z) (l : list A) :
  Z.of_nat (length l) ≤ (page - 1) * limit → window page limit l = [].
Proof. intros H. unfold window. rewrite drop_ge by lia. by rewrite take_nil. Qed.

(** A printed number contains no colon: it can be a component of a cache key. *)
Definition plain (s : string) : Prop := ":"%char ∉ lst s.

Lemma digits_plain l : digits l → ":"%char ∉ l.
Proof. intros Hd Hin. by pose proof (proj1 (Forall_forall _ _) Hd _ Hin). Qed.

Lemma show_num_plain n : (∀ z, n = Fin z → 0 ≤ z) → plain (show_num n).
Proof.
  destruct n as [|z]; intros Hz; unfold plain; cbn.
  - set_solver.
  - apply digits_plain. by apply pretty_digits, Hz.
Qed.

Lemma show_num_inj a b :
  (∀ z, a = Fin z → 0 ≤ z) → (∀ z, b = Fin z → 0 ≤ z) → show_num a = show_num b → a = b.
Proof.
  intros Ha Hb He. destruct a as [|x], b as [|y]; [done|..].
  - pose proof (parseInt_pretty y (Hb _ eq_refl)) as H. cbn in He. by rewrite <- He in H.
  - pose proof (parseInt_pretty x (Ha _ eq_refl)) as H. cbn in He. by rewrite He in H.
  - pose proof (parseInt_pretty x (Ha _ eq_refl)) as H. cbn in He. rewrite He in H.
    rewrite parseInt_pretty in H; [done|by apply Hb].
Qed.

(** Components separated by a colon are determined by their concatenation. *)
Lemma colon_inj (a b x y : string) :
  plain a → plain b → a +:+ ":" +:+ x = b +:+ ":" +:+ y → a = b ∧ x = y.
Proof.
  unfold plain. intros Ha Hb He. apply (f_equal lst) in He. rewrite !lst_app in He.
  assert (lst a = lst b ∧ lst x = lst y) as [H1 H2]; [|split; by apply (inj lst)].
  clear -Ha Hb He. revert Ha Hb He. generalize (lst a), (lst b). intros l.
  induction l as [|c l IH]; intros [|d k] Ha Hb He; cbn in He; simplify_eq; [done|..].
  - exfalso. set_solver.
  - exfalso. set_solver.
  - destruct (IH k) as [-> ->]; [set_solver|set_solver|done|done].
Qed.

Lemma query_int_pretty k dflt r z :
  0 ≤ z → query k r = Some (JStr (pretty z)) → query_int k dflt r = Fin z.
Proof. intros Hz Hq. unfold query_int. rewrite Hq. by apply parseInt_pretty. Qed.
