(* ===== verification/Soroban.v ===== *)
(** * The Soroban RPC client ([src/soroban.ts])

    Transaction building, simulation, submission with status polling, fee estimation and
    the read-only contract queries.  The Stellar SDK and the RPC node are not part of the
    repository: [Rpc] is the interface the service uses of them.  The table of contract
    error codes is compared with the enumeration of [src/errors.rs]. *)

From Stdlib Require Import String Ascii.
From S2P Require Import Prelude Js Decimal.

#[local] Open Scope string_scope.
#[local] Open Scope list_scope.
#[local] Open Scope Z_scope.

(** ** Data *)

Record ResourceEstimate := mkEstimate {
  fee : string;
  instructions : Z;
  readBytes : Z;
  writeBytes : Z;
}.

Record FeeEstimate := mkFee {
  base_fee_xlm : string;
  resource_fee_xlm : string;
  total_fee_xlm : string;
  fee_cushion_pct : Z;
}.

Inductive SupportedFunction :=
  | apply_for_issue
  | withdraw_application
  | assign_issue
  | complete_assignment
  | revoke_assignment.

Definition SUPPORTED_FUNCTIONS : list SupportedFunction :=
  [apply_for_issue; withdraw_application; assign_issue; complete_assignment;
   revoke_assignment].

Definition fn_name (f : SupportedFunction) : string :=
  match f with
  | apply_for_issue => "apply_for_issue"
  | withdraw_application => "withdraw_application"
  | assign_issue => "assign_issue"
  | complete_assignment => "complete_assignment"
  | revoke_assignment => "revoke_assignment"
  end.

Definition STROOPS_PER_XLM : Z := 10000000.

Definition FEE_ESTIMATE_SOURCE : string :=
  "GAAZI4TCR3TY5OJHCTJC2A4QSY6CJWJH5IAJTGKIN2ER7LBNVKOCCWN".

Record SorobanContractError := mkContractError {
  cerr_code : string;
  cerr_message : string;
  cerr_details : option string;
}.

Record TransactionSubmissionResult := mkSubmission {
  sub_hash : string;
  sub_ok : bool;   (** [status === 'success'] *)
  sub_error : option SorobanContractError;
}.

(** [CONTRACT_ERROR_CODES], the service's table. *)
Definition CONTRACT_ERROR_CODES (code : Z) : option string :=
  nth_error ["InternalError"; "AlreadyInitialized"; "UnauthorizedByAdmin";
             "UnauthorizedByMaintainer"; "NegativeAmount"; "BalanceError";
             "InvalidIssueState"; "NoAssignment"; "NoApplication"; "AmountTooLow";
             "UnclosedPeriod"] (Z.to_nat code).

(** [enum ContractError] of [src/errors.rs], the codes the contract raises. *)
Definition contract_errors : list (Z * string) :=
  [(1, "AlreadyInitialized"); (2, "NotInitialized"); (3, "UnauthorizedAdmin");
   (4, "UnauthorizedMaintainer"); (5, "UnauthorizedContributor");
   (6, "GlobalApplicationLimitReached"); (7, "OrgAssignmentLimitReached");
   (8, "DuplicateApplication"); (9, "ApplicationNotFound"); (10, "AssignmentNotFound");
   (11, "AlreadyAssigned"); (12, "CapOutOfRange"); (17, "MaintainerNotFound")].

(** *** What is handed to the SDK *)

(** An argument of a contract call: [new Address(a).toScVal()],
    [nativeToScVal(s, { type: 'symbol' })], [nativeToScVal(n, { type: 'u32' })]. *)
Inductive arg :=
  | ArgAddress (a : string)
  | ArgSymbol (s : string)
  | ArgU32 (n : jsnum).

Record invocation := mkInvocation {
  source : string;
  sequence : string;
  fnName : string;
  args : list arg;
}.

(** The fixed options of every transaction: [fee: '100'] and [setTimeout(30)]. *)
Definition TX_FEE : string := "100".
Definition TX_TIMEOUT : Z := 30.

(** *** What comes back from the RPC node *)

Inductive native :=
  | NatNumber (z : Z)
  | NatBigint (z : Z)
  | NatBoolean (b : bool)
  | NatOther (typeof : string).

Definition typeof (v : native) : string :=
  match v with
  | NatNumber _ => "number"
  | NatBigint _ => "bigint"
  | NatBoolean _ => "boolean"
  | NatOther t => t
  end.

Inductive sim_response (V : Type) :=
  | SimError (error : string)
  | SimSuccess (minResourceFee : string) (instr rd wr : Z) (retval : option V).
Arguments SimError {V} error.
Arguments SimSuccess {V} minResourceFee instr rd wr retval.

Record send_response := mkSend { send_hash : string; send_status : string }.

(** [resultXdr?.toString()]: [None] when absent. *)
Record get_response := mkGet { get_status : string; get_resultXdr : option string }.

(** [account.sequenceNumber()] or [account.sequence ?? '1']. *)
Record account_response := mkAccount {
  sequenceNumber : option string;
  sequence_prop : option string;
}.

(** The interface of the SDK and of the RPC node: [S] is the state of the network. *)
Class Rpc (S : Type) := {
  Tx : Type;
  ScVal : Type;
  build : invocation → outcome Tx;
  toXDR : Tx → string;
  scValToNative : ScVal → outcome native;
  getAccount : string → S → outcome account_response * S;
  simulateTransaction : Tx → S → outcome (sim_response ScVal) * S;
  sendTransaction : Tx → S → outcome send_response * S;
  getTransaction : string → S → outcome get_response * S;
  ContractData : Type;
  getLedgerData : ScVal → S → outcome ContractData * S;
}.

(** ** Contract errors in a message: [/error code=(\d+)/] *)

Definition code_here (l : list ascii) : option (list ascii) :=
  let pre := lst "error code=" in
  if decide (take (length pre) l = pre) then
    match span_digits (drop (length pre) l) with
    | ([], _) => None
    | (ds, _) => Some ds
    end
  else None.

(** The digits captured by the leftmost match. *)
Fixpoint match_code (l : list ascii) : option (list ascii) :=
  match code_here l with
  | Some ds => Some ds
  | None => match l with [] => None | _ :: l' => match_code l' end
  end.

Definition parseContractError (errorMessage : string) : SorobanContractError :=
  match match_code (lst errorMessage) with
  | Some ds =>
      let code := digits_value 0 ds in
      mkContractError (default "Unknown" (CONTRACT_ERROR_CODES code)) errorMessage
        (Some ("Contract error code: " +:+ pretty code))
  | None => mkContractError "Unknown" errorMessage None
  end.

(** ** XLM amounts *)

(** [s || '0']. *)
Definition or_zero (l : list ascii) : string := match l with [] => "0" | _ => str l end.

(** [toXlm]: BigInt division and remainder truncate toward zero. *)
Definition toXlm (stroops : Z) : string :=
  let whole := Z.quot stroops STROOPS_PER_XLM in
  let frac := Z.rem stroops STROOPS_PER_XLM in
  let padded := pad_left 7 "0" (lst (pretty frac)) in
  let fracStr := or_zero (rev (strip_zeros (rev padded))) in
  pretty whole +:+ "." +:+ fracStr.

Section Soroban.
Context {S : Type} `{Rpc S}.

(** The service sleeps between polls: the elapsed sleeps are part of the state. *)
Record rpc_state := RpcState { network : S; slept : list Z }.

Definition rpc {A} (f : S → outcome A * S) : M rpc_state A :=
  call (λ s, let '(o, n) := f (network s) in (o, RpcState n (slept s))).

Definition sleep (ms : Z) : M rpc_state unit :=
  modify (λ s, RpcState (network s) (slept s ++ [ms])).

(** A pure outcome as a computation. *)
Definition lift_outcome {A} (o : outcome A) : M rpc_state A :=
  match o with Ret a => mret a | Throw e => throw e end.

(** ** Building transactions *)

Definition buildRaw (sourceAddress sequence fnName : string) (args : list arg)
    : outcome Tx :=
  build (mkInvocation sourceAddress sequence fnName args).

Definition buildRawTransaction (sourceAddress sequence fnName : string) (args : list arg)
    : outcome Tx :=
  buildRaw sourceAddress sequence fnName args.

Definition buildApplyTx (contributor orgId : string) (issueId : jsnum) (sequence : string) :=
  buildRaw contributor sequence "apply_for_issue"
    [ArgAddress contributor; ArgSymbol orgId; ArgU32 issueId].

Definition buildWithdrawTx (contributor orgId : string) (issueId : jsnum) (sequence : string) :=
  buildRaw contributor sequence "withdraw_application"
    [ArgAddress contributor; ArgSymbol orgId; ArgU32 issueId].

Definition buildAssignTx (maintainer contributor orgId : string) (issueId : jsnum)
    (sequence : string) :=
  buildRaw maintainer sequence "assign_issue"
    [ArgAddress maintainer; ArgAddress contributor; ArgSymbol orgId; ArgU32 issueId].

Definition buildCompleteTx (maintainer contributor orgId : string) (issueId : jsnum)
    (sequence : string) :=
  buildRaw maintainer sequence "complete_assignment"
    [ArgAddress maintainer; ArgAddress contributor; ArgSymbol orgId; ArgU32 issueId].

Definition buildRevokeTx (maintainer contributor orgId : string) (issueId : jsnum)
    (sequence : string) :=
  buildRaw maintainer sequence "revoke_assignment"
    [ArgAddress maintainer; ArgAddress contributor; ArgSymbol orgId; ArgU32 issueId].

Definition getAccountSequence (address : string) : M rpc_state string :=
  try_catch
    (account ← rpc (getAccount address);
     mret (match sequenceNumber account with
           | Some s => s
           | None => default "1" (sequence_prop account)
           end))
    (λ _, mret "1").

(** ** Simulation and submission *)

Definition simulate (tx : Tx) : M rpc_state ResourceEstimate :=
  result ← rpc (simulateTransaction tx);
  match result with
  | SimError error =>
      let contractError := parseContractError error in
      throw (Error ("Simulation failed: " +:+ cerr_code contractError +:+ " - " +:+
                    cerr_message contractError))
  | SimSuccess f i r w _ => mret (mkEstimate f i r w)
  end.

Definition maxPolls : nat := 30.
Definition pollInterval : Z := 1000.

(** The polling loop with [polls] attempts left: [Some] is a final status, [None] the
    timeout. *)
Fixpoint poll (hash : string) (polls : nat) : M rpc_state (option TransactionSubmissionResult) :=
  match polls with
  | O => mret None
  | Datatypes.S polls' =>
      txStatus ← rpc (getTransaction hash);
      if String.eqb (get_status txStatus) "SUCCESS" then
        mret (Some (mkSubmission hash true None))
      else if String.eqb (get_status txStatus) "FAILED" then
        let xdr := match get_resultXdr txStatus with
                   | Some x => if String.eqb x "" then "Unknown error" else x
                   | None => "Unknown error"
                   end in
        mret (Some (mkSubmission hash false (Some (parseContractError xdr))))
      else
        _ ← sleep pollInterval;
        poll hash polls'
  end.

Definition submitTransaction (tx : Tx) : M rpc_state TransactionSubmissionResult :=
  try_catch
    (result ← rpc (sendTransaction tx);
     if String.eqb (send_status result) "PENDING" then
       final ← poll (send_hash result) maxPolls;
       mret (default (mkSubmission (send_hash result) true None) final)
     else mret (mkSubmission (send_hash result) true None))
    (λ error, mret (mkSubmission "" false (Some (parseContractError (error_text error))))).

(** [getContractData]: any failure is [null]. *)
Definition getContractData (key : ScVal) : M rpc_state (option ContractData) :=
  try_catch (data ← rpc (getLedgerData key); mret (Some data)) (λ _, mret None).

(** ** Fee estimation *)

Definition dummyOrg : string := "sample_org".
Definition dummyIssue : jsnum := Fin 1.
Definition dummySeq : string := "0".

Definition placeholder_tx (f : SupportedFunction) : outcome Tx :=
  let dummy := FEE_ESTIMATE_SOURCE in
  match f with
  | apply_for_issue => buildApplyTx dummy dummyOrg dummyIssue dummySeq
  | withdraw_application => buildWithdrawTx dummy dummyOrg dummyIssue dummySeq
  | assign_issue => buildAssignTx dummy dummy dummyOrg dummyIssue dummySeq
  | complete_assignment => buildCompleteTx dummy dummy dummyOrg dummyIssue dummySeq
  | revoke_assignment => buildRevokeTx dummy dummy dummyOrg dummyIssue dummySeq
  end.

Definition BASE_FEE_STROOPS : Z := 100.
Definition CUSHION_PCT : Z := 20.

Definition cushioned (resourceFeeStroops : Z) : Z :=
  resourceFeeStroops + Z.quot (resourceFeeStroops * CUSHION_PCT) 100.

Definition fee_breakdown (resourceFeeStroops : Z) : FeeEstimate :=
  let c := cushioned resourceFeeStroops in
  mkFee (toXlm BASE_FEE_STROOPS) (toXlm c) (toXlm (BASE_FEE_STROOPS + c)) CUSHION_PCT.

Definition estimateFee (f : SupportedFunction) : M rpc_state FeeEstimate :=
  tx ← lift_outcome (placeholder_tx f);
  estimate ← simulate tx;
  match js_BigInt (fee estimate) with
  | None => throw (ErrorObj "SyntaxError" ("Cannot convert " +:+ fee estimate +:+ " to a BigInt"))
  | Some resourceFeeStroops => mret (fee_breakdown resourceFeeStroops)
  end.

(** ** Read-only queries *)

Definition SorobanRpcError (msg : string) : exn := ErrorObj "SorobanRpcError" msg.
Definition SorobanParseError (msg : string) : exn := ErrorObj "SorobanParseError" msg.

Definition callReadOnly (fnName : string) (args : list arg) (callerAddress : option string)
    : M rpc_state native :=
  let sourceAddress := default FEE_ESTIMATE_SOURCE callerAddress in
  tx ← lift_outcome (build (mkInvocation sourceAddress "0" fnName args));
  result ← try_catch (rpc (simulateTransaction tx))
             (λ err, throw (SorobanRpcError ("RPC network error calling " +:+ fnName +:+ ": " +:+
                                             error_text err)));
  match result with
  | SimError error =>
      throw (SorobanRpcError ("RPC simulation error for " +:+ fnName +:+ ": " +:+ error))
  | SimSuccess _ _ _ _ None =>
      throw (SorobanParseError ("No retval in simulation response for " +:+ fnName))
  | SimSuccess _ _ _ _ (Some retval) =>
      match scValToNative retval with
      | Ret v => mret v
      | Throw err =>
          throw (SorobanParseError ("Failed to parse retval for " +:+ fnName +:+ ": " +:+
                                    error_text err))
      end
  end.

(** The number cases of the two counters: [Number(raw)] of a number or a bigint. *)
Definition expect_number (fnName : string) (raw : native) : M rpc_state Z :=
  match raw with
  | NatNumber z | NatBigint z => mret z
  | v => throw (SorobanParseError ("Expected u32 for " +:+ fnName +:+ ", got " +:+ typeof v))
  end.

Definition expect_bool (fnName : string) (raw : native) : M rpc_state bool :=
  match raw with
  | NatBoolean b => mret b
  | v => throw (SorobanParseError ("Expected bool for " +:+ fnName +:+ ", got " +:+ typeof v))
  end.

Definition getGlobalApplicationCount (contributor : string) : M rpc_state Z :=
  raw ← callReadOnly "get_global_application_count" [ArgAddress contributor] (Some contributor);
  expect_number "get_global_application_count" raw.

Definition getOrgAssignmentCount (contributor orgId : string) : M rpc_state Z :=
  raw ← callReadOnly "get_org_assignment_count" [ArgAddress contributor; ArgSymbol orgId]
          (Some contributor);
  expect_number "get_org_assignment_count" raw.

Definition hasApplied (contributor orgId : string) (issueId : jsnum) : M rpc_state bool :=
  raw ← callReadOnly "has_applied" [ArgAddress contributor; ArgSymbol orgId; ArgU32 issueId]
          (Some contributor);
  expect_bool "has_applied" raw.

Definition isAssigned (contributor orgId : string) (issueId : jsnum) : M rpc_state bool :=
  raw ← callReadOnly "is_assigned" [ArgAddress contributor; ArgSymbol orgId; ArgU32 issueId]
          (Some contributor);
  expect_bool "is_assigned" raw.

End Soroban.

(** ** Reading an XLM amount back, in stroops *)

Definition xlm_to_stroops (s : string) : option Z :=
  match split "." s with
  | [w; f] =>
      let fd := lst f in
      if (length fd <=? 7)%nat then
        Some (digits_value 0 (lst w) * STROOPS_PER_XLM +
              digits_value 0 (fd ++ replicate (7 - length fd) "0"%char))
      else None
  | _ => None
  end.

(** ** Lemmas *)

Lemma split_list_two cur ds es :
  "."%char ∉ ds → "."%char ∉ es →
  split_list "." cur (ds ++ "."%char :: es) = [str (rev cur ++ ds); str es].
Proof.
  intros Hd He. revert cur. induction ds as [|c ds IH]; intros cur; simpl.
  - rewrite app_nil_r. f_equal.
    assert (∀ cur, split_list "." cur es = [str (rev cur ++ es)]) as ->; [|done].
    clear -He. induction es as [|c es IH]; intros cur; simpl; [by rewrite app_nil_r|].
    destruct (Ascii.eqb_spec c "."); [set_solver|].
    rewrite IH by set_solver. simpl. by rewrite <- app_assoc.
  - destruct (Ascii.eqb_spec c "."); [set_solver|].
    rewrite IH by set_solver. simpl. by rewrite <- app_assoc.
Qed.

Lemma digits_no_dot ds : digits ds → "."%char ∉ ds.
Proof.
  intros Hd Hin. unfold digits in Hd. rewrite Forall_forall in Hd. by specialize (Hd _ Hin).
Qed.

Lemma strip_zeros_spec l : ∃ k, l = replicate k "0"%char ++ strip_zeros l.
Proof.
  induction l as [|c l [k IH]]; [by exists 0%nat|].
  destruct (ascii_dec c "0") as [->|Hc].
  - exists (Datatypes.S k). simpl. by f_equal.
  - exists 0%nat. destruct c as [[] [] [] [] [] [] [] []]; done.
Qed.

(** Dropping the trailing zeros of [p] and padding back to its length gives [p]. *)
Lemma strip_trailing p :
  let q := rev (strip_zeros (rev p)) in
  p = q ++ replicate (length p - length q) "0"%char.
Proof.
  simpl. destruct (strip_zeros_spec (rev p)) as [k Hk].
  assert (p = rev (strip_zeros (rev p)) ++ replicate k "0"%char) as Hp.
  { rewrite <- (rev_involutive p) at 1. rewrite Hk at 1.
    rewrite rev_app_distr. f_equal. clear Hk.
    by rewrite rev_alt; apply reverse_replicate. }
  assert (length p = length (rev (strip_zeros (rev p))) + k)%nat as Hl
    by (rewrite Hp at 1; by rewrite length_app, length_replicate).
  replace (length p - length (rev (strip_zeros (rev p))))%nat with k by lia. done.
Qed.

Lemma digits_value_dval ds : digits ds → digits_value 0 ds = dval 0 ds.
Proof. apply digits_value_all. Qed.

Lemma digits_replicate k : digits (replicate k "0"%char).
Proof. apply Forall_replicate. done. Qed.

#[local] Hint Resolve digits_replicate : wg.

(** The seven fractional digits printed by [toXlm] read back as the fraction. *)
Lemma frac_digits n :
  0 ≤ n < STROOPS_PER_XLM →
  let p := pad_left 7 "0" (lst (pretty n)) in
  length p = 7%nat ∧ digits p ∧ dval 0 p = n.
Proof.
  intros Hn p. destruct (pretty_digits n ltac:(lia)) as (Hd & Hv & _ & Hlen).
  specialize (Hlen 7%nat ltac:(lia)).
  assert (length (lst (pretty n)) ≤ 7)%nat by (apply Hlen; unfold STROOPS_PER_XLM in *; lia).
  unfold p, pad_left. split_and!.
  - rewrite length_app, length_replicate. lia.
  - apply Forall_app. split; [apply digits_replicate|done].
  - rewrite dval_app, dval_zeros. exact Hv.
Qed.

(** ** Theorems *)

(** Reading the printed amount back. *)
Lemma toXlm_exact n : 0 ≤ n → xlm_to_stroops (toXlm n) = Some n.
Proof.
  intros Hn. unfold toXlm, xlm_to_stroops.
  rewrite Z.quot_div_nonneg, Z.rem_mod_nonneg by (unfold STROOPS_PER_XLM; lia).
  pose proof (Z.mod_pos_bound n STROOPS_PER_XLM ltac:(done)) as Hm.
  pose proof (Z.div_mod n STROOPS_PER_XLM ltac:(done)) as Hdm.
  assert (0 ≤ n / STROOPS_PER_XLM) as Hq by (apply Z.div_pos; [lia|done]).
  destruct (frac_digits _ Hm) as (Hpl & Hpd & Hpv).
  destruct (pretty_digits _ Hq) as (Hwd & Hwv & _ & _).
  set (p := pad_left 7 "0" (lst (pretty (n mod STROOPS_PER_XLM)))) in *.
  pose proof (strip_trailing p) as Hp. simpl in Hp.
  set (q := rev (strip_zeros (rev p))) in *.
  assert (digits q) as Hqd by (rewrite Hp in Hpd; by apply Forall_app in Hpd as [? _]).
  assert (length q ≤ 7)%nat as Hql
    by (pose proof (f_equal length Hp) as Hl; rewrite length_app in Hl; lia).
  assert (∃ fs, or_zero q = str fs ∧ digits fs ∧
            (length fs ≤ 7)%nat ∧ dval 0 (fs ++ replicate (7 - length fs) "0"%char) =
            n mod STROOPS_PER_XLM) as (fs & -> & Hfd & Hfl & Hfv).
  { destruct q as [|c q'] eqn:Eq.
    - exists (lst "0"). split_and!; [done|by repeat constructor|simpl; lia|].
      rewrite Hpl in Hp. rewrite <- Hpv, Hp. done.
    - exists (c :: q'). rewrite Hpl in Hp. rewrite <- Hp. split_and!; done. }
  unfold split. rewrite !lst_app, lst_str.
  change (lst "." ++ fs) with ("."%char :: fs).
  rewrite split_list_two by (by apply digits_no_dot).
  cbn [rev app]. rewrite str_lst, lst_str, (proj2 (Nat.leb_le _ 7) Hfl).
  rewrite !digits_value_dval by (first [done | apply Forall_app; split; [done|apply digits_replicate]]).
  rewrite Hwv, Hfv. f_equal. lia.
Qed.

(** [toXlm] is exact: reading the printed amount back gives the stroops it was made
    from, for every non-negative amount. *)
Theorem toXlm_roundtrip n : 0 ≤ n → xlm_to_stroops (toXlm n) = Some n.
Proof. apply toXlm_exact. Qed.

(** the estimate of a fee of [r] stroops: the base fee is 100 stroops, the resource fee
    is [r] plus a fifth of it rounded down, and the printed total is exactly their sum. *)
Theorem fee_breakdown_exact r :
  0 ≤ r →
  let e := fee_breakdown r in
  xlm_to_stroops (base_fee_xlm e) = Some 100 ∧
  xlm_to_stroops (resource_fee_xlm e) = Some (r + r / 5) ∧
  xlm_to_stroops (total_fee_xlm e) = Some (100 + r + r / 5) ∧
  fee_cushion_pct e = 20.
Proof.
  intros Hr e.
  assert (cushioned r = r + r / 5) as Hc.
  { unfold cushioned, CUSHION_PCT. rewrite Z.quot_div_nonneg by lia.
    replace (r * 20) with (r * 20 / 1) by apply Z.div_1_r.
    rewrite Z.div_1_r. replace 100 with (5 * 20) by done. by rewrite Z.div_mul_cancel_r. }
  assert (0 ≤ r / 5) by (apply Z.div_pos; lia).
  unfold e, fee_breakdown, BASE_FEE_STROOPS. simpl. rewrite Hc.
  rewrite !toXlm_exact by lia. split_and!; [done..| |done]. f_equal. lia.
Qed.

(** the service's table of contract errors names only code 1 as the contract does:
    every other code the contract raises gets the name of another error or none. *)
Theorem contract_error_table_disagrees code name :
  (code, name) ∈ contract_errors →
  (CONTRACT_ERROR_CODES code = Some name ↔ code = 1).
Proof.
  intros Hin. unfold contract_errors in Hin.
  repeat (apply elem_of_cons in Hin as [[= -> ->]|Hin]; [by split|]). set_solver.
Qed.

Section submit.
Context {S : Type} `{Rpc S}.

Lemma rpc_slept {A} (f : S → outcome A * S) w o w' :
  rpc f w = (o, w') → slept (st w') = slept (st w).
Proof.
  intros Hr. eapply (keeps_call (λ s, slept s = slept (st w))); [|exact Hr|done].
  intros s Hs. simpl in *. by destruct (f (network s)).
Qed.

Lemma poll_spec hash n : ∀ w,
  ∃ o w' k, poll hash n w = (o, w') ∧ (k ≤ n)%nat ∧
    slept (st w') = slept (st w) ++ replicate k pollInterval ∧
    match o with
    | Ret None => k = n
    | Ret (Some r) => sub_hash r = hash ∧ (sub_ok r = true ↔ sub_error r = None)
    | Throw _ => True
    end.
Proof.
  induction n as [|n IH]; intros w.
  { exists (Ret None), w, 0%nat. split_and!; [done..|by rewrite app_nil_r|done]. }
  simpl. unfold mbind at 1, M_bind at 1.
  destruct (rpc (getTransaction hash) w) as [o w1] eqn:E.
  pose proof (rpc_slept _ _ _ _ E) as Hs.
  destruct o as [t|e].
  2: { exists (Throw e), w1, 0%nat. rewrite Hs, app_nil_r. split_and!; [done|lia|done..]. }
  destruct (String.eqb (get_status t) "SUCCESS");
    [|destruct (String.eqb (get_status t) "FAILED")].
  - eexists _, w1, 0%nat. rewrite Hs, app_nil_r. split_and!; [reflexivity|lia|done..].
  - eexists _, w1, 0%nat. rewrite Hs, app_nil_r. split_and!; [reflexivity|lia|done..].
  - destruct (IH (World (RpcState (network (st w1)) (slept (st w1) ++ [pollInterval]))
                        (sched w1))) as (o & w' & k & Hp & Hk & Hsl & Ho).
    exists o, w', (Datatypes.S k). simpl in Hsl. rewrite Hs in Hsl.
    split_and!; [done|lia| |by destruct o as [[?|]|]; [|lia|]].
    rewrite Hsl, <- app_assoc. done.
Qed.


(** a transaction the node refuses ([ERROR], [DUPLICATE], [TRY_AGAIN_LATER]: any status
    but [PENDING]) is reported as a success, with no polling. *)
Theorem submitTransaction_rejected_reported_success tx w t w1 :
  rpc (sendTransaction tx) w = (Ret t, w1) →
  send_status t ≠ "PENDING" →
  submitTransaction tx w = (Ret (mkSubmission (send_hash t) true None), w1).
Proof.
  intros E Ht. unfold submitTransaction. apply try_Ret. erewrite bind_intro by exact E.
  by destruct (String.eqb_spec (send_status t) "PENDING").
Qed.

(** the placeholder account of the fee estimation has 55 characters; with an SDK that
    builds transactions only for 56-character accounts, estimating any fee throws. *)
Theorem estimateFee_placeholder_rejected f w :
  (∀ i, strlen (source i) ≠ 56 → ∃ e, build i = Throw e) →
  ∃ e, estimateFee f w = (Throw e, w).
Proof.
  intros Hsdk.
  assert (∃ i, placeholder_tx f = build i ∧ strlen (source i) ≠ 56) as (i & Hi & Hl).
  { destruct f; (eexists; split; [reflexivity|by vm_compute]). }
  destruct (Hsdk i Hl) as [e He]. exists e.
  unfold estimateFee. rewrite Hi, He. reflexivity.
Qed.

(** a read-only query for a buildable call fails only with the two typed errors, so
    that a caller can tell a network failure from a bad payload. *)
Theorem hasApplied_typed_errors c o i w e w' tx :
  build (mkInvocation c "0" "has_applied" [ArgAddress c; ArgSymbol o; ArgU32 i]) = Ret tx →
  hasApplied c o i w = (Throw e, w') →
  ∃ msg, e = SorobanRpcError msg ∨ e = SorobanParseError msg.
Proof.
  intros Hb Hq. unfold hasApplied, callReadOnly in Hq. simpl in Hq. rewrite Hb in Hq.
  unfold mbind, M_bind in Hq. simpl in Hq. unfold mret, M_ret, try_catch in Hq.
  destruct (rpc (simulateTransaction tx) w) as [[[err|f n r b [v|]]|err] w1];
    unfold throw in Hq; simplify_eq; eauto.
  destruct (scValToNative v) as [[| | |]|]; unfold throw in Hq; simpl in Hq;
    unfold throw in Hq; simplify_eq; eauto.
Qed.

End submit.

(** ** Concrete runs: a node that refuses every transaction, an SDK that checks the length
    of the source account *)

Definition refusing_rpc : Rpc unit := {|
  Tx := invocation;
  ScVal := unit;
  build i := if strlen (source i) =? 56 then Ret i else Throw (Error "accountId is invalid");
  toXDR i := fnName i;
  scValToNative _ := Ret (NatOther "object");
  getAccount _ s := (Ret (mkAccount (Some "7") None), s);
  simulateTransaction _ s := (Ret (SimSuccess "100" 1 2 3 (Some tt)), s);
  sendTransaction _ s := (Ret (mkSend "h" "ERROR"), s);
  getTransaction _ s := (Ret (mkGet "NOT_FOUND" None), s);
  ContractData := unit;
  getLedgerData _ s := (Ret tt, s);
|}.

Definition idle : world rpc_state := World (RpcState tt []) [].
Definition demo_account : string := str (replicate 56 "G"%char).

Lemma toXlm_roundtrip_witness : xlm_to_stroops (toXlm 1234567) = Some 1234567.
Proof. apply (toXlm_roundtrip 1234567). lia. Defined.

Lemma fee_breakdown_exact_witness :
  xlm_to_stroops (total_fee_xlm (fee_breakdown 54321)) = Some (100 + 54321 + 54321 / 5).
Proof. apply (fee_breakdown_exact 54321). lia. Defined.

Lemma contract_error_table_disagrees_witness :
  CONTRACT_ERROR_CODES 2 = Some "NotInitialized" ↔ 2 = 1.
Proof. apply (contract_error_table_disagrees 2 "NotInitialized"). unfold contract_errors. set_solver. Defined.

Lemma submitTransaction_rejected_reported_success_witness :
  @submitTransaction _ refusing_rpc (mkInvocation demo_account "1" "apply" []) idle =
  (Ret (mkSubmission "h" true None), idle).
Proof.
  apply (@submitTransaction_rejected_reported_success _ refusing_rpc
    (mkInvocation demo_account "1" "apply" []) idle (mkSend "h" "ERROR") idle);
    [reflexivity|done].
Defined.

Lemma estimateFee_placeholder_rejected_witness :
  ∃ e, @estimateFee _ refusing_rpc complete_assignment idle = (Throw e, idle).
Proof.
  apply (@estimateFee_placeholder_rejected _ refusing_rpc complete_assignment idle).
  intros i Hi. simpl. destruct (Z.eqb_spec (strlen (source i)) 56); [done|]. eauto.
Defined.

Lemma hasApplied_typed_errors_witness :
  ∃ msg, SorobanParseError "Expected bool for has_applied, got object"
         = SorobanRpcError msg ∨
         SorobanParseError "Expected bool for has_applied, got object"
         = SorobanParseError msg.
Proof.
  refine (@hasApplied_typed_errors _ refusing_rpc demo_account "org" (Fin 1) idle _ _
    (mkInvocation demo_account "0" "has_applied"
       [ArgAddress demo_account; ArgSymbol "org"; ArgU32 (Fin 1)]) _ _); vm_compute; reflexivity.
Defined.
