(* ===== verification/Horizon.v ===== *)
(** * The Horizon clients ([src/horizon.ts], [backend/src/HorizonService.ts])

    Two clients of the Horizon HTTP API with exponential back-off.  The server is a
    parameter; the state records how many requests were made and how long the client
    slept between them. *)

From Stdlib Require Import String.
From S2P Require Import Prelude Js.

#[local] Open Scope string_scope.
#[local] Open Scope list_scope.
#[local] Open Scope Z_scope.

(** The state of a client run: the server, the number of requests, the sleeps. *)
Record client (S : Type) := Client { server : S; asked : nat; delays : list Z }.
Arguments Client {S} server asked delays.
Arguments server {S} c.
Arguments asked {S} c.
Arguments delays {S} c.

(** One request: the answer is a value (errors included), so it uses no fault schedule. *)
Definition request {S A} (f : S → A * S) : M (client S) A :=
  local (λ c, let '(a, s) := f (server c) in (a, Client s (asked c + 1) (delays c))).

Definition pause {S} (ms : Z) : M (client S) unit :=
  modify (λ c, Client (server c) (asked c) (delays c ++ [ms])).

(** ** [HorizonService] of [src/horizon.ts] *)
Module HorizonClient.

Record balance := mkBalance {
  b_balance : string;
  asset_type : string;
  asset_code : option string;
  asset_issuer : option string;
}.

(** [account] as Horizon returns it, and [AccountData]. *)
Record raw_account := RawAccount {
  ra_id : string;
  ra_sequence : string;
  subentry_count : Z;
  ra_balances : list balance;
}.

Record AccountData := mkAccountData {
  id : string;
  sequence : string;
  subentryCount : Z;
  balances : list balance;
}.

(** [fee_charged] is a string or a number. *)
Record raw_tx := RawTx {
  rt_id : string;
  rt_hash : string;
  ledger_attr : Z;
  rt_created_at : string;
  rt_fee_charged : string + Z;
  rt_operation_count : Z;
}.

Record TransactionData := mkTxData {
  tx_id : string;
  tx_hash : string;
  ledger : Z;
  created_at : string;
  fee_charged : jsnum;
  operation_count : Z;
}.

(** A rejected call: a [NotFoundError], or an error with the status of its response. *)
Inductive call_error :=
  | NotFoundError (e : exn)
  | HttpError (status : option Z) (e : exn).

Definition call_exn (c : call_error) : exn :=
  match c with NotFoundError e | HttpError _ e => e end.

(** The response status of a [NotFoundError] is 404. *)
Definition call_status (c : call_error) : option Z :=
  match c with NotFoundError _ => Some 404 | HttpError s _ => s end.

Record options := mkOptions { maxRetries : nat; initialDelayMs : Z; maxDelayMs : Z }.

Definition default_options : options := mkOptions 5 100 10000.

Definition calculateDelay (o : options) (attempt : nat) : Z :=
  Z.min (initialDelayMs o * 2 ^ Z.of_nat attempt) (maxDelayMs o).

Definition retryable (status : option Z) : bool :=
  match status with Some s => (s =? 429) || (s =? 503) | None => false end.

Section Client.
Context {S : Type}.
Variable o : options.

(** The retry loop from [attempt] on, with [left] attempts left: [onError] is the part of
    the [catch] block that precedes the status test. *)
Fixpoint retry {A B} (ask : S → (A + call_error) * S) (onError : call_error → option exn)
    (f : A → B) (what : string) (left attempt : nat) (lastError : option exn)
    : M (client S) B :=
  match left with
  | O => throw (default (Error ("Failed to fetch " +:+ what +:+ " after " +:+
                                pretty (Z.of_nat (maxRetries o)) +:+ " attempts")) lastError)
  | Datatypes.S left' =>
      answer ← request ask;
      match answer with
      | inl a => mret (f a)
      | inr error =>
          match onError error with
          | Some e => throw e
          | None =>
              if retryable (call_status error) &&
                 (Z.of_nat attempt <? Z.of_nat (maxRetries o) - 1)
              then
                _ ← pause (calculateDelay o attempt);
                retry ask onError f what left' (attempt + 1) (Some (call_exn error))
              else throw (call_exn error)
          end
      end
  end.

Variable accounts : string → S → (raw_account + call_error) * S.
Variable transactions : string → Z → S → (list raw_tx + call_error) * S.

Definition to_account (a : raw_account) : AccountData :=
  mkAccountData (ra_id a) (ra_sequence a) (subentry_count a) (ra_balances a).

Definition to_tx (t : raw_tx) : TransactionData :=
  mkTxData (rt_id t) (rt_hash t) (ledger_attr t) (rt_created_at t)
    (match rt_fee_charged t with inl s => parseInt s | inr z => Fin z end)
    (rt_operation_count t).

Definition fetchAccount (accountId : string) : M (client S) AccountData :=
  retry (accounts accountId)
    (λ e, match e with
          | NotFoundError _ => Some (Error ("Account not found: " +:+ accountId))
          | HttpError _ _ => None
          end)
    to_account "account" (maxRetries o) 0 None.

Definition fetchTransactionHistory (accountId : string) (limit : Z)
    : M (client S) (list TransactionData) :=
  retry (transactions accountId limit) (λ _, None)
    (map to_tx) "transactions" (maxRetries o) 0 None.

End Client.
End HorizonClient.

(** ** [HorizonService] of [backend/src/HorizonService.ts] *)
Module BackendHorizon.

Definition MAX_RETRIES : nat := 3.
Definition BASE_DELAY_MS : Z := 100.

(** [HorizonError(status, message)]. *)
Record HorizonError := mkHorizonError { herr_status : Z; herr_message : string }.

(** The outcome of [fetchAccount]: a value ([None] is [null]), a [HorizonError], or the
    transport error of [get]. *)
Inductive fetched :=
  | Account (a : option json)
  | Failed (e : HorizonError)
  | Transport (e : exn).

(** [typeof v === 'string'] of a property. *)
Definition is_string_prop (k : string) (j : json) : bool :=
  match prop k j with Some (JStr _) => true | _ => false end.
Definition is_array_prop (k : string) (j : json) : bool :=
  match prop k j with Some (JArr _) => true | _ => false end.

Section Backend.
Context {S : Type}.
Variable JSON_parse : string → option json.
Variable get : string → S → ((Z * string) + exn) * S.

Definition account_of_body (body : string) : fetched :=
  match JSON_parse body with
  | None => Failed (mkHorizonError 200 "Malformed JSON in Horizon response")
  | Some account =>
      if is_string_prop "id" account && is_string_prop "sequence" account &&
         is_array_prop "balances" account
      then Account (Some account)
      else Failed (mkHorizonError 200 "Unexpected Horizon account shape")
  end.

(** [attempt()] with [retries] retries already made; [fuel] bounds the
    recursion, [None] is its exhaustion. *)
Fixpoint attempt (fuel retries : nat) (url : string) : M (client S) (option fetched) :=
  match fuel with
  | O => mret None
  | Datatypes.S fuel' =>
      answer ← request (get url);
      match answer with
      | inr e => mret (Some (Transport e))
      | inl (status, body) =>
          if status =? 200 then mret (Some (account_of_body body))
          else if status =? 404 then mret (Some (Account None))
          else if (status =? 429) && (retries <? MAX_RETRIES - 1)%nat then
            let retries := (retries + 1)%nat in
            _ ← pause (BASE_DELAY_MS * 2 ^ (Z.of_nat retries - 1));
            attempt fuel' retries url
          else
            mret (Some (Failed (mkHorizonError status
                    (if status =? 429 then "Rate limited by Horizon after retries"
                     else "Horizon responded with " +:+ pretty status))))
      end
  end.

Definition fetchAccount (baseUrl accountId : string) : M (client S) (option fetched) :=
  attempt MAX_RETRIES 0 (baseUrl +:+ "/accounts/" +:+ accountId).

End Backend.
End BackendHorizon.

(** ** Theorems *)

Section horizon.
Context {S : Type}.
Import HorizonClient.

Lemma retry_spec {A B} (o : options) (ask : S → (A + call_error) * S) onError (f : A → B) what :
  ∀ left attempt last w,
  (attempt + left = maxRetries o)%nat →
  (0 < left)%nat →
  ∃ res w' k, retry o ask onError f what left attempt last w = (res, w') ∧
    (k < left)%nat ∧
    asked (st w') = (asked (st w) + k + 1)%nat ∧
    delays (st w') = delays (st w) ++ (calculateDelay o <$> seq attempt k) ∧
    (k = (left - 1)%nat ∨ is_ret res = true ∨
     ∃ e s, (ask s).1 = inr e ∧ (onError e ≠ None ∨ retryable (call_status e) = false)).
Proof.
  induction left as [|left IH]; intros attempt last w Hsum Hleft; [lia|].
  simpl. unfold mbind, M_bind at 1. unfold request, local at 1. simpl.
  destruct (ask (server (st w))) as [[a|e] s'] eqn:E; simpl.
  { eexists _, _, 0%nat. split_and!; [reflexivity|lia|simpl; lia|simpl; by rewrite app_nil_r|].
    by right; left. }
  destruct (onError e) as [x|] eqn:Eo.
  { eexists _, _, 0%nat. split_and!; [reflexivity|lia|simpl; lia|simpl; by rewrite app_nil_r|].
    right; right. exists e, (server (st w)). rewrite E. split; [done|]. left. by rewrite Eo. }
  destruct (retryable (call_status e)) eqn:Er; simpl.
  2: { eexists _, _, 0%nat.
       split_and!; [reflexivity|lia|simpl; lia|simpl; by rewrite app_nil_r|].
       right; right. exists e, (server (st w)). rewrite E. eauto. }
  destruct (Z.ltb_spec (Z.of_nat attempt) (Z.of_nat (maxRetries o) - 1)) as [Hlt|Hge].
  2: { eexists _, _, 0%nat.
       split_and!; [reflexivity|lia|simpl; lia|simpl; by rewrite app_nil_r|]. left. lia. }
  unfold M_bind at 1, pause, modify, local. simpl.
  match goal with |- context [retry _ _ _ _ _ _ _ _ ?w0] =>
    destruct (IH (attempt + 1)%nat (Some (call_exn e)) w0 ltac:(lia) ltac:(lia))
      as (res & w' & k & Hr & Hk & Ha & Hd & Hc) end.
  exists res, w', (Datatypes.S k). simpl in *. split_and!; [done|lia|lia| |].
  - rewrite Hd, <- app_assoc. f_equal. simpl. by rewrite Nat.add_1_r.
  - destruct Hc as [->|Hc]; [left; lia|by right].
Qed.

(** [fetchAccount] makes at least one and at most [maxRetries] requests, sleeps between
    consecutive ones for the back-off delays of attempts 0, 1, 2, ..., and stops early only
    with a result or on an error that is not a retryable status. *)
Theorem fetchAccount_backoff (o : options) (accounts : string → S → (raw_account + call_error) * S)
    accountId w :
  (0 < maxRetries o)%nat →
  ∃ res w' k, fetchAccount o accounts accountId w = (res, w') ∧
    (k < maxRetries o)%nat ∧
    asked (st w') = (asked (st w) + k + 1)%nat ∧
    delays (st w') = delays (st w) ++ (calculateDelay o <$> seq 0 k) ∧
    (k = (maxRetries o - 1)%nat ∨ is_ret res = true ∨
     ∃ e s, (accounts accountId s).1 = inr e ∧
            (∀ status x, e = HttpError status x → retryable status = false)).
Proof.
  intros Hm. unfold fetchAccount.
  destruct (retry_spec o (accounts accountId) (λ e, match e with
      | NotFoundError _ => Some (Error ("Account not found: " +:+ accountId))
      | HttpError _ _ => None end) to_account "account" (maxRetries o) 0 None w
      ltac:(lia) Hm) as (res & w' & k & Hr & Hk & Ha & Hd & Hc).
  exists res, w', k. split_and!; [done..|].
  destruct Hc as [?|[?|(e & s & He & Hx)]]; [by left|by right; left|].
  right; right. exists e, s. split; [done|]. intros status x ->. by destruct Hx.
Qed.

(** the back-off delays are bounded by [maxDelayMs] and never decrease. *)
Theorem calculateDelay_bounds (o : options) i j :
  0 ≤ initialDelayMs o → (i ≤ j)%nat →
  calculateDelay o i ≤ calculateDelay o j ≤ maxDelayMs o.
Proof.
  intros Hi Hij. unfold calculateDelay.
  assert (2 ^ Z.of_nat i ≤ 2 ^ Z.of_nat j) by (apply Z.pow_le_mono_r; lia).
  assert (initialDelayMs o * 2 ^ Z.of_nat i ≤ initialDelayMs o * 2 ^ Z.of_nat j)
    by (by apply Z.mul_le_mono_nonneg_l).
  lia.
Qed.

End horizon.

Section backend.
Context {S : Type}.
Import BackendHorizon.

Lemma attempt_spec JSON_parse (get : string → S → ((Z * string) + exn) * S) url :
  ∀ n retries w, (retries + n = MAX_RETRIES)%nat → (0 < n)%nat →
  ∃ r w' k, attempt JSON_parse get n retries url w = (Ret (Some r), w') ∧ (k < n)%nat ∧
    asked (st w') = (asked (st w) + k + 1)%nat ∧
    delays (st w') = delays (st w) ++ take k (drop retries [100; 200]).
Proof.
  induction n as [|n IH]; intros retries w Hsum Hn; [lia|].
  simpl. unfold mbind, M_bind at 1, request, local at 1. simpl.
  destruct (get url (server (st w))) as [[[status body]|e] s']; simpl in *.
  2: { eexists _, _, 0%nat. by split_and!; [reflexivity|lia|simpl; lia|simpl; rewrite app_nil_r]. }
  destruct (status =? 200);
    [eexists _, _, 0%nat; by split_and!; [reflexivity|lia|simpl; lia|simpl; rewrite app_nil_r]|].
  destruct (status =? 404);
    [eexists _, _, 0%nat; by split_and!; [reflexivity|lia|simpl; lia|simpl; rewrite app_nil_r]|].
  destruct ((status =? 429) && (retries <? 2)%nat) eqn:E;
    [|eexists _, _, 0%nat; by split_and!; [reflexivity|lia|simpl; lia|simpl; rewrite app_nil_r]].
  apply andb_prop in E as [_ Hr%Nat.ltb_lt].
  unfold M_bind at 1, pause, modify, local. simpl.
  match goal with |- context [attempt _ _ n _ _ ?w0] =>
    destruct (IH (retries + 1)%nat w0 ltac:(lia) ltac:(unfold MAX_RETRIES in *; lia))
      as (r & w' & k & Hp & Hk & Ha & Hd) end.
  exists r, w', (Datatypes.S k). simpl in *. split_and!; [done|lia|lia|].
  rewrite Hd, <- app_assoc. f_equal. by destruct retries as [|[|]]; [| |lia].
Qed.

(** the recursion of the backend client ends by itself: its fuel, the three attempts of
    the source, is never exhausted, and the sleeps are a prefix of 100 ms, 200 ms. *)
Theorem backend_fetchAccount_terminates JSON_parse
    (get : string → S → ((Z * string) + exn) * S) baseUrl accountId w :
  ∃ r w' k, fetchAccount JSON_parse get baseUrl accountId w = (Ret (Some r), w') ∧
    (k ≤ 2)%nat ∧ asked (st w') = (asked (st w) + k + 1)%nat ∧
    delays (st w') = delays (st w) ++ take k [100; 200].
Proof.
  unfold fetchAccount.
  destruct (attempt_spec JSON_parse get (baseUrl +:+ "/accounts/" +:+ accountId) MAX_RETRIES 0 w
    eq_refl ltac:(unfold MAX_RETRIES; lia)) as (r & w' & k & Hp & Hk & Ha & Hd).
  exists r, w', k. split_and!; [done|unfold MAX_RETRIES in *; lia|done|done].
Qed.

End backend.

(** ** Concrete runs *)

(** A server that is unavailable for its first [n] requests. *)
Definition flaky_accounts (accountId : string) (n : nat)
    : (HorizonClient.raw_account + HorizonClient.call_error) * nat :=
  match n with
  | O => (inl (HorizonClient.RawAccount accountId "1" 0 []), O)
  | Datatypes.S n' => (inr (HorizonClient.HttpError (Some 503) (Error "busy")), n')
  end.

Lemma fetchAccount_backoff_witness :
  ∃ res w' k,
    HorizonClient.fetchAccount HorizonClient.default_options flaky_accounts "G"
      (World (Client 3%nat 0 []) []) = (res, w') ∧
    (k < 5)%nat ∧
    asked (st w') = (0 + k + 1)%nat ∧
    delays (st w') = [] ++ (HorizonClient.calculateDelay HorizonClient.default_options <$> seq 0 k) ∧
    (k = (5 - 1)%nat ∨ is_ret res = true ∨
     ∃ e s, (flaky_accounts "G" s).1 = inr e ∧
            (∀ status x, e = HorizonClient.HttpError status x →
                         HorizonClient.retryable status = false)).
Proof.
  exact (fetchAccount_backoff HorizonClient.default_options flaky_accounts "G"
           (World (Client 3%nat 0 []) []) ltac:(simpl; lia)).
Defined.

Lemma calculateDelay_bounds_witness :
  HorizonClient.calculateDelay HorizonClient.default_options 3 ≤
  HorizonClient.calculateDelay HorizonClient.default_options 9 ≤ 10000.
Proof. apply (calculateDelay_bounds HorizonClient.default_options 3 9); [done|lia]. Defined.
