(* ===== verification/Xdr.v ===== *)
(** * Verification of signed transactions
    ([src/xdrVerifier.ts], [src/xdr-signature.ts], [src/signature.ts])

    The envelope decoder, the StrKey codec, the Node [Buffer] conversions and the
    cryptography are parameters; a decoded transaction is the part of the SDK's view the
    verifiers read. *)

From Stdlib Require Import String Ascii.
From S2P Require Import Prelude Js.

#[local] Open Scope string_scope.
#[local] Open Scope list_scope.
#[local] Open Scope Z_scope.

(** ** Decoded transactions *)

Inductive ScAddress :=
  | AccountAddress (ed25519 : string)
  | ContractAddress (hash : string).

Inductive ScArg :=
  | ScvAddress (a : ScAddress)
  | ScvOther.

Inductive HostFunction :=
  | InvokeContract (contractAddress : ScAddress) (args : list ScArg)
  | OtherHostFunction.

Inductive Operation :=
  | InvokeHostFunction (func : HostFunction)
  | OtherOperation.

(** [Number(...)] of the two bounds. *)
Record TimeBounds := mkBounds { minTime : Z; maxTime : Z }.

Record Signature := mkSignature { hint : string; sig_bytes : string }.

Record Transaction := mkTransaction {
  operations : list Operation;
  timeBounds : option TimeBounds;
  signatures : list Signature;
  memo_text : option string;   (** the UTF-8 text of a memo of type [text] *)
  tx_hash : string;
  tx_toXDR : string;
}.

(** What the constructor returns: a transaction or a fee bump around one. *)
Inductive envelope :=
  | PlainTx (t : Transaction)
  | FeeBump (inner : Transaction).

(** ** [xdrVerifier.ts] *)

Inductive VerificationFailureReason :=
  | MISSING_SIGNATURE
  | SIGNER_MISMATCH
  | TRANSACTION_EXPIRED
  | TRANSACTION_NOT_YET_VALID
  | WRONG_CONTRACT
  | MALFORMED_XDR
  | MISSING_CONTRIBUTOR_ARG.

Definition reason_name (r : VerificationFailureReason) : string :=
  match r with
  | MISSING_SIGNATURE => "MISSING_SIGNATURE"
  | SIGNER_MISMATCH => "SIGNER_MISMATCH"
  | TRANSACTION_EXPIRED => "TRANSACTION_EXPIRED"
  | TRANSACTION_NOT_YET_VALID => "TRANSACTION_NOT_YET_VALID"
  | WRONG_CONTRACT => "WRONG_CONTRACT"
  | MALFORMED_XDR => "MALFORMED_XDR"
  | MISSING_CONTRIBUTOR_ARG => "MISSING_CONTRIBUTOR_ARG"
  end.

Inductive VerificationResult :=
  | VerificationSuccess (signerAddress contractId : string)
  | VerificationFailure (reason : VerificationFailureReason) (detail : string).

(** The first operation that invokes a contract, as the extraction loops find it. *)
Fixpoint first_invocation (ops : list Operation) : option (ScAddress * list ScArg) :=
  match ops with
  | [] => None
  | InvokeHostFunction (InvokeContract a args) :: _ => Some (a, args)
  | _ :: ops' => first_invocation ops'
  end.

(** [s.slice(-4)] of a byte string. *)
Definition last4 (s : string) : string := str (drop (length (lst s) - 4) (lst s)).
Definition first4 (s : string) : string := slice_to 4 s.

(** The SDK: [StrKey] encoders are total, decoders throw ([None]). *)
Class StrKey := {
  encodeEd25519PublicKey : string → string;
  decodeEd25519PublicKey : string → option string;
  encodeContract : string → string;
  decodeContract : string → option string;
  decode_encode_key : ∀ k, decodeEd25519PublicKey (encodeEd25519PublicKey k) = Some k;
  decode_encode_contract : ∀ k, decodeContract (encodeContract k) = Some k;
}.

Section Verifier.
Context `{StrKey}.
(** [process.env.CONTRACT_ID ?? ...]. *)
Variable CONTRACT_ID : string.
(** [TransactionEnvelope.fromXDR] and [new Transaction]. *)
Variable decode_envelope : string → envelope + exn.

Definition contractIdBytes (contractId : string) : option string := decodeContract contractId.

Definition extractContributorArg (tx : Transaction) : option string :=
  match first_invocation (operations tx) with
  | None => None
  | Some (_, args) =>
      match args with
      | ScvAddress (AccountAddress k) :: _ => Some (encodeEd25519PublicKey k)
      | _ => None
      end
  end.

Definition extractContractId (tx : Transaction) : option string :=
  match first_invocation (operations tx) with
  | Some (ContractAddress h, _) => Some (encodeContract h)
  | _ => None
  end.

(** [now] is [Date.now()] in milliseconds.  [None] inside [Ret] is the absence of an error;
    a lower bound too large for a [Date] makes [toISOString] throw. *)
Definition checkTimeBounds (now : Z) (tx : Transaction)
    : outcome (option VerificationResult) :=
  match timeBounds tx with
  | None => Ret None
  | Some b =>
      let nowSecs := now / 1000 in
      if negb (maxTime b =? 0) && (maxTime b <? nowSecs) then
        Ret (Some (VerificationFailure TRANSACTION_EXPIRED
                ("Transaction expired at " +:+ toISOString (maxTime b * 1000) +:+
                 " (now: " +:+ toISOString (nowSecs * 1000) +:+ ")")))
      else if (0 <? minTime b) && (nowSecs <? minTime b) then
        if valid_time (minTime b * 1000) then
          Ret (Some (VerificationFailure TRANSACTION_NOT_YET_VALID
                ("Transaction not valid until " +:+ toISOString (minTime b * 1000))))
        else Throw (ErrorObj "RangeError" "Invalid time value")
      else Ret None
  end.

(** [None] inside [Ret] is the absence of an error; [StrKey] may throw. *)
Definition checkSignerMatchesContributor (tx : Transaction) (contributorAddress : string)
    : outcome (option VerificationResult) :=
  match signatures tx with
  | [] => Ret (Some (VerificationFailure MISSING_SIGNATURE "Transaction has no signatures"))
  | sigs =>
      match decodeEd25519PublicKey contributorAddress with
      | None => Throw (Error "invalid encoded string")
      | Some pubKeyBytes =>
          let expectedHint := last4 pubKeyBytes in
          if existsb (λ s, String.eqb (first4 (hint s)) expectedHint) sigs then Ret None
          else Ret (Some (VerificationFailure SIGNER_MISMATCH
                 ("Transaction is not signed by the contributor address: " +:+
                  contributorAddress)))
      end
  end.

(** The checks on a decoded transaction, in the order of the source. *)
Definition verify_decoded (now : Z) (tx : Transaction) : outcome VerificationResult :=
  match extractContractId tx with
  | None =>
      Ret (VerificationFailure WRONG_CONTRACT "Could not extract contract ID from transaction")
  | Some txContractId =>
      let contract_error :=
        match contractIdBytes CONTRACT_ID, contractIdBytes txContractId with
        | Some expected, Some actual =>
            if String.eqb expected actual then None
            else Some (VerificationFailure WRONG_CONTRACT
                   ("Transaction targets contract " +:+ txContractId +:+ ", expected " +:+
                    CONTRACT_ID))
        | _, _ => Some (VerificationFailure WRONG_CONTRACT
                   ("Configured CONTRACT_ID is invalid: " +:+ CONTRACT_ID))
        end in
      match contract_error with
      | Some e => Ret e
      | None =>
          match checkTimeBounds now tx with
          | Throw e => Throw e
          | Ret (Some e) => Ret e
          | Ret None =>
              match extractContributorArg tx with
              | None => Ret (VerificationFailure MISSING_CONTRIBUTOR_ARG
                         "Could not extract contributor address from transaction arguments")
              | Some contributorAddress =>
                  match checkSignerMatchesContributor tx contributorAddress with
                  | Throw e => Throw e
                  | Ret (Some e) => Ret e
                  | Ret None => Ret (VerificationSuccess contributorAddress txContractId)
                  end
              end
          end
      end
  end.

Definition verifyTransactionXdr (now : Z) (signedXdr : string) : outcome VerificationResult :=
  match decode_envelope signedXdr with
  | inr err => Ret (VerificationFailure MALFORMED_XDR
                      ("Failed to decode XDR: " +:+ error_text err))
  | inl (PlainTx tx) | inl (FeeBump tx) => verify_decoded now tx
  end.

End Verifier.

(** ** [xdr-signature.ts] *)
Module XdrSignature.

Inductive reason := wrong_signer | expired | wrong_contract | malformed.

Record VerificationResult := mkResult {
  success : bool;
  status : Z;
  failure : option reason;
  horizonResult : option json;
}.

Record VerifyOptions := mkOptions {
  xdrEnvelope : string;
  expectedSigner : string;
  contractId : string;
  nowUnix : Z;
}.

Section Submit.
Context {S : Type}.
(** [TransactionBuilder.fromXDR(xdr, Networks.TESTNET)]. *)
Variable fromXDR : string → Transaction + exn.
(** [Keypair.fromPublicKey(signer).verify(hash, signature)]; [None] when it throws. *)
Variable verify : string → string → string → option bool.
(** [submitTx], when injected. *)
Variable submitTx : option (string → S → outcome json * S).

Definition is_expired (nowUnix : Z) (tx : Transaction) : bool :=
  match timeBounds tx with
  | Some b => negb (maxTime b =? 0) && (maxTime b <? nowUnix)
  | None => false
  end.

Definition targets_contract (xdrEnvelope contractId : string) (tx : Transaction) : bool :=
  let memoText := default "" (memo_text tx) in
  let contractIdPrefix := slice_to 28 contractId in
  startsWith contractIdPrefix memoText ||
  includes contractId xdrEnvelope ||
  includes contractId (tx_toXDR tx).

Definition signed_by (signer : string) (tx : Transaction) : bool :=
  existsb (λ sig, default false (verify signer (tx_hash tx) (sig_bytes sig))) (signatures tx).

Definition verifyAndSubmit (opts : VerifyOptions) : M S VerificationResult :=
  match fromXDR (xdrEnvelope opts) with
  | inr _ => mret (mkResult false 400 (Some malformed) None)
  | inl tx =>
      if is_expired (nowUnix opts) tx then mret (mkResult false 403 (Some expired) None)
      else if negb (targets_contract (xdrEnvelope opts) (contractId opts) tx) then
        mret (mkResult false 403 (Some wrong_contract) None)
      else if negb (signed_by (expectedSigner opts) tx) then
        mret (mkResult false 403 (Some wrong_signer) None)
      else match submitTx with
      | Some submit =>
          horizonResult ← call (submit (tx_toXDR tx));
          mret (mkResult true 200 None (Some horizonResult))
      | None => mret (mkResult true 200 None None)
      end
  end.

End Submit.
End XdrSignature.

(** ** [signature.ts] *)

(** The properties of the parsed payload, as found. *)
Record SignedMessage := mkSigned {
  adminAddress : option json;
  signed_message : option json;
  signature : option json;
}.

Section AdminSignature.
(** [StrKey.decodeEd25519PublicKey], [Buffer.from(x, 'utf-8')], [Buffer.from(x, 'base64')]
    on any JavaScript value, and the detached verification; [None] when they throw. *)
Variable decode_key : option json → option string.
Variable buffer_utf8 : option json → option string.
Variable buffer_base64 : option json → option string.
Variable nacl_verify : string → string → string → option bool.
Variable JSON_parse : string → option json.
(** [Buffer.from(encoded, 'base64').toString('utf-8')]. *)
Variable base64_to_utf8 : string → string.

Definition verifySignature (publicKey message signature : option json) : bool :=
  match decode_key publicKey, buffer_utf8 message, buffer_base64 signature with
  | Some k, Some m, Some s => default false (nacl_verify m s k)
  | _, _, _ => false
  end.

Definition parseAuthHeader (authHeader : option string) : option SignedMessage :=
  match authHeader with
  | None => None
  | Some h =>
      if startsWith "Bearer " h then
        match JSON_parse (base64_to_utf8 (slice_from 7 h)) with
        | None | Some JNull => None
        | Some payload =>
            Some (mkSigned (prop "admin_address" payload) (prop "message" payload)
                    (prop "signature" payload))
        end
      else None
  end.

End AdminSignature.

(** ** Theorems *)

Section theorems.
Context `{StrKey}.
Variable CONTRACT_ID : string.
Variable decode_envelope : string → envelope + exn.

(** What an accepted transaction satisfies. *)
Record acceptable (now : Z) (tx : Transaction) (signer contract : string) : Prop := {
  acc_invocation : ∃ h k rest, first_invocation (operations tx) =
      Some (ContractAddress h, ScvAddress (AccountAddress k) :: rest) ∧
      contract = encodeContract h ∧ signer = encodeEd25519PublicKey k ∧
      decodeContract CONTRACT_ID = Some h ∧
      ∃ s, s ∈ signatures tx ∧ first4 (hint s) = last4 k;
  acc_time : ∀ b, timeBounds tx = Some b →
      (maxTime b = 0 ∨ now / 1000 ≤ maxTime b) ∧ (minTime b ≤ 0 ∨ minTime b ≤ now / 1000);
}.

Lemma checkTimeBounds_None now tx :
  checkTimeBounds now tx = Ret None ↔
  ∀ b, timeBounds tx = Some b →
    (maxTime b = 0 ∨ now / 1000 ≤ maxTime b) ∧ (minTime b ≤ 0 ∨ minTime b ≤ now / 1000).
Proof.
  unfold checkTimeBounds. destruct (timeBounds tx) as [b|]; [|naive_solver].
  destruct (negb (maxTime b =? 0) && (maxTime b <? now / 1000)) eqn:E1;
    [|destruct ((0 <? minTime b) && (now / 1000 <? minTime b)) eqn:E2;
      [destruct (valid_time (minTime b * 1000))|]];
    (split; [intros ? b' [= <-]; try done; lia|intros Hb; specialize (Hb b eq_refl)]); lia || done.
Qed.

(** C3: [verifyTransactionXdr] accepts exactly the transactions whose first contract
    invocation targets the configured contract with an account as first argument, whose
    time bounds contain the current second, and that carry a signature whose hint is the
    tail of that account's key. *)
Theorem verifyTransactionXdr_accepts now xdr signer contract :
  verifyTransactionXdr CONTRACT_ID decode_envelope now xdr =
    Ret (VerificationSuccess signer contract) ↔
  ∃ tx, (decode_envelope xdr = inl (PlainTx tx) ∨ decode_envelope xdr = inl (FeeBump tx)) ∧
        acceptable now tx signer contract.
Proof.
  assert (∀ tx, verify_decoded CONTRACT_ID now tx = Ret (VerificationSuccess signer contract) ↔
                acceptable now tx signer contract) as Hd.
  { intros tx. unfold verify_decoded, extractContractId, extractContributorArg, contractIdBytes.
    split.
    - destruct (first_invocation (operations tx)) as [[[|h] args]|] eqn:Ef; try done.
      rewrite decode_encode_contract.
      destruct (decodeContract CONTRACT_ID) as [x|] eqn:Ec; [|done].
      destruct (String.eqb_spec x h) as [->|]; [|done].
      destruct (checkTimeBounds now tx) as [[[]|]|] eqn:Et; [|done| |done].
      { unfold checkTimeBounds in Et. by repeat case_match. }
      destruct args as [|[[k|]|] args]; try done.
      unfold checkSignerMatchesContributor. destruct (signatures tx) as [|s sigs] eqn:Es; [done|].
      rewrite decode_encode_key. destruct (existsb _ _) eqn:Ex; [|done].
      intros [= <- <-]. apply existsb_exists in Ex as (s' & Hin & Heq%String.eqb_eq).
      split; [|by apply checkTimeBounds_None].
      exists h, k, args. split_and!; [done..|]. exists s'. rewrite Es.
      split; [by apply list_elem_of_In|done].
    - intros [(h & k & rest & -> & -> & -> & -> & s & Hin & Hs) Ht].
      rewrite decode_encode_contract, String.eqb_refl.
      apply checkTimeBounds_None in Ht as ->.
      unfold checkSignerMatchesContributor. rewrite decode_encode_key.
      assert (existsb (λ s, String.eqb (first4 (hint s)) (last4 k)) (signatures tx) = true) as Hx.
      { apply existsb_exists. exists s. split; [by apply list_elem_of_In|].
        by apply String.eqb_eq. }
      destruct (signatures tx); [set_solver|]. by rewrite Hx. }
  unfold verifyTransactionXdr. destruct (decode_envelope xdr) as [[tx|tx]|err] eqn:E.
  - rewrite Hd. naive_solver.
  - rewrite Hd. naive_solver.
  - split; [done|]. naive_solver.
Qed.

(** Replace every signature by the given bytes, keeping the hints. *)
Definition forge (bytes : string) (tx : Transaction) : Transaction :=
  mkTransaction (operations tx) (timeBounds tx)
    ((λ s, mkSignature (hint s) bytes) <$> signatures tx) (memo_text tx) (tx_hash tx)
    (tx_toXDR tx).

Lemma checkSigner_forge bytes tx addr :
  checkSignerMatchesContributor (forge bytes tx) addr = checkSignerMatchesContributor tx addr.
Proof.
  assert (∀ h (sigs : list Signature),
    existsb (λ s, String.eqb (first4 (hint s)) h) ((λ s, mkSignature (hint s) bytes) <$> sigs) =
    existsb (λ s, String.eqb (first4 (hint s)) h) sigs) as Hx.
  { intros h. induction sigs as [|s sigs IH]; [done|]. simpl. by f_equal. }
  unfold checkSignerMatchesContributor. simpl.
  destruct (signatures tx) as [|s sigs]; [done|].
  change ((λ s0, mkSignature (hint s0) bytes) <$> (s :: sigs)) with
    (mkSignature (hint s) bytes :: ((λ s0, mkSignature (hint s0) bytes) <$> sigs)).
  destruct (decodeEd25519PublicKey addr) as [k|]; [|done].
  f_equal. specialize (Hx (last4 k) (s :: sigs)). by apply (f_equal (λ b : bool, if b then _ else _)).
Qed.

(** the verdict does not depend on the signatures themselves: forging every one of
    them, hints kept, changes nothing. *)
Theorem verify_ignores_signature_bytes now bytes tx :
  verify_decoded CONTRACT_ID now (forge bytes tx) = verify_decoded CONTRACT_ID now tx.
Proof.
  unfold verify_decoded.
  change (extractContractId (forge bytes tx)) with (extractContractId tx).
  change (extractContributorArg (forge bytes tx)) with (extractContributorArg tx).
  change (checkTimeBounds now (forge bytes tx)) with (checkTimeBounds now tx).
  destruct (extractContractId tx); [|done].
  destruct (extractContributorArg tx); [|done].
  by rewrite checkSigner_forge.
Qed.

End theorems.

Section submit.
Context {S : Type}.
Import XdrSignature.

(** [verifyAndSubmit] submits a transaction only after all of its checks: if the network
    state changed or the result is a success, then the envelope decodes to an unexpired
    transaction targeting the contract with a signature that verifies for the expected
    signer, and what was submitted is that transaction. *)
Theorem verifyAndSubmit_gate fromXDR verify (submitTx : option (string → S → outcome json * S))
    opts w o w' :
  verifyAndSubmit fromXDR verify submitTx opts w = (o, w') →
  (w' ≠ w ∨ ∃ r, o = Ret r ∧ success r = true) →
  ∃ tx, fromXDR (xdrEnvelope opts) = inl tx ∧
    is_expired (nowUnix opts) tx = false ∧
    targets_contract (xdrEnvelope opts) (contractId opts) tx = true ∧
    (∃ sig, sig ∈ signatures tx ∧
            verify (expectedSigner opts) (tx_hash tx) (sig_bytes sig) = Some true) ∧
    match submitTx with
    | Some submit => w' = (call (submit (tx_toXDR tx)) w).2
    | None => w' = w
    end.
Proof.
  intros Hv Hc. unfold verifyAndSubmit in Hv.
  destruct (fromXDR (xdrEnvelope opts)) as [tx|e]; [|unfold_m; naive_solver].
  destruct (is_expired (nowUnix opts) tx) eqn:E1; [unfold_m; naive_solver|].
  destruct (targets_contract _ _ tx) eqn:E2; [|unfold_m; naive_solver].
  destruct (signed_by verify (expectedSigner opts) tx) eqn:E3; [|unfold_m; naive_solver].
  exists tx. split_and!; [done..| |].
  - apply existsb_exists in E3 as (sig & Hin & Hs). exists sig.
    split; [by apply list_elem_of_In|].
    by destruct (verify (expectedSigner opts) (tx_hash tx) (sig_bytes sig)) as [[]|].
  - simpl in Hv. destruct submitTx as [submit|]; unfold_m; [|by simplify_eq].
    destruct (call (submit (tx_toXDR tx)) w) as [[|] w1]; by simplify_eq.
Qed.

End submit.

(** ** Concrete runs *)

Definition demo_strkey : StrKey.
Proof.
  refine {| encodeEd25519PublicKey k := "G" +:+ k; encodeContract k := "C" +:+ k;
            decodeEd25519PublicKey s := Some (slice_from 1 s);
            decodeContract s := Some (slice_from 1 s) |};
    intros k; cbn; f_equal; exact (str_lst k).
Defined.

Definition demo_tx : Transaction :=
  mkTransaction
    [InvokeHostFunction (InvokeContract (ContractAddress "ONTRACT")
       [ScvAddress (AccountAddress "12345")])]
    (Some (mkBounds 0 100)) [mkSignature "2345" "sig"] (Some "CONTRACT") "hash" "xdr".

Definition demo_options : XdrSignature.VerifyOptions :=
  XdrSignature.mkOptions "xdr" "G12345" "CONTRACT" 50.

Definition demo_submit (x : string) (n : nat) : outcome json * nat :=
  (Ret (JStr x), Datatypes.S n).

Definition demo_verify (signer hash sig : string) : option bool := Some (String.eqb sig "sig").

Lemma verifyAndSubmit_gate_witness :
  ∃ tx, (inl demo_tx : Transaction + exn) = inl tx ∧
    XdrSignature.is_expired 50 tx = false ∧
    XdrSignature.targets_contract "xdr" "CONTRACT" tx = true ∧
    (∃ sig, sig ∈ signatures tx ∧ demo_verify "G12345" (tx_hash tx) (sig_bytes sig) = Some true) ∧
    World 1%nat [] = (call (demo_submit (tx_toXDR tx)) (World 0%nat [])).2.
Proof.
  apply (verifyAndSubmit_gate (λ _, inl demo_tx) demo_verify (Some demo_submit) demo_options
    (World 0%nat []) (Ret (XdrSignature.mkResult true 200 None (Some (JStr "xdr"))))
    (World 1%nat [])); [vm_compute; reflexivity|by left].
Defined.

Lemma verifyTransactionXdr_accepts_witness :
  @verifyTransactionXdr demo_strkey "CONTRACT" (λ _, inl (PlainTx demo_tx)) 50000 "xdr" =
    Ret (VerificationSuccess "G12345" "CONTRACT") ↔
  ∃ tx, ((λ _ : string, inl (PlainTx demo_tx) : envelope + exn) "xdr" = inl (PlainTx tx) ∨
         (λ _ : string, inl (PlainTx demo_tx) : envelope + exn) "xdr" = inl (FeeBump tx)) ∧
    @acceptable demo_strkey "CONTRACT" 50000 tx "G12345" "CONTRACT".
Proof.
  exact (@verifyTransactionXdr_accepts demo_strkey "CONTRACT" (λ _, inl (PlainTx demo_tx)) 50000
    "xdr" "G12345" "CONTRACT").
Defined.

Example verifyTransactionXdr_demo :
  @verifyTransactionXdr demo_strkey "CONTRACT" (λ _, inl (PlainTx demo_tx)) 50000 "xdr" =
    Ret (VerificationSuccess "G12345" "CONTRACT").
Proof. vm_compute. reflexivity. Qed.

Lemma verify_ignores_signature_bytes_witness :
  @verify_decoded demo_strkey "CONTRACT" 50000 (forge "" demo_tx) =
  @verify_decoded demo_strkey "CONTRACT" 50000 demo_tx.
Proof. exact (@verify_ignores_signature_bytes demo_strkey "CONTRACT" 50000 "" demo_tx). Defined.
