(* ===== verification/Db.v ===== *)
(** * The database the routes share

    The tables of [src/db.ts] as lists of rows in insertion order, and what a SQL statement
    needs before it can run: the tables, columns and unique constraints it names, and
    parameters that fit an INTEGER column.  A statement whose needs the schema does not
    meet is refused by the server and changes nothing; the statements themselves are
    written next to the routes that send them.  [migrate_schema] is the schema [migrate]
    creates; it is a parameter everywhere else. *)

From Stdlib Require Import String Sorting.Sorted.
From S2P Require Import Prelude Js Decimal.

#[local] Open Scope string_scope.
#[local] Open Scope list_scope.
#[local] Open Scope Z_scope.

(** ** Rows *)

Record org_row := mkOrg {
  o_org_id : string;
  o_contract_address : option string;
  o_github_org : option string;
  o_org_cap : option Z;
}.

Record issue_row := mkIssue {
  i_id : Z;
  i_org_id : string;
  i_title : string;
  i_status : string;
}.

Record application_row := mkApplication {
  ap_contributor : string;
  ap_org_id : string;
  ap_issue_id : Z;
  ap_status : string;
  ap_created_at : Z;
}.

Record assignment_row := mkAssignment {
  as_contributor : string;
  as_org_id : string;
  as_issue_id : Z;
  as_status : string;
  as_created_at : Z;
}.

Record contract_event_row := mkContractEvent {
  ce_id : Z;
  ce_event_type : string;
  ce_contributor : option string;
  ce_org_id : option string;
  ce_issue_id : option Z;
  ce_tx_hash : string;
  ce_event_index : Z;
  ce_ledger_seq : Z;
  ce_timestamp : Z;
}.

Record label_row := mkLabel {
  lb_org_id : string;
  lb_issue_number : Z;
  lb_label : string;
}.

Record webhook_row := mkWebhook {
  wh_id : Z;
  wh_org_id : string;
  wh_url : string;
  wh_secret : string;
  wh_created_at : Z;
}.

Record dead_letter := mkDeadLetter {
  dl_webhook_id : Z;
  dl_payload : string;
  dl_last_error : string;
  dl_attempts : Z;
}.

Record pending_row := mkPending {
  p_admin : string;
  p_org_id : string;
  p_maintainer : string;
  p_xdr : string;
}.

#[export] Instance issue_row_eq_dec : EqDecision issue_row.
Proof. solve_decision. Defined.
#[export] Instance application_row_eq_dec : EqDecision application_row.
Proof. solve_decision. Defined.
#[export] Instance assignment_row_eq_dec : EqDecision assignment_row.
Proof. solve_decision. Defined.
#[export] Instance label_row_eq_dec : EqDecision label_row.
Proof. solve_decision. Defined.

Record db := mkDb {
  orgs : list org_row;
  issues : list issue_row;
  next_issue_id : Z;
  applications : list application_row;
  assignments : list assignment_row;
  contract_events : list contract_event_row;
  next_event_id : Z;
  label_records : list label_row;
  org_webhooks : list webhook_row;
  next_webhook_id : Z;
  webhook_dead_letters : list dead_letter;
  pending_transactions : list pending_row;
}.

Definition empty_db : db := mkDb [] [] 1 [] [] [] 1 [] [] 1 [] [].

Definition set_orgs (x : list org_row) (d : db) : db :=
  mkDb x (issues d) (next_issue_id d) (applications d) (assignments d) (contract_events d)
    (next_event_id d) (label_records d) (org_webhooks d) (next_webhook_id d)
    (webhook_dead_letters d) (pending_transactions d).
Definition set_issues (x : list issue_row) (n : Z) (d : db) : db :=
  mkDb (orgs d) x n (applications d) (assignments d) (contract_events d)
    (next_event_id d) (label_records d) (org_webhooks d) (next_webhook_id d)
    (webhook_dead_letters d) (pending_transactions d).
Definition set_assignments (x : list assignment_row) (d : db) : db :=
  mkDb (orgs d) (issues d) (next_issue_id d) (applications d) x (contract_events d)
    (next_event_id d) (label_records d) (org_webhooks d) (next_webhook_id d)
    (webhook_dead_letters d) (pending_transactions d).
Definition set_contract_events (x : list contract_event_row) (n : Z) (d : db) : db :=
  mkDb (orgs d) (issues d) (next_issue_id d) (applications d) (assignments d) x n
    (label_records d) (org_webhooks d) (next_webhook_id d)
    (webhook_dead_letters d) (pending_transactions d).
Definition set_labels (x : list label_row) (d : db) : db :=
  mkDb (orgs d) (issues d) (next_issue_id d) (applications d) (assignments d)
    (contract_events d) (next_event_id d) x (org_webhooks d) (next_webhook_id d)
    (webhook_dead_letters d) (pending_transactions d).
Definition set_webhooks (x : list webhook_row) (n : Z) (d : db) : db :=
  mkDb (orgs d) (issues d) (next_issue_id d) (applications d) (assignments d)
    (contract_events d) (next_event_id d) (label_records d) x n
    (webhook_dead_letters d) (pending_transactions d).
Definition set_dead_letters (x : list dead_letter) (d : db) : db :=
  mkDb (orgs d) (issues d) (next_issue_id d) (applications d) (assignments d)
    (contract_events d) (next_event_id d) (label_records d) (org_webhooks d)
    (next_webhook_id d) x (pending_transactions d).
Definition set_pending (x : list pending_row) (d : db) : db :=
  mkDb (orgs d) (issues d) (next_issue_id d) (applications d) (assignments d)
    (contract_events d) (next_event_id d) (label_records d) (org_webhooks d)
    (next_webhook_id d) (webhook_dead_letters d) x.

(** ** Schemas *)

Record table_def := mkTable {
  columns : list string;
  uniques : list (list string);
}.

Definition schema := list (string * table_def).

(** The tables [migrate] creates, with their primary keys and unique constraints. *)
Definition migrate_schema : schema := [
  ("orgs", mkTable ["org_id"; "contract_address"; "created_at"] [["org_id"]]);
  ("events", mkTable ["id"; "org_id"; "event_type"; "issue_id"; "contributor"; "tx_hash";
                      "occurred_at"; "created_at"] [["id"]]);
  ("issues", mkTable ["id"; "org_id"; "title"; "status"; "created_at"] [["id"]]);
  ("maintainers", mkTable ["address"; "org_id"] [["address"; "org_id"]]);
  ("applications", mkTable ["contributor"; "org_id"; "issue_id"; "created_at"]
                     [["contributor"; "org_id"; "issue_id"]]);
  ("assignments", mkTable ["contributor"; "org_id"; "issue_id"; "created_at"]
                    [["contributor"; "org_id"; "issue_id"]]);
  ("api_keys", mkTable ["id"; "key_hash"; "label"; "scopes"; "expires_at"; "created_at"]
                 [["id"]; ["key_hash"]]);
  ("github_issue_labels", mkTable ["org_id"; "issue_id"; "label_name"; "created_at"]
                            [["org_id"; "issue_id"; "label_name"]]);
  ("contract_events", mkTable ["id"; "event_type"; "contributor"; "org_id"; "issue_id";
                               "tx_hash"; "event_index"; "ledger_seq"; "timestamp";
                               "created_at"] [["id"]; ["tx_hash"; "event_index"]])
].

(** A schema in which every statement of the routes runs; the concrete runs of the other
    files use it. *)
Definition full_schema : schema := [
  ("orgs", mkTable ["org_id"; "contract_address"; "created_at"; "github_org"; "org_cap"]
             [["org_id"]]);
  ("issues", mkTable ["id"; "org_id"; "title"; "status"; "created_at"] [["id"]; ["org_id"; "id"]]);
  ("applications", mkTable ["id"; "contributor"; "org_id"; "issue_id"; "status"; "created_at"]
                     [["contributor"; "org_id"; "issue_id"]]);
  ("assignments", mkTable ["contributor"; "org_id"; "issue_id"; "status"; "created_at"]
                    [["contributor"; "org_id"; "issue_id"]]);
  ("contract_events", mkTable ["id"; "event_type"; "contributor"; "org_id"; "issue_id";
                               "tx_hash"; "event_index"; "ledger_seq"; "timestamp";
                               "created_at"] [["id"]; ["tx_hash"; "event_index"]]);
  ("label_records", mkTable ["org_id"; "issue_number"; "label"]
                      [["org_id"; "issue_number"; "label"]]);
  ("org_webhooks", mkTable ["id"; "org_id"; "url"; "secret"; "created_at"] [["id"]]);
  ("webhook_dead_letters", mkTable ["webhook_id"; "payload"; "last_error"; "attempts"] []);
  ("pending_transactions", mkTable ["admin_address"; "org_id"; "maintainer_address";
                                    "transaction_xdr"; "created_at"]
                             [["admin_address"; "maintainer_address"; "org_id"]])
].

(** What a statement needs: columns of a table, the target of an ON CONFLICT clause, a
    number that is a valid INTEGER parameter. *)
Inductive requirement :=
  | Columns (t : string) (cs : list string)
  | ConflictTarget (t : string) (cs : list string)
  | Int4 (n : jsnum).

Definition in_int4 (z : Z) : bool := (-2147483648 <=? z) && (z <=? 2147483647).

Definition meets (sc : schema) (r : requirement) : bool :=
  match r with
  | Columns t cs =>
      match assoc t sc with
      | Some td => forallb (λ c, bool_decide (c ∈ columns td)) cs
      | None => false
      end
  | ConflictTarget t cs =>
      match assoc t sc with Some td => bool_decide (cs ∈ uniques td) | None => false end
  | Int4 n => match n with Fin z => in_int4 z | NaN => false end
  end.

(** The server's error message. *)
Definition complaint (r : requirement) : string :=
  match r with
  | Columns t _ => "column or relation does not exist: " +:+ t
  | ConflictTarget _ _ =>
      "there is no unique or exclusion constraint matching the ON CONFLICT specification"
  | Int4 NaN => "invalid input syntax for type integer"
  | Int4 (Fin _) => "value is out of range for type integer"
  end.

(** The first requirement that is not met. *)
Definition unmet (sc : schema) (reqs : list requirement) : option requirement :=
  snd <$> list_find (λ r, meets sc r = false) reqs.

(** ** Access to the database from a service state *)

Class HasDb (S : Type) := {
  get_db : S → db;
  set_db : db → S → S;
  get_set_db : ∀ d s, get_db (set_db d s) = d;
  set_set_db : ∀ d d' s, set_db d (set_db d' s) = set_db d s;
  set_get_db : ∀ s, set_db (get_db s) s = s;
}.

#[export, program] Instance HasDb_self : HasDb db := {| get_db d := d; set_db d _ := d |}.
Solve Obligations with done.

Section query.
Context {S : Type} `{HasDb S}.
Variable sc : schema.

(** [await pool.query(...)]. *)
Definition query {A} (reqs : list requirement) (f : db → A * db) : M S A :=
  call (λ s, match unmet sc reqs with
             | Some r => (Throw (Error (complaint r)), s)
             | None => let '(a, d) := f (get_db s) in (Ret a, set_db d s)
             end).

(** A statement that only reads. *)
Definition select {A} (reqs : list requirement) (f : db → A) : M S A :=
  query reqs (λ d, (f d, d)).

Lemma query_ok {A} reqs (f : db → A * db) s :
  unmet sc reqs = None →
  query reqs f (World s []) =
    (Ret (f (get_db s)).1, World (set_db (f (get_db s)).2 s) []).
Proof. intros Hu. unfold query, call. simpl. rewrite Hu. by destruct (f (get_db s)). Qed.

Lemma select_ok {A} reqs (f : db → A) s :
  unmet sc reqs = None → select reqs f (World s []) = (Ret (f (get_db s)), World s []).
Proof. intros Hu. unfold select. rewrite query_ok by done. simpl. by rewrite set_get_db. Qed.

Lemma query_unmet {A} reqs (f : db → A * db) r s :
  unmet sc reqs = Some r →
  query reqs f (World s []) = (Throw (Error (complaint r)), World s []).
Proof. intros Hu. unfold query, call. simpl. by rewrite Hu. Qed.

(** A read leaves the state alone, whatever the faults. *)
Lemma select_frame {A} reqs (f : db → A) w o w' :
  select reqs f w = (o, w') → st w' = st w ∧ sched w' = tail (sched w).
Proof.
  unfold select, query, call.
  destruct w as [s [|[|e|e] fs]], (unmet sc reqs); simpl; intros [= <- <-];
    simpl; rewrite ?set_get_db; done.
Qed.

(** A read that answers answers from the state it found. *)
Lemma select_Ret {A} reqs (f : db → A) w a w' :
  select reqs f w = (Ret a, w') → a = f (get_db (st w)) ∧ st w' = st w.
Proof.
  unfold select, query, call.
  destruct w as [s [|[|e|e] fs]], (unmet sc reqs); simpl; intros [= <- <-];
    simpl; rewrite ?set_get_db; done.
Qed.

Lemma keeps_query {A} (P : S → Prop) reqs (f : db → A * db) :
  (∀ s, P s → P (set_db (f (get_db s)).2 s)) → keeps P (query reqs f).
Proof.
  intros Hf. apply keeps_call. intros s Hs. specialize (Hf s Hs).
  destruct (unmet sc reqs); [done|]. by destruct (f (get_db s)).
Qed.

Lemma keeps_select {A} (P : S → Prop) reqs (f : db → A) : keeps P (select reqs f).
Proof. apply keeps_query. intros s Hs. simpl. by rewrite set_get_db. Qed.

End query.

Lemma shrinks_query {S : Type} `{HasDb S} sc {A} reqs (f : db → A * db) :
  shrinks (query (S := S) sc reqs f).
Proof. apply shrinks_call. Qed.

#[export] Hint Resolve keeps_select shrinks_query : wg.

(** [row.count] of a [SELECT COUNT( * )]: a string. *)
Definition count_rows {A} (P : A → Prop) `{∀ x, Decision (P x)} (l : list A) : string :=
  pretty (Z.of_nat (length (filter P l))).

Lemma parse_count {A} (P : A → Prop) `{∀ x, Decision (P x)} (l : list A) :
  parseInt (count_rows P l) = Fin (Z.of_nat (length (filter P l))).
Proof. unfold count_rows. apply parseInt_pretty. lia. Qed.

(** ** [ORDER BY key DESC]

    A stable sort: rows with the same key stay in table order. *)
Fixpoint insert_desc {A} (key : A → Z) (e : A) (l : list A) : list A :=
  match l with
  | [] => [e]
  | x :: l' => if key x <? key e then e :: l else x :: insert_desc key e l'
  end.

Definition order_desc {A} (key : A → Z) (l : list A) : list A :=
  fold_left (λ acc e, insert_desc key e acc) l [].

(** [ORDER BY key ASC]. *)
Definition order_asc {A} (key : A → Z) (l : list A) : list A := order_desc (λ x, - key x) l.

Definition descending {A} (key : A → Z) : list A → Prop :=
  StronglySorted (λ a b, key b ≤ key a).

Section order.
Context {A : Type} (key : A → Z).

Lemma insert_desc_perm e l : insert_desc key e l ≡ₚ e :: l.
Proof.
  induction l as [|x l IH]; [done|]. cbn. case_match; [done|]. rewrite IH. constructor.
Qed.

Lemma insert_desc_sorted e l : descending key l → descending key (insert_desc key e l).
Proof.
  induction 1 as [|x l Hl IH Hx]; cbn; [repeat constructor|].
  destruct (key x <? key e) eqn:E.
  - constructor; [by constructor|]. constructor; [lia|].
    eapply Forall_impl; [exact Hx|]. cbn. lia.
  - constructor; [done|]. rewrite insert_desc_perm. constructor; [lia|done].
Qed.

Lemma order_desc_spec l : order_desc key l ≡ₚ l ∧ descending key (order_desc key l).
Proof.
  unfold order_desc.
  assert (∀ acc, descending key acc →
    fold_left (λ acc e, insert_desc key e acc) l acc ≡ₚ l ++ acc ∧
    descending key (fold_left (λ acc e, insert_desc key e acc) l acc)) as H.
  { induction l as [|x l IH]; intros acc Ha; cbn [fold_left app]; [done|].
    destruct (IH (insert_desc key x acc)) as [H1 H2]; [by apply insert_desc_sorted|].
    split; [|done]. rewrite H1, insert_desc_perm. by rewrite Permutation_middle. }
  destruct (H []) as [H1 H2]; [constructor|]. by rewrite app_nil_r in H1.
Qed.

End order.

(** Counting by key over distinct keys counts every element whose key is one of them. *)
Lemma count_by_key {A K} `{EqDecision K} (g : A → K) (ks : list K) (l : list A) : NoDup ks →
  foldr Z.add 0 ((λ k, Z.of_nat (length (filter (λ x, g x = k) l))) <$> ks) =
  Z.of_nat (length (filter (λ x, g x ∈ ks) l)).
Proof.
  induction 1 as [|k ks Hk Hn IH].
  - rewrite filter_none; [done|]. apply Forall_true. set_solver.
  - rewrite fmap_cons. cbn [foldr]. rewrite IH. clear IH.
    induction l as [|x l IHl]; [done|]. rewrite !filter_cons.
    repeat case_decide; cbn [length]; try lia; exfalso; set_solver.
Qed.

Lemma concat_fmap_fmap {A B} (f : A → B) (ll : list (list A)) :
  concat ((λ l : list A, f <$> l) <$> ll) = f <$> concat ll.
Proof. induction ll as [|l ll IH]; [done|]. cbn. by rewrite fmap_app, <- IH. Qed.
