(* ===== verification/Cache.v ===== *)
(** * The Redis cache helpers ([src/services/redis.ts]) and the live-event bus

    [getCache], [setCache] and [invalidateCache] over a Redis server that may fail at any
    command, with the hit and miss counters; the in-process event bus
    ([src/services/event-bus.ts]) and the server-sent-event streams fed by it
    ([src/routes/events.ts]). *)

From Stdlib Require Import String Ascii.
From S2P Require Import Prelude Js.

#[local] Open Scope string_scope.
#[local] Open Scope list_scope.
#[local] Open Scope Z_scope.

(** ** The Redis server

    [r_now r] is the content visible at the moment of the command: a key whose time to live
    has run out is gone from it. *)
Class RedisStore (R : Type) := {
  r_get : string → R → option string;
  r_setex : string → Z → string → R → R;
  r_keys : string → R → list string;
  r_del : list string → R → R;
  r_get_setex : ∀ k ttl v r, 0 < ttl → r_get k (r_setex k ttl v r) = Some v;
  r_get_setex_ne : ∀ k k' ttl v r, k ≠ k' → r_get k' (r_setex k ttl v r) = r_get k' r;
  r_get_del : ∀ k ks r, r_get k (r_del ks r) = if decide (k ∈ ks) then None else r_get k r;
}.

Record CacheMetrics := mkMetrics { hits : Z; misses : Z }.

Record cache (R : Type) := Cache { redis : R; metrics : CacheMetrics }.
Arguments Cache {R} redis metrics.
Arguments redis {R} c.
Arguments metrics {R} c.

(** A service state that contains the cache. *)
Class HasCache (S R : Type) := {
  get_cache : S → cache R;
  set_cache : cache R → S → S;
  get_set_cache : ∀ c s, get_cache (set_cache c s) = c;
  set_set_cache : ∀ c c' s, set_cache c (set_cache c' s) = set_cache c s;
}.

#[export, program] Instance HasCache_self {R} : HasCache (cache R) R :=
  {| get_cache c := c; set_cache c _ := c |}.
Solve Obligations with done.

Section cache.
Context {S R : Type} `{HasCache S R} `{RedisStore R}.
(** [JSON.parse], [None] when it throws, and [JSON.stringify]. *)
Variable JSON_parse : string → option json.
Variable JSON_stringify : json → string.

Definition redis_call {A} (f : R → A * R) : M S A :=
  call (λ s, let '(a, r) := f (redis (get_cache s)) in
             (Ret a, set_cache (Cache r (metrics (get_cache s))) s)).

Definition count_hit : M S unit :=
  modify (λ s, let c := get_cache s in
    set_cache (Cache (redis c) (mkMetrics (hits (metrics c) + 1) (misses (metrics c)))) s).

Definition count_miss : M S unit :=
  modify (λ s, let c := get_cache s in
    set_cache (Cache (redis c) (mkMetrics (hits (metrics c)) (misses (metrics c) + 1))) s).

(** [getCache(key)]: [JNull] is [null]. *)
Definition getCache (key : string) : M S json :=
  try_catch
    (cached ← redis_call (λ r, (r_get key r, r));
     match cached with
     | Some c =>
         if String.eqb c "" then
           _ ← count_miss; mret JNull
         else
           _ ← count_hit;
           match JSON_parse c with
           | Some v => mret v
           | None => throw (ErrorObj "SyntaxError" "Unexpected token in JSON")
           end
     | None => _ ← count_miss; mret JNull
     end)
    (λ _, mret JNull).

Definition setCache (key : string) (value : json) (ttl : Z) : M S unit :=
  try_catch (redis_call (λ r, (tt, r_setex key ttl (JSON_stringify value) r)))
    (λ _, mret tt).

Definition invalidateCache (pattern : string) : M S unit :=
  try_catch
    (keys ← redis_call (λ r, (r_keys pattern r, r));
     match keys with
     | [] => mret tt
     | _ => redis_call (λ r, (tt, r_del keys r))
     end)
    (λ _, mret tt).

Definition getMetrics (s : S) : CacheMetrics := metrics (get_cache s).

End cache.

(** ** The event bus and the streams *)
Module EventBus.

Inductive LiveEventType := cap_updated | assignment_created | application_created.

Definition type_name (t : LiveEventType) : string :=
  match t with
  | cap_updated => "cap_updated"
  | assignment_created => "assignment_created"
  | application_created => "application_created"
  end.

Record LiveEvent := mkEvent { type : LiveEventType; data : json }.

(** The set of subscribers in insertion order; a subscriber is the stream whose response
    it writes to.  The state also holds what each response has received. *)
Record bus := Bus {
  subscribers : list nat;
  written : gmap nat (list string);
}.

Definition write (c : nat) (chunk : string) (b : bus) : bus :=
  Bus (subscribers b) (<[c := default [] (written b !! c) ++ [chunk]]> (written b)).

(** [subscribers.add(subscriber)] of a set: a known subscriber stays where it is. *)
Definition subscribeToLiveEvents (c : nat) (b : bus) : bus :=
  Bus (if decide (c ∈ subscribers b) then subscribers b else subscribers b ++ [c]) (written b).

Definition unsubscribe (c : nat) (b : bus) : bus :=
  Bus (filter (λ x, x ≠ c) (subscribers b)) (written b).

Section streams.
Variable JSON_stringify : json → string.

Definition newline : string := String (ascii_of_nat 10) "".

Definition frame (e : LiveEvent) : string :=
  "event: " +:+ type_name (type e) +:+ newline +:+ "data: " +:+ JSON_stringify (data e) +:+
  newline +:+ newline.

Definition connected_frame : string := ": connected" +:+ newline +:+ newline.
Definition heartbeat_frame : string := ": heartbeat" +:+ newline +:+ newline.

(** [publishLiveEvent]: every subscriber writes the frame, in subscription order. *)
Definition publishLiveEvent (e : LiveEvent) (b : bus) : bus :=
  fold_left (λ b c, write c (frame e) b) (subscribers b) b.

(** What happens to the streams: a client connects to [GET /api/events/stream], an event is
    published, the interval timer of a stream fires, a client goes away.  A timer fires only
    while its stream is open: [close] clears it. *)
Inductive stream_event :=
  | Connect (c : nat)
  | Publish (e : LiveEvent)
  | Heartbeat (c : nat)
  | Close (c : nat).

Definition step (b : bus) (ev : stream_event) : bus :=
  match ev with
  | Connect c => subscribeToLiveEvents c (write c connected_frame b)
  | Publish e => publishLiveEvent e b
  | Heartbeat c => if decide (c ∈ subscribers b) then write c heartbeat_frame b else b
  | Close c => unsubscribe c b
  end.

Definition run (b : bus) (evs : list stream_event) : bus := fold_left step evs b.

Definition empty_bus : bus := Bus [] ∅.

(** *** What one client is promised: the frames sent while it is connected *)
Fixpoint transcript (c : nat) (open : bool) (evs : list stream_event) : list string :=
  match evs with
  | [] => []
  | Connect c' :: evs' =>
      if decide (c' = c) then connected_frame :: transcript c true evs'
      else transcript c open evs'
  | Publish e :: evs' =>
      if open then frame e :: transcript c open evs' else transcript c open evs'
  | Heartbeat c' :: evs' =>
      if decide (c' = c) then
        if open then heartbeat_frame :: transcript c open evs' else transcript c open evs'
      else transcript c open evs'
  | Close c' :: evs' =>
      if decide (c' = c) then transcript c false evs' else transcript c open evs'
  end.

End streams.
End EventBus.

(** ** Theorems *)

Section cache_theorems.
Context {S R : Type} `{HasCache S R} `{RedisStore R}.
Variable JSON_parse : string → option json.
Variable JSON_stringify : json → string.

(** the cache helpers never throw: a failing Redis looks like a miss. *)
Theorem cache_never_throws key value ttl pattern w :
  (∃ v w', getCache JSON_parse key w = (Ret v, w')) ∧
  (∃ w', setCache JSON_stringify key value ttl w = (Ret tt, w')) ∧
  (∃ w', invalidateCache pattern w = (Ret tt, w')).
Proof.
  split_and!; [apply try_default| |].
  - destruct (try_default (redis_call (λ r, (tt, r_setex key ttl (JSON_stringify value) r)))
      tt w) as ([] & w' & Hw). by exists w'.
  - match goal with |- ∃ w', invalidateCache _ _ = _ => unfold invalidateCache end.
    match goal with |- context [try_catch ?m _ w] =>
      destruct (try_default m tt w) as ([] & w' & Hw) end. by exists w'.
Qed.

Lemma redis_call_fine {A} (f : R → A * R) s :
  redis_call f (World s []) =
    (Ret (f (redis (get_cache s))).1,
     World (set_cache (Cache (f (redis (get_cache s))).2 (metrics (get_cache s))) s) []).
Proof. unfold redis_call, call. simpl. by destruct (f (redis (get_cache s))). Qed.

(** What a read leaves behind, whatever the faults: the content is untouched, and a result
    that is not [null] was parsed from it. *)
Lemma getCache_spec key w :
  ∃ v w', getCache JSON_parse key w = (Ret v, w') ∧
    redis (get_cache (st w')) = redis (get_cache (st w)) ∧
    (v = JNull ∨ ∃ c, r_get key (redis (get_cache (st w))) = Some c ∧ JSON_parse c = Some v).
Proof.
  unfold getCache, redis_call, call, count_hit, count_miss, modify, local. unfold_m.
  destruct w as [s [|[|e|e] fs]]; simpl;
    [destruct (r_get key _) as [c|] eqn:Ec..|
     |]; simpl; try (by do 2 eexists; split_and!; [reflexivity|simpl; by rewrite ?get_set_cache|left]);
    (destruct (String.eqb c ""); simpl;
      [by do 2 eexists; split_and!; [reflexivity|simpl; by rewrite ?get_set_cache|left]|]);
    (destruct (JSON_parse c) as [v|] eqn:Ep; simpl;
      [do 2 eexists; split_and!; [reflexivity|simpl; by rewrite ?get_set_cache|right; eauto]
      |by do 2 eexists; split_and!; [reflexivity|simpl; by rewrite ?get_set_cache|left]]).
Qed.

(** What a write leaves behind: nothing, or the value under its key. *)
Lemma setCache_spec key value ttl w :
  ∃ w', setCache JSON_stringify key value ttl w = (Ret tt, w') ∧
    (redis (get_cache (st w')) = redis (get_cache (st w)) ∨
     redis (get_cache (st w')) = r_setex key ttl (JSON_stringify value) (redis (get_cache (st w)))).
Proof.
  unfold setCache, redis_call, call. unfold_m.
  destruct w as [s [|[|e|e] fs]]; simpl; eexists; (split; [reflexivity|]); simpl;
    rewrite ?get_set_cache; simpl; auto.
Qed.

(** a value written by [setCache] is what the next [getCache] of the key returns, and the
    read is counted as one hit; the encoding only has to parse back and not be empty. *)
Theorem setCache_getCache key value ttl s :
  0 < ttl → JSON_parse (JSON_stringify value) = Some value → JSON_stringify value ≠ "" →
  ∃ s', (setCache JSON_stringify key value ttl ≫= λ _, getCache JSON_parse key) (World s []) =
          (Ret value, World s' []) ∧
    hits (getMetrics s') = hits (getMetrics s) + 1 ∧
    misses (getMetrics s') = misses (getMetrics s).
Proof.
  intros Ht Hp Hne. eexists. unfold setCache, getCache.
  erewrite bind_intro; [|apply try_Ret; rewrite redis_call_fine; reflexivity].
  split.
  - apply try_Ret. erewrite bind_intro; [|rewrite redis_call_fine; reflexivity].
    simpl. rewrite get_set_cache. simpl. rewrite r_get_setex by done.
    destruct (String.eqb_spec (JSON_stringify value) ""); [done|].
    rewrite Hp. unfold_m. unfold count_hit, modify, local. reflexivity.
  - unfold getMetrics. simpl. rewrite !get_set_cache. simpl. done.
Qed.

(** every lookup that reaches Redis is counted exactly once, as a hit or as a miss. *)
Theorem getCache_counted key s v s' :
  getCache JSON_parse key (World s []) = (Ret v, World s' []) →
  hits (getMetrics s') + misses (getMetrics s') =
  hits (getMetrics s) + misses (getMetrics s) + 1 ∧
  (hits (getMetrics s') = hits (getMetrics s) + 1 ↔
   ∃ c, r_get key (redis (get_cache s)) = Some c ∧ c ≠ "").
Proof.
  unfold getCache, try_catch. unfold mbind, M_bind at 1.
  rewrite redis_call_fine. simpl.
  destruct (r_get key (redis (get_cache s))) as [c|].
  - destruct (String.eqb_spec c "") as [->|Hc].
    + unfold count_miss, modify, local. unfold_m. simpl. intros [= <- <-].
      unfold getMetrics. rewrite !get_set_cache. simpl. split; [lia|]. split; [lia|naive_solver].
    + unfold count_hit, modify, local. unfold_m. simpl.
      destruct (JSON_parse c); intros [= <- <-];
        unfold getMetrics; rewrite !get_set_cache; simpl; (split; [lia|]); (split; [eauto|lia]).
  - unfold count_miss, modify, local. unfold_m. simpl. intros [= <- <-].
    unfold getMetrics. rewrite !get_set_cache. simpl. split; [lia|]. split; [lia|naive_solver].
Qed.

End cache_theorems.

Section stream_theorems.
Import EventBus.
Variable JSON_stringify : json → string.

(** What a client has received so far. *)
Definition received (c : nat) (b : bus) : list string := default [] (written b !! c).

Lemma received_write c c' chunk b :
  received c (write c' chunk b) = received c b ++ (if decide (c' = c) then [chunk] else []).
Proof.
  unfold received, write. simpl. case_decide as Hc.
  - subst. by rewrite lookup_insert_eq.
  - rewrite lookup_insert_ne by done. by rewrite app_nil_r.
Qed.

Lemma publish_subscribers e l b :
  subscribers (fold_left (λ b c, write c (frame JSON_stringify e) b) l b) = subscribers b.
Proof. revert b. induction l as [|x l IH]; intros b; [done|]. simpl. by rewrite IH. Qed.

Lemma publish_received e l : ∀ b c, NoDup l →
  received c (fold_left (λ b c, write c (frame JSON_stringify e) b) l b) =
  received c b ++ (if decide (c ∈ l) then [frame JSON_stringify e] else []).
Proof.
  induction l as [|x l IH]; intros b c Hn; simpl.
  - by rewrite app_nil_r.
  - apply NoDup_cons in Hn as [Hx Hn]. rewrite IH, received_write by done.
    destruct (decide (x = c)) as [->|Hc].
    + rewrite (decide_False (P := c ∈ l)), decide_True by set_solver. by rewrite app_nil_r.
    + rewrite app_nil_r. f_equal. apply decide_ext. set_solver.
Qed.

Lemma step_NoDup b ev :
  NoDup (subscribers b) → NoDup (subscribers (step JSON_stringify b ev)).
Proof.
  intros Hn. destruct ev as [c|e|c|c]; simpl.
  - case_decide; [done|]. apply NoDup_app. split_and!; [done|set_solver|apply NoDup_singleton].
  - unfold publishLiveEvent. by rewrite publish_subscribers.
  - by case_decide.
  - by apply NoDup_filter.
Qed.

Lemma run_received evs : ∀ b c, NoDup (subscribers b) →
  received c (run JSON_stringify b evs) =
  received c b ++ transcript JSON_stringify c (bool_decide (c ∈ subscribers b)) evs.
Proof.
  induction evs as [|ev evs IH]; intros b c Hn; simpl; [by rewrite app_nil_r|].
  rewrite IH by (by apply step_NoDup). destruct ev as [c'|e|c'|c']; simpl.
  - assert (received c (subscribeToLiveEvents c' (write c' connected_frame b)) =
            received c (write c' connected_frame b)) as -> by done.
    rewrite received_write, <- app_assoc. f_equal.
    destruct (decide (c' = c)) as [->|Hc]; simpl.
    + rewrite bool_decide_true; [done|]. case_decide; set_solver.
    + do 2 f_equal. apply bool_decide_ext. case_decide; set_solver.
  - unfold publishLiveEvent. rewrite publish_received, publish_subscribers by done.
    rewrite <- app_assoc. f_equal. case_decide as Hc.
    + by rewrite bool_decide_true.
    + by rewrite bool_decide_false.
  - destruct (decide (c' ∈ subscribers b)) as [Hin|Hin].
    + rewrite received_write, <- app_assoc. f_equal.
      destruct (decide (c' = c)) as [->|Hc]; [|done].
      change (subscribers (write c heartbeat_frame b)) with (subscribers b).
      by rewrite !(bool_decide_true (c ∈ subscribers b)).
    + f_equal. destruct (decide (c' = c)) as [->|Hc]; [|done].
      by rewrite (bool_decide_false (c ∈ subscribers b)).
  - f_equal. destruct (decide (c' = c)) as [->|Hc].
    + rewrite bool_decide_false; [done|]. rewrite list_elem_of_filter. naive_solver.
    + f_equal. apply bool_decide_ext. rewrite list_elem_of_filter. naive_solver.
Qed.

(** whatever the interleaving of connections, events, timers and disconnections, each
    client has received exactly the frames of the events published while it was connected,
    in order and once each, its heartbeats, and nothing after it left. *)
Theorem stream_transcript evs c :
  received c (run JSON_stringify empty_bus evs) = transcript JSON_stringify c false evs.
Proof. rewrite run_received by constructor. done. Qed.

End stream_theorems.

(** ** Concrete runs *)

Definition map_redis : RedisStore (gmap string string).
Proof.
  refine {| r_get k r := r !! k; r_setex k _ v r := <[k := v]> r;
            r_keys _ r := (map_to_list r).*1;
            r_del ks r := filter (λ kv : string * string, kv.1 ∉ ks) r |}.
  - intros. apply lookup_insert_eq.
  - intros. by apply lookup_insert_ne.
  - intros k ks r. case_decide as Hk.
    + apply map_lookup_filter_None. right. naive_solver.
    + destruct (r !! k) as [v|] eqn:E.
      * apply map_lookup_filter_Some. naive_solver.
      * apply map_lookup_filter_None. by left.
Defined.

Lemma setCache_getCache_witness :
  ∃ s', (@setCache _ _ HasCache_self map_redis (λ _, "1") "k" (jint 1) 30 ≫= λ _,
         @getCache _ _ HasCache_self map_redis (λ _, Some (jint 1)) "k")
          (World (Cache ∅ (mkMetrics 0 0)) []) = (Ret (jint 1), World s' []) ∧
    hits (getMetrics s') = 0 + 1 ∧ misses (getMetrics s') = 0.
Proof.
  apply (@setCache_getCache _ _ HasCache_self map_redis (λ _, Some (jint 1)) (λ _, "1") "k"
    (jint 1) 30 (Cache ∅ (mkMetrics 0 0))); done.
Defined.
