(* ===== verification/Dispatcher.v ===== *)
(** * Outgoing webhooks ([src/services/webhook-dispatcher.ts])

    Signing, delivery with retries and back-off, the dead-letter table, and the concurrent
    dispatch of one assignment event to every webhook of an organisation.  The remote
    endpoints are a parameter; the state records the requests sent and the waits. *)

From Stdlib Require Import String.
From S2P Require Import Prelude Js Db.

#[local] Open Scope string_scope.
#[local] Open Scope list_scope.
#[local] Open Scope Z_scope.

Record WebhookPayload := mkPayload {
  event : string;
  org_id : string;
  issue_id : Z;
  contributor : string;
  ledger : Z;
  timestamp : string;
}.

Inductive AssignmentEventType := assignment_created | assignment_completed | assignment_revoked.

Definition event_name (t : AssignmentEventType) : string :=
  match t with
  | assignment_created => "assignment.created"
  | assignment_completed => "assignment.completed"
  | assignment_revoked => "assignment.revoked"
  end.

Definition payload_json (p : WebhookPayload) : json :=
  obj [("event", Some (JStr (event p))); ("org_id", Some (JStr (org_id p)));
       ("issue_id", Some (jint (issue_id p))); ("contributor", Some (JStr (contributor p)));
       ("ledger", Some (jint (ledger p))); ("timestamp", Some (JStr (timestamp p)))].

Definition MAX_ATTEMPTS : nat := 3.

Record http_post := mkPost {
  post_url : string;
  post_headers : list (string * string);
  post_body : string;
}.

Record dispatch_state (N : Type) := DispatchState {
  ddb : db;
  net : N;
  posts : list http_post;
  slept : list Z;
}.
Arguments DispatchState {N} ddb net posts slept.
Arguments ddb {N} d.
Arguments net {N} d.
Arguments posts {N} d.
Arguments slept {N} d.

#[export, program] Instance HasDb_dispatch {N} : HasDb (dispatch_state N) := {|
  get_db := ddb;
  set_db d s := DispatchState d (net s) (posts s) (slept s) |}.
Next Obligation. done. Qed.
Next Obligation. done. Qed.
Next Obligation. by intros N []. Qed.

Section Dispatcher.
Context {N : Type}.
Variable sc : schema.
(** [createHmac('sha256', secret).update(payload).digest('hex')]. *)
Variable hmac_sha256_hex : string → string → string.
Variable JSON_stringify : json → string.
(** [fetch]: the status and status text, or the rejection (time-out included). *)
Variable fetch : http_post → N → (Z * string + exn) * N.

Notation state := (dispatch_state N).

Definition signPayload (payload secret : string) : string :=
  "sha256=" +:+ hmac_sha256_hex secret payload.

(** [delay(attemptNumber)]. *)
Definition delay (attemptNumber : nat) : M state unit :=
  modify (λ s, DispatchState (ddb s) (net s) (posts s)
                 (slept s ++ [1000 * 2 ^ Z.of_nat attemptNumber])).

Definition do_fetch (p : http_post) : M state (Z * string + exn) :=
  local (λ s, let '(a, n) := fetch p (net s) in
              (a, DispatchState (ddb s) n (posts s ++ [p]) (slept s))).

(** The request of a delivery: the same at every attempt. *)
Definition delivery_post (url secret : string) (payload : WebhookPayload) : http_post :=
  let body := JSON_stringify (payload_json payload) in
  mkPost url [("Content-Type", "application/json");
              ("X-WG-Signature", signPayload body secret);
              ("X-WG-Event", event payload)] body.

(** What went wrong with an attempt; [None] is [response.ok]. *)
Definition attempt_error (answer : Z * string + exn) : option string :=
  match answer with
  | inl (status, statusText) =>
      if (200 <=? status) && (status <=? 299) then None
      else Some ("HTTP " +:+ pretty status +:+ " " +:+ statusText)
  | inr err => Some (error_text err)
  end.

(** The [for] loop with [left] iterations left: [None] is the early return. *)
Fixpoint attempts (p : http_post) (left attempt : nat) (lastError : string)
    : M state (option string) :=
  match left with
  | O => mret (Some lastError)
  | Datatypes.S left' =>
      answer ← do_fetch p;
      match attempt_error answer with
      | None => mret None
      | Some lastError =>
          _ ← (if (attempt <? MAX_ATTEMPTS - 1)%nat then delay attempt else mret tt);
          attempts p left' (attempt + 1) lastError
      end
  end.

Definition insert_dead_letter (webhookId : Z) (body lastError : string) : M state unit :=
  query sc [Columns "webhook_dead_letters" ["webhook_id"; "payload"; "last_error"; "attempts"];
            Int4 (Fin webhookId)]
    (λ d, (tt, set_dead_letters (webhook_dead_letters d ++
             [mkDeadLetter webhookId body lastError (Z.of_nat MAX_ATTEMPTS)]) d)).

Definition dispatchToWebhook (webhookId : Z) (url secret : string) (payload : WebhookPayload)
    : M state unit :=
  let p := delivery_post url secret payload in
  failed ← attempts p MAX_ATTEMPTS 0 "";
  match failed with
  | None => mret tt
  | Some lastError =>
      try_catch (insert_dead_letter webhookId (post_body p) lastError) (λ _, mret tt)
  end.

Definition select_webhooks (orgId : string) : M state (list webhook_row) :=
  select sc [Columns "org_webhooks" ["id"; "url"; "secret"; "org_id"]]
    (λ d, filter (λ w, wh_org_id w = orgId) (org_webhooks d)).

(** *** Concurrent deliveries

    The deliveries of one event run at the same time; a delivery yields at each [await].
    [advance] is the piece of a delivery between two yields: one request with the wait
    that follows it, or the dead-letter insert. *)
Inductive progress :=
  | Attempting (attempt : nat) (lastError : string)
  | Exhausted (lastError : string)
  | Delivered (tries : nat)
  | DeadLettered (lastError : string).

Record delivery := mkDelivery { d_id : Z; d_post : http_post; d_progress : progress }.

Definition start (payload : WebhookPayload) (w : webhook_row) : delivery :=
  mkDelivery (wh_id w) (delivery_post (wh_url w) (wh_secret w) payload) (Attempting 0 "").

Definition with_progress (p : progress) (x : delivery) : delivery :=
  mkDelivery (d_id x) (d_post x) p.

Definition advance (x : delivery) : M state delivery :=
  match d_progress x with
  | Attempting attempt _ =>
      answer ← do_fetch (d_post x);
      match attempt_error answer with
      | None => mret (with_progress (Delivered (attempt + 1)) x)
      | Some lastError =>
          _ ← (if (attempt <? MAX_ATTEMPTS - 1)%nat then delay attempt else mret tt);
          mret (with_progress (if (attempt + 1 <? MAX_ATTEMPTS)%nat
                               then Attempting (attempt + 1) lastError
                               else Exhausted lastError) x)
      end
  | Exhausted lastError =>
      _ ← try_catch (insert_dead_letter (d_id x) (post_body (d_post x)) lastError) (λ _, mret tt);
      mret (with_progress (DeadLettered lastError) x)
  | Delivered _ | DeadLettered _ => mret x
  end.

Definition settled (x : delivery) : bool :=
  match d_progress x with Delivered _ | DeadLettered _ => true | _ => false end.

(** An interleaving: the schedule says which delivery moves next. *)
Fixpoint interleave (schedule : list nat) (xs : list delivery) : M state (list delivery) :=
  match schedule with
  | [] => mret xs
  | i :: schedule' =>
      match xs !! i with
      | None => interleave schedule' xs
      | Some x => x' ← advance x; interleave schedule' (<[i := x']> xs)
      end
  end.

(** [dispatchAssignmentEvent] at time [now], under a schedule of its deliveries. *)
Definition dispatchAssignmentEvent (schedule : list nat) (now : Z)
    (eventType : AssignmentEventType) (orgId : string) (issueId : Z) (contributor : string)
    (ledger : Z) : M state (list delivery) :=
  webhooks ← try_catch (w ← select_webhooks orgId; mret (Some w)) (λ _, mret None);
  match webhooks with
  | None | Some [] => mret []
  | Some webhooks =>
      let payload := mkPayload (event_name eventType) orgId issueId contributor ledger
                       (toISOString now) in
      interleave schedule (start payload <$> webhooks)
  end.

End Dispatcher.

(** ** Theorems *)

Section theorems.
Context {N : Type}.
Variable sc : schema.
Variable hmac : string → string → string.
Variable JSON_stringify : json → string.
Variable fetch : http_post → N → (Z * string + exn) * N.

(** The dead letter of a delivery. *)
Definition letter (x : delivery) (e : string) : dead_letter :=
  mkDeadLetter (d_id x) (post_body (d_post x)) e (Z.of_nat MAX_ATTEMPTS).

Lemma attempts_spec p n : ∀ attempt e w,
  (attempt + n = MAX_ATTEMPTS)%nat → (0 < n)%nat →
  ∃ r w' k, attempts fetch p n attempt e w = (Ret r, w') ∧ (0 < k ≤ n)%nat ∧
    (r ≠ None → k = n) ∧ sched w' = sched w ∧ ddb (st w') = ddb (st w) ∧
    posts (st w') = posts (st w) ++ replicate k p ∧
    slept (st w') = slept (st w) ++ take (k - 1) (drop attempt [1000; 2000]).
Proof.
  induction n as [|n IH]; intros attempt e w Hsum Hn; [lia|].
  simpl. unfold mbind, M_bind at 1, do_fetch, local at 1.
  destruct (fetch p (net (st w))) as [answer n'].
  destruct (attempt_error answer) as [e'|].
  2: { eexists None, _, 1%nat. split_and!; try reflexivity; try lia; [done|].
       simpl. by rewrite app_nil_r. }
  destruct n as [|n].
  - assert ((attempt <? 2)%nat = false) as -> by (apply Nat.ltb_ge; unfold MAX_ATTEMPTS in *; lia).
    eexists (Some e'), _, 1%nat. split_and!; try reflexivity; try lia.
    simpl. by rewrite app_nil_r.
  - assert ((attempt <? 2)%nat = true) as -> by (apply Nat.ltb_lt; unfold MAX_ATTEMPTS in *; lia).
    unfold M_bind at 1, delay, modify, local.
    match goal with |- context [attempts _ _ _ _ _ ?w0] =>
      destruct (IH (attempt + 1)%nat e' w0 ltac:(lia) ltac:(lia))
        as (r & w' & k & Hr & Hk & Hrk & Hs & Hd & Hp & Hsl) end.
    exists r, w', (Datatypes.S k). rewrite Hr. simpl in *.
    split_and!; [done|lia|lia|intros ?; by rewrite Hrk|done|done| |].
    + by rewrite Hp, <- app_assoc.
    + rewrite Hsl, <- app_assoc. f_equal.
      destruct attempt as [|[|]]; [| |unfold MAX_ATTEMPTS in *; lia];
        (destruct k as [|k]; [lia|]); simpl; by rewrite ?Nat.sub_0_r.
Qed.

(** a delivery never throws and sends between one and three requests, all identical, one
    and two seconds apart; the database changes at most by the dead letter of this
    delivery, and only after three failed requests, whatever fails meanwhile. *)
Theorem dispatchToWebhook_bounded id url secret payload w :
  let p := delivery_post hmac JSON_stringify url secret payload in
  ∃ w' k, dispatchToWebhook sc hmac JSON_stringify fetch id url secret payload w =
            (Ret tt, w') ∧
    (1 ≤ k ≤ 3)%nat ∧
    posts (st w') = posts (st w) ++ replicate k p ∧
    slept (st w') = slept (st w) ++ take (k - 1) [1000; 2000] ∧
    (ddb (st w') = ddb (st w) ∨
     k = 3%nat ∧ ∃ e, ddb (st w') = set_dead_letters (webhook_dead_letters (ddb (st w)) ++
       [mkDeadLetter id (post_body p) e 3]) (ddb (st w))).
Proof.
  intros p. unfold dispatchToWebhook.
  destruct (attempts_spec p MAX_ATTEMPTS 0 "" w eq_refl ltac:(unfold MAX_ATTEMPTS; lia))
    as (r & w1 & k & Hr & Hk & Hrk & Hs & Hd & Hp & Hsl).
  fold p. erewrite bind_intro by exact Hr.
  destruct r as [e|].
  - assert (k = 3%nat) as -> by (by apply Hrk).
    unfold try_catch. destruct (insert_dead_letter sc id (post_body p) e w1) as [o w2] eqn:E.
    assert (posts (st w2) = posts (st w1) ∧ slept (st w2) = slept (st w1) ∧
            (ddb (st w2) = ddb (st w1) ∨ ddb (st w2) = set_dead_letters
               (webhook_dead_letters (ddb (st w1)) ++ [mkDeadLetter id (post_body p) e 3])
               (ddb (st w1)))) as (Hp2 & Hs2 & Hd2).
    { unfold insert_dead_letter, query, call in E.
      destruct w1 as [s [|[|?|?] fs]], (unmet sc _); simpl in E; inv E; simpl; auto. }
    rewrite Hd in Hd2. exists w2, 3%nat. destruct o as [[]|]; unfold_m;
      (split_and!; [done|lia|lia|by rewrite Hp2|by rewrite Hs2|];
       destruct Hd2; [by left|right; eauto]).
  - exists w1, k. split_and!; [done|lia|unfold MAX_ATTEMPTS in *; lia|done|done|by left].
Qed.

(** *** Interleavings *)

Definition tries (x : delivery) : nat :=
  match d_progress x with
  | Attempting a _ => a
  | Exhausted _ | DeadLettered _ => MAX_ATTEMPTS
  | Delivered k => k
  end.

(** Turns a delivery still needs. *)
Definition remaining (x : delivery) : nat :=
  match d_progress x with
  | Attempting a _ => MAX_ATTEMPTS + 1 - a
  | Exhausted _ => 1
  | Delivered _ | DeadLettered _ => 0
  end.

Definition letters_of (x : delivery) : list dead_letter :=
  match d_progress x with DeadLettered e => [letter x e] | _ => [] end.

Definition posts_of (x : delivery) : list http_post := replicate (tries x) (d_post x).

Definition well_paced (x : delivery) : Prop :=
  in_int4 (d_id x) = true ∧
  match d_progress x with
  | Attempting a _ => (a < MAX_ATTEMPTS)%nat
  | Delivered k => (k ≤ MAX_ATTEMPTS)%nat
  | _ => True
  end.

Hypothesis dead_letter_table :
  meets sc (Columns "webhook_dead_letters" ["webhook_id"; "payload"; "last_error"; "attempts"])
  = true.

Lemma insert_dead_letter_ok x e s :
  in_int4 (d_id x) = true →
  insert_dead_letter (N := N) sc (d_id x) (post_body (d_post x)) e (World s []) =
    (Ret tt, World (set_db (set_dead_letters
       (webhook_dead_letters (ddb s) ++ [letter x e]) (ddb s)) s) []).
Proof.
  intros Hi. unfold insert_dead_letter. rewrite query_ok; [done|].
  unfold unmet. cbn [list_find]. rewrite dead_letter_table. cbn. by rewrite Hi.
Qed.

(** One turn of a delivery: what it sends and writes is what it adds to its account. *)
Lemma advance_spec x s :
  well_paced x →
  ∃ x' s' newp newl, advance sc fetch x (World s []) = (Ret x', World s' []) ∧
    well_paced x' ∧ (remaining x' ≤ pred (remaining x))%nat ∧
    posts s' = posts s ++ newp ∧ posts_of x' = posts_of x ++ newp ∧
    letters_of x' = letters_of x ++ newl ∧
    ddb s' = set_dead_letters (webhook_dead_letters (ddb s) ++ newl) (ddb s).
Proof.
  intros [Hi Hp]. destruct x as [id p [a e|e|k|e]]; unfold advance; simpl in *.
  - unfold mbind, M_bind at 1, do_fetch, local at 1. simpl.
    destruct (fetch p (net s)) as [answer n'].
    destruct (attempt_error answer) as [e'|].
    2: { eexists _, _, [p], []. split; [reflexivity|].
         unfold well_paced, posts_of, MAX_ATTEMPTS in *. cbn.
         split_and!; try done; try lia.
         - rewrite Nat.add_1_r. apply replicate_S_end.
         - rewrite app_nil_r. by destruct (ddb s). }
    unfold MAX_ATTEMPTS in *.
    destruct a as [|[|[|a]]]; [| | |lia];
      eexists _, _, [p], []; (split; [reflexivity|]); unfold well_paced, MAX_ATTEMPTS; cbn;
      (split_and!; try done; try lia; rewrite app_nil_r; by destruct (ddb s)).
  - rewrite (bind_intro _ _ _ tt (World (set_db (set_dead_letters
       (webhook_dead_letters (ddb s) ++ [letter (mkDelivery id p (Exhausted e)) e]) (ddb s)) s) []))
      by (apply try_Ret; by apply (insert_dead_letter_ok (mkDelivery id p (Exhausted e)))).
    eexists _, _, [], [_]. split; [reflexivity|]. unfold well_paced. cbn.
    split_and!; try done; by rewrite app_nil_r.
  - eexists _, _, [], []. split; [reflexivity|]. unfold well_paced. cbn. rewrite !app_nil_r.
    split_and!; try done. by destruct (ddb s).
  - eexists _, _, [], []. split; [reflexivity|]. unfold well_paced. cbn. rewrite !app_nil_r.
    split_and!; try done. by destruct (ddb s).
Qed.
Definition turns (i : nat) (schedule : list nat) : nat :=
  length (filter (λ j, j = i) schedule).

Lemma interleave_spec schedule : ∀ xs s, Forall well_paced xs →
  ∃ xs' s' newp newl,
    interleave sc fetch schedule xs (World s []) = (Ret xs', World s' []) ∧
    Forall well_paced xs' ∧
    posts s' = posts s ++ newp ∧
    concat (posts_of <$> xs') ≡ₚ concat (posts_of <$> xs) ++ newp ∧
    ddb s' = set_dead_letters (webhook_dead_letters (ddb s) ++ newl) (ddb s) ∧
    concat (letters_of <$> xs') ≡ₚ concat (letters_of <$> xs) ++ newl ∧
    (∀ i x', xs' !! i = Some x' → ∃ x, xs !! i = Some x ∧
       (remaining x' ≤ remaining x - turns i schedule)%nat).
Proof.
  induction schedule as [|j schedule IH]; intros xs s Hxs; simpl.
  { exists xs, s, [], []. rewrite !app_nil_r. split_and!; try done.
    - by destruct (ddb s).
    - intros i x' Hx. exists x'. split; [done|]. change (turns i []) with 0%nat. lia. }
  destruct (xs !! j) as [x|] eqn:Hx.
  - assert (well_paced x) as Hw by (by eapply Forall_lookup_1).
    destruct (advance_spec x s Hw) as (x' & s1 & p1 & l1 & Ha & Hw' & Hr & Hp & Hpo & Hl & Hd).
    erewrite bind_intro by exact Ha.
    destruct (IH (<[j := x']> xs) s1) as (xs' & s' & p2 & l2 & Hi & Hf & Hp' & Hcp & Hd' & Hcl & Hrem).
    { by apply Forall_insert. }
    exists xs', s', (p1 ++ p2), (l1 ++ l2). split_and!; [done|done| | | | |].
    + by rewrite Hp', Hp, <- app_assoc.
    + rewrite Hcp, app_assoc. f_equiv. by apply (concat_insert_perm _ _ _ x); rewrite ?Hpo.
    + rewrite Hd', Hd. simpl. by rewrite app_assoc.
    + rewrite Hcl, app_assoc. f_equiv. by apply (concat_insert_perm _ _ _ x); rewrite ?Hl.
    + intros i y Hy. destruct (Hrem i y Hy) as (z & Hz & Hle).
      unfold turns. rewrite filter_cons. case_decide as Hij.
      * subst i. rewrite list_lookup_insert_eq in Hz by (by eapply lookup_lt_Some).
        simplify_eq. exists x. split; [done|]. unfold turns in Hle. simpl. lia.
      * rewrite list_lookup_insert_ne in Hz by done. exists z. by split.
  - destruct (IH xs s Hxs) as (xs' & s' & p2 & l2 & Hi & Hf & Hp' & Hcp & Hd' & Hcl & Hrem).
    exists xs', s', p2, l2. split_and!; try done.
    intros i y Hy. destruct (Hrem i y Hy) as (z & Hz & Hle).
    unfold turns. rewrite filter_cons. case_decide as Hij; [subst; congruence|].
    exists z. by split.
Qed.


End theorems.

(** ** Concrete runs: one endpoint that is down, one that answers *)

Definition demo_hooks : list webhook_row :=
  [mkWebhook 1 "org" "https://down" "s" 0; mkWebhook 2 "org" "https://up" "t" 0].

Definition demo_fetch (p : http_post) (n : nat) : (Z * string + exn) * nat :=
  (inl (if String.eqb (post_url p) "https://up" then (204, "No Content") else (500, "Error")),
   Datatypes.S n).

Definition demo_payload : WebhookPayload := mkPayload "assignment.created" "org" 7 "G" 12 "now".
Definition demo_state : dispatch_state nat := DispatchState empty_db 0%nat [] [].

