(* ===== verification/Webhooks.v ===== *)
(** * Incoming webhooks ([src/services/github-webhook.ts], [src/routes/webhooks.ts])

    The HMAC check, the GitHub issue events and the registration of outgoing webhooks.  A
    request body is taken as the interface [GitHubWebhookBody] declares it. *)

From Stdlib Require Import String.
From S2P Require Import Prelude Js Http Db Cache.

#[local] Open Scope string_scope.
#[local] Open Scope list_scope.
#[local] Open Scope Z_scope.

(** ** [github-webhook.ts] *)

Record GitHubIssue := mkGitHubIssue {
  number : Z;
  title : string;
  state : string;
}.

Record GitHubWebhookBody := mkBody {
  action : option string;
  issue : option GitHubIssue;
  label : option string;          (** [label.name] *)
  repository : option string;     (** [repository.name] *)
}.

(** [parseGitHubPayload]: [null] unless the three properties are there; the [try] catches
    the property access on a body that is [null] or missing. *)
Definition parseGitHubPayload (body : option json) : option json :=
  match body with
  | None | Some JNull => None
  | Some payload =>
      if truthy_opt (prop "action" payload) && truthy_opt (prop "issue" payload) &&
         truthy_opt (prop "repository" payload)
      then Some payload else None
  end.

Section Signature.
(** [createHmac('sha256', secret).update(payload).digest('hex')]. *)
Variable hmac_sha256_hex : string → string → string.

(** [timingSafeEqual] throws on buffers of different lengths. *)
Definition validateGitHubSignature (payload signature secret : string) : outcome bool :=
  let digest := "sha256=" +:+ hmac_sha256_hex secret payload in
  if (String.length digest =? String.length signature)%nat then Ret (String.eqb digest signature)
  else Throw (ErrorObj "RangeError" "Input buffers must have the same byte length").

End Signature.

Definition GOOD_FIRST_ISSUE : string := "good first issue".

Section Routes.
Context {S R : Type} `{HasDb S} `{HasCache S R} `{RedisStore R}.
Variable sc : schema.
Variable hmac_sha256_hex : string → string → string.
(** [process.env.GITHUB_WEBHOOK_SECRET]. *)
Variable GITHUB_WEBHOOK_SECRET : option string.
Variable JSON_stringify : GitHubWebhookBody → string.

(** *** The statements of [POST /webhooks/github] *)

Definition db_status (issueState : string) : string :=
  if String.eqb issueState "closed" then "closed" else "open".

(** The id column is a fresh serial number, so the conflict never fires. *)
Definition insert_issue (orgId issueTitle status : string) : M S unit :=
  query sc [Columns "issues" ["org_id"; "title"; "status"];
            ConflictTarget "issues" ["org_id"; "id"]]
    (λ d, let row := mkIssue (next_issue_id d) orgId issueTitle status in
          (tt, set_issues
                 (if existsb (λ i, String.eqb (i_org_id i) orgId && (i_id i =? next_issue_id d))
                       (issues d)
                  then issues d else issues d ++ [row])
                 (next_issue_id d + 1) d)).

Definition update_issue (status issueTitle orgId : string) (issueNumber : Z) : M S unit :=
  query sc [Columns "issues" ["status"; "title"; "org_id"; "id"]; Int4 (Fin issueNumber)]
    (λ d, (tt, set_issues
       ((λ i, if String.eqb (i_org_id i) orgId && (i_id i =? issueNumber)
              then mkIssue (i_id i) (i_org_id i) issueTitle status else i) <$> issues d)
       (next_issue_id d) d)).

Definition mark_assignments (status orgId : string) (issueNumber : Z) : M S unit :=
  query sc [Columns "assignments" ["status"; "org_id"; "issue_id"]; Int4 (Fin issueNumber)]
    (λ d, (tt, set_assignments
       ((λ a, if String.eqb (as_org_id a) orgId && (as_issue_id a =? issueNumber)
              then mkAssignment (as_contributor a) (as_org_id a) (as_issue_id a) status
                     (as_created_at a) else a) <$> assignments d) d)).

Definition insert_label (orgId : string) (issueNumber : Z) (l : string) : M S unit :=
  query sc [Columns "label_records" ["org_id"; "issue_number"; "label"];
            ConflictTarget "label_records" ["org_id"; "issue_number"; "label"];
            Int4 (Fin issueNumber)]
    (λ d, let row := mkLabel orgId issueNumber l in
          (tt, set_labels (if decide (row ∈ label_records d) then label_records d
                           else label_records d ++ [row]) d)).

Definition delete_label (orgId : string) (issueNumber : Z) (l : string) : M S unit :=
  query sc [Columns "label_records" ["org_id"; "issue_number"; "label"]; Int4 (Fin issueNumber)]
    (λ d, (tt, set_labels (filter (λ r, r ≠ mkLabel orgId issueNumber l) (label_records d)) d)).

Definition message (m : string) : response := send_json 200 (obj [("message", Some (JStr m))]).

(** The [switch]: [Some] is an early answer, [None] goes on to the cache invalidation. *)
Definition github_event (action : string) (i : GitHubIssue) (l : option string) (orgId : string)
    : M S (option response) :=
  if String.eqb action "opened" then
    _ ← insert_issue orgId (title i) (db_status (state i)); mret None
  else if String.eqb action "closed" then
    _ ← update_issue "closed" (title i) orgId (number i);
    _ ← mark_assignments "pending-review" orgId (number i); mret None
  else if String.eqb action "edited" then
    _ ← update_issue (db_status (state i)) (title i) orgId (number i); mret None
  else if String.eqb action "labeled" then
    if bool_decide (l = Some GOOD_FIRST_ISSUE) then
      _ ← insert_issue orgId (title i) (db_status (state i));
      _ ← insert_label orgId (number i) GOOD_FIRST_ISSUE; mret None
    else mret (Some (message "event ignored"))
  else if String.eqb action "unlabeled" then
    if bool_decide (l = Some GOOD_FIRST_ISSUE) then
      _ ← delete_label orgId (number i) GOOD_FIRST_ISSUE; mret None
    else mret (Some (message "event ignored"))
  else mret (Some (message "event type not supported")).

(** [POST /webhooks/github]. *)
Definition github_webhook (signature : option string) (body : GitHubWebhookBody)
    : M S response :=
  match signature with
  | None | Some "" => mret (error_response 401 "missing signature")
  | Some signature =>
      match GITHUB_WEBHOOK_SECRET with
      | None | Some "" => mret (error_response 500 "webhook not configured")
      | Some secret =>
          let payload := JSON_stringify body in
          match validateGitHubSignature hmac_sha256_hex payload signature secret with
          | Throw _ | Ret false => mret (error_response 401 "invalid signature")
          | Ret true =>
              match action body, issue body, repository body with
              | Some ((String _ _) as action), Some issue, Some orgId =>
                  try_catch
                    (early ← github_event action issue (label body) orgId;
                     match early with
                     | Some res => mret res
                     | None =>
                         _ ← invalidateCache "issues:*";
                         mret (message "webhook processed successfully")
                     end)
                    (λ _, mret (error_response 500 "database error"))
              | _, _, _ => mret (message "event ignored")
              end
          end
      end
  end.

(** *** Registration of outgoing webhooks *)

Definition insert_webhook (now : Z) (org_id url secret : string) : M S webhook_row :=
  query sc [Columns "org_webhooks" ["org_id"; "url"; "secret"; "id"; "created_at"]]
    (λ d, let row := mkWebhook (next_webhook_id d) org_id url secret now in
          (row, set_webhooks (org_webhooks d ++ [row]) (next_webhook_id d + 1) d)).

Definition webhook_json (r : webhook_row) : json :=
  obj [("id", Some (jint (wh_id r))); ("org_id", Some (JStr (wh_org_id r)));
       ("url", Some (JStr (wh_url r)));
       ("created_at", Some (JStr (toISOString (wh_created_at r))))].

(** A property that is a non-empty string. *)
Definition string_field (k : string) (r : request) : option string :=
  match body_prop k r with
  | Some (JStr ((String _ _) as s)) => Some s
  | _ => None
  end.

Definition blank (s : string) : bool := String.eqb (trim s) "".

(** [POST /webhooks/org], first registration of the handler. *)
Definition register_webhook (now : Z) (r : request) : M S verdict :=
  match string_field "org_id" r with
  | Some org_id =>
      if blank org_id then mret (Respond (error_response 400 "org_id is required")) else
      match string_field "url" r with
      | Some url =>
          if negb (startsWith "https://" url)
          then mret (Respond (error_response 400 "url must start with https://")) else
          match string_field "secret" r with
          | Some secret =>
              if blank secret then mret (Respond (error_response 400 "secret is required")) else
              try_catch
                (row ← insert_webhook now (trim org_id) url secret;
                 mret (Respond (send_json 201 (webhook_json row))))
                (λ _, mret (Respond (error_response 500 "database error")))
          | None => mret (Respond (error_response 400 "secret is required"))
          end
      | None => mret (Respond (error_response 400 "url must start with https://"))
      end
  | None => mret (Respond (error_response 400 "org_id is required"))
  end.

(** [DELETE FROM org_webhooks WHERE id = $1]: the number of deleted rows. *)
Definition delete_webhook_rows (id : Z) : M S Z :=
  query sc [Columns "org_webhooks" ["id"]; Int4 (Fin id)]
    (λ d, (Z.of_nat (length (filter (λ w, wh_id w = id) (org_webhooks d))),
           set_webhooks (filter (λ w, wh_id w ≠ id) (org_webhooks d)) (next_webhook_id d) d)).

(** [DELETE /webhooks/org/:id], first registration. *)
Definition delete_webhook (r : request) : M S verdict :=
  match parseInt (param "id" r) with
  | NaN => mret (Respond (error_response 400 "invalid id"))
  | Fin id =>
      try_catch
        (deletedCount ← delete_webhook_rows id;
         mret (Respond (if deletedCount =? 0 then error_response 404 "webhook not found"
                        else send_empty 204)))
        (λ _, mret (Respond (error_response 500 "database error")))
  end.

(** The second handler of [POST /webhooks/org]: it trims every field. *)
Definition register_webhook_2 (now : Z) (r : request) : M S verdict :=
  match string_field "org_id" r with
  | Some org_id =>
      if blank org_id then mret (Respond (error_response 400 "org_id is required")) else
      match string_field "url" r with
      | Some url =>
          if negb (startsWith "https://" url)
          then mret (Respond (error_response 400 "url must start with https://")) else
          match string_field "secret" r with
          | Some secret =>
              if blank secret then mret (Respond (error_response 400 "secret is required")) else
              try_catch
                (row ← insert_webhook now (trim org_id) (trim url) (trim secret);
                 mret (Respond (send_json 201 (webhook_json row))))
                (λ _, mret (Respond (error_response 500 "database error")))
          | None => mret (Respond (error_response 400 "secret is required"))
          end
      | None => mret (Respond (error_response 400 "url is required"))
      end
  | None => mret (Respond (error_response 400 "org_id is required"))
  end.

(** The second handler of [DELETE /webhooks/org/:id]: it refuses ids that are not
    positive. *)
Definition delete_webhook_2 (r : request) : M S verdict :=
  match parseInt (param "id" r) with
  | NaN => mret (Respond (error_response 400 "invalid webhook id"))
  | Fin id =>
      if id <=? 0 then mret (Respond (error_response 400 "invalid webhook id")) else
      try_catch
        (deleted ← delete_webhook_rows id;
         mret (Respond (if deleted =? 0 then error_response 404 "webhook not found"
                        else send_empty 204)))
        (λ _, mret (Respond (error_response 500 "database error")))
  end.

(** The two routes as the router holds them. *)
Definition post_org (now : Z) : request → M S verdict :=
  dispatch [register_webhook now; register_webhook_2 now].
Definition delete_org : request → M S verdict := dispatch [delete_webhook; delete_webhook_2].

End Routes.

(** ** Theorems *)

(** What a [closed] event means for the tables. *)
Definition closed_db (orgId t : string) (n : Z) (d : db) : db :=
  set_assignments
    ((λ a, if String.eqb (as_org_id a) orgId && (as_issue_id a =? n)
           then mkAssignment (as_contributor a) (as_org_id a) (as_issue_id a) "pending-review"
                  (as_created_at a) else a) <$> assignments d)
    (set_issues ((λ i, if String.eqb (i_org_id i) orgId && (i_id i =? n)
                       then mkIssue (i_id i) (i_org_id i) t "closed" else i) <$> issues d)
       (next_issue_id d) d).

Section theorems.
Context {S R : Type} `{HasDb S} `{HasCache S R} `{RedisStore R}.
Variable sc : schema.
Variable hmac : string → string → string.
Variable SECRET : option string.
Variable JSON_stringify : GitHubWebhookBody → string.

(** a GitHub event changes the state only when a secret is configured and the signature
    header is the HMAC of the body under that secret. *)
Theorem github_webhook_authentic signature body w o w' :
  github_webhook sc hmac SECRET JSON_stringify signature body w = (o, w') →
  w' ≠ w →
  ∃ secret, SECRET = Some secret ∧ secret ≠ "" ∧
    signature = Some ("sha256=" +:+ hmac secret (JSON_stringify body)).
Proof.
  unfold github_webhook. intros Hg Hw.
  destruct signature as [[|c sig]|]; [unfold_m; naive_solver| |unfold_m; naive_solver].
  destruct SECRET as [[|d secret]|]; [unfold_m; naive_solver| |unfold_m; naive_solver].
  unfold validateGitHubSignature in Hg.
  destruct (_ =? _)%nat in Hg; [|unfold_m; naive_solver].
  destruct (String.eqb_spec ("sha256=" +:+ hmac (String d secret) (JSON_stringify body))
              (String c sig)) as [Heq|]; [|unfold_m; naive_solver].
  exists (String d secret). split_and!; [done|done|]. by rewrite Heq.
Qed.

Definition is_respond (v : verdict) : Prop := ∃ res, v = Respond res.

Lemma register_webhook_answers now r : ensures is_respond (register_webhook (S := S) sc now r).
Proof. unfold register_webhook. repeat result_step; by eexists. Qed.

Lemma delete_webhook_answers r : ensures is_respond (delete_webhook (S := S) sc r).
Proof. unfold delete_webhook. repeat result_step; by eexists. Qed.

(** the second handlers registered for [POST /webhooks/org] and [DELETE
    /webhooks/org/:id] never run: the routes behave as their first handlers alone. *)
Theorem second_handlers_unreachable now r w :
  post_org sc now r w = register_webhook (S := S) sc now r w ∧
  delete_org sc r w = delete_webhook (S := S) sc r w.
Proof.
  unfold post_org, delete_org. split.
  - destruct (register_webhook_answers now r w) as (v & w' & Hr & [res ->]).
    rewrite Hr. by apply dispatch_shadow.
  - destruct (delete_webhook_answers r w) as (v & w' & Hr & [res ->]).
    rewrite Hr. by apply dispatch_shadow.
Qed.

(** The tables and the number a [closed] event touches. *)
Definition closed_runs (n : Z) : Prop :=
  unmet sc [Columns "issues" ["status"; "title"; "org_id"; "id"]; Int4 (Fin n)] = None ∧
  unmet sc [Columns "assignments" ["status"; "org_id"; "issue_id"]; Int4 (Fin n)] = None.

(** a [closed] event, when both statements run, closes exactly the issue of that
    organisation and number and marks exactly its assignments pending-review; delivering
    the event again changes nothing more. *)
Theorem closed_event_effect i l orgId s :
  closed_runs (number i) →
  ∃ s', github_event sc "closed" i l orgId (World s []) = (Ret None, World s' []) ∧
    s' = set_db (closed_db orgId (title i) (number i) (get_db s)) s ∧
    github_event sc "closed" i l orgId (World s' []) = (Ret None, World s' []).
Proof.
  intros [Hi Ha].
  assert (∀ s0, github_event (S := S) sc "closed" i l orgId (World s0 []) =
    (Ret None, World (set_db (closed_db orgId (title i) (number i) (get_db s0)) s0) [])) as Hrun.
  { intros s0. unfold github_event. cbn [String.eqb Ascii.eqb Bool.eqb].
    unfold update_issue, mark_assignments.
    erewrite bind_intro by (by apply query_ok). erewrite bind_intro by (by apply query_ok).
    simpl. rewrite get_set_db, set_set_db. reflexivity. }
  eexists. split_and!; [apply Hrun|done|]. rewrite Hrun. rewrite get_set_db, set_set_db.
  do 3 f_equal. unfold closed_db, set_assignments, set_issues. simpl. f_equal.
  - rewrite <- list_fmap_compose. apply list_fmap_ext. intros k x _. simpl.
    destruct (String.eqb (i_org_id x) orgId && (i_id x =? number i)) eqn:E; simpl; by rewrite ?E.
  - rewrite <- list_fmap_compose. apply list_fmap_ext. intros k x _. simpl.
    destruct (String.eqb (as_org_id x) orgId && (as_issue_id x =? number i)) eqn:E; simpl;
      by rewrite ?E.
Qed.

End theorems.

(** over the tables [migrate] creates, [opened] events are all refused by the database,
    and a [closed] event updates the issue, then fails on the assignments: the answer is
    500 and the first update stays. *)
Theorem github_events_over_migrate_schema i l orgId (d : db) :
  in_int4 (number i) = true →
  (∃ e, github_event (S := db) migrate_schema "opened" i l orgId (World d []) =
          (Throw e, World d [])) ∧
  (∃ e, github_event (S := db) migrate_schema "closed" i l orgId (World d []) =
          (Throw e, World (set_issues ((λ x,
             if String.eqb (i_org_id x) orgId && (i_id x =? number i)
             then mkIssue (i_id x) (i_org_id x) (title i) "closed" else x) <$> issues d)
             (next_issue_id d) d) [])).
Proof.
  intros Hn. split; eexists; unfold github_event; cbn [String.eqb Ascii.eqb Bool.eqb].
  - apply bind_throw. unfold insert_issue. by eapply query_unmet.
  - unfold update_issue, mark_assignments. erewrite bind_intro.
    2: { apply query_ok. unfold unmet. cbn [list_find]. rewrite decide_False by done.
         cbn. by rewrite Hn. }
    apply bind_throw. by eapply query_unmet.
Qed.

(** ** Concrete runs *)

Definition demo_issue : GitHubIssue := mkGitHubIssue 7 "Fix it" "closed".
Definition demo_db : db :=
  set_assignments [mkAssignment "G" "org" 7 "active" 0; mkAssignment "G" "org" 8 "active" 0]
    (set_issues [mkIssue 7 "org" "Fix" "open"; mkIssue 8 "org" "Other" "open"] 9 empty_db).

Record hook_state := mkHookState { hook_db : db; hook_cache : cache (gmap string string) }.

#[export, program] Instance HasDb_hook : HasDb hook_state :=
  {| get_db := hook_db; set_db d s := mkHookState d (hook_cache s) |}.
Solve Obligations with (done || by intros []).
#[export, program] Instance HasCache_hook : HasCache hook_state (gmap string string) :=
  {| get_cache := hook_cache; set_cache c s := mkHookState (hook_db s) c |}.
Solve Obligations with done.

Definition demo_hook_state : hook_state := mkHookState demo_db (Cache ∅ (mkMetrics 0 0)).
Definition demo_hook_body : GitHubWebhookBody :=
  mkBody (Some "closed") (Some demo_issue) None (Some "org").

Lemma github_webhook_authentic_witness :
  ∃ secret, Some "key" = Some secret ∧ secret ≠ "" ∧
    Some "sha256=key:{}" = Some ("sha256=" +:+ (λ k p, k +:+ ":" +:+ p) secret
                                   ((λ _ : GitHubWebhookBody, "{}") demo_hook_body)).
Proof.
  refine (@github_webhook_authentic hook_state _ HasDb_hook HasCache_hook map_redis full_schema
    (λ k p, k +:+ ":" +:+ p) (Some "key") (λ _, "{}") (Some "sha256=key:{}") demo_hook_body
    (World demo_hook_state []) _
    (@github_webhook hook_state _ HasDb_hook HasCache_hook map_redis full_schema
       (λ k p, k +:+ ":" +:+ p) (Some "key") (λ _, "{}") (Some "sha256=key:{}") demo_hook_body
       (World demo_hook_state [])).2 _ _).
  - vm_compute. reflexivity.
  - vm_compute. discriminate.
Defined.

Lemma closed_event_effect_witness :
  ∃ s', github_event (S := db) full_schema "closed" demo_issue None "org" (World demo_db []) =
          (Ret None, World s' []) ∧
    s' = set_db (closed_db "org" "Fix it" 7 (get_db demo_db)) demo_db ∧
    github_event (S := db) full_schema "closed" demo_issue None "org" (World s' []) =
      (Ret None, World s' []).
Proof. apply (closed_event_effect full_schema demo_issue None "org" demo_db). by split. Defined.

Lemma github_events_over_migrate_schema_witness :
  (∃ e, github_event (S := db) migrate_schema "opened" demo_issue None "org" (World demo_db []) =
          (Throw e, World demo_db [])) ∧
  (∃ e, github_event (S := db) migrate_schema "closed" demo_issue None "org" (World demo_db []) =
          (Throw e, World (set_issues ((λ x,
             if String.eqb (i_org_id x) "org" && (i_id x =? 7)
             then mkIssue (i_id x) (i_org_id x) "Fix it" "closed" else x) <$> issues demo_db)
             (next_issue_id demo_db) demo_db) [])).
Proof. apply (github_events_over_migrate_schema demo_issue None "org" demo_db). reflexivity. Defined.
