(* ===== verification/Transactions.v ===== *)
(** * The transaction routes ([src/routes/transactions.ts])

    Building unsigned transactions, the application caps, and the submission of signed
    ones.  A handler runs over the database and the Soroban service. *)

From Stdlib Require Import String.
From S2P Require Import Prelude Js Http Validation Decimal Db Soroban Xdr.

#[local] Open Scope string_scope.
#[local] Open Scope list_scope.
#[local] Open Scope Z_scope.

Record tx_state (N : Type) := TxState { tx_db : db; chain : @rpc_state N }.
Arguments TxState {N} tx_db chain.
Arguments tx_db {N} t.
Arguments chain {N} t.

#[export, program] Instance HasDb_tx {N} : HasDb (tx_state N) :=
  {| get_db := tx_db; set_db d s := TxState d (chain s) |}.
Solve Obligations with (done || by intros ? []).

Definition on_chain {N A} (m : M (@rpc_state N) A) : M (tx_state N) A :=
  zoom chain (λ c s, TxState (tx_db s) c) m.

(** A string property of a validated body. *)
Definition text (k : string) (r : request) : string :=
  default "" (body_prop k r ≫= as_string).

(** [Number(v)] of a validated issue id, an integer of the JSON document. *)
Definition number_prop (k : string) (r : request) : jsnum :=
  match body_prop k r with
  | Some (JNum m e) => if jnum_is_int m e then Fin (jnum_int m e) else NaN
  | _ => NaN
  end.

Definition GLOBAL_CAP : Z := 15.

Section Transactions.
Context {N : Type} `{Rpc N} `{Zod} `{StrKey}.
Variable sc : schema.
Variable CONTRACT_ID : string.
(** [process.env.STELLAR_NETWORK_PASSPHRASE ?? ...]. *)
Variable NETWORK_PASSPHRASE : string.
Variable decode_envelope : string → envelope + exn.
(** [new Transaction(TransactionEnvelope.fromXDR(xdr), passphrase)] of the submission. *)
Variable parse_tx : string → outcome Tx.

Notation state := (tx_state N).

Definition lift (o : outcome Tx) : M state Tx :=
  match o with Ret a => mret a | Throw e => throw e end.

(** [buildAndSimulate(res, buildFn)]. *)
Definition buildAndSimulate (buildFn : outcome Tx) : M state response :=
  try_catch
    (tx ← lift buildFn;
     estimate ← on_chain (simulate tx);
     mret (send_json 200 (obj
       [("xdr", Some (JStr (toXDR tx))); ("fee", Some (JStr (fee estimate)));
        ("instructions", Some (jint (instructions estimate)));
        ("readBytes", Some (jint (readBytes estimate)));
        ("writeBytes", Some (jint (writeBytes estimate)))])))
    (λ err, mret (error_response 400 (error_message "transaction simulation failed" err))).

(** *** The statements of [POST /apply] *)

Definition is_application (c o : string) (n : jsnum) (a : application_row) : bool :=
  String.eqb (ap_contributor a) c && String.eqb (ap_org_id a) o &&
  bool_decide (Fin (ap_issue_id a) = n).

Definition find_application (c o : string) (n : jsnum) : M state (list application_row) :=
  select sc [Columns "applications" ["id"; "contributor"; "org_id"; "issue_id"]; Int4 n]
    (λ d, take 1 (filter (λ a, is_application c o n a = true) (applications d))).

Definition is_pending (c : string) (a : application_row) : bool :=
  String.eqb (ap_contributor a) c && String.eqb (ap_status a) "pending".

Definition count_pending (c : string) : M state string :=
  select sc [Columns "applications" ["contributor"; "status"]]
    (λ d, count_rows (λ a, is_pending c a = true) (applications d)).

Definition count_pending_org (c o : string) : M state string :=
  select sc [Columns "applications" ["contributor"; "org_id"; "status"]]
    (λ d, count_rows (λ a, is_pending c a && String.eqb (ap_org_id a) o = true)
            (applications d)).

(** [orgCapRes.rows[0]?.org_cap ?? 4]. *)
Definition org_cap_of (o : string) (d : db) : Z :=
  default 4 (head (filter (λ r, o_org_id r = o) (orgs d)) ≫= o_org_cap).

Definition select_org_cap (o : string) : M state Z :=
  select sc [Columns "orgs" ["org_cap"; "org_id"]] (org_cap_of o).

Definition already_applied : response :=
  error_response 409 "Contributor has already applied for this issue".

Definition cap_reached (msg cap_type : string) (limit current : Z) : response :=
  send_json 429 (obj [("error", Some (JStr msg));
    ("details", Some (obj [("cap_type", Some (JStr cap_type)); ("limit", Some (jint limit));
                           ("current", Some (jint current))]))]).

(** The cap checks; [None] lets the application through. *)
Definition check_caps (c o : string) : M state (option response) :=
  g ← count_pending c;
  let globalAppsCount := parseInt g in
  if js_ge globalAppsCount (Fin GLOBAL_CAP) then
    mret (Some (cap_reached "Global application cap reached" "global" GLOBAL_CAP
                  (match globalAppsCount with Fin n => n | NaN => 0 end)))
  else
    orgCap ← select_org_cap o;
    p ← count_pending_org c o;
    let orgAppsCount := parseInt p in
    if js_ge orgAppsCount (Fin orgCap) then
      mret (Some (cap_reached "Org application cap reached" "org" orgCap
                    (match orgAppsCount with Fin n => n | NaN => 0 end)))
    else mret None.

(** [if (!seq) seq = await soroban.getAccountSequence(contributor)]. *)
Definition sequence_or_fetch (c : string) (sequence : option string) : M state string :=
  match sequence with
  | Some ((String _ _) as s) => mret s
  | _ => on_chain (getAccountSequence c)
  end.

(** The last part: sequence number, transaction, simulated fee. *)
Definition build_application (c o : string) (n : jsnum) (sequence : option string)
    : M state response :=
  seq ← sequence_or_fetch c sequence;
  tx ← lift (buildApplyTx c o n seq);
  fee ← try_catch
          (estimate ← on_chain (simulate tx);
           mret (if String.eqb (fee estimate) "" then "100" else fee estimate))
          (λ _, mret "100");
  mret (send_json 200 (obj [("xdr", Some (JStr (toXDR tx))); ("fee", Some (JStr fee));
                            ("network_passphrase", Some (JStr NETWORK_PASSPHRASE))])).

(** [POST /apply], after validation. *)
Definition apply_handler (r : request) : M state response :=
  let c := text "contributor" r in
  let o := text "org_id" r in
  let issueIdNum := parseInt (default "undefined" (js_String <$> body_prop "issue_id" r)) in
  try_catch
    (rows ← find_application c o issueIdNum;
     match rows with
     | _ :: _ => mret already_applied
     | [] =>
         alreadyAppliedOnChain ← try_catch (on_chain (hasApplied c o issueIdNum))
                                   (λ _, mret false);
         if (alreadyAppliedOnChain : bool) then mret already_applied else
         refused ← check_caps c o;
         match refused with
         | Some res => mret res
         | None => build_application c o issueIdNum (body_prop "sequence" r ≫= as_string)
         end
     end)
    (λ err, mret (error_response 500 (error_message "failed to build apply transaction" err))).

Definition withdraw_handler (r : request) : M state response :=
  buildAndSimulate (buildWithdrawTx (text "contributor" r) (text "org_id" r)
    (number_prop "issue_id" r) (text "sequence" r)).
Definition assign_handler (r : request) : M state response :=
  buildAndSimulate (buildAssignTx (text "maintainer" r) (text "contributor" r)
    (text "org_id" r) (number_prop "issue_id" r) (text "sequence" r)).
Definition complete_handler (r : request) : M state response :=
  buildAndSimulate (buildCompleteTx (text "maintainer" r) (text "contributor" r)
    (text "org_id" r) (number_prop "issue_id" r) (text "sequence" r)).
Definition revoke_handler (r : request) : M state response :=
  buildAndSimulate (buildRevokeTx (text "maintainer" r) (text "contributor" r)
    (text "org_id" r) (number_prop "issue_id" r) (text "sequence" r)).

(** [POST /submit], after validation, at time [now].  An exception of the verifier is
    outside the [try] and leaves the handler. *)
Definition submit_handler (now : Z) (r : request) : M state response :=
  let signed_xdr := text "signed_xdr" r in
  match verifyTransactionXdr CONTRACT_ID decode_envelope now signed_xdr with
  | Throw e => throw e
  | Ret (VerificationFailure reason detail) =>
      mret (send_json 403 (obj
        [("error", Some (JStr "transaction verification failed"));
         ("reason", Some (JStr (reason_name reason))); ("detail", Some (JStr detail))]))
  | Ret (VerificationSuccess signer contract) =>
      try_catch
        (tx ← lift (parse_tx signed_xdr);
         result ← on_chain (submitTransaction tx);
         if sub_ok result then
           mret (send_json 200 (obj [("hash", Some (JStr (sub_hash result)));
                                     ("status", Some (JStr "success"))]))
         else
           mret (send_json 400 (obj
             [("error", Some (JStr "transaction submission failed"));
              ("detail", Some (JStr (default "unknown error"
                                       (cerr_message <$> sub_error result))))])))
        (λ err, mret (error_response 500 (error_message "submission error" err)))
  end.

(** A route: the validation middleware, then the handler. *)
Definition route (s : Validation.schema) (h : request → M state response)
    : request → M state verdict :=
  dispatch [(λ r, mret (validateBody s r)); (λ r, res ← h r; mret (Respond res))].

Definition post_apply := route applyIssueSchema apply_handler.
Definition post_withdraw := route withdrawSchema withdraw_handler.
Definition post_assign := route assignSchema assign_handler.
Definition post_complete := route completeSchema complete_handler.
Definition post_revoke := route revokeSchema revoke_handler.
Definition post_submit (now : Z) := route submitSchema (submit_handler now).

End Transactions.

(** ** Theorems *)

(** What the caps allow: no application to this issue yet, fewer than fifteen pending ones
    in all and fewer than the cap of the organisation there. *)
Record admissible (c o : string) (n : jsnum) (d : db) : Prop := {
  adm_new : Forall (λ a, is_application c o n a = false) (applications d);
  adm_global : Z.of_nat (length (filter (λ a, is_pending c a = true) (applications d))) < 15;
  adm_org : Z.of_nat (length (filter (λ a, is_pending c a && String.eqb (ap_org_id a) o = true)
                                (applications d))) < org_cap_of o d;
}.

Section theorems.
Context {N : Type} `{Rpc N} `{Zod} `{StrKey}.
Variable sc : schema.
Variable NETWORK_PASSPHRASE : string.

Notation state := (tx_state N).

Lemma on_chain_db {A} (m : M (@rpc_state N) A) w o w' :
  on_chain m w = (o, w') → tx_db (st w') = tx_db (st w).
Proof. unfold on_chain, zoom. destruct (m _) as [o1 w1]. by intros [= <- <-]. Qed.

(** What [check_caps] answers is decided by the caps alone. *)
Lemma check_caps_Ret c o w res w' :
  check_caps (N := N) sc c o w = (Ret res, w') →
  st w' = st w ∧
  match res with
  | Some r => status r = 429
  | None =>
      Z.of_nat (length (filter (λ a, is_pending c a = true) (applications (tx_db (st w))))) < 15 ∧
      Z.of_nat (length (filter (λ a, is_pending c a && String.eqb (ap_org_id a) o = true)
                          (applications (tx_db (st w))))) < org_cap_of o (tx_db (st w))
  end.
Proof.
  unfold check_caps. intros (g & w1 & Hg & Hk)%bind_Ret.
  apply select_Ret in Hg as [-> Hs1]. rewrite parse_count in Hk. cbn [js_ge js_cmp] in Hk.
  destruct (_ >=? _) eqn:E1 in Hk; [unfold_m; simplify_eq; by split|].
  apply bind_Ret in Hk as (cap & w2 & Hc & Hk). apply select_Ret in Hc as [-> Hs2].
  apply bind_Ret in Hk as (p & w3 & Hp & Hk). apply select_Ret in Hp as [-> Hs3].
  rewrite parse_count in Hk. rewrite ?Hs2, ?Hs1 in Hk. simpl in Hk.
  destruct (_ >=? _) eqn:E2 in Hk; unfold_m; simplify_eq; (split; [congruence|]); [done|].
  simpl in E1, E2. rewrite ?Hs1, ?Hs2 in *. unfold GLOBAL_CAP in *. simpl in *. lia.
Qed.

(** The answer in the hypotheses does not have the status the goal is about. *)
Ltac wrong_status :=
  unfold_m; simplify_eq;
  match goal with H : status _ = _ |- _ => exfalso; cbv in H; discriminate H end.

(** C2: [POST /apply] hands out a transaction only to an admissible application: whatever
    fails meanwhile, an answer 200 means that the contributor had no application to the
    issue and was below both caps, and the database is as it was. *)
Theorem apply_admits r w res w' :
  apply_handler (N := N) sc NETWORK_PASSPHRASE r w = (Ret res, w') →
  status res = 200 →
  admissible (text "contributor" r) (text "org_id" r)
    (parseInt (default "undefined" (js_String <$> body_prop "issue_id" r))) (tx_db (st w)) ∧
  tx_db (st w') = tx_db (st w).
Proof.
  intros Ha Hst. unfold apply_handler in Ha.
  set (c := text "contributor" r) in *. set (o := text "org_id" r) in *.
  set (n := parseInt _) in *. unfold try_catch at 1 in Ha.
  destruct ((find_application sc c o n ≫= _) w) as [[res'|e] w0] eqn:E;
    [|by wrong_status].
  simplify_eq. apply bind_Ret in E as (rows & w1 & Hf & E).
  apply select_Ret in Hf as [-> Hs1]. simpl in E.
  destruct (filter (λ a, is_application c o n a = true) (applications (tx_db (st w)))) as [|a l]
    eqn:Efil; [|simpl in E; by wrong_status].
  apply bind_Ret in E as ([] & w2 & Hc & E); [by wrong_status|].
  assert (tx_db (st w2) = tx_db (st w)) as Hd2.
  { rewrite <- Hs1. unfold try_catch in Hc. destruct (on_chain _ w1) as [[b|e] w3] eqn:Eo;
      apply on_chain_db in Eo; unfold_m; by simplify_eq. }
  apply bind_Ret in E as (refused & w3 & Hk & E). apply check_caps_Ret in Hk as [Hs3 Hk].
  rewrite Hd2 in Hk. destruct refused as [r'|]; [unfold_m; simplify_eq; congruence|].
  split.
  - destruct Hk as [Hg Ho]. split; [|done..]. apply Forall_forall. intros a Hin.
    destruct (is_application c o n a) eqn:Ea; [|done].
    assert (a ∈ filter (λ a, is_application c o n a = true) (applications (tx_db (st w)))) as Hx
      by (by apply list_elem_of_filter).
    rewrite Efil in Hx. set_solver.
  - assert (keeps (λ s : state, tx_db s = tx_db (st w)) (build_application NETWORK_PASSPHRASE c o n
      (body_prop "sequence" r ≫= as_string))) as Hkeep.
    { unfold build_application, sequence_or_fetch, on_chain, lift.
      repeat first [keeps_step | apply keeps_zoom; intros ? ?; done]. }
    eapply Hkeep; [exact E|]. by rewrite Hs3.
Qed.

(** The statements of [POST /apply] run. *)
Definition apply_runs (n : jsnum) : Prop :=
  unmet sc [Columns "applications" ["id"; "contributor"; "org_id"; "issue_id"]; Int4 n] = None ∧
  unmet sc [Columns "applications" ["contributor"; "status"]] = None ∧
  unmet sc [Columns "orgs" ["org_cap"; "org_id"]] = None ∧
  unmet sc [Columns "applications" ["contributor"; "org_id"; "status"]] = None.

Lemma check_caps_admits c o s :
  unmet sc [Columns "applications" ["contributor"; "status"]] = None →
  unmet sc [Columns "orgs" ["org_cap"; "org_id"]] = None →
  unmet sc [Columns "applications" ["contributor"; "org_id"; "status"]] = None →
  Z.of_nat (length (filter (λ a, is_pending c a = true) (applications (tx_db s)))) < 15 →
  Z.of_nat (length (filter (λ a, is_pending c a && String.eqb (ap_org_id a) o = true)
                      (applications (tx_db s)))) < org_cap_of o (tx_db s) →
  check_caps (N := N) sc c o (World s []) = (Ret None, World s []).
Proof.
  intros U1 U2 U3 Hg Ho. unfold check_caps.
  erewrite bind_intro by (by apply select_ok). rewrite parse_count. cbn [js_ge js_cmp get_db].
  destruct (_ >=? _) eqn:E1; [unfold GLOBAL_CAP in *; simpl in E1; lia|].
  erewrite bind_intro by (by apply select_ok). erewrite bind_intro by (by apply select_ok).
  rewrite parse_count. cbn [js_ge js_cmp get_db].
  match goal with |- context [if ?b then _ else _] => destruct b eqn:E2 end; [|done].
  simpl in E2. lia.
Qed.

Lemma build_application_ok c o n seq tx w :
  seq ≠ "" → buildApplyTx c o n seq = Ret tx →
  ∃ res w', build_application (N := N) NETWORK_PASSPHRASE c o n (Some seq) w = (Ret res, w') ∧
    status res = 200 ∧ (rbody res ≫= prop "xdr") = Some (JStr (toXDR tx)).
Proof.
  intros Hne Htx. destruct seq as [|ch seq]; [done|].
  destruct (try_default (S := state) (estimate ← on_chain (simulate tx);
     mret (if String.eqb (fee estimate) "" then "100" else fee estimate)) "100" w)
    as (f & w2 & Hf).
  eexists _, w2. split.
  - unfold build_application. rewrite bind_intro with (a := String ch seq) (w1 := w) by done.
    rewrite Htx. rewrite bind_intro with (a := tx) (w1 := w) by done.
    by rewrite (bind_intro _ _ _ _ _ Hf).
  - by split.
Qed.

(** The on-chain lookup without faults: its failures are ignored. *)
Lemma hasApplied_fallback c o n s :
  (hasApplied c o n (World (chain s) [])).1 ≠ Ret true →
  ∃ s', try_catch (on_chain (hasApplied c o n)) (λ _, mret false) (World s []) =
          (Ret false, World s' []) ∧ tx_db s' = tx_db s.
Proof.
  intros Hch. destruct (on_chain (hasApplied c o n) (World s [])) as [b w1] eqn:Eb.
  assert (shrinks (on_chain (N := N) (hasApplied c o n))) as Hshr.
  { apply shrinks_zoom. unfold hasApplied, callReadOnly, expect_bool, rpc, lift_outcome.
    repeat first [solve [auto with wg nocore] | case_match
                 | apply shrinks_bind; [|intros ?] | apply shrinks_try; [|intros ?]]. }
  pose proof (shrinks_fine _ _ _ _ Hshr Eb) as Hw1.
  exists (st w1). rewrite <- Hw1. split; [|exact (on_chain_db _ _ _ _ Eb)].
  unfold try_catch. rewrite Eb. destruct b as [[]|e]; [|done..].
  unfold on_chain, zoom in Eb. simpl in Eb.
  destruct (hasApplied c o n (World (chain s) [])) as [b1 w2]. by simplify_eq.
Qed.

(** conversely, without faults, an admissible application that the chain does not know
    yet and whose transaction can be built is answered 200 with that transaction. *)
Theorem apply_accepts r s tx seq :
  let c := text "contributor" r in
  let o := text "org_id" r in
  let n := parseInt (default "undefined" (js_String <$> body_prop "issue_id" r)) in
  apply_runs n → admissible c o n (tx_db s) →
  (hasApplied c o n (World (chain s) [])).1 ≠ Ret true →
  body_prop "sequence" r = Some (JStr seq) → seq ≠ "" →
  buildApplyTx c o n seq = Ret tx →
  ∃ res w', apply_handler (N := N) sc NETWORK_PASSPHRASE r (World s []) = (Ret res, w') ∧
    status res = 200 ∧ (rbody res ≫= prop "xdr") = Some (JStr (toXDR tx)).
Proof.
  intros c o n (U1 & U2 & U3 & U4) [Hnew Hg Ho] Hch Hseq Hne Htx.
  assert (filter (λ a, is_application c o n a = true) (applications (tx_db s)) = []) as Hfil.
  { apply filter_none. eapply Forall_impl; [exact Hnew|]. simpl. congruence. }
  destruct (hasApplied_fallback c o n s Hch) as (s1 & Hfall & Hd).
  destruct (build_application_ok c o n seq tx (World s1 []) Hne Htx) as (res & w' & Hb & Hres).
  exists res, w'. split; [|exact Hres]. unfold apply_handler. fold c o n. apply try_Ret.
  erewrite bind_intro by (by apply select_ok). simpl. rewrite Hfil. simpl.
  rewrite (bind_intro _ _ _ _ _ Hfall). simpl.
  erewrite bind_intro by (apply check_caps_admits; rewrite ?Hd; done).
  by rewrite Hseq.
Qed.

(** C6: a signed transaction reaches the network only if it passed the verification; one
    that did not is answered 403 with the reason, and nothing changes. *)
Theorem submit_broadcasts_verified CONTRACT_ID decode_envelope parse_tx now r w o w' :
  submit_handler (N := N) CONTRACT_ID decode_envelope parse_tx now r w = (o, w') →
  (w' ≠ w → ∃ signer contract,
     verifyTransactionXdr CONTRACT_ID decode_envelope now (text "signed_xdr" r) =
     Ret (VerificationSuccess signer contract)) ∧
  (∀ reason detail,
     verifyTransactionXdr CONTRACT_ID decode_envelope now (text "signed_xdr" r) =
     Ret (VerificationFailure reason detail) →
     ∃ res, o = Ret res ∧ w' = w ∧ status res = 403 ∧
            (rbody res ≫= prop "reason") = Some (JStr (reason_name reason))).
Proof.
  unfold submit_handler. intros Hs.
  destruct (verifyTransactionXdr _ _ _ _) as [[signer contract|reason detail]|e];
    (split; [intros Hw|intros reason' detail' Hv]); simplify_eq.
  - eauto.
  - unfold_m. by simplify_eq.
  - unfold_m. simplify_eq. eexists. split_and!; [reflexivity|done..].
  - unfold_m. by simplify_eq.
Qed.

(** the four other build routes always answer, 200 with the transaction or 400. *)
Theorem build_routes_answer r :
  Forall (ensures (λ res, status res = 200 ∨ status res = 400))
    [withdraw_handler (N := N) r; assign_handler r; complete_handler r; revoke_handler r].
Proof.
  assert (∀ b, ensures (λ res, status res = 200 ∨ status res = 400)
                 (buildAndSimulate (N := N) b)) as Hb.
  { intros b. unfold buildAndSimulate. repeat result_step; by (left + right). }
  repeat constructor; apply Hb.
Qed.

End theorems.

(** over the tables [migrate] creates, which give applications no id and no status,
    every request to [POST /apply] is answered 500, whatever it says. *)
Theorem apply_over_migrate_schema {N} `{Rpc N} NETWORK_PASSPHRASE r :
  ensures (λ res, status res = 500)
    (apply_handler (N := N) migrate_schema NETWORK_PASSPHRASE r).
Proof.
  intros w. unfold apply_handler, try_catch at 1.
  assert (∀ n c o, ∃ e w1, find_application (N := N) migrate_schema c o n w = (Throw e, w1))
    as Hthrow.
  { intros n c o. unfold find_application, select, query, call.
    destruct w as [s [|[|e|e] fs]]; simpl; eauto. }
  match goal with |- context [find_application _ ?c ?o ?n ≫= ?k] =>
    destruct (Hthrow n c o) as (e & w1 & He); rewrite (bind_throw _ k _ _ _ He) end.
  eexists _, w1. by split.
Qed.

(** ** Concrete runs *)

Definition open_rpc : Rpc unit := {|
  Tx := invocation;
  ScVal := bool;
  build i := if strlen (source i) =? 56 then Ret i else Throw (Error "accountId is invalid");
  toXDR i := fnName i;
  scValToNative b := Ret (NatBoolean b);
  getAccount _ s := (Ret (mkAccount (Some "7") None), s);
  simulateTransaction _ s := (Ret (SimSuccess "100" 1 2 3 (Some false)), s);
  sendTransaction _ s := (Ret (mkSend "h" "PENDING"), s);
  getTransaction _ s := (Ret (mkGet "SUCCESS" None), s);
  ContractData := unit;
  getLedgerData _ s := (Ret tt, s);
|}.

Definition apply_request (issue_id : json) : request :=
  Request [] [] [] (Some (JObj [("contributor", JStr demo_account); ("org_id", JStr "org");
                                ("issue_id", issue_id); ("sequence", JStr "9")])) None.

Definition demo_tx_state : tx_state unit := TxState empty_db (RpcState tt []).
Definition demo_apply_tx : invocation :=
  mkInvocation demo_account "9" "apply_for_issue"
    [ArgAddress demo_account; ArgSymbol "org"; ArgU32 (Fin 5)].

Lemma apply_admits_witness :
  admissible demo_account "org" (Fin 5) empty_db ∧ empty_db = empty_db.
Proof.
  refine (@apply_admits unit open_rpc full_schema "net" (apply_request (jint 5))
    (World demo_tx_state [])
    (send_json 200 (obj [("xdr", Some (JStr "apply_for_issue")); ("fee", Some (JStr "100"));
                         ("network_passphrase", Some (JStr "net"))]))
    (World demo_tx_state []) _ _); vm_compute; reflexivity.
Defined.

Lemma apply_accepts_witness :
  ∃ res w', @apply_handler unit open_rpc full_schema "net" (apply_request (jint 5))
              (World demo_tx_state []) = (Ret res, w') ∧
    status res = 200 ∧ (rbody res ≫= prop "xdr") = Some (JStr "apply_for_issue").
Proof.
  apply (@apply_accepts unit open_rpc full_schema "net" (apply_request (jint 5)) demo_tx_state
    demo_apply_tx "9"); done.
Defined.

(** An issue id in another notation: the validation reads 31, the handler reads 0. *)
Example hexadecimal_issue_id :
  is_next (validateBody applyIssueSchema (apply_request (JStr "0x1F"))) = true ∧
  js_Number "0x1F" = NumDec 31 0 ∧ parseInt "0x1F" = Fin 0.
Proof. split_and!; vm_compute; reflexivity. Qed.

Definition submit_request : request :=
  Request [] [] [] (Some (JObj [("signed_xdr", JStr "xdr")])) None.

Lemma submit_broadcasts_verified_witness :
  let run := @submit_handler unit open_rpc demo_strkey "CONTRACT"
    (λ _, inl (PlainTx demo_tx)) (λ _, Ret demo_apply_tx) 999000 submit_request
    (World demo_tx_state []) in
  ∃ res, run.1 = Ret res ∧ run.2 = World demo_tx_state [] ∧ status res = 403 ∧
         (rbody res ≫= prop "reason") = Some (JStr "TRANSACTION_EXPIRED").
Proof.
  intros run.
  refine (proj2 (@submit_broadcasts_verified unit open_rpc demo_strkey "CONTRACT"
    (λ _, inl (PlainTx demo_tx)) (λ _, Ret demo_apply_tx) 999000 submit_request
    (World demo_tx_state []) run.1 run.2 _) TRANSACTION_EXPIRED
    "Transaction expired at 1970-01-01T00:01:40.000Z (now: 1970-01-01T00:16:39.000Z)" _);
    vm_compute; reflexivity.
Defined.
