(* ===== verification/Sync.v ===== *)
(** * The per-organisation event queues ([src/sync.ts])

    [OrgQueue] and [SyncService] as a state machine.  Node runs one callback at a time, so
    the atomic steps are: an event emitted on a channel, the completion of a save that was
    in flight, the completion of a query for the registered organisations, starting and
    stopping.  A save in flight is the head of a queue that is processing. *)

From Stdlib Require Import String.
From S2P Require Import Prelude.

#[local] Open Scope string_scope.
#[local] Open Scope list_scope.
#[local] Open Scope Z_scope.

Inductive event_type := applied | withdrawn | assigned | completed | revoked.

#[export] Instance event_type_eq_dec : EqDecision event_type.
Proof. solve_decision. Defined.

Record OrgEvent := mkOrgEvent {
  org_id : string;
  ev_type : event_type;
  issue_id : string;
  contributor : string;
  tx_hash : string;
  occurred_at : Z;
}.

#[export] Instance OrgEvent_eq_dec : EqDecision OrgEvent.
Proof. solve_decision. Defined.

Record OrgRecord := mkOrgRecord { rec_org_id : string; contract_address : string }.

(** ** [OrgQueue] *)

Record OrgQueue := mkQueue {
  orgId : string;
  contractAddress : string;
  queue : list OrgEvent;
  processing : bool;
}.

Definition new_queue (orgId contractAddress : string) : OrgQueue :=
  mkQueue orgId contractAddress [] false.

(** [processNext] up to its [await]: it goes idle, or starts to save the head. *)
Definition processNext (q : OrgQueue) : OrgQueue :=
  match queue q with
  | [] => mkQueue (orgId q) (contractAddress q) [] false
  | _ => mkQueue (orgId q) (contractAddress q) (queue q) true
  end.

Definition enqueue (event : OrgEvent) (q : OrgQueue) : OrgQueue :=
  if String.eqb (org_id event) (orgId q) then
    let q := mkQueue (orgId q) (contractAddress q) (queue q ++ [event]) (processing q) in
    if processing q then q else processNext q
  else q.

(** The save in flight. *)
Definition in_flight (q : OrgQueue) : option OrgEvent :=
  if processing q then head (queue q) else None.

(** [processNext] from the settlement of the save on: the event leaves the queue whether
    it was saved or not. *)
Definition finish_save (q : OrgQueue) : OrgQueue :=
  processNext (mkQueue (orgId q) (contractAddress q) (tail (queue q)) (processing q)).

Definition queueLength (q : OrgQueue) : nat := length (queue q).
Definition isProcessing (q : OrgQueue) : bool := processing q.

(** ** [SyncService] *)

(** The map keeps the order of insertion ([registeredOrgIds]); [listeners] are the
    channels subscribed to, one entry per [on]; [saved] is the [events] table. *)
Record SyncService := mkService {
  orgQueues : gmap string OrgQueue;
  registeredOrgIds : list string;
  listeners : list string;
  pollInterval : bool;
  saved : list OrgEvent;
}.

Definition new_service : SyncService := mkService ∅ [] [] false [].

Definition orgCount (s : SyncService) : nat := size (orgQueues s).
Definition getQueue (o : string) (s : SyncService) : option OrgQueue := orgQueues s !! o.

Definition with_queue (o : string) (q : OrgQueue) (s : SyncService) : SyncService :=
  mkService (<[o := q]> (orgQueues s)) (registeredOrgIds s) (listeners s) (pollInterval s)
    (saved s).

Definition handleEvent (o : string) (event : OrgEvent) (s : SyncService) : SyncService :=
  match orgQueues s !! o with
  | None => s
  | Some q => with_queue o (enqueue event q) s
  end.

Definition startOrgListener (o : string) (s : SyncService) : SyncService :=
  mkService (orgQueues s) (registeredOrgIds s) (listeners s ++ [o]) (pollInterval s) (saved s).

(** The body of the loop of [loadAndRegisterOrgs]. *)
Definition register (s : SyncService) (org : OrgRecord) : SyncService :=
  if decide (is_Some (orgQueues s !! rec_org_id org)) then s
  else
    startOrgListener (rec_org_id org)
      (mkService (<[rec_org_id org := new_queue (rec_org_id org) (contract_address org)]>
                    (orgQueues s))
         (registeredOrgIds s ++ [rec_org_id org]) (listeners s) (pollInterval s) (saved s)).

(** [loadAndRegisterOrgs]: [None] is a failed query. *)
Definition loadAndRegisterOrgs (orgs : option (list OrgRecord)) (s : SyncService) : SyncService :=
  match orgs with
  | None => s
  | Some orgs => fold_left register orgs s
  end.

Definition set_poll (b : bool) (s : SyncService) : SyncService :=
  mkService (orgQueues s) (registeredOrgIds s) (listeners s) b (saved s).

(** [emit('event:' + o, event)]: every listener of the channel calls [handleEvent]. *)
Definition emit (o : string) (event : OrgEvent) (s : SyncService) : SyncService :=
  fold_left (λ s l, handleEvent l event s) (filter (λ l, l = o) (listeners s)) s.

(** The save in flight of [o] settles. *)
Definition settle (o : string) (q : OrgQueue) (e : OrgEvent) (ok : bool) (s : SyncService)
    : SyncService :=
  mkService (<[o := finish_save q]> (orgQueues s)) (registeredOrgIds s) (listeners s)
    (pollInterval s) (if ok then saved s ++ [e] else saved s).

(** ** Steps *)

Inductive label :=
  | Emitted (o : string) (e : OrgEvent)
  | Settled (o : string) (e : OrgEvent) (ok : bool)
  | Loaded (orgs : option (list OrgRecord))
  | Started
  | Stopped.

(** A query for the organisations completes at any time: it may have been sent by [start],
    by the timer, or by a direct call. *)
Inductive step : SyncService → label → SyncService → Prop :=
  | step_emit s o e : step s (Emitted o e) (emit o e s)
  | step_settle s o q e ok :
      orgQueues s !! o = Some q → in_flight q = Some e →
      step s (Settled o e ok) (settle o q e ok s)
  | step_load s orgs : step s (Loaded orgs) (loadAndRegisterOrgs orgs s)
  | step_start s : step s Started (set_poll true s)
  | step_stop s : step s Stopped (set_poll false s).

(** Histories, oldest label first. *)
Inductive reach : list label → SyncService → Prop :=
  | reach_init : reach [] new_service
  | reach_step tr s l s' : reach tr s → step s l s' → reach (tr ++ [l]) s'.

(** ** The specification of one organisation *)

(** Is the organisation known after these labels? *)
Definition registers (o : string) (l : label) : bool :=
  match l with
  | Loaded (Some orgs) => existsb (λ r, String.eqb (rec_org_id r) o) orgs
  | _ => false
  end.

Definition known (o : string) (tr : list label) : bool := existsb (registers o) tr.

(** The events a queue must take: those of the organisation, emitted on its channel once
    it is known. *)
Fixpoint accepted_from (k : bool) (o : string) (tr : list label) : list OrgEvent :=
  match tr with
  | [] => []
  | l :: tr' =>
      (match l with
       | Emitted o' e => if k && String.eqb o' o && String.eqb (org_id e) o then [e] else []
       | _ => []
       end) ++ accepted_from (k || registers o l) o tr'
  end.

Definition accepted (o : string) (tr : list label) : list OrgEvent := accepted_from false o tr.

(** The events whose save was settled, in order, and those among them that were saved. *)
Definition settled (o : string) (tr : list label) : list OrgEvent :=
  omap (λ l, match l with
             | Settled o' e _ => if String.eqb o' o then Some e else None
             | _ => None end) tr.

Definition persisted (tr : list label) : list OrgEvent :=
  omap (λ l, match l with Settled _ e true => Some e | _ => None end) tr.

(** ** Lemmas *)

Record wf (s : SyncService) : Prop := {
  wf_queue : ∀ o q, orgQueues s !! o = Some q →
    orgId q = o ∧ (processing q = false ↔ queue q = []);
  wf_listeners : listeners s = registeredOrgIds s;
  wf_NoDup : NoDup (registeredOrgIds s);
  wf_ids : ∀ o, o ∈ registeredOrgIds s ↔ is_Some (orgQueues s !! o);
}.

Lemma processNext_spec q :
  orgId (processNext q) = orgId q ∧ queue (processNext q) = queue q ∧
  (processing (processNext q) = false ↔ queue q = []).
Proof. unfold processNext. destruct (queue q) eqn:E; simpl; rewrite ?E; done. Qed.

(** What [enqueue] and [finish_save] do to a well-formed queue. *)
Lemma enqueue_spec e q :
  (processing q = false ↔ queue q = []) →
  orgId (enqueue e q) = orgId q ∧
  queue (enqueue e q) = queue q ++ (if String.eqb (org_id e) (orgId q) then [e] else []) ∧
  (processing (enqueue e q) = false ↔ queue (enqueue e q) = []).
Proof.
  intros Hp. unfold enqueue. destruct (String.eqb (org_id e) (orgId q)); [|by rewrite app_nil_r].
  simpl. destruct (processing q) eqn:E; simpl.
  - split_and!; [done..|]. split; [done|]. by destruct (queue q).
  - destruct (processNext_spec (mkQueue (orgId q) (contractAddress q) (queue q ++ [e]) false))
      as (H1 & H2 & H3). rewrite H1, H2. by split_and!.
Qed.

Lemma finish_save_spec q :
  orgId (finish_save q) = orgId q ∧ queue (finish_save q) = tail (queue q) ∧
  (processing (finish_save q) = false ↔ queue (finish_save q) = []).
Proof.
  unfold finish_save.
  destruct (processNext_spec (mkQueue (orgId q) (contractAddress q) (tail (queue q)) (processing q)))
    as (H1 & H2 & H3). rewrite H1, H2. by split_and!.
Qed.

Lemma emit_handle o e s : wf s → emit o e s = handleEvent o e s.
Proof.
  intros [_ Hl Hn Hi]. unfold emit. rewrite Hl.
  destruct (decide (o ∈ registeredOrgIds s)) as [Hin|Hin].
  - assert (filter (λ l, l = o) (registeredOrgIds s) = [o]) as ->; [|done].
    apply list_elem_of_split in Hin as (l1 & l2 & Heq). rewrite Heq in *.
    apply NoDup_app in Hn as (_ & H1 & [H2 _]%NoDup_cons).
    rewrite filter_app, filter_cons_True by done.
    rewrite !filter_none; [done| |]; apply Forall_forall; set_solver.
  - rewrite filter_none by (apply Forall_forall; set_solver). simpl.
    unfold handleEvent. destruct (orgQueues s !! o) eqn:E; [|done].
    exfalso. apply Hin, Hi. by eexists.
Qed.

(** Registration keeps the queues it finds and adds empty ones. *)
Lemma register_lookup orgs : ∀ s o,
  (∀ q, orgQueues s !! o = Some q → orgQueues (fold_left register orgs s) !! o = Some q) ∧
  (orgQueues s !! o = None →
   if existsb (λ r, String.eqb (rec_org_id r) o) orgs
   then ∃ c, orgQueues (fold_left register orgs s) !! o = Some (new_queue o c)
   else orgQueues (fold_left register orgs s) !! o = None).
Proof.
  induction orgs as [|r orgs IH]; intros s o; simpl; [done|].
  destruct (IH (register s r) o) as [IH1 IH2].
  destruct (decide (is_Some (orgQueues s !! rec_org_id r))) as [Hd|Hd].
  - assert (register s r = s) as Hr by (unfold register; by rewrite decide_True).
    rewrite Hr in *. split; [done|]. intros Hn.
    destruct (String.eqb_spec (rec_org_id r) o) as [<-|Hne]; [destruct Hd; congruence|].
    by apply IH2.
  - assert (orgQueues (register s r) =
      <[rec_org_id r := new_queue (rec_org_id r) (contract_address r)]> (orgQueues s)) as Hr
      by (unfold register; by rewrite decide_False).
    rewrite Hr in IH1, IH2. destruct (String.eqb_spec (rec_org_id r) o) as [<-|Hne]; simpl.
    + split; [intros q Hq; destruct Hd; by eexists|]. intros _. eexists. apply IH1.
      apply lookup_insert_eq.
    + rewrite lookup_insert_ne in IH1, IH2 by done. by split.
Qed.

Lemma register_wf orgs : ∀ s, wf s → wf (fold_left register orgs s).
Proof.
  induction orgs as [|r orgs IH]; intros s Hs; simpl; [done|]. apply IH.
  unfold register. case_decide as Hd; [done|]. destruct Hs as [Hq Hl Hn Hi].
  assert (rec_org_id r ∉ registeredOrgIds s) as Hnin by (by rewrite Hi).
  split; simpl.
  - intros o q [[<- <-]|[Hne Ho]]%lookup_insert_Some; [done|by apply Hq].
  - by rewrite Hl.
  - apply NoDup_app. split_and!; [done|set_solver|apply NoDup_singleton].
  - intros o. rewrite elem_of_app, list_elem_of_singleton, Hi.
    destruct (decide (o = rec_org_id r)) as [->|Hne].
    + rewrite lookup_insert_eq. split; [by eexists|by right].
    + rewrite lookup_insert_ne by done. naive_solver.
Qed.

Lemma update_wf s o q q' p sv :
  wf s → orgQueues s !! o = Some q → orgId q' = o →
  (processing q' = false ↔ queue q' = []) →
  wf (mkService (<[o := q']> (orgQueues s)) (registeredOrgIds s) (listeners s) p sv).
Proof.
  intros [Hq Hl Hn Hi] Ho Hid Hp. split; simpl; [|done|done|].
  - intros o' q0 [[<- <-]|[Hne Ho']]%lookup_insert_Some; [done|by apply Hq].
  - intros o'. rewrite Hi. destruct (decide (o = o')) as [<-|Hne].
    + rewrite lookup_insert_eq, Ho. split; by eexists.
    + by rewrite lookup_insert_ne.
Qed.

Lemma step_wf s l s' : step s l s' → wf s → wf s'.
Proof.
  intros Hst Hw. destruct Hst as [s o e|s o q e ok Ho Hf|s orgs|s|s].
  - rewrite emit_handle by done. unfold handleEvent.
    destruct (orgQueues s !! o) as [q|] eqn:Ho; [|done].
    destruct (wf_queue s Hw o q Ho) as [Hid Hp].
    destruct (enqueue_spec e q Hp) as (H1 & _ & H3).
    apply (update_wf s o q); [done|done|congruence|done].
  - destruct (wf_queue s Hw o q Ho) as [Hid Hp].
    destruct (finish_save_spec q) as (H1 & _ & H3).
    apply (update_wf s o q); [done|done|congruence|done].
  - destruct orgs as [orgs|]; [by apply register_wf|done].
  - destruct Hw. by split.
  - destruct Hw. by split.
Qed.

Lemma new_service_wf : wf new_service.
Proof.
  split; simpl; [|done|constructor|].
  - intros o q Ho. by rewrite lookup_empty in Ho.
  - intros o. rewrite lookup_empty. split; [set_solver|by intros []].
Qed.

Lemma reach_wf tr s : reach tr s → wf s.
Proof. induction 1; [apply new_service_wf|by eapply step_wf]. Qed.

Lemma known_snoc o tr l : known o (tr ++ [l]) = known o tr || registers o l.
Proof. unfold known. rewrite existsb_app. simpl. by rewrite orb_false_r. Qed.

Lemma accepted_from_snoc o tr l : ∀ k,
  accepted_from k o (tr ++ [l]) =
  accepted_from k o tr ++
    match l with
    | Emitted o' e =>
        if (k || known o tr) && String.eqb o' o && String.eqb (org_id e) o then [e] else []
    | _ => []
    end.
Proof.
  induction tr as [|l' tr IH]; intros k; simpl.
  - rewrite app_nil_r. destruct l; by rewrite ?orb_false_r.
  - rewrite IH, <- app_assoc. do 2 f_equal. destruct l; try done.
    unfold known. simpl. by rewrite orb_assoc.
Qed.

Lemma accepted_snoc o tr l :
  accepted o (tr ++ [l]) = accepted o tr ++
    match l with
    | Emitted o' e =>
        if known o tr && String.eqb o' o && String.eqb (org_id e) o then [e] else []
    | _ => []
    end.
Proof. apply accepted_from_snoc. Qed.

Lemma settled_snoc o tr l :
  settled o (tr ++ [l]) = settled o tr ++
    match l with Settled o' e _ => if String.eqb o' o then [e] else [] | _ => [] end.
Proof.
  unfold settled. rewrite omap_app. f_equal. destruct l as [|o' e ok| | |]; try done. simpl.
  by destruct (String.eqb o' o).
Qed.

Lemma persisted_snoc tr l :
  persisted (tr ++ [l]) = persisted tr ++
    match l with Settled _ e true => [e] | _ => [] end.
Proof. unfold persisted. rewrite omap_app. f_equal. by destruct l as [|? ? []| | |]. Qed.

(** What a history says about the queue of one organisation. *)
Definition explained (o : string) (tr : list label) (s : SyncService) : Prop :=
  match orgQueues s !! o with
  | Some q => known o tr = true ∧ accepted o tr = settled o tr ++ queue q
  | None => known o tr = false ∧ accepted o tr = [] ∧ settled o tr = []
  end.

Lemma explained_step o tr s l s' :
  wf s → step s l s' → explained o tr s → explained o (tr ++ [l]) s'.
Proof.
  intros Hw Hst. unfold explained. rewrite known_snoc, accepted_snoc, settled_snoc.
  destruct Hst as [s o' e|s o' q' e ok Ho Hf|s orgs|s|s]; simpl.
  - rewrite emit_handle by done. unfold handleEvent, with_queue.
    rewrite orb_false_r, app_nil_r.
    destruct (String.eqb_spec o' o) as [->|Hne].
    + destruct (orgQueues s !! o) as [q|] eqn:Ho; simpl; rewrite ?Ho.
      * rewrite lookup_insert_eq. intros [-> ->]. split; [done|]. simpl.
        destruct (wf_queue s Hw o q Ho) as [Hid Hp].
        destruct (enqueue_spec e q Hp) as (_ & -> & _). rewrite Hid. by rewrite app_assoc.
      * intros (-> & -> & ->). done.
    + rewrite andb_false_r. simpl. rewrite app_nil_r.
      destruct (orgQueues s !! o') as [q|] eqn:Ho'; simpl; [|done].
      by rewrite lookup_insert_ne.
  - rewrite orb_false_r, app_nil_r. destruct (String.eqb_spec o' o) as [->|Hne].
    + rewrite lookup_insert_eq, Ho. intros [-> ->]. split; [done|].
      destruct (finish_save_spec q') as (_ & -> & _).
      unfold in_flight in Hf. destruct (processing q'); [|done].
      destruct (queue q') as [|e' l]; simplify_eq/=. by rewrite <- app_assoc.
    + rewrite lookup_insert_ne, app_nil_r by done. done.
  - rewrite !app_nil_r. destruct orgs as [orgs|]; simpl; [|by rewrite orb_false_r].
    destruct (register_lookup orgs s o) as [H1 H2].
    destruct (orgQueues s !! o) as [q|] eqn:Ho.
    + rewrite (H1 q eq_refl). intros [-> ->]. done.
    + specialize (H2 eq_refl). intros (-> & -> & ->). simpl.
      destruct (existsb _ orgs); [destruct H2 as [c ->]; by split|by rewrite H2].
  - by rewrite orb_false_r, !app_nil_r.
  - by rewrite orb_false_r, !app_nil_r.
Qed.

Lemma step_saved s l s' :
  wf s → step s l s' →
  saved s' = saved s ++ match l with Settled _ e true => [e] | _ => [] end.
Proof.
  intros Hw Hst. destruct Hst as [s o e|s o q e ok Ho Hf|s orgs|s|s]; simpl;
    rewrite ?app_nil_r; try done.
  - rewrite emit_handle by done. unfold handleEvent. by destruct (orgQueues s !! o).
  - destruct ok; [done|by rewrite app_nil_r].
  - destruct orgs as [orgs|]; [|done]. simpl. clear Hw. revert s.
    induction orgs as [|r orgs IH]; intros s; [done|]. simpl. rewrite IH.
    unfold register. by case_decide.
Qed.

(** ** Theorems *)

(** C7: in every history, the events a known organisation took are, in the order they were
    emitted, those whose save was settled followed by those still queued: none is lost,
    duplicated or overtaken, and none reaches another queue; the save in flight is that of
    the first queued event; unknown organisations take nothing; and the [events] table
    holds the events whose save succeeded, in the order they settled. *)
Theorem queues_fifo tr s :
  reach tr s →
  (∀ o, match orgQueues s !! o with
        | Some q => known o tr = true ∧ accepted o tr = settled o tr ++ queue q ∧
                    in_flight q = head (queue q)
        | None => known o tr = false ∧ accepted o tr = [] ∧ settled o tr = []
        end) ∧
  saved s = persisted tr.
Proof.
  intros Hr. split.
  - intros o. assert (explained o tr s) as He.
    { induction Hr as [|tr s l s' Hr IH Hst]; [unfold explained; simpl; by rewrite lookup_empty|].
      eapply explained_step; [by eapply reach_wf|done|done]. }
    unfold explained in He. destruct (orgQueues s !! o) as [q|] eqn:Ho; [|done].
    destruct He as [Hk Ha]. split_and!; [done..|].
    destruct (wf_queue s (reach_wf _ _ Hr) o q Ho) as [_ Hp]. unfold in_flight.
    destruct (processing q); [done|]. by rewrite (proj1 Hp eq_refl).
  - induction Hr as [|tr s l s' Hr IH Hst]; [done|].
    rewrite persisted_snoc, <- IH. by apply step_saved; [eapply reach_wf|].
Qed.

(** C27: whatever is saved or lost, a queue drains by itself: from any reachable state, as
    many settlements as it has events, each enabled in turn and successful or not, leave
    it empty and idle, and touch no other queue. *)
Theorem queue_drains oks : ∀ tr s o q,
  reach tr s → getQueue o s = Some q → length oks = queueLength q →
  ∃ s' q', reach (tr ++ zip_with (Settled o) (queue q) oks) s' ∧
    getQueue o s' = Some q' ∧ queue q' = [] ∧ isProcessing q' = false ∧
    ∀ o', o' ≠ o → getQueue o' s' = getQueue o' s.
Proof.
  unfold getQueue, queueLength, isProcessing.
  induction oks as [|ok oks IH]; intros tr s o q Hr Ho Hlen.
  - destruct (queue q) eqn:Eq; [|done]. exists s, q. rewrite app_nil_r.
    destruct (wf_queue s (reach_wf _ _ Hr) o q Ho) as [_ Hp]. naive_solver.
  - destruct (queue q) as [|e l] eqn:Eq; [done|]. simpl.
    destruct (wf_queue s (reach_wf _ _ Hr) o q Ho) as [_ Hp].
    assert (in_flight q = Some e) as Hf.
    { unfold in_flight. rewrite Eq. destruct (processing q); [done|].
      by rewrite (proj1 Hp eq_refl) in Eq. }
    pose proof (reach_step _ _ _ _ Hr (step_settle s o q e ok Ho Hf)) as Hr'.
    destruct (finish_save_spec q) as (_ & Ht & _). rewrite Eq in Ht. simpl in Ht.
    destruct (IH _ _ o (finish_save q) Hr') as (s' & q' & Hr2 & H1 & H2 & H3 & H4).
    { simpl. apply lookup_insert_eq. }
    { simpl in Hlen. rewrite Ht. lia. }
    exists s', q'. rewrite Ht, <- app_assoc in Hr2. split_and!; [exact Hr2|done..|].
    intros o' Hne. rewrite (H4 o' Hne). simpl. by rewrite lookup_insert_ne.
Qed.

(** loading organisations that are all known changes nothing, and a load never resets a
    queue. *)
Theorem load_idempotent orgs s :
  loadAndRegisterOrgs (Some orgs) (loadAndRegisterOrgs (Some orgs) s) =
    loadAndRegisterOrgs (Some orgs) s ∧
  ∀ o q, getQueue o s = Some q → getQueue o (loadAndRegisterOrgs (Some orgs) s) = Some q.
Proof.
  unfold getQueue. simpl.
  assert (∀ rs s, Forall (λ r, is_Some (orgQueues s !! rec_org_id r)) rs →
                  fold_left register rs s = s) as Hknown.
  { induction rs as [|r rs IH]; intros s0 Hf; [done|]. inversion Hf as [|? ? Hx Hf']; subst.
    simpl. assert (register s0 r = s0) as -> by (unfold register; by rewrite decide_True).
    by apply IH. }
  split; [|intros o q Hq; by apply register_lookup].
  apply Hknown, Forall_forall. intros r Hr.
  destruct (register_lookup orgs s (rec_org_id r)) as [H1 H2].
  destruct (orgQueues s !! rec_org_id r) as [q|] eqn:E; [rewrite (H1 q eq_refl); by eexists|].
  specialize (H2 eq_refl).
  assert (existsb (λ r', String.eqb (rec_org_id r') (rec_org_id r)) orgs = true) as Hx
    by (apply existsb_exists; exists r; split; [by apply list_elem_of_In|apply String.eqb_refl]).
  rewrite Hx in H2. destruct H2 as [c ->]. by eexists.
Qed.

(** ** A concrete history *)

Definition demo_event (o tx : string) : OrgEvent := mkOrgEvent o applied "1" "G" tx 0.

Definition demo_history : list label :=
  [Started; Loaded (Some [mkOrgRecord "a" "C1"; mkOrgRecord "b" "C2"]);
   Emitted "a" (demo_event "a" "t1"); Emitted "a" (demo_event "a" "t2");
   Emitted "b" (demo_event "b" "t3"); Settled "a" (demo_event "a" "t1") false].

(** The state the history leads to. *)
Definition demo_service : SyncService :=
  let s := loadAndRegisterOrgs (Some [mkOrgRecord "a" "C1"; mkOrgRecord "b" "C2"])
             (set_poll true new_service) in
  let s := emit "b" (demo_event "b" "t3") (emit "a" (demo_event "a" "t2")
             (emit "a" (demo_event "a" "t1") s)) in
  settle "a" (mkQueue "a" "C1" [demo_event "a" "t1"; demo_event "a" "t2"] true)
    (demo_event "a" "t1") false s.

Lemma demo_reach : reach demo_history demo_service.
Proof.
  pose proof (reach_step _ _ _ _ reach_init (step_start _)) as H.
  pose proof (reach_step _ _ _ _ H
    (step_load _ (Some [mkOrgRecord "a" "C1"; mkOrgRecord "b" "C2"]))) as H1.
  pose proof (reach_step _ _ _ _ H1 (step_emit _ "a" (demo_event "a" "t1"))) as H2.
  pose proof (reach_step _ _ _ _ H2 (step_emit _ "a" (demo_event "a" "t2"))) as H3.
  pose proof (reach_step _ _ _ _ H3 (step_emit _ "b" (demo_event "b" "t3"))) as H4.
  refine (reach_step _ _ _ _ H4 (step_settle _ "a" _ (demo_event "a" "t1") false _ _));
    vm_compute; reflexivity.
Qed.

Lemma queues_fifo_witness :
  accepted "a" demo_history = [demo_event "a" "t1"; demo_event "a" "t2"] ∧
  settled "a" demo_history ++ [demo_event "a" "t2"] = accepted "a" demo_history.
Proof.
  pose proof (proj1 (queues_fifo demo_history demo_service demo_reach) "a") as H.
  vm_compute in H. destruct H as (_ & H & _). split; [reflexivity|]. vm_compute. exact H.
Defined.

Lemma queue_drains_witness :
  ∃ s' q', reach (demo_history ++ zip_with (Settled "a") [demo_event "a" "t2"] [true]) s' ∧
    getQueue "a" s' = Some q' ∧ queue q' = [] ∧ isProcessing q' = false ∧
    ∀ o', o' ≠ "a" → getQueue o' s' = getQueue o' demo_service.
Proof.
  apply (queue_drains [true] demo_history demo_service "a"
    (mkQueue "a" "C1" [demo_event "a" "t2"] true) demo_reach); vm_compute; reflexivity.
Defined.
