(* ===== verification/Indexer.v ===== *)
(** * The event indexer ([src/eventIndexer.ts]) and the events of the contract
    ([src/events.rs])

    Parsing of RPC events into records, the deduplicating insert and the processing of one
    batch.  The class body of the source does not parse as it stands: the insert of
    [storeEvent] is followed by lines of another version, and its [return] has slipped into
    a second [stop]; [storeEvent] below is the insert and that [return]. *)

From Stdlib Require Import String Ascii.
From S2P Require Import Prelude Js Db.

#[local] Open Scope string_scope.
#[local] Open Scope list_scope.
#[local] Open Scope Z_scope.

Inductive ContractEventType :=
  | applied | withdrew | assigned | completed | revoked | maintainer_registered.

#[export] Instance ContractEventType_eq_dec : EqDecision ContractEventType.
Proof. solve_decision. Defined.

Definition type_name (t : ContractEventType) : string :=
  match t with
  | applied => "applied"
  | withdrew => "withdrew"
  | assigned => "assigned"
  | completed => "completed"
  | revoked => "revoked"
  | maintainer_registered => "maintainer_registered"
  end.

Definition known : list ContractEventType :=
  [applied; withdrew; assigned; completed; revoked; maintainer_registered].

(** What [scValToNative] returns. *)
Inductive native :=
  | NStr (s : string)
  | NNum (z : Z)
  | NArr (l : list native)
  | NOther.

Record RpcEvent := mkRpcEvent {
  re_type : string;
  re_id : string;
  pagingToken : option string;
  re_ledger : string;
  createdAt : string;
  txHash : option string;
  topic : option (list string);   (** the [xdr] of each topic *)
  value : option string;          (** [value.xdr] *)
}.

(** [timestamp] is [new Date(...)], [NaN] for an invalid date. *)
Record ContractEventRecord := mkRecord {
  event_type : ContractEventType;
  contributor : option string;
  org_id : option string;
  issue_id : option Z;
  tx_hash : string;
  event_index : jsnum;
  ledger : jsnum;
  timestamp : jsnum;
}.

Section Indexer.
Variable sc : schema.
(** [scValToNative(ScVal.fromXDR(x, 'base64'))]; [None] when it throws. *)
Variable decodeScVal : string → option native.
(** The time value of [new Date(s)]. *)
Variable parse_date : string → jsnum.

Definition as_str (v : option native) : option string :=
  match v with Some (NStr s) => Some s | _ => None end.
Definition as_num (v : option native) : option Z :=
  match v with Some (NNum z) => Some z | _ => None end.

Definition extractEventType (topics : list string) : option ContractEventType :=
  match topics with
  | [] => None
  | t :: _ =>
      match as_str (decodeScVal t) with
      | Some val => snd <$> list_find (λ k, type_name k = val) known
      | None => None
      end
  end.

Definition extractContributorFromTopic (topics : list string) : option string :=
  match topics with
  | _ :: t :: _ => as_str (decodeScVal t)
  | _ => None
  end.

Definition parseEventData (dataXdr : string) (eventType : ContractEventType)
    : option string * option Z :=
  let raw := decodeScVal dataXdr in
  match eventType with
  | maintainer_registered => (as_str raw, None)
  | applied | withdrew =>
      match raw with
      | Some (NArr l) => (as_str (l !! 0%nat), as_num (l !! 1%nat))
      | _ => (None, None)
      end
  | _ =>
      match raw with
      | Some (NArr l) => (as_str (l !! 1%nat), as_num (l !! 2%nat))
      | _ => (None, None)
      end
  end.

Definition event_index_of (id : string) : jsnum :=
  let idParts := split "-" id in
  if (3 <=? length idParts)%nat then parseInt (default "" (idParts !! 2%nat)) else Fin 0.

Definition parseRpcEvent (raw : RpcEvent) : option ContractEventRecord :=
  if negb (String.eqb (re_type raw) "contract") then None
  else
    let topics := default [] (topic raw) in
    let dataXdr := default "" (value raw) in
    match extractEventType topics with
    | None => None
    | Some eventType =>
        let contributor :=
          match eventType with
          | maintainer_registered => None
          | _ => extractContributorFromTopic topics
          end in
        let '(org_id, issue_id) := parseEventData dataXdr eventType in
        Some (mkRecord eventType contributor org_id issue_id
                (default (re_id raw) (txHash raw)) (event_index_of (re_id raw))
                (parseInt (re_ledger raw)) (parse_date (createdAt raw)))
    end.

(** ** Persistence *)

Section store.
Context {S : Type} `{HasDb S}.

Definition same_key (tx : string) (i : Z) (r : contract_event_row) : bool :=
  String.eqb (ce_tx_hash r) tx && (ce_event_index r =? i).

(** The insert on the table: [true] when a row was added.  The serial id is consumed
    either way. *)
Definition insert_event (r : ContractEventRecord) (index seq time : Z) (d : db) : bool * db :=
  if existsb (same_key (tx_hash r) index) (contract_events d)
  then (false, set_contract_events (contract_events d) (next_event_id d + 1) d)
  else (true, set_contract_events
                (contract_events d ++
                 [mkContractEvent (next_event_id d) (type_name (event_type r)) (contributor r)
                    (org_id r) (issue_id r) (tx_hash r) index seq time])
                (next_event_id d + 1) d).

Definition insert_needs (r : ContractEventRecord) : list requirement :=
  [Columns "contract_events" ["event_type"; "contributor"; "org_id"; "issue_id"; "tx_hash";
                              "event_index"; "ledger_seq"; "timestamp"];
   ConflictTarget "contract_events" ["tx_hash"; "event_index"];
   Int4 (event_index r); Int4 (ledger r);
   Int4 (Fin (default 0 (issue_id r)))].

Definition num (n : jsnum) : Z := match n with Fin z => z | NaN => 0 end.

Definition storeEvent (r : ContractEventRecord) : M S bool :=
  match timestamp r with
  | NaN => throw (Error "invalid input syntax for type timestamp")
  | Fin time => query sc (insert_needs r) (insert_event r (num (event_index r)) (num (ledger r)) time)
  end.

(** The loop over a batch: the counts of persisted and skipped events. *)
Definition index_batch (events : list RpcEvent) : M S (nat * nat) :=
  for_fold (λ '(persisted, skipped) raw,
    match parseRpcEvent raw with
    | None => mret (persisted, (skipped + 1)%nat)
    | Some record =>
        stored ← storeEvent record;
        mret (if (stored : bool) then ((persisted + 1)%nat, skipped)
              else (persisted, (skipped + 1)%nat))
    end) (0, 0)%nat events.

(** The cursor after a batch that was processed without an error. *)
Definition next_cursor (cursor : option string) (events : list RpcEvent) : option string :=
  match last events with
  | Some e => Some (default (re_id e) (pagingToken e))
  | None => cursor
  end.

(** The cursor to resume from: the highest ledger stored; [None] starts from genesis. *)
Definition max_ledger (d : db) : option Z :=
  match ce_ledger_seq <$> contract_events d with
  | [] => None
  | l :: ls => Some (fold_left Z.max ls l)
  end.

Definition initCursor : M S (option string) :=
  try_catch
    (m ← select sc [Columns "contract_events" ["ledger_seq"]] max_ledger;
     mret (match m with
           | Some l => if 0 <? l then Some (pretty l) else None
           | None => None
           end))
    (λ _, mret None).

End store.
End Indexer.

(** ** The events the contract publishes *)

Inductive contract_event :=
  | Init (admin : string)
  | MaintReg (maintainer org : string)
  | Applied (c org : string) (issue : Z)
  | Withdrew (c org : string) (issue : Z)
  | Assigned (c maintainer org : string) (issue : Z)
  | Completed (c maintainer org : string) (issue : Z)
  | Revoked (c maintainer org : string) (issue : Z)
  | AdmXfer (old_admin new_admin : string)
  | MaintDrg (admin maintainer org : string)
  | CapUpd (admin : string) (new_cap : Z)
  | EmrgCap (admin : string) (old_cap new_cap : Z).

(** The topics and the data of each [publish]. *)
Definition published (e : contract_event) : list native * native :=
  match e with
  | Init a => ([NStr "init"; NStr a], NStr a)
  | MaintReg m o => ([NStr "maint_reg"; NStr m], NStr o)
  | Applied c o i => ([NStr "applied"; NStr c], NArr [NStr o; NNum i])
  | Withdrew c o i => ([NStr "withdrew"; NStr c], NArr [NStr o; NNum i])
  | Assigned c m o i => ([NStr "assigned"; NStr c], NArr [NStr m; NStr o; NNum i])
  | Completed c m o i => ([NStr "completed"; NStr c], NArr [NStr m; NStr o; NNum i])
  | Revoked c m o i => ([NStr "revoked"; NStr c], NArr [NStr m; NStr o; NNum i])
  | AdmXfer a b => ([NStr "adm_xfer"; NStr a], NStr b)
  | MaintDrg a m o => ([NStr "maint_drg"; NStr a], NArr [NStr m; NStr o])
  | CapUpd a n => ([NStr "cap_upd"; NStr a], NArr [NStr a; NNum n])
  | EmrgCap a o n => ([NStr "emrg_cap"; NStr a], NArr [NNum o; NNum n])
  end.

(** What the indexer should extract: the type, contributor, organisation and issue of the
    five state changes. *)
Definition state_change (e : contract_event)
    : option (ContractEventType * string * string * Z) :=
  match e with
  | Applied c o i => Some (applied, c, o, i)
  | Withdrew c o i => Some (withdrew, c, o, i)
  | Assigned c _ o i => Some (assigned, c, o, i)
  | Completed c _ o i => Some (completed, c, o, i)
  | Revoked c _ o i => Some (revoked, c, o, i)
  | _ => None
  end.

(** ** Theorems *)

Section parsing.
Variable decodeScVal : string → option native.
Variable encode : native → string.
Variable parse_date : string → jsnum.
(** The RPC event of a published contract event. *)
Definition rpc_event (e : contract_event) (id ledger createdAt : string) (tx : option string)
    : RpcEvent :=
  let '(topics, data) := published e in
  mkRpcEvent "contract" id None ledger createdAt tx (Some (encode <$> topics))
    (Some (encode data)).

Lemma parse_event e id l t tx :
  Forall (λ v, decodeScVal (encode v) = Some v) ((published e).2 :: (published e).1) →
  parseRpcEvent decodeScVal parse_date (rpc_event e id l t tx) =
  match state_change e with
  | Some (ty, c, o, i) =>
      Some (mkRecord ty (Some c) (Some o) (Some i) (default id tx) (event_index_of id)
              (parseInt l) (parse_date t))
  | None => None
  end.
Proof.
  unfold parseRpcEvent, rpc_event. intros Hd.
  destruct e; cbn in *; unfold parseEventData; repeat (inversion Hd as [|? ? ? Hd']; subst;
    clear Hd; rename Hd' into Hd); repeat match goal with H : decodeScVal _ = _ |- _ =>
    rewrite ?H; cbn; clear H end; done.
Qed.


End parsing.

Section storing.
Context {S : Type} `{HasDb S}.
Variable sc : schema.
Variable decodeScVal : string → option native.
Variable parse_date : string → jsnum.

Definition keys_of (d : db) : list (string * Z) :=
  (λ r, (ce_tx_hash r, ce_event_index r)) <$> contract_events d.

Lemma existsb_key tx i d :
  existsb (same_key tx i) (contract_events d) = true ↔ (tx, i) ∈ keys_of d.
Proof.
  unfold keys_of. rewrite existsb_exists, list_elem_of_fmap. split.
  - intros (r & Hin & Hk). unfold same_key in Hk. apply andb_prop in Hk as [H1 H2].
    apply String.eqb_eq in H1. exists r. apply list_elem_of_In in Hin.
    split; [|done]. f_equal; [done|lia].
  - intros (r & [= -> ->] & Hin). exists r. split; [by apply list_elem_of_In|].
    unfold same_key. by rewrite String.eqb_refl, Z.eqb_refl.
Qed.

Lemma insert_event_keys r i q t d :
  keys_of (insert_event r i q t d).2 =
    keys_of d ++ (if (insert_event r i q t d).1 then [(tx_hash r, i)] else []) ∧
  ((insert_event r i q t d).1 = true ↔ (tx_hash r, i) ∉ keys_of d).
Proof.
  unfold insert_event. destruct (existsb (same_key (tx_hash r) i) (contract_events d)) eqn:E; simpl.
  - rewrite app_nil_r. split; [done|]. apply existsb_key in E. naive_solver.
  - split; [unfold keys_of; simpl; by rewrite fmap_app|]. rewrite <- existsb_key, E. naive_solver.
Qed.

(** indexing any batch keeps the pairs of transaction hash and event index unique,
    whatever fails on the way. *)
Theorem index_batch_unique events :
  keeps (λ s : S, NoDup (keys_of (get_db s)))
    (index_batch sc decodeScVal parse_date events).
Proof.
  unfold index_batch. apply keeps_for_fold. intros [p k] raw.
  destruct (parseRpcEvent decodeScVal parse_date raw) as [r|]; [|apply keeps_ret].
  apply keeps_bind; [|intros; apply keeps_ret]. unfold storeEvent.
  destruct (timestamp r) as [|time]; [apply keeps_throw|]. apply keeps_query.
  intros s Hs. rewrite get_set_db.
  destruct (insert_event_keys r (num (event_index r)) (num (ledger r)) time (get_db s)) as [-> Hnew].
  destruct (insert_event r _ _ _ _).1; [|by rewrite app_nil_r].
  apply NoDup_app. split_and!; [done| |apply NoDup_singleton].
  intros x Hx ->%list_elem_of_singleton. by apply Hnew.
Qed.

(** A record that is stored and whose insert runs. *)
Definition stored (s : S) (r : ContractEventRecord) : Prop :=
  is_NaN (timestamp r) = false ∧ unmet sc (insert_needs r) = None ∧
  (tx_hash r, num (event_index r)) ∈ keys_of (get_db s).

Lemma storeEvent_Ret r s b w' :
  storeEvent sc r (World s []) = (Ret b, w') →
  ∃ s', w' = World s' [] ∧ stored s' r ∧ keys_of (get_db s) `prefix_of` keys_of (get_db s').
Proof.
  unfold storeEvent. destruct (timestamp r) as [|t] eqn:Et; [done|]. intros Hs.
  destruct (unmet sc (insert_needs r)) eqn:Hu; [by rewrite (query_unmet sc _ _ _ _ Hu) in Hs|].
  rewrite query_ok in Hs by done. simplify_eq. eexists. split; [done|]. rewrite get_set_db.
  destruct (insert_event_keys r (num (event_index r)) (num (ledger r)) t (get_db s)) as [-> Hnew].
  split; [|by apply prefix_app_r]. split_and!; [by rewrite Et|done|]. rewrite get_set_db.
  destruct (insert_event_keys r (num (event_index r)) (num (ledger r)) t (get_db s)) as [-> _].
  destruct (insert_event r _ _ t _).1; [set_solver|]. rewrite app_nil_r.
  destruct (decide ((tx_hash r, num (event_index r)) ∈ keys_of (get_db s))); [done|naive_solver].
Qed.

Lemma stored_mono s s' r :
  stored s r → keys_of (get_db s) `prefix_of` keys_of (get_db s') → stored s' r.
Proof. intros (H1 & H2 & H3) [l Hl]. split_and!; [done..|]. rewrite Hl.
  apply elem_of_app. by left. Qed.

Lemma storeEvent_stored s r :
  stored s r → ∃ s', storeEvent sc r (World s []) = (Ret false, World s' []) ∧
    contract_events (get_db s') = contract_events (get_db s).
Proof.
  intros (Ht & Hu & Hk). unfold storeEvent. destruct (timestamp r) as [|t]; [done|].
  rewrite query_ok by done. apply existsb_key in Hk. unfold insert_event. rewrite Hk.
  eexists. split; [done|]. by rewrite get_set_db.
Qed.

Definition parsed : list RpcEvent → list ContractEventRecord :=
  omap (parseRpcEvent decodeScVal parse_date).

(** The loop of [index_batch] from given counts. *)
Definition index_from (acc : nat * nat) (events : list RpcEvent) : M S (nat * nat) :=
  for_fold (λ '(p, k) raw,
    match parseRpcEvent decodeScVal parse_date raw with
    | None => mret (p, (k + 1)%nat)
    | Some record =>
        b ← storeEvent sc record;
        mret (if (b : bool) then ((p + 1)%nat, k) else (p, (k + 1)%nat))
    end) acc events.

Lemma index_from_Ret events : ∀ acc s n w',
  index_from acc events (World s []) = (Ret n, w') →
  ∃ s', w' = World s' [] ∧ keys_of (get_db s) `prefix_of` keys_of (get_db s') ∧
    Forall (stored s') (parsed events) ∧ (n.1 + n.2 = acc.1 + acc.2 + length events)%nat.
Proof.
  induction events as [|raw events IH]; intros [p k] s n w' Hi.
  { unfold index_from in Hi. simpl in Hi. unfold_m. simplify_eq. exists s.
    split_and!; [done..|constructor|simpl; lia]. }
  unfold index_from in Hi. cbn [for_fold] in Hi.
  apply bind_Ret in Hi as (acc & w1 & Hb & Hi). unfold parsed. cbn [omap list_omap].
  destruct (parseRpcEvent decodeScVal parse_date raw) as [r|].
  - apply bind_Ret in Hb as (b & w2 & Hs & Hb).
    destruct (storeEvent_Ret r s b w2 Hs) as (s2 & -> & Hst & Hpre).
    assert (w1 = World s2 [] ∧ (acc.1 + acc.2 = p + k + 1)%nat) as [-> Hacc]
      by (unfold_m; destruct b; simplify_eq; simpl; lia || (split; [done|lia])).
    destruct (IH acc s2 n w' Hi) as (s' & -> & Hpre' & Hf & Hn).
    exists s'. split_and!; [done|by etrans| |simpl in *; lia].
    constructor; [by eapply stored_mono|done].
  - unfold_m. simplify_eq. destruct (IH (p, (k + 1)%nat) s n w' Hi) as (s' & -> & ? & ? & Hn).
    exists s'. split_and!; [done..|simpl in *; lia].
Qed.

Lemma index_from_stored events : ∀ p k s,
  Forall (stored s) (parsed events) →
  ∃ s', index_from (p, k) events (World s []) =
          (Ret (p, (k + length events)%nat), World s' []) ∧
    contract_events (get_db s') = contract_events (get_db s).
Proof.
  induction events as [|raw events IH]; intros p k s Hf.
  { exists s. split; [|done]. simpl. by rewrite Nat.add_0_r. }
  unfold index_from. cbn [for_fold]. unfold parsed in Hf. cbn [omap list_omap] in Hf.
  destruct (parseRpcEvent decodeScVal parse_date raw) as [r|] eqn:Er.
  - inversion Hf as [|? ? Hr Hf']; subst.
    destruct (storeEvent_stored s r Hr) as (s1 & Hs & Hc).
    destruct (IH p (k + 1)%nat s1) as (s' & Hi & Hc').
    { eapply Forall_impl; [exact Hf'|]. intros x Hx. eapply stored_mono; [exact Hx|].
      unfold keys_of. by rewrite Hc. }
    exists s'. split; [|congruence].
    erewrite bind_intro by (by erewrite bind_intro by exact Hs).
    unfold index_from in Hi. rewrite Hi. do 3 f_equal. simpl. lia.
  - destruct (IH p (k + 1)%nat s Hf) as (s' & Hi & Hc'). exists s'. split; [|done].
    erewrite bind_intro by done. unfold index_from in Hi. rewrite Hi. do 3 f_equal. simpl. lia.
Qed.

(** indexing a batch that was indexed before persists nothing: every event is counted as
    skipped and the table is unchanged, so that resuming from an old cursor is safe. *)
Theorem index_batch_replay events s n s' :
  index_batch sc decodeScVal parse_date events (World s []) = (Ret n, World s' []) →
  (n.1 + n.2 = length events)%nat ∧
  ∃ s'', index_batch sc decodeScVal parse_date events (World s' []) =
           (Ret (0, length events)%nat, World s'' []) ∧
    contract_events (get_db s'') = contract_events (get_db s').
Proof.
  intros Hi. destruct (index_from_Ret events (0, 0)%nat s n _ Hi) as (s1 & [= <-] & _ & Hf & Hn).
  split; [exact Hn|]. exact (index_from_stored events 0 0 s' Hf).
Qed.

End storing.

(** ** Concrete runs *)

(** An encoding for the witnesses: the three shapes of values, length-prefixed. *)
Definition demo_decode (s : string) : option native :=
  match s with
  | "t" => Some (NStr "applied")
  | "c" => Some (NStr "G")
  | "v" => Some (NArr [NStr "org"; NNum 7])
  | _ => None
  end.

Definition demo_rpc_event (id : string) : RpcEvent :=
  mkRpcEvent "contract" id None "12" "now" (Some "tx") (Some ["t"; "c"]) (Some "v").

Definition demo_batch : list RpcEvent := [demo_rpc_event "12-0-0"; demo_rpc_event "12-0-1"].

Definition demo_indexed : db :=
  st (index_batch (S := db) full_schema demo_decode (λ _, Fin 0) demo_batch
        (World empty_db [])).2.

Lemma index_batch_replay_witness :
  (2 + 0 = 2)%nat ∧
  ∃ s'' : db, index_batch full_schema demo_decode (λ _, Fin 0) demo_batch
           (World demo_indexed []) = (Ret (0, 2)%nat, World s'' []) ∧
    contract_events (get_db s'') = contract_events (get_db demo_indexed).
Proof.
  apply (index_batch_replay (S := db) full_schema demo_decode (λ _, Fin 0) demo_batch empty_db
    (2, 0)%nat demo_indexed). vm_compute. reflexivity.
Defined.

Definition demo_encode (v : native) : string :=
  match v with
  | NStr "applied" => "t"
  | NStr _ => "c"
  | _ => "v"
  end.

