(* ===== verification/Polling.v ===== *)
(** * The loops of the event indexer ([src/eventIndexer.ts])

    [start], [stop] and [pollForEvents] over a chain of events that grows.  A loop is between two
    awaits in a [phase]; a step lets one loop go on to its next await, with or without a fault.
    [stop] only clears a flag, so that a [start] before the next wake-up leaves two loops running:
    the steps are about any number of loops.

    The RPC node is the class [EventServer]: a page is what follows the cursor it is asked for. *)

From Stdlib Require Import String Ascii.
From S2P Require Import Prelude Js Decimal Db Indexer.

#[local] Open Scope string_scope.
#[local] Open Scope list_scope.
#[local] Open Scope Z_scope.

Definition POLL_INTERVAL_MS : Z := 5000.
Definition ERROR_BACKOFF_MS : Z := 10000.
Definition LIMIT : nat := 200.

Definition token (e : RpcEvent) : string := default (re_id e) (pagingToken e).

(** The events of ledgers below [l] at the start of a list. *)
Fixpoint before (l : Z) (known : list RpcEvent) : nat :=
  match known with
  | [] => O
  | e :: known' =>
      match parseInt (re_ledger e) with
      | Fin z => if z <? l then Datatypes.S (before l known') else O
      | NaN => O
      end
  end.

(** [getEvents] with the filter on the contract and a limit of 200, over the events the node knows:
    from the first without a cursor, after the event whose token the cursor is, and, as a comment
    of the source has it, from the ledger whose number it is. *)
Class EventServer := {
  getEvents : list RpcEvent → option string → list RpcEvent;
  from_genesis known : getEvents known None = take LIMIT known;
  after_token known k e : NoDup (token <$> known) → known !! k = Some e →
    getEvents known (Some (token e)) = take LIMIT (drop (Datatypes.S k) known);
  from_ledger known l : (∀ e, e ∈ known → token e ≠ pretty l) → 0 < l →
    getEvents known (Some (pretty l)) = take LIMIT (drop (before l known) known);
}.

(** ** Loops *)

Inductive phase :=
  | Resuming                                   (** awaiting [initCursor] *)
  | Sleeping (ms : Z)
  | Fetching (cursor : option string)          (** awaiting [getEvents] *)
  | Storing (batch rest : list RpcEvent)       (** [rest] is still to be stored *)
  | Ended.

Record poller := mkPoller {
  table : db; cursor : option string; isRunning : bool; loops : list phase; height : nat }.

Inductive event :=
  | Start
  | Stop
  | Publish (n : nat)            (** the chain grows *)
  | Go (i : nat) (f : fault).    (** loop [i] goes on *)

Section loops.
Context `{EventServer}.
Variable sc : schema.
Variable decodeScVal : string → option native.
Variable parse_date : string → jsnum.
(** All events the contract will ever have published. *)
Variable chain : list RpcEvent.

Notation parse := (parseRpcEvent decodeScVal parse_date).

Definition set_phase (i : nat) (p : phase) (s : poller) : poller :=
  mkPoller (table s) (cursor s) (isRunning s) (<[i := p]> (loops s)) (height s).
Definition set_table (d : db) (s : poller) : poller :=
  mkPoller d (cursor s) (isRunning s) (loops s) (height s).
Definition set_cursor (c : option string) (s : poller) : poller :=
  mkPoller (table s) c (isRunning s) (loops s) (height s).

(** The events the node knows. *)
Definition known_now (s : poller) : list RpcEvent := take (height s) chain.

(** [while (this.isRunning)]. *)
Definition loop_head (s : poller) : phase := if isRunning s then Fetching (cursor s) else Ended.

(** After an event: the next one, or the cursor and the pause. *)
Definition advance (i : nat) (batch rest : list RpcEvent) (s : poller) : poller :=
  match rest with
  | [] => set_phase i (Sleeping POLL_INTERVAL_MS) (set_cursor (next_cursor (cursor s) batch) s)
  | _ => set_phase i (Storing batch rest) s
  end.

Definition fetched (i : nat) (events : list RpcEvent) (s : poller) : poller :=
  match events with
  | [] => set_phase i (Sleeping POLL_INTERVAL_MS) s
  | _ => set_phase i (Storing events events) s
  end.

Definition go (i : nat) (f : fault) (s : poller) : poller :=
  match loops s !! i with
  | Some Resuming =>
      let '(o, w) := initCursor sc (World (table s) [f]) in
      let s' := set_cursor (match o with Ret c => c | Throw _ => None end) (set_table (st w) s) in
      set_phase i (loop_head s') s'
  | Some (Sleeping _) => set_phase i (loop_head s) s
  | Some (Fetching c) =>
      match f with
      | Fine => fetched i (getEvents (known_now s) c) s
      | _ => set_phase i (Sleeping ERROR_BACKOFF_MS) s
      end
  | Some (Storing batch (raw :: rest)) =>
      match parse raw with
      | None => advance i batch rest s
      | Some r =>
          match storeEvent sc r (World (table s) [f]) with
          | (Ret _, w) => advance i batch rest (set_table (st w) s)
          | (Throw _, w) => set_phase i (Sleeping ERROR_BACKOFF_MS) (set_table (st w) s)
          end
      end
  | _ => s
  end.

Definition step (s : poller) (ev : event) : poller :=
  match ev with
  | Start => if isRunning s then s
             else mkPoller (table s) (cursor s) true (loops s ++ [Resuming]) (height s)
  | Stop => mkPoller (table s) (cursor s) false (loops s) (height s)
  | Publish n => mkPoller (table s) (cursor s) (isRunning s) (loops s)
                   (Nat.min (length chain) (height s + n))
  | Go i f => go i f s
  end.

Definition after (s : poller) (evs : list event) : poller := fold_left step evs s.

(** A fresh process over a table without events. *)
Definition fresh (d : db) (h : nat) : poller := mkPoller d None false [] (Nat.min (length chain) h).

(** ** What is stored *)

Hypothesis tokens_distinct : NoDup (token <$> chain).
Hypothesis tokens_not_numbers : ∀ e l, e ∈ chain → token e ≠ pretty (l : Z).

Definition key_of (r : ContractEventRecord) : string * Z := (tx_hash r, num (event_index r)).

(** A record the table takes: its time is a date and its numbers fit their columns. *)
Definition storable (r : ContractEventRecord) : Prop :=
  is_NaN (timestamp r) = false ∧ unmet sc (insert_needs r) = None.

(** The row of a record. *)
Definition row_of (id : Z) (r : ContractEventRecord) : contract_event_row :=
  mkContractEvent id (type_name (event_type r)) (contributor r) (org_id r) (issue_id r) (tx_hash r)
    (num (event_index r)) (num (ledger r)) (num (timestamp r)).

(** Every record of the first [k] events is in the table. *)
Definition covered (d : db) (k : nat) : Prop :=
  ∀ j e r, (j < k)%nat → chain !! j = Some e → parse e = Some r → key_of r ∈ keys_of d.

(** No two records share a transaction and an index. *)
Hypothesis keys_distinct : NoDup (key_of <$> omap parse chain).

(** The records of the first [n] events. *)
Definition records (n : nat) : list ContractEventRecord := omap parse (take n chain).

(** The rows are those of the first events the node knows, all of them and in their order. *)
Definition faithful (h : nat) (d : db) : Prop :=
  ∃ n ids, (n ≤ h)%nat ∧ length ids = length (records n) ∧
    contract_events d = zip_with row_of ids (records n) ∧ Forall storable (records n).

(** The page after cursor [c] starts at event [k], now and when the chain has grown. *)
Definition resumes_at (h : nat) (c : option string) (k : nat) : Prop :=
  (k ≤ h)%nat ∧ ∀ h', (h ≤ h')%nat → getEvents (take h' chain) c = take LIMIT (drop k (take h' chain)).

Definition loop_ok (d : db) (h : nat) (p : phase) : Prop :=
  match p with
  | Fetching c => ∃ k, resumes_at h c k ∧ covered d k
  | Storing batch rest =>
      ∃ k n m, (k + n ≤ h)%nat ∧ batch = take n (drop k chain) ∧ length batch = n ∧ (m < n)%nat ∧
        rest = drop m batch ∧ covered d (k + m)
  | _ => True
  end.

Record inv (s : poller) : Prop := {
  inv_height : (height s ≤ length chain)%nat;
  inv_faithful : faithful (height s) (table s);
  inv_cursor : ∃ k, resumes_at (height s) (cursor s) k ∧ covered (table s) k;
  inv_loops : Forall (loop_ok (table s) (height s)) (loops s);
}.

(** *** Growing tables and chains *)

Lemma covered_mono d d' k k' :
  covered d k → keys_of d ⊆ keys_of d' → (k' ≤ k)%nat → covered d' k'.
Proof. intros Hc Hd Hk j e r Hj He Hr. apply Hd. eapply Hc; [|done..]. lia. Qed.

Lemma resumes_mono h h' c k : resumes_at h c k → (h ≤ h')%nat → resumes_at h' c k.
Proof. intros [Hk Hr] Hh. split; [lia|]. intros h2 Hh2. apply Hr. lia. Qed.

Lemma loop_ok_mono d d' h h' p :
  loop_ok d h p → keys_of d ⊆ keys_of d' → (h ≤ h')%nat → loop_ok d' h' p.
Proof.
  intros Hp Hd Hh. destruct p as [| |c|batch rest|]; [done|done| | |done]; cbn in *.
  - destruct Hp as (k & Hk & Hc). exists k. split; [by eapply resumes_mono|by eapply covered_mono].
  - destruct Hp as (k & n & m & Hn & Hb & Hl & Hm & Hr & Hc). exists k, n, m.
    split_and!; [lia|done..|]. by eapply covered_mono.
Qed.

Lemma faithful_mono h h' d : faithful h d → (h ≤ h')%nat → faithful h' d.
Proof. intros (n & ids & Hn & Hrest) Hh. exists n, ids. split; [lia|done]. Qed.

(** *** The records of a prefix *)

Lemma records_elem n r : r ∈ records n ↔ ∃ j e, (j < n)%nat ∧ chain !! j = Some e ∧ parse e = Some r.
Proof.
  unfold records. rewrite list_elem_of_omap. setoid_rewrite list_elem_of_lookup. split.
  - intros (e & (j & Hj) & Hr). apply lookup_take_Some in Hj as [Hj Hlt]. eauto.
  - intros (j & e & Hlt & Hj & Hr). exists e. split; [|done]. exists j. by rewrite lookup_take_lt.
Qed.

Lemma records_split n j : (n ≤ j)%nat → records j = records n ++ omap parse (drop n (take j chain)).
Proof.
  intros Hn. unfold records. rewrite <- omap_app. f_equal. rewrite <- (take_drop n (take j chain)) at 1.
  by rewrite take_take, Nat.min_l by lia.
Qed.

Lemma records_S j e r : chain !! j = Some e → parse e = Some r → records (Datatypes.S j) = records j ++ [r].
Proof. intros He Hr. unfold records. rewrite (take_S_r _ _ _ He), omap_app. cbn. by rewrite Hr. Qed.

Lemma same_key_earlier n j e r :
  chain !! j = Some e → parse e = Some r → key_of r ∈ key_of <$> records n → (j < n)%nat.
Proof.
  intros He Hr Hk. destruct (decide (j < n)%nat) as [|Hj]; [done|]. exfalso.
  pose proof keys_distinct as Hn. rewrite <- (take_drop n chain), omap_app, fmap_app in Hn.
  apply NoDup_app in Hn as (_ & Hn & _). apply (Hn (key_of r)); [done|]. apply list_elem_of_fmap_2, list_elem_of_omap.
  exists e. split; [|done]. apply list_elem_of_lookup. exists (j - n)%nat. rewrite lookup_drop. by replace (n + (j - n))%nat with j by lia.
Qed.

Lemma rows_keys ids : ∀ rs, length ids = length rs →
  (λ r, (ce_tx_hash r, ce_event_index r)) <$> zip_with row_of ids rs = key_of <$> rs.
Proof. induction ids as [|id ids IH]; intros [|r rs] Hl; [done..|]. cbn in *. f_equal. apply IH. lia. Qed.

Lemma prefix_covered d n ids :
  length ids = length (records n) → contract_events d = zip_with row_of ids (records n) →
  keys_of d = key_of <$> records n ∧ covered d n.
Proof.
  intros Hl Hd. assert (keys_of d = key_of <$> records n) as Hk by (unfold keys_of; rewrite Hd; by apply rows_keys).
  split; [done|]. intros j e r Hj He Hr. rewrite Hk. apply list_elem_of_fmap_2, records_elem. eauto.
Qed.

Lemma covered_records d n j ids :
  length ids = length (records n) → contract_events d = zip_with row_of ids (records n) →
  covered d j → (n ≤ j)%nat → records j = records n.
Proof.
  intros Hl Hd Hc Hn. destruct (prefix_covered d n ids Hl Hd) as [Hk _]. rewrite (records_split n j Hn).
  destruct (omap parse (drop n (take j chain))) as [|r rs] eqn:Hrs; [by rewrite app_nil_r|]. exfalso.
  assert (r ∈ omap parse (drop n (take j chain))) as Hin by (rewrite Hrs; set_solver).
  apply list_elem_of_omap in Hin as (e & [i Hi]%list_elem_of_lookup & Hr). rewrite lookup_drop in Hi.
  apply lookup_take_Some in Hi as [Hi Hlt]. pose proof (Hc _ e r Hlt Hi Hr) as Hkey. rewrite Hk in Hkey.
  pose proof (same_key_earlier n _ e r Hi Hr Hkey). lia.
Qed.

(** Every row is that of an event the node knows, and so are those of all events before it. *)
Lemma faithful_rows h d row : faithful h d → row ∈ contract_events d →
  ∃ id j e r, (j < h)%nat ∧ chain !! j = Some e ∧ parse e = Some r ∧ storable r ∧ row = row_of id r ∧ covered d j.
Proof.
  intros (n & ids & Hn & Hl & Hd & Hst) Hrow. destruct (prefix_covered d n ids Hl Hd) as [_ Hc]. rewrite Hd in Hrow.
  apply elem_of_lookup_zip_with in Hrow as (k & id & r & -> & _ & Hr). apply list_elem_of_lookup_2 in Hr.
  rewrite Forall_forall in Hst. pose proof (Hst r Hr) as Hr'. apply records_elem in Hr as (j & e & Hj & He & Hr).
  exists id, j, e, r. split_and!; [lia|done..|]. eapply covered_mono; [exact Hc|done|lia].
Qed.

(** *** Storing one record *)

Lemma storeEvent_cases r d fs o w :
  storeEvent sc r (World d fs) = (o, w) →
  (st w = d ∧ ∃ e, o = Throw e) ∨
  (storable r ∧ st w = (insert_event r (num (event_index r)) (num (ledger r)) (num (timestamp r)) d).2).
Proof.
  unfold storeEvent, storable. destruct (timestamp r) as [|t].
  { intros [= <- <-]. left. split; [done|]. by eexists. }
  unfold query, call. cbn [num is_NaN]. intros Hs.
  destruct fs as [|[|e|e] fs], (unmet sc (insert_needs r)); cbn in Hs; simplify_eq; cbn; eauto;
    destruct (insert_event r _ _ t d) as [b d'] eqn:Hi; simplify_eq; cbn; eauto.
Qed.

Lemma storeEvent_keys r d fs o w :
  storeEvent sc r (World d fs) = (o, w) →
  keys_of d ⊆ keys_of (st w) ∧ (is_ret o = true → key_of r ∈ keys_of (st w)).
Proof.
  intros Hs. destruct (storeEvent_cases r d fs o w Hs) as [[-> [e ->]]|[_ ->]]; [done|].
  destruct (insert_event_keys r (num (event_index r)) (num (ledger r)) (num (timestamp r)) d) as [-> Hnew].
  split; [set_solver|]. intros _. destruct (insert_event r _ _ _ d).1 eqn:Hb; [set_solver|].
  rewrite app_nil_r. destruct (decide (key_of r ∈ keys_of d)) as [|Hn]; [done|]. by apply Hnew in Hn.
Qed.

Lemma storeEvent_faithful h r d fs o w j e :
  storeEvent sc r (World d fs) = (o, w) → (j < h)%nat → chain !! j = Some e → parse e = Some r →
  covered d j → faithful h d → faithful h (st w).
Proof.
  intros Hs Hj He Hr Hc (n & ids & Hn & Hl & Hd & Hst). destruct (prefix_covered d n ids Hl Hd) as [Hk _].
  destruct (storeEvent_cases r d fs o w Hs) as [[-> _]|[Hok ->]]; [by exists n, ids|].
  unfold insert_event. case_match eqn:Hex; [by exists n, ids|]. cbn [snd].
  assert (key_of r ∉ keys_of d) as Hnew by (intros Hin; apply existsb_key in Hin; congruence).
  assert (n ≤ j)%nat as Hnj.
  { destruct (decide (n ≤ j)%nat) as [|Hlt]; [done|]. destruct Hnew. rewrite Hk. apply list_elem_of_fmap_2, records_elem.
    exists j, e. split; [lia|done]. }
  pose proof (covered_records d n j ids Hl Hd Hc Hnj) as Hsame.
  exists (Datatypes.S j), (ids ++ [next_event_id d]). rewrite (records_S j e r He Hr), Hsame. split; [lia|].
  split; [rewrite !length_app; cbn; lia|]. split; [|by apply Forall_app; split; [|constructor]].
  cbn. by rewrite Hd, zip_with_app.
Qed.

(** *** Where a page starts *)

Lemma resumes_genesis h : resumes_at h None 0.
Proof. split; [lia|]. intros h' _. by rewrite from_genesis. Qed.

Lemma resumes_token h k e : chain !! k = Some e → (k < h)%nat → resumes_at h (Some (token e)) (Datatypes.S k).
Proof.
  intros He Hk. split; [lia|]. intros h' Hh. apply after_token; [|by rewrite lookup_take_lt by lia].
  rewrite fmap_take. eapply (sublist_NoDup _ _); [exact tokens_distinct|]. apply sublist_take.
Qed.

Lemma before_bound l known j e z :
  known !! j = Some e → parseInt (re_ledger e) = Fin z → l ≤ z → (before l known ≤ j)%nat.
Proof.
  revert j. induction known as [|x known IH]; intros j Hj Hz Hl; [done|]. cbn [before].
  destruct j as [|j]; cbn in Hj.
  - simplify_eq. rewrite Hz, (proj2 (Z.ltb_ge _ _)) by done. done.
  - case_match; [lia|]. case_match; [|lia]. specialize (IH j Hj Hz Hl). lia.
Qed.

Lemma before_take l known h : before l (take h known) = Nat.min h (before l known).
Proof.
  revert h. induction known as [|x known IH]; intros [|h]; cbn; [done|done|done|].
  case_match; [done|]. case_match; [|done]. by rewrite IH.
Qed.

Lemma resumes_ledger h j e l :
  chain !! j = Some e → (j < h)%nat → parseInt (re_ledger e) = Fin l → 0 < l →
  resumes_at h (Some (pretty l)) (before l chain) ∧ (before l chain ≤ j)%nat.
Proof.
  intros Hj Hjh Hl Hpos. pose proof (before_bound l chain j e l Hj Hl ltac:(lia)) as Hb.
  split; [|done]. split; [lia|]. intros h' Hh. rewrite from_ledger; [|intros x Hx; apply tokens_not_numbers|done].
  - rewrite before_take. f_equal. f_equal. lia.
  - eapply elem_of_sublist; [exact Hx|]. apply sublist_take.
Qed.

Lemma parse_ledger e r : parse e = Some r → ledger r = parseInt (re_ledger e).
Proof.
  unfold parseRpcEvent. intros Hp. case_match; [done|]. case_match; [|done]. case_match. by simplify_eq/=.
Qed.

Lemma unmet_None reqs x : unmet sc reqs = None → x ∈ reqs → meets sc x = true.
Proof.
  unfold unmet. intros Hu Hx. apply fmap_None, list_find_None in Hu. rewrite Forall_forall in Hu.
  destruct (meets sc x) eqn:Hm; [done|]. by destruct (Hu x Hx).
Qed.

Lemma storable_ledger r : storable r → ∃ z, ledger r = Fin z.
Proof.
  intros [_ Hu]. destruct (ledger r) as [|z] eqn:Hl; [|by eexists]. exfalso.
  assert (meets sc (Int4 (ledger r)) = true) as Hm by (eapply unmet_None; [exact Hu|set_solver]). by rewrite Hl in Hm.
Qed.

Lemma max_ledger_in d l : max_ledger d = Some l → ∃ row, row ∈ contract_events d ∧ ce_ledger_seq row = l.
Proof.
  unfold max_ledger. destruct (contract_events d) as [|row rows]; cbn; [done|]. intros [= <-].
  assert (∀ ls z, fold_left Z.max ls z = z ∨ fold_left Z.max ls z ∈ ls) as Hf.
  { induction ls as [|x ls IH]; intros z; [by left|]. cbn. destruct (IH (Z.max z x)) as [->|?]; [|set_solver].
    destruct (Z.max_spec z x) as [[_ ->]|[_ ->]]; set_solver. }
  destruct (Hf (ce_ledger_seq <$> rows) (ce_ledger_seq row)) as [->|Hin]; [exists row; set_solver|].
  apply list_elem_of_fmap in Hin as (row' & -> & Hin). exists row'. set_solver.
Qed.

(** Resuming is from a place before which everything is stored; a failed read resumes from the
    start. *)
Lemma initCursor_resumes h d fs o w :
  faithful h d → initCursor sc (World d fs) = (o, w) →
  st w = d ∧ ∃ k, resumes_at h (match o with Ret c => c | Throw _ => None end) k ∧ covered d k.
Proof.
  intros Hf Hi. assert (covered d 0) as H0 by (intros j e r Hj; lia).
  assert (∃ k, resumes_at h None k ∧ covered d k) as Hgen by (exists O; split; [apply resumes_genesis|done]).
  unfold initCursor in Hi. apply try_cases in Hi as [(c & Hb & ->)|(e & w1 & Hb & [= <- <-])].
  - apply bind_Ret in Hb as (m & w1 & Hs & [= <- <-]). apply select_Ret in Hs as [-> Hst]. split; [done|].
    cbn [st get_db HasDb_self]. destruct (max_ledger d) as [l|] eqn:Hm; [|done].
    destruct (Z.ltb_spec 0 l) as [Hl|]; [|done]. destruct (max_ledger_in d l Hm) as (row & Hrow & Hlr).
    destruct (faithful_rows h d row Hf Hrow) as (id & j & e & r & Hj & He & Hr & Hs & -> & Hc).
    destruct (storable_ledger r Hs) as [z Hz]. cbn in Hlr. rewrite Hz in Hlr. cbn in Hlr. subst z.
    destruct (resumes_ledger h j e l) as [Hres Hb]; [done|done|by rewrite <- (parse_ledger e r)|done|].
    exists (before l chain). split; [done|]. by eapply covered_mono.
  - split; [|done]. apply bind_cases in Hb as [(m & w2 & _ & Hb)|(e' & Hs & _)]; [done|].
    by apply select_frame in Hs as [-> _].
Qed.

(** *** The invariant, step by step *)

Lemma inv_phase i p s : inv s → loop_ok (table s) (height s) p → inv (set_phase i p s).
Proof. intros [Hh Hf Hc Hl] Hp. split; cbn; [done..|]. by apply Forall_insert. Qed.

Lemma inv_table d s : inv s → faithful (height s) d → keys_of (table s) ⊆ keys_of d → inv (set_table d s).
Proof.
  intros [Hh Hf (k & Hk & Hc) Hl] Hd Hkeys. split; cbn; [done|done|exists k; split; [done|by eapply covered_mono]|].
  eapply Forall_impl; [exact Hl|]. intros p Hp. by eapply loop_ok_mono.
Qed.

Lemma inv_new_cursor c k s : inv s → resumes_at (height s) c k → covered (table s) k → inv (set_cursor c s).
Proof. intros [Hh Hf _ Hl] Hk Hc. split; cbn; [done|done|by exists k|done]. Qed.

Lemma inv_head i s : inv s → inv (set_phase i (loop_head s) s).
Proof. intros Hs. apply inv_phase; [done|]. unfold loop_head. case_match; [apply (inv_cursor s Hs)|done]. Qed.

Lemma next_cursor_batch c h k n :
  (k + n ≤ h)%nat → (0 < n)%nat → length (take n (drop k chain)) = n →
  resumes_at h (next_cursor c (take n (drop k chain))) (k + n).
Proof.
  intros Hn H0 Hl. assert (k + n ≤ length chain)%nat as Hlen by (rewrite length_take, length_drop in Hl; lia).
  destruct (lookup_lt_is_Some_2 chain (k + (n - 1))) as [e He]; [lia|].
  assert (last (take n (drop k chain)) = Some e) as Hlast.
  { rewrite last_lookup, Hl, lookup_take_lt by lia. rewrite lookup_drop. by replace (Nat.pred n) with (n - 1)%nat by lia. }
  unfold next_cursor. rewrite Hlast. replace (k + n)%nat with (Datatypes.S (k + (n - 1))) by lia.
  apply resumes_token; [done|lia].
Qed.

(** The event a loop is at. *)
Lemma storing_head h d k n m raw rest :
  (k + n ≤ h)%nat → length (take n (drop k chain)) = n → raw :: rest = drop m (take n (drop k chain)) →
  chain !! (k + m)%nat = Some raw ∧ rest = drop (Datatypes.S m) (take n (drop k chain)) ∧ (m < n)%nat ∧
  (parse raw = None ∨ (∃ r, parse raw = Some r ∧ key_of r ∈ keys_of d) → covered d (k + m) → covered d (k + Datatypes.S m)).
Proof.
  intros Hn Hl Hr. assert (take n (drop k chain) !! m = Some raw) as Hm.
  { rewrite <- (Nat.add_0_r m), <- lookup_drop, <- Hr. done. }
  assert (m < n)%nat as Hmn by (apply lookup_lt_Some in Hm; lia).
  rewrite lookup_take_lt, lookup_drop in Hm by done.
  split; [done|]. split; [by rewrite <- Nat.add_1_r, <- drop_drop, <- Hr|]. split; [done|].
  intros Hraw Hc j e r Hj He Hp. destruct (decide (j = k + m)%nat) as [->|]; [|eapply Hc; [|done..]; lia].
  rewrite Hm in He. simplify_eq. destruct Hraw as [|(r' & Hr' & Hkey)]; [congruence|]. by simplify_eq.
Qed.

Lemma inv_advance i k n m s :
  inv s → (k + n ≤ height s)%nat → length (take n (drop k chain)) = n → (m < n)%nat →
  covered (table s) (k + Datatypes.S m) →
  inv (advance i (take n (drop k chain)) (drop (Datatypes.S m) (take n (drop k chain))) s).
Proof.
  intros Hs Hn Hl Hm Hc. unfold advance. destruct (drop (Datatypes.S m) _) as [|x rest] eqn:Hd.
  - apply inv_phase; [|done]. apply (inv_new_cursor _ (k + n)); [done|apply next_cursor_batch; [done|lia|done]|].
    assert (length (drop (Datatypes.S m) (take n (drop k chain))) = O) as H0 by by rewrite Hd.
    rewrite length_drop, Hl in H0. eapply covered_mono; [exact Hc|done|lia].
  - apply inv_phase; [done|]. exists k, n, (Datatypes.S m). split_and!; [done|done|done| |done|done].
    assert (length (drop (Datatypes.S m) (take n (drop k chain))) = Datatypes.S (length rest)) as H0 by by rewrite Hd.
    rewrite length_drop, Hl in H0. lia.
Qed.

Lemma inv_fetched i c k s :
  inv s → resumes_at (height s) c k → covered (table s) k → inv (fetched i (getEvents (known_now s) c) s).
Proof.
  intros Hs [Hk Hr] Hc. unfold known_now. rewrite (Hr (height s)), skipn_firstn_comm, take_take by done.
  pose proof (inv_height s Hs) as Hh. set (n := Nat.min LIMIT (height s - k)).
  assert (length (take n (drop k chain)) = n) as Hn by (rewrite length_take, length_drop; lia).
  unfold fetched. destruct (take n (drop k chain)) as [|e es] eqn:Hb; [by apply inv_phase|]. rewrite <- Hb in *.
  apply inv_phase; [done|]. exists k, n, 0%nat. rewrite Nat.add_0_r.
  split_and!; [lia|done|done| |done|done]. rewrite <- Hn, Hb. cbn. lia.
Qed.

Lemma inv_go i f s : inv s → inv (go i f s).
Proof.
  intros Hs. unfold go. destruct (loops s !! i) as [p|] eqn:Hp; [|done].
  pose proof (Forall_lookup_1 _ _ _ _ (inv_loops s Hs) Hp) as Hok.
  destruct p as [|ms|c|batch [|raw rest]|]; [| | |done| |done].
  - destruct (initCursor sc (World (table s) [f])) as [o w] eqn:Hi.
    destruct (initCursor_resumes _ _ _ _ _ (inv_faithful s Hs) Hi) as (Hw & k & Hk & Hc). rewrite Hw.
    apply inv_head. apply (inv_new_cursor _ k); [|done|done]. by apply inv_table; [|apply inv_faithful|].
  - by apply inv_head.
  - destruct Hok as (k & Hk & Hc). destruct f; [by apply (inv_fetched i c k)|by apply inv_phase..].
  - destruct Hok as (k & n & m & Hn & -> & Hl & Hm & Hr & Hc).
    destruct (storing_head _ (table s) _ _ _ _ _ Hn Hl Hr) as (Hraw & -> & _ & Hnext).
    destruct (parse raw) as [r|] eqn:Hpr; [|apply inv_advance; try done; apply Hnext; [by left|done]].
    destruct (storeEvent sc r (World (table s) [f])) as [o w] eqn:Hst.
    destruct (storeEvent_keys _ _ _ _ _ Hst) as [Hkeys Hret].
    assert (inv (set_table (st w) s)) as Hs'.
    { apply inv_table; [done| |done]. eapply storeEvent_faithful; [exact Hst| |exact Hraw|done|done|apply inv_faithful, Hs]. lia. }
    destruct o as [b|e]; [|by apply inv_phase]. apply inv_advance; [done|done|done|done|].
    destruct (storing_head _ (st w) _ _ _ _ _ Hn Hl Hr) as (_ & _ & _ & Hnext'). apply Hnext'.
    + right. exists r. split; [done|]. by apply Hret.
    + by eapply covered_mono.
Qed.

Lemma inv_step ev s : inv s → inv (step s ev).
Proof.
  intros Hs. destruct ev as [| |n|i f]; cbn; [|by destruct Hs| |by apply inv_go].
  - case_match; [done|]. destruct Hs as [Hh Hf Hc Hl]. split; cbn; [done..|]. apply Forall_app. split; [done|]. by constructor.
  - destruct Hs as [Hh Hf (k & Hk & Hc) Hl]. assert (height s ≤ Nat.min (length chain) (height s + n))%nat as Hm by lia.
    split; cbn; [lia|by eapply faithful_mono|exists k; split; [by eapply resumes_mono|done]|].
    eapply Forall_impl; [exact Hl|]. intros p Hp. by eapply loop_ok_mono.
Qed.

Lemma inv_after evs : ∀ s, inv s → inv (after s evs).
Proof. induction evs as [|ev evs IH]; intros s Hs; [done|]. apply IH, inv_step, Hs. Qed.

Lemma inv_fresh d h : contract_events d = [] → inv (fresh d h).
Proof.
  intros Hd. split; cbn; [lia|by exists 0%nat, []; split_and!; [lia|..]| |done].
  exists 0%nat. split; [apply resumes_genesis|]. intros j e r Hj. lia.
Qed.

(** *** Rows *)

(** The rows are those of at least the first [k] events when these are covered. *)
Lemma faithful_prefix h d k : faithful h d → covered d k → (k ≤ h)%nat →
  ∃ n ids, (k ≤ n ≤ h)%nat ∧ length ids = length (records n) ∧
    contract_events d = zip_with row_of ids (records n) ∧ Forall storable (records n).
Proof.
  intros (n & ids & Hn & Hl & Hd & Hst) Hc Hk. destruct (decide (k ≤ n)%nat) as [|Hlt]; [by exists n, ids|].
  exists k, ids. by rewrite (covered_records d n k ids Hl Hd Hc) by lia.
Qed.


(** An event the table does not take is never passed. *)
Lemma unstorable_blocks d h evs j e r :
  contract_events d = [] → chain !! j = Some e → parse e = Some r → ¬ storable r →
  let s := after (fresh d h) evs in
  ∃ k n ids, resumes_at (height s) (cursor s) k ∧ (k ≤ n ≤ j)%nat ∧
    length ids = length (records n) ∧ contract_events (table s) = zip_with row_of ids (records n).
Proof.
  intros Hd He Hr Hno s. pose proof (inv_after evs _ (inv_fresh d h Hd)) as Hs. fold s in Hs.
  destruct (inv_cursor s Hs) as (k & Hk & Hc).
  destruct (faithful_prefix _ _ k (inv_faithful s Hs) Hc (proj1 Hk)) as (n & ids & Hn & Hl & Hrows & Hst).
  exists k, n, ids. split_and!; [done|lia| |done|done].
  destruct (decide (n ≤ j)%nat) as [|Hlt]; [done|]. destruct Hno. rewrite Forall_forall in Hst. apply Hst, records_elem.
  exists j, e. split; [lia|done].
Qed.


(** *** Catching up *)

Definition all_storable (h : nat) : Prop := ∀ j e r, (j < h)%nat → chain !! j = Some e → parse e = Some r → storable r.

(** A test for it. *)
Definition storableb (r : ContractEventRecord) : bool :=
  negb (is_NaN (timestamp r)) && match unmet sc (insert_needs r) with None => true | Some _ => false end.

Lemma all_storable_test h : forallb storableb (records h) = true → all_storable h.
Proof.
  intros Ht j e r Hj He Hr. rewrite forallb_forall in Ht.
  assert (storableb r = true) as Hb by (apply Ht, list_elem_of_In, records_elem; eauto).
  unfold storableb in Hb. apply andb_prop in Hb as [Hn Hu]. apply negb_true_iff in Hn. split; [done|]. by destruct (unmet sc (insert_needs r)).
Qed.

Lemma storeEvent_fine r d : storable r → ∃ b d', storeEvent sc r (World d [Fine]) = (Ret b, World d' []) ∧ key_of r ∈ keys_of d'.
Proof.
  intros [Ht Hu]. assert (∃ b d', storeEvent sc r (World d [Fine]) = (Ret b, World d' [])) as (b & d' & Hs).
  { unfold storeEvent. destruct (timestamp r); [done|]. unfold query, call. cbn [sched st]. rewrite Hu. cbn [get_db HasDb_self].
    destruct (insert_event r _ _ _ d) as [b d']. by exists b, d'. }
  exists b, d'. split; [done|]. by destruct (storeEvent_keys _ _ _ _ _ Hs) as [_ Hr]; apply Hr.
Qed.

Lemma after_app a b s : after s (a ++ b) = after (after s a) b.
Proof. unfold after. by rewrite fold_left_app. Qed.

(** Loop [i] is at phase [p], everything before [k] is stored, and the indexer runs. *)
Record at_phase (i : nat) (h : nat) (p : phase) (k : nat) (s : poller) : Prop := {
  ap_inv : inv s; ap_running : isRunning s = true; ap_height : height s = h;
  ap_phase : loops s !! i = Some p; ap_covered : covered (table s) k;
}.

Lemma at_phase_head i h p k s c :
  at_phase i h p k s → resumes_at h (cursor s) k → c = cursor s →
  at_phase i h (Fetching c) k (set_phase i (loop_head s) s).
Proof.
  intros [Hi Hr Hh Hp Hc] Hk ->. split; [by apply inv_head|done|done| |done].
  cbn. unfold loop_head. rewrite Hr. apply list_lookup_insert_eq. by eapply lookup_lt_Some.
Qed.

(** A batch is stored to its end. *)
Lemma stores_batch i h k n m : ∀ s, all_storable h → (k + n ≤ h)%nat → length (take n (drop k chain)) = n → (m < n)%nat →
  at_phase i h (Storing (take n (drop k chain)) (drop m (take n (drop k chain)))) (k + m) s →
  let s' := after s (replicate (n - m) (Go i Fine)) in
  at_phase i h (Sleeping POLL_INTERVAL_MS) (k + n) s' ∧ resumes_at h (cursor s') (k + n).
Proof.
  remember (n - m)%nat as left eqn:Hleft. revert m Hleft. induction left as [|left IH]; intros m Hleft s Hst Hn Hl Hm Hs; [lia|].
  destruct (drop m (take n (drop k chain))) as [|raw rest] eqn:Hd; [apply (f_equal length) in Hd; rewrite length_drop, Hl in Hd; cbn in Hd; lia|].
  destruct (storing_head h (table s) k n m raw rest Hn Hl ltac:(done)) as (Hraw & Hrest & _ & Hnext).
  pose proof (inv_step (Go i Fine) s (ap_inv _ _ _ _ _ Hs)) as Hinv.
  assert (∃ d', step s (Go i Fine) = advance i (take n (drop k chain)) rest (set_table d' s) ∧ covered d' (k + Datatypes.S m)) as (d' & Hstep & Hc).
  { cbn [step]. unfold go. rewrite (ap_phase _ _ _ _ _ Hs). destruct (parse raw) as [r|] eqn:Hr.
    - destruct (storeEvent_fine r (table s)) as (b & d' & Hse & Hkey); [eapply Hst; [|done..]; lia|].
      rewrite Hse. exists d'. split; [done|]. destruct (storing_head h d' k n m raw rest Hn Hl ltac:(done)) as (_ & _ & _ & Hn').
      apply Hn'; [right; by exists r|]. eapply covered_mono; [apply (ap_covered _ _ _ _ _ Hs)|by apply (storeEvent_keys _ _ _ _ _ Hse)|done].
    - exists (table s). split; [by destruct s|]. apply Hnext; [by left|]. apply (ap_covered _ _ _ _ _ Hs). }
  destruct Hs as [Hi Hrun Hh Hp Hcov]. assert (i < length (loops s))%nat as Hlt by by eapply lookup_lt_Some.
  cbn [replicate after fold_left]. fold (after (step s (Go i Fine)) (replicate left (Go i Fine))). rewrite Hstep in *. unfold advance in *.
  destruct rest as [|x rest].
  - assert (n = Datatypes.S m) as ->.
    { apply (f_equal length) in Hrest. rewrite length_drop, Hl in Hrest. cbn in Hrest. lia. }
    replace left with 0%nat by lia. cbn. split; [split; [done|done|done| |done]|].
    + cbn. by apply list_lookup_insert_eq.
    + apply next_cursor_batch; [done|lia|done].
  - assert (Datatypes.S m < n)%nat as Hm'.
    { apply (f_equal length) in Hrest. rewrite length_drop, Hl in Hrest. cbn in Hrest. lia. }
    rewrite Hrest in *. apply (IH (Datatypes.S m)); [lia|done|done|done|done|]. split; [done|done|done| |done].
    cbn. by apply list_lookup_insert_eq.
Qed.

(** A page is asked for, stored and slept on. *)
Lemma one_page i h k c s :
  all_storable h → (k < h)%nat → at_phase i h (Fetching c) k s → resumes_at h c k →
  ∃ n c', (0 < n ≤ h - k)%nat ∧ let s' := after s (replicate (n + 2) (Go i Fine)) in
    at_phase i h (Fetching c') (k + n) s' ∧ resumes_at h c' (k + n).
Proof.
  intros Hst Hk Hs [_ Hres]. pose proof (inv_height s (ap_inv _ _ _ _ _ Hs)) as Hh. rewrite (ap_height _ _ _ _ _ Hs) in Hh.
  set (n := Nat.min LIMIT (h - k)). assert (0 < n ≤ h - k)%nat as Hn by (unfold n, LIMIT; lia).
  assert (length (take n (drop k chain)) = n) as Hl by (rewrite length_take, length_drop; lia).
  set (s1 := step s (Go i Fine)).
  assert (at_phase i h (Storing (take n (drop k chain)) (drop 0 (take n (drop k chain)))) (k + 0) s1) as H1.
  { rewrite drop_0, Nat.add_0_r. pose proof (inv_step (Go i Fine) s (ap_inv _ _ _ _ _ Hs)) as Hi1. fold s1 in Hi1.
    assert (s1 = set_phase i (Storing (take n (drop k chain)) (take n (drop k chain))) s) as Heq.
    { unfold s1. cbn [step]. unfold go. rewrite (ap_phase _ _ _ _ _ Hs). unfold known_now. rewrite (ap_height _ _ _ _ _ Hs), Hres by done.
      rewrite skipn_firstn_comm, take_take. fold n. unfold fetched. destruct (take n (drop k chain)) eqn:Hb; [change (0%nat = n) in Hl; lia|done]. }
    rewrite Heq in *. destruct Hs as [Hi Hr Hhh Hp Hc]. split; [done|done|done| |done]. cbn. apply list_lookup_insert_eq. by eapply lookup_lt_Some. }
  destruct (stores_batch i h k n 0 s1 Hst ltac:(lia) Hl ltac:(lia) H1) as [H2 Hc2]. rewrite Nat.sub_0_r in *.
  set (s2 := after s1 (replicate n (Go i Fine))) in *. exists n, (cursor s2). split; [done|].
  replace (n + 2)%nat with (Datatypes.S (n + 1)) by lia. cbn [replicate]. rewrite replicate_add.
  change (after s (Go i Fine :: replicate n (Go i Fine) ++ replicate 1 (Go i Fine))) with
    (after s1 (replicate n (Go i Fine) ++ replicate 1 (Go i Fine))). rewrite after_app. fold s2.
  change (after s2 (replicate 1 (Go i Fine))) with (go i Fine s2). unfold go. rewrite (ap_phase _ _ _ _ _ H2).
  split; [by eapply at_phase_head|exact Hc2].
Qed.

Lemma go_keys i s : inv s → keys_of (table s) ⊆ keys_of (table (go i Fine s)) ∧ height (go i Fine s) = height s.
Proof.
  intros Hs. assert (∀ b r s', table (advance i b r s') = table s' ∧ height (advance i b r s') = height s') as Hadv by (intros b [] s'; done).
  unfold go. destruct (loops s !! i) as [[| |c|b [|raw rest]|]|]; try done.
  - destruct (initCursor sc _) as [o w] eqn:Hi. cbn. by destruct (initCursor_resumes _ _ _ _ _ (inv_faithful s Hs) Hi) as [-> _].
  - unfold fetched. by case_match.
  - destruct (parse raw) as [r|]; [|by destruct (Hadv b rest s) as [-> ->]].
    destruct (storeEvent sc r _) as [[v|e] w] eqn:Hse; apply storeEvent_keys in Hse as [Hk _]; [|done].
    by destruct (Hadv b rest (set_table (st w) s)) as [-> ->].
Qed.

Lemma covered_after i n : ∀ s k, inv s → covered (table s) k →
  covered (table (after s (replicate n (Go i Fine)))) k ∧ height (after s (replicate n (Go i Fine))) = height s.
Proof.
  induction n as [|n IH]; intros s k Hs Hc; [done|]. destruct (go_keys i s Hs) as [Hk Hh].
  destruct (IH (go i Fine s) k) as [Hc' Hh']; [apply (inv_step (Go i Fine) s Hs)|by eapply covered_mono|].
  split; [exact Hc'|]. etrans; [exact Hh'|done].
Qed.

Lemma pages_catch_up i h : all_storable h → ∀ gap k c s, (h - k ≤ gap)%nat → at_phase i h (Fetching c) k s → resumes_at h c k →
  ∃ n, (n ≤ 3 * gap)%nat ∧ covered (table (after s (replicate n (Go i Fine)))) h.
Proof.
  intros Hst gap. induction (lt_wf gap) as [gap _ IH]. intros k c s Hgap Hs Hres. destruct (decide (k < h)%nat) as [Hk|Hk].
  - destruct (one_page i h k c s Hst Hk Hs Hres) as (n & c' & Hn & Hs' & Hres').
    assert (h - (k + n) < gap)%nat as Hless by lia.
    destruct (IH _ Hless (k + n)%nat c' _ ltac:(lia) Hs' Hres') as (m & Hm & Hc).
    exists (n + 2 + m)%nat. split; [lia|]. by rewrite replicate_add, after_app.
  - exists 0%nat. split; [lia|]. eapply covered_mono; [apply (ap_covered _ _ _ _ _ Hs)|done|lia].
Qed.

Lemma caught_up d h evs i ms n :
  contract_events d = [] → let s := after (fresh d h) evs in
  isRunning s = true → loops s !! i = Some (Sleeping ms) → all_storable (height s) →
  (1 + 3 * height s ≤ n)%nat →
  ∃ ids, length ids = length (records (height s)) ∧
    contract_events (table (after s (replicate n (Go i Fine)))) = zip_with row_of ids (records (height s)).
Proof.
  intros Hd s Hrun Hi Hst Hn. pose proof (inv_after evs _ (inv_fresh d h Hd)) as Hs. fold s in Hs.
  destruct (inv_cursor s Hs) as (k & Hk & Hc).
  assert (at_phase i (height s) (Fetching (cursor s)) k (go i Fine s)) as H1.
  { unfold go. rewrite Hi. by eapply at_phase_head. }
  destruct (pages_catch_up i (height s) Hst (height s) k (cursor s) _ ltac:(lia) H1 Hk) as (m & Hm & Hcov).
  pose proof (inv_after (replicate m (Go i Fine)) _ (ap_inv _ _ _ _ _ H1)) as Hm'.
  destruct (covered_after i n s 0 Hs) as [_ Hsame]; [intros j e r Hj; lia|].
  destruct (covered_after i (n - 1 - m) _ _ Hm' Hcov) as [Hcov' _]. rewrite <- after_app, <- replicate_add in Hcov'.
  replace (m + (n - 1 - m))%nat with (n - 1)%nat in Hcov' by lia.
  change (after (go i Fine s) ?l) with (after s (Go i Fine :: l)) in Hcov'.
  change (Go i Fine :: replicate (n - 1) (Go i Fine)) with (replicate (Datatypes.S (n - 1)) (Go i Fine)) in Hcov'.
  replace (Datatypes.S (n - 1)) with n in Hcov' by lia.
  pose proof (inv_after (replicate n (Go i Fine)) _ Hs) as Hend.
  destruct (faithful_prefix _ _ _ (inv_faithful _ Hend) Hcov') as (m' & ids & Hm2 & Hl & Hrows & _); [by rewrite Hsame|].
  rewrite Hsame in Hm2. assert (m' = height s) as -> by lia. by exists ids.
Qed.


End loops.

(** ** A concrete node, and runs over it *)

Definition page_after (known : list RpcEvent) (c : option string) : list RpcEvent :=
  match c with
  | None => known
  | Some t =>
      match list_find (λ e, token e = t) known with
      | Some (k, _) => drop (Datatypes.S k) known
      | None => match parseInt t with Fin l => drop (before l known) known | NaN => [] end
      end
  end.

#[export, program] Instance list_server : EventServer := {|
  getEvents known c := take LIMIT (page_after known c)
|}.
Next Obligation. done. Qed.
Next Obligation.
  intros known k e Hn Hk. cbn. assert (list_find (λ e', token e' = token e) known = Some (k, e)) as ->; [|done].
  apply list_find_Some. split_and!; [done|done|]. intros j y Hj Hlt Heq.
  assert (j = k) as ->; [|lia]. eapply (NoDup_lookup _ j k (token e) Hn).
  - by rewrite list_lookup_fmap, Hj, <- Heq.
  - by rewrite list_lookup_fmap, Hk.
Qed.
Next Obligation.
  intros known l Hne Hl. cbn. assert (list_find (λ e, token e = pretty l) known = None) as ->.
  { apply list_find_None, Forall_forall. intros e He. by apply Hne. }
  by rewrite parseInt_pretty by lia.
Qed.

Definition demo_events : list RpcEvent := [demo_rpc_event "12-0-0"; demo_rpc_event "12-0-1"].

Lemma pretty_no_dash (l : Z) : lst (pretty l) !! 0%nat = Some "1"%char → "-"%char ∈ lst (pretty l) → False.
Proof.
  intros H0 Hd. destruct (decide (0 ≤ l)) as [Hl|Hl].
  - destruct (pretty_digits l Hl) as [Hdig _]. unfold digits in Hdig. rewrite Forall_forall in Hdig. by specialize (Hdig _ Hd).
  - destruct l as [|p|p]; [lia|lia|]. done.
Qed.

(** Tokens of the form the header gives are not numbers. *)
Lemma demo_tokens e (l : Z) : e ∈ demo_events → token e ≠ pretty l.
Proof.
  intros He Heq. assert (lst (token e) !! 0%nat = Some "1"%char ∧ "-"%char ∈ lst (token e)) as [H0 Hd].
  { unfold demo_events in He. apply elem_of_cons in He as [->|He%list_elem_of_singleton]; [|subst e];
      (split; [done|apply (bool_decide_unpack _); vm_compute; exact I]). }
  rewrite Heq in *. by apply (pretty_no_dash l).
Qed.

Notation demo_parse := (parseRpcEvent demo_decode (λ _, Fin 0)).

(** The node stops answering, a statement loses its reply, and the process restarts. *)
Definition demo_run : list event :=
  [Start; Go 0 Fine; Go 0 (FailBefore (Error "timeout")); Go 0 Fine; Go 0 Fine; Go 0 Fine;
   Go 0 (FailAfter (Error "connection lost")); Go 0 Fine; Stop; Start; Go 1 Fine].

Notation demo_after evs :=
  (after full_schema demo_decode (λ _, Fin 0) demo_events (fresh demo_events empty_db 2) evs).

(** Both events are in the table, and two loops poll: the one that was stopped has not noticed. *)
Example demo_restarted :
  let s := demo_after demo_run in
  (ce_tx_hash <$> contract_events (table s), loops s, cursor s) = (["tx"; "tx"], [Fetching None; Fetching (Some "12")], Some "12").
Proof. vm_compute. reflexivity. Qed.

Ltac demo_hyps := first [exact demo_tokens | (apply (bool_decide_unpack _); vm_compute; exact I)].



(** An application for issue 3000000000 between two for issue 7. *)
Definition big_decode (s : string) : option native :=
  if String.eqb s "b" then Some (NArr [NStr "org"; NNum 3000000000]) else demo_decode s.
Definition big_encode (v : native) : string :=
  match v with NStr "applied" => "t" | NStr _ => "c" | _ => "b" end.
Definition big_event : RpcEvent :=
  rpc_event big_encode (Applied "G" "org" 3000000000) "12-0-1" "12" "now" (Some "tx").
Definition big_events : list RpcEvent := [demo_rpc_event "12-0-0"; big_event; demo_rpc_event "12-0-2"].

Notation big_parse := (parseRpcEvent big_decode (λ _, Fin 0)).

Lemma big_in (P : RpcEvent → Prop) :
  P (demo_rpc_event "12-0-0") → P big_event → P (demo_rpc_event "12-0-2") → ∀ e, e ∈ big_events → P e.
Proof. intros H0 H1 H2. apply Forall_forall. by repeat constructor. Qed.

Lemma big_tokens e (l : Z) : e ∈ big_events → token e ≠ pretty l.
Proof.
  intros He Heq. assert (lst (token e) !! 0%nat = Some "1"%char ∧ "-"%char ∈ lst (token e)) as [H0 Hd].
  { clear Heq. revert e He. by apply big_in; (split; [done|apply (bool_decide_unpack _); vm_compute; exact I]). }
  rewrite Heq in *. by apply (pretty_no_dash l).
Qed.

