(* ===== verification/Ledger.v ===== *)
(** * The storage of the contract

    [storage.rs]: the keys of the contract's entries, its typed reads and writes, and the
    lifetime of the temporary ones, over the storage of a Soroban host, which is a parameter
    with its documented behaviour. *)

From Stdlib Require Import String.
From S2P Require Import Prelude Indexer.

#[local] Open Scope string_scope.
#[local] Open Scope list_scope.
#[local] Open Scope Z_scope.

(** ** Keys and values *)

Inductive scval :=
  | Sym (s : string)
  | Addr (a : string)
  | U32 (n : Z).

(** A scalar, or a tuple that begins with a symbol. *)
Inductive key :=
  | Scalar (s : string)
  | Tuple (l : list scval).

Inductive value :=
  | VU32 (n : Z)
  | VBool (b : bool)
  | VAddress (a : string).

#[export] Instance scval_eq_dec : EqDecision scval.
Proof. solve_decision. Defined.
#[export] Instance key_eq_dec : EqDecision key.
Proof. solve_decision. Defined.
#[export] Instance value_eq_dec : EqDecision value.
Proof. solve_decision. Defined.

#[export] Instance scval_countable : Countable scval.
Proof.
  refine (inj_countable' (λ v, match v with Sym s => inl s | Addr a => inr (inl a) | U32 n => inr (inr n) end)
    (λ v, match v with inl s => Sym s | inr (inl a) => Addr a | inr (inr n) => U32 n end) _).
  by intros [].
Defined.
#[export] Instance key_countable : Countable key.
Proof.
  refine (inj_countable' (λ k, match k with Scalar s => inl s | Tuple l => inr l end)
    (λ k, match k with inl s => Scalar s | inr l => Tuple l end) _).
  by intros [].
Defined.

Definition global_cap_key : key := Scalar "g_cap".
Definition global_app_count_key (contributor : string) : key := Tuple [Sym "g_apps"; Addr contributor].
Definition app_entry_key (contributor org_id : string) (issue_id : Z) : key :=
  Tuple [Sym "app"; Addr contributor; Sym org_id; U32 issue_id].
Definition admin_key : key := Scalar "admin".
Definition maintainer_key (maintainer org_id : string) : key :=
  Tuple [Sym "maint"; Addr maintainer; Sym org_id].
Definition org_assignment_count_key (contributor org_id : string) : key :=
  Tuple [Sym "o_asgn"; Addr contributor; Sym org_id].
Definition assignment_entry_key (org_id : string) (issue_id : Z) (contributor : string) : key :=
  Tuple [Sym "asgn"; Sym org_id; U32 issue_id; Addr contributor].
Definition org_cap_key (org_id : string) : key := Tuple [Sym "o_cap"; Sym org_id].

Definition APP_TTL_LEDGERS : Z := 17280.
Definition APP_TTL_MAX : Z := 535000.
Definition GLOBAL_APP_LIMIT : Z := 15.
Definition ORG_ASSIGNMENT_LIMIT : Z := 4.
Definition INSTANCE_TTL_LEDGERS : Z := 518400.

(** ** The host

    A temporary entry lives until a ledger it was given; one that is written anew lives as long
    as the network has new entries live at least, and an extension raises this if less than the
    threshold is left.  Persistent entries stay until they are removed: one that is archived has
    to be restored before a transaction can run that reads it. *)
Class Temporary (T : Type) := {
  t_get : Z → key → T → option (value * Z);   (** in a ledger: the live entry and its last ledger *)
  t_set : Z → key → value → T → T;
  t_remove : key → T → T;
  t_extend : Z → key → Z → Z → T → option T;  (** none: the host traps *)
  min_ttl : Z;
}.
Class Persistent (P : Type) := {
  p_get : key → P → option value;
  p_set : key → value → P → P;
  p_remove : key → P → P;
}.

Class TemporaryLaws (T : Type) `{Temporary T} := {
  t_get_live n k t v l : t_get n k t = Some (v, l) → n ≤ l;
  t_get_later n n' k t : n ≤ n' →
    t_get n' k t =
    match t_get n k t with Some (v, l) => if n' <=? l then Some (v, l) else None | None => None end;
  t_get_set n k v k' t :
    t_get n k' (t_set n k v t) =
    if decide (k' = k)
    then Some (v, match t_get n k t with Some (_, l) => l | None => n + min_ttl - 1 end)
    else t_get n k' t;
  t_get_remove n k k' t : t_get n k' (t_remove k t) = if decide (k' = k) then None else t_get n k' t;
  t_extend_absent n k th ex t : t_get n k t = None → t_extend n k th ex t = None;
  t_extend_live n k th ex t v l : t_get n k t = Some (v, l) → ex ≤ APP_TTL_MAX →
    ∃ t', t_extend n k th ex t = Some t' ∧
      ∀ k', t_get n k' t' =
        if decide (k' = k) then Some (v, if l - n <? th then Z.max l (n + ex) else l) else t_get n k' t;
  (** The network's least lifetime is not above the one of an application. *)
  min_ttl_range : 1 ≤ min_ttl ≤ APP_TTL_LEDGERS;
}.
Class PersistentLaws (P : Type) `{Persistent P} := {
  p_get_set k v k' p : p_get k' (p_set k v p) = if decide (k' = k) then Some v else p_get k' p;
  p_get_remove k k' p : p_get k' (p_remove k p) = if decide (k' = k) then None else p_get k' p;
}.

(** The storage of one contract, the ledger it is run in, and what it has published: an event of
    [events.rs], or one that file does not have. *)
Inductive logged :=
  | Published (e : contract_event)
  | Unlisted (topic : string) (args : list scval).

Record env (T P : Type) := mkEnv {
  sequence : Z; temporary : T; persistent : P; instance_until : Z; wasm : string; log : list logged;
}.
Arguments mkEnv {T P} sequence temporary persistent instance_until wasm log.
Arguments sequence {T P}. Arguments temporary {T P}. Arguments persistent {T P}.
Arguments instance_until {T P}. Arguments wasm {T P}. Arguments log {T P}.

(** ** Running a call: with the addresses that authorised it, up to the first error. *)

Inductive ContractError :=
  | AlreadyInitialized | NotInitialized | UnauthorizedAdmin | UnauthorizedMaintainer
  | UnauthorizedContributor | GlobalApplicationLimitReached | OrgAssignmentLimitReached
  | DuplicateApplication | ApplicationNotFound | AssignmentNotFound | AlreadyAssigned
  | CapOutOfRange | MaintainerNotFound
  (** used by [lib.rs], but not declared *)
  | InvalidOrgCap | CounterInconsistency.
#[export] Instance ContractError_eq_dec : EqDecision ContractError.
Proof. solve_decision. Defined.

(** The discriminants. *)
Definition discriminant (e : ContractError) : option Z :=
  match e with
  | AlreadyInitialized => Some 1 | NotInitialized => Some 2 | UnauthorizedAdmin => Some 3
  | UnauthorizedMaintainer => Some 4 | UnauthorizedContributor => Some 5
  | GlobalApplicationLimitReached => Some 6 | OrgAssignmentLimitReached => Some 7
  | DuplicateApplication => Some 8 | ApplicationNotFound => Some 9 | AssignmentNotFound => Some 10
  | AlreadyAssigned => Some 11 | CapOutOfRange => Some 12 | MaintainerNotFound => Some 17
  | InvalidOrgCap | CounterInconsistency => None
  end.

Inductive failure := Err (e : ContractError) | Trap.
#[export] Instance failure_eq_dec : EqDecision failure.
Proof. solve_decision. Defined.

Definition C (E A : Type) : Type := list string → E → (failure + A) * E.

#[export] Instance C_ret {E} : MRet (C E) := λ _ a _ e, (inr a, e).
#[export] Instance C_bind {E} : MBind (C E) := λ _ _ f m auths e,
  match m auths e with (inr a, e') => f a auths e' | (inl x, e') => (inl x, e') end.

Definition fail {E A} (x : failure) : C E A := λ _ e, (inl x, e).
Definition panic_with_error {E A} (x : ContractError) : C E A := fail (Err x).
Definition when {E} (b : bool) (m : C E ()) : C E () := if b then m else mret tt.
Definition get {E A} (f : E → A) : C E A := λ _ e, (inr (f e), e).
Definition put {E} (f : E → E) : C E () := λ _ e, (inr tt, f e).
Definition require_auth {E} (a : string) : C E () := λ auths e,
  if decide (a ∈ auths) then (inr tt, e) else (inl Trap, e).

(** Arithmetic on [u32] with overflow checks. *)
Definition u32_max : Z := 4294967295.
Definition checked {E} (n : Z) : C E Z := if (0 <=? n) && (n <=? u32_max) then mret n else fail Trap.
Definition saturating_sub (a b : Z) : Z := Z.max 0 (a - b).

(** ** The helpers of [storage.rs] *)

Section storage.
Context {T P : Type} `{Temporary T} `{Persistent P}.
#[local] Abbreviation E := (env T P).

Definition with_temporary (t : T) (e : E) : E :=
  mkEnv (sequence e) t (persistent e) (instance_until e) (wasm e) (log e).
Definition with_persistent (p : P) (e : E) : E :=
  mkEnv (sequence e) (temporary e) p (instance_until e) (wasm e) (log e).

(** [storage().temporary()] and [storage().persistent()]; a value of another type than expected
    makes the host trap. *)
Definition read {A} (decode : value → option A) (v : option value) : C E (option A) :=
  match v with
  | None => mret None
  | Some x => match decode x with Some a => mret (Some a) | None => fail Trap end
  end.
Definition as_u32 (v : value) : option Z := match v with VU32 n => Some n | _ => None end.
Definition as_bool (v : value) : option bool := match v with VBool b => Some b | _ => None end.
Definition as_address (v : value) : option string := match v with VAddress a => Some a | _ => None end.

Definition temp_read {A} (decode : value → option A) (k : key) : C E (option A) :=
  v ← get (λ e, t_get (sequence e) k (temporary e)); read decode (fst <$> v).
Definition temp_set (k : key) (v : value) : C E () :=
  put (λ e, with_temporary (t_set (sequence e) k v (temporary e)) e).
Definition temp_remove (k : key) : C E () := put (λ e, with_temporary (t_remove k (temporary e)) e).
Definition temp_extend (k : key) (threshold extend_to : Z) : C E () := λ _ e,
  match t_extend (sequence e) k threshold extend_to (temporary e) with
  | Some t => (inr tt, with_temporary t e)
  | None => (inl Trap, e)
  end.
Definition pers_read {A} (decode : value → option A) (k : key) : C E (option A) :=
  v ← get (λ e, p_get k (persistent e)); read decode v.
Definition pers_set (k : key) (v : value) : C E () :=
  put (λ e, with_persistent (p_set k v (persistent e)) e).
Definition pers_remove (k : key) : C E () := put (λ e, with_persistent (p_remove k (persistent e)) e).

Definition get_global_cap : C E Z := v ← pers_read as_u32 global_cap_key; mret (default GLOBAL_APP_LIMIT v).
Definition set_global_cap (cap : Z) : C E () := pers_set global_cap_key (VU32 cap).

(** The instance lives at least as long again as is asked for, if less than half is left. *)
Definition bump_instance : C E () := put (λ e,
  mkEnv (sequence e) (temporary e) (persistent e)
    (if instance_until e - sequence e <? INSTANCE_TTL_LEDGERS / 2
     then Z.max (instance_until e) (sequence e + INSTANCE_TTL_LEDGERS) else instance_until e) (wasm e) (log e)).

Definition get_admin : C E (option string) := pers_read as_address admin_key.
Definition set_admin (admin : string) : C E () := pers_set admin_key (VAddress admin).
Definition require_initialized (error : ContractError) : C E () :=
  a ← get_admin; match a with None => panic_with_error error | Some _ => mret tt end.

Definition get_global_app_count (contributor : string) : C E Z :=
  v ← temp_read as_u32 (global_app_count_key contributor); mret (default 0 v).
Definition set_global_app_count (contributor : string) (count : Z) : C E () :=
  temp_set (global_app_count_key contributor) (VU32 count).
Definition remove_global_app_count (contributor : string) : C E () :=
  temp_remove (global_app_count_key contributor).
Definition extend_global_app_count_ttl (contributor : string) : C E () :=
  temp_extend (global_app_count_key contributor) APP_TTL_LEDGERS APP_TTL_LEDGERS.

Definition has_app_entry (contributor org_id : string) (issue_id : Z) : C E bool :=
  v ← temp_read as_bool (app_entry_key contributor org_id issue_id); mret (default false v).
Definition set_app_entry (contributor org_id : string) (issue_id : Z) : C E () :=
  temp_set (app_entry_key contributor org_id issue_id) (VBool true).
Definition remove_app_entry (contributor org_id : string) (issue_id : Z) : C E () :=
  temp_remove (app_entry_key contributor org_id issue_id).
Definition extend_app_entry_ttl (contributor org_id : string) (issue_id : Z) : C E () :=
  temp_extend (app_entry_key contributor org_id issue_id) APP_TTL_LEDGERS APP_TTL_LEDGERS.

Definition is_maintainer (maintainer org_id : string) : C E bool :=
  v ← pers_read as_bool (maintainer_key maintainer org_id); mret (default false v).
Definition set_maintainer (maintainer org_id : string) : C E () :=
  pers_set (maintainer_key maintainer org_id) (VBool true).
Definition remove_maintainer (maintainer org_id : string) : C E () :=
  pers_remove (maintainer_key maintainer org_id).

Definition get_org_assignment_count (contributor org_id : string) : C E Z :=
  v ← pers_read as_u32 (org_assignment_count_key contributor org_id); mret (default 0 v).
Definition set_org_assignment_count (contributor org_id : string) (count : Z) : C E () :=
  pers_set (org_assignment_count_key contributor org_id) (VU32 count).
Definition remove_org_assignment_count (contributor org_id : string) : C E () :=
  pers_remove (org_assignment_count_key contributor org_id).

Definition has_assignment (org_id : string) (issue_id : Z) (contributor : string) : C E bool :=
  v ← pers_read as_bool (assignment_entry_key org_id issue_id contributor); mret (default false v).
Definition set_assignment (org_id : string) (issue_id : Z) (contributor : string) : C E () :=
  pers_set (assignment_entry_key org_id issue_id contributor) (VBool true).
Definition remove_assignment (org_id : string) (issue_id : Z) (contributor : string) : C E () :=
  pers_remove (assignment_entry_key org_id issue_id contributor).

Definition get_org_cap (org_id : string) : C E Z :=
  v ← pers_read as_u32 (org_cap_key org_id); mret (default ORG_ASSIGNMENT_LIMIT v).
Definition set_org_cap (org_id : string) (cap : Z) : C E () := pers_set (org_cap_key org_id) (VU32 cap).

Definition publish (x : logged) : C E () := put (λ e,
  mkEnv (sequence e) (temporary e) (persistent e) (instance_until e) (wasm e) (log e ++ [x])).
Definition update_current_contract_wasm (hash : string) : C E () := put (λ e,
  mkEnv (sequence e) (temporary e) (persistent e) (instance_until e) hash (log e)).

End storage.
