(* ===== verification/Contract.v ===== *)
(** * The contract

    [lib.rs]: every entry point, run by a Soroban host ([Ledger]) that undoes a call that fails,
    and the histories of calls and passing ledgers. *)

From Stdlib Require Import String.
From S2P Require Import Prelude Indexer Ledger.

#[local] Open Scope string_scope.
#[local] Open Scope list_scope.
#[local] Open Scope Z_scope.

Section contract.
Context {T P : Type} `{Temporary T} `{Persistent P}.
#[local] Abbreviation E := (env T P).
#[local] Abbreviation emit x := (publish (Published x)).

(** Whether the build has debug assertions, and the event of [set_org_cap], which [events.rs] does
    not have. *)
Variable debug_assertions : bool.
Variable org_cap_updated : string → Z → Z → logged.
(** Two bounds that [storage.rs] does not have; the comment on [set_org_cap] says 1 and 20. *)
Variables ORG_CAP_MIN ORG_CAP_MAX : Z.

(** ** Administration *)

Definition initialize (admin : string) : C E () :=
  a ← get_admin;
  match a with
  | Some _ => panic_with_error AlreadyInitialized
  | None =>
      _ ← require_auth admin;
      _ ← set_admin admin;
      _ ← set_global_cap GLOBAL_APP_LIMIT;
      _ ← bump_instance;
      emit (Init admin)
  end.

(** [storage::get_admin(&env).unwrap()], then its authorisation. *)
Definition require_admin : C E () :=
  _ ← require_initialized NotInitialized;
  a ← get_admin;
  match a with Some stored_admin => require_auth stored_admin | None => fail Trap end.

Definition register_maintainer (admin maintainer org_id : string) : C E () :=
  _ ← require_admin;
  _ ← set_maintainer maintainer org_id;
  _ ← bump_instance;
  emit (MaintReg maintainer org_id).

Definition deregister_maintainer (admin maintainer org_id : string) : C E () :=
  _ ← require_admin;
  m ← is_maintainer maintainer org_id;
  _ ← when (negb m) (panic_with_error MaintainerNotFound);
  _ ← remove_maintainer maintainer org_id;
  _ ← bump_instance;
  emit (MaintDrg admin maintainer org_id).

Definition contract_set_global_cap (admin : string) (new_cap : Z) : C E () :=
  _ ← require_admin;
  _ ← when (100 <? new_cap) (panic_with_error CapOutOfRange);
  _ ← set_global_cap new_cap;
  _ ← bump_instance;
  emit (CapUpd admin new_cap).

Definition emergency_set_global_cap (admin : string) (new_cap : Z) : C E () :=
  _ ← require_admin;
  _ ← when (100 <? new_cap) (panic_with_error CapOutOfRange);
  old_cap ← get_global_cap;
  _ ← set_global_cap new_cap;
  _ ← bump_instance;
  emit (EmrgCap admin old_cap new_cap).

(** ** Contributors *)

Definition apply_for_issue (contributor org_id : string) (issue_id : Z) : C E () :=
  _ ← require_initialized NotInitialized;
  _ ← require_auth contributor;
  count ← get_global_app_count contributor;
  cap ← get_global_cap;
  _ ← when (cap <=? count) (panic_with_error GlobalApplicationLimitReached);
  present ← has_app_entry contributor org_id issue_id;
  _ ← when present (panic_with_error DuplicateApplication);
  next ← checked (count + 1);
  _ ← set_global_app_count contributor next;
  _ ← set_app_entry contributor org_id issue_id;
  _ ← extend_global_app_count_ttl contributor;
  _ ← extend_app_entry_ttl contributor org_id issue_id;
  _ ← bump_instance;
  emit (Applied contributor org_id issue_id).

(** The application is removed and the counter goes down, to disappear at zero. *)
Definition consume_application (contributor org_id : string) (issue_id : Z) : C E () :=
  _ ← remove_app_entry contributor org_id issue_id;
  count ← get_global_app_count contributor;
  let new_count := saturating_sub count 1 in
  if new_count =? 0 then remove_global_app_count contributor
  else set_global_app_count contributor new_count.

Definition withdraw_application (contributor org_id : string) (issue_id : Z) : C E () :=
  _ ← require_initialized NotInitialized;
  _ ← require_auth contributor;
  present ← has_app_entry contributor org_id issue_id;
  _ ← when (negb present) (panic_with_error ApplicationNotFound);
  _ ← consume_application contributor org_id issue_id;
  _ ← bump_instance;
  emit (Withdrew contributor org_id issue_id).

(** ** Maintainers *)

Definition require_maintainer (maintainer org_id : string) : C E () :=
  _ ← require_initialized NotInitialized;
  _ ← require_auth maintainer;
  m ← is_maintainer maintainer org_id;
  when (negb m) (panic_with_error UnauthorizedMaintainer).

Definition assign_issue (maintainer contributor org_id : string) (issue_id : Z) : C E () :=
  _ ← require_maintainer maintainer org_id;
  present ← has_app_entry contributor org_id issue_id;
  _ ← when (negb present) (panic_with_error ApplicationNotFound);
  asgn_count ← get_org_assignment_count contributor org_id;
  cap ← get_org_cap org_id;
  _ ← when (cap <=? asgn_count) (panic_with_error OrgAssignmentLimitReached);
  assigned ← has_assignment org_id issue_id contributor;
  _ ← when assigned (panic_with_error AlreadyAssigned);
  _ ← consume_application contributor org_id issue_id;
  next ← checked (asgn_count + 1);
  _ ← set_org_assignment_count contributor org_id next;
  _ ← set_assignment org_id issue_id contributor;
  _ ← when debug_assertions
        (written ← get_org_assignment_count contributor org_id;
         sentinel ← has_assignment org_id issue_id contributor;
         when ((written =? 0) || negb sentinel) (panic_with_error CounterInconsistency));
  _ ← bump_instance;
  emit (Assigned contributor maintainer org_id issue_id).

(** What the end of an assignment requires. *)
Definition require_assignment (maintainer contributor org_id : string) (issue_id : Z) : C E () :=
  _ ← require_maintainer maintainer org_id;
  assigned ← has_assignment org_id issue_id contributor;
  when (negb assigned) (panic_with_error AssignmentNotFound).

Definition store_assignment_count (contributor org_id : string) (new_count : Z) : C E () :=
  if new_count =? 0 then remove_org_assignment_count contributor org_id
  else set_org_assignment_count contributor org_id new_count.

Definition complete_assignment (maintainer contributor org_id : string) (issue_id : Z) : C E () :=
  _ ← require_assignment maintainer contributor org_id issue_id;
  _ ← when debug_assertions
        (counter ← get_org_assignment_count contributor org_id;
         when (counter =? 0) (panic_with_error CounterInconsistency));
  _ ← remove_assignment org_id issue_id contributor;
  asgn_count ← get_org_assignment_count contributor org_id;
  _ ← store_assignment_count contributor org_id (saturating_sub asgn_count 1);
  _ ← bump_instance;
  emit (Completed contributor maintainer org_id issue_id).

Definition revoke_assignment (maintainer contributor org_id : string) (issue_id : Z) : C E () :=
  _ ← require_assignment maintainer contributor org_id issue_id;
  _ ← remove_assignment org_id issue_id contributor;
  asgn_count ← get_org_assignment_count contributor org_id;
  _ ← when (asgn_count =? 0) (panic_with_error CounterInconsistency);
  new_count ← checked (asgn_count - 1);
  _ ← store_assignment_count contributor org_id new_count;
  _ ← bump_instance;
  emit (Revoked contributor maintainer org_id issue_id).

Definition contract_set_org_cap (maintainer org_id : string) (new_cap : Z) : C E () :=
  _ ← require_maintainer maintainer org_id;
  _ ← when ((new_cap <? ORG_CAP_MIN) || (ORG_CAP_MAX <? new_cap)) (panic_with_error InvalidOrgCap);
  old_cap ← get_org_cap org_id;
  _ ← set_org_cap org_id new_cap;
  _ ← bump_instance;
  publish (org_cap_updated org_id old_cap new_cap).

(** ** What anybody may do *)

Definition upgrade (new_wasm_hash : string) : C E () :=
  _ ← require_admin; update_current_contract_wasm new_wasm_hash.

Definition extend_application_ttl (contributor org_id : string) (issue_id : Z) : C E () :=
  present ← has_app_entry contributor org_id issue_id;
  _ ← when (negb present) (panic_with_error ApplicationNotFound);
  _ ← extend_app_entry_ttl contributor org_id issue_id;
  count ← get_global_app_count contributor;
  when (0 <? count) (extend_global_app_count_ttl contributor).

(** An assignment among the issues given: the inner loop of [check_consistency]. *)
Fixpoint has_orphan (contributor org_id : string) (issue_ids : list Z) : C E bool :=
  match issue_ids with
  | [] => mret false
  | issue_id :: rest =>
      assigned ← has_assignment org_id issue_id contributor;
      if assigned : bool then mret true else has_orphan contributor org_id rest
  end.

Fixpoint check_consistency (pairs : list (string * string)) (issue_ids : list Z) : C E (list (string * string)) :=
  match pairs with
  | [] => mret []
  | p :: rest =>
      counter ← get_org_assignment_count p.1 p.2;
      orphan ← (if counter =? 0 then has_orphan p.1 p.2 issue_ids else mret false);
      inconsistent ← check_consistency rest issue_ids;
      mret (if orphan : bool then p :: inconsistent else inconsistent)
  end.

Definition get_org_assignment_capacity (contributor org_id : string) : C E Z :=
  current ← get_org_assignment_count contributor org_id;
  cap ← get_org_cap org_id; mret (saturating_sub cap current).
Definition get_global_application_capacity (contributor : string) : C E Z :=
  current ← get_global_app_count contributor;
  cap ← get_global_cap; mret (saturating_sub cap current).
Definition is_org_assignment_limit_reached (contributor org_id : string) : C E bool :=
  count ← get_org_assignment_count contributor org_id;
  cap ← get_org_cap org_id; mret (cap <=? count).
Definition is_global_app_limit_reached (contributor : string) : C E bool :=
  count ← get_global_app_count contributor;
  cap ← get_global_cap; mret (cap <=? count).

(** ** Histories: calls, and ledgers that pass. *)

Inductive call :=
  | Initialize (admin : string)
  | RegisterMaintainer (admin maintainer org_id : string)
  | DeregisterMaintainer (admin maintainer org_id : string)
  | SetGlobalCap (admin : string) (new_cap : Z)
  | EmergencySetGlobalCap (admin : string) (new_cap : Z)
  | ApplyForIssue (contributor org_id : string) (issue_id : Z)
  | WithdrawApplication (contributor org_id : string) (issue_id : Z)
  | AssignIssue (maintainer contributor org_id : string) (issue_id : Z)
  | CompleteAssignment (maintainer contributor org_id : string) (issue_id : Z)
  | RevokeAssignment (maintainer contributor org_id : string) (issue_id : Z)
  | SetOrgCap (maintainer org_id : string) (new_cap : Z)
  | ExtendApplicationTtl (contributor org_id : string) (issue_id : Z).

(** The host converts the arguments; what is not a [u32] traps. *)
Definition invoke (c : call) : C E () :=
  match c with
  | Initialize a => initialize a
  | RegisterMaintainer a m o => register_maintainer a m o
  | DeregisterMaintainer a m o => deregister_maintainer a m o
  | SetGlobalCap a n => n ← checked n; contract_set_global_cap a n
  | EmergencySetGlobalCap a n => n ← checked n; emergency_set_global_cap a n
  | ApplyForIssue c o i => apply_for_issue c o i
  | WithdrawApplication c o i => withdraw_application c o i
  | AssignIssue m c o i => assign_issue m c o i
  | CompleteAssignment m c o i => complete_assignment m c o i
  | RevokeAssignment m c o i => revoke_assignment m c o i
  | SetOrgCap m o n => n ← checked n; contract_set_org_cap m o n
  | ExtendApplicationTtl c o i => extend_application_ttl c o i
  end.

(** The host keeps what a call did only if it returns. *)
Definition transact (c : call) (auths : list string) (e : E) : E :=
  match invoke c auths e with (inr _, e') => e' | (inl _, _) => e end.

Inductive event :=
  | Call (c : call) (auths : list string)
  | Pass (ledgers : nat).

Definition pass (n : nat) (e : E) : E :=
  mkEnv (sequence e + Z.of_nat n) (temporary e) (persistent e) (instance_until e) (wasm e) (log e).

Definition step (e : E) (x : event) : E :=
  match x with Call c auths => transact c auths e | Pass n => pass n e end.

Definition history (e : E) (xs : list event) : E := fold_left step xs e.

End contract.
