(* ===== verification/Caps.v ===== *)
(** * What the contract guarantees

    That the counters of [Contract] stay in step with the entries they count, whoever calls what
    and however time passes, and what follows: the caps, who has to agree to what, how long an
    application lives, and what the published events tell. *)

From Stdlib Require Import String.
From S2P Require Import Prelude Js Indexer Ledger Contract.

#[local] Open Scope string_scope.
#[local] Open Scope list_scope.
#[local] Open Scope Z_scope.

(** ** What is in the storage *)

Definition u32_ok (n : Z) : bool := (0 <=? n) && (n <=? u32_max).

(** The type of the values under a key. *)
Definition good (k : key) (v : value) : bool :=
  match k, v with
  | Scalar s, VU32 n => String.eqb s "g_cap" && u32_ok n
  | Scalar s, VAddress _ => String.eqb s "admin"
  | Tuple (Sym s :: _), VU32 n =>
      (String.eqb s "g_apps" || String.eqb s "o_asgn" || String.eqb s "o_cap") && u32_ok n
  | Tuple (Sym s :: _), VBool b => (String.eqb s "app" || String.eqb s "maint" || String.eqb s "asgn") && b
  | _, _ => false
  end.

Section storage.
Context {T P : Type} `{TemporaryLaws T} `{PersistentLaws P}.
#[local] Abbreviation E := (env T P).

Definition tget (e : E) (k : key) : option (value * Z) := t_get (sequence e) k (temporary e).
Definition pget (e : E) (k : key) : option value := p_get k (persistent e).

Definition typed (e : E) : Prop :=
  (∀ k v l, tget e k = Some (v, l) → good k v = true) ∧ (∀ k v, pget e k = Some v → good k v = true).

(** What the queries of the contract answer. *)
Definition u32_or (d : Z) (v : option value) : Z := match v with Some (VU32 n) => n | _ => d end.
Definition flag (v : option value) : bool := match v with Some (VBool b) => b | _ => false end.
Definition admin_of (e : E) : option string :=
  match pget e admin_key with Some (VAddress a) => Some a | _ => None end.
Definition count_of (e : E) (c : string) : Z := u32_or 0 (fst <$> tget e (global_app_count_key c)).
Definition cap_of (e : E) : Z := u32_or GLOBAL_APP_LIMIT (pget e global_cap_key).
Definition applied_to (e : E) (c o : string) (i : Z) : bool := flag (fst <$> tget e (app_entry_key c o i)).
Definition maintains (e : E) (m o : string) : bool := flag (pget e (maintainer_key m o)).
Definition org_count_of (e : E) (c o : string) : Z := u32_or 0 (pget e (org_assignment_count_key c o)).
Definition org_cap_of (e : E) (o : string) : Z := u32_or ORG_ASSIGNMENT_LIMIT (pget e (org_cap_key o)).
Definition assigned_to (e : E) (c o : string) (i : Z) : bool := flag (pget e (assignment_entry_key o i c)).

(** *** Running: [runs L] goes on after the first action, of which [L] says what it gives. *)

Lemma run_bind {A B} (m : C E A) (f : A → C E B) auths e a e' :
  m auths e = (inr a, e') → (m ≫= f) auths e = f a auths e'.
Proof. intros Hm. unfold mbind, C_bind. by rewrite Hm. Qed.

Lemma run_fail {A B} (m : C E A) (f : A → C E B) auths e x e' :
  m auths e = (inl x, e') → (m ≫= f) auths e = (inl x, e').
Proof. intros Hm. unfold mbind, C_bind. by rewrite Hm. Qed.

Ltac runs L :=
  let Hr := fresh in pose proof L as Hr;
  first [rewrite (run_bind _ _ _ _ _ _ Hr) | rewrite (run_fail _ _ _ _ _ _ Hr)]; clear Hr.

Lemma pers_read_u32 k d auths e : typed e →
  (∀ v, good k v = true → ∃ n, v = VU32 n) →
  (v ← pers_read as_u32 k; mret (default d v)) auths e = (inr (u32_or d (pget e k)), e).
Proof.
  intros [_ Hp] Hk. specialize (Hp k). unfold pget, pers_read, read, get, mbind, C_bind in *.
  destruct (p_get k (persistent e)) as [v|]; [|done]. by destruct (Hk v (Hp _ eq_refl)) as [n ->].
Qed.

Lemma pers_read_flag k auths e : typed e →
  (∀ v, good k v = true → v = VBool true) →
  (v ← pers_read as_bool k; mret (default false v)) auths e = (inr (flag (pget e k)), e).
Proof.
  intros [_ Hp] Hk. specialize (Hp k). unfold pget, pers_read, read, get, mbind, C_bind in *.
  destruct (p_get k (persistent e)) as [v|]; [|done]. by rewrite (Hk v (Hp _ eq_refl)).
Qed.

Lemma good_flag s l v : (s = "app" ∨ s = "maint" ∨ s = "asgn") → good (Tuple (Sym s :: l)) v = true → v = VBool true.
Proof. by intros [-> | [-> | ->]]; destruct v as [n|[]|a]. Qed.

Lemma good_u32 s l v : (s = "g_apps" ∨ s = "o_asgn" ∨ s = "o_cap") → good (Tuple (Sym s :: l)) v = true →
  ∃ n, v = VU32 n ∧ 0 ≤ n ≤ u32_max.
Proof.
  intros Hs Hg. destruct v as [n|b|a]; [|by destruct Hs as [-> | [-> | ->]]|by destruct Hs as [-> | [-> | ->]]].
  exists n. split; [done|]. cbn in Hg. apply andb_prop in Hg as [_ Hg]. unfold u32_ok in Hg. lia.
Qed.

Lemma good_cap v : good global_cap_key v = true → ∃ n, v = VU32 n ∧ 0 ≤ n ≤ u32_max.
Proof. destruct v as [n|b|a]; [|done|done]. cbn. unfold u32_ok. intros Hg. exists n. split; [done|]. lia. Qed.

Lemma run_count c auths e : typed e → get_global_app_count c auths e = (inr (count_of e c), e).
Proof.
  intros [Ht _]. specialize (Ht (global_app_count_key c)).
  unfold get_global_app_count, count_of, tget, temp_read, read, get, mbind, C_bind in *.
  destruct (t_get _ _ _) as [[v l]|]; [|done].
  by destruct (good_u32 _ _ v (or_introl eq_refl) (Ht _ _ eq_refl)) as (n & -> & _).
Qed.

Lemma run_applied c o i auths e : typed e → has_app_entry c o i auths e = (inr (applied_to e c o i), e).
Proof.
  intros [Ht _]. specialize (Ht (app_entry_key c o i)).
  unfold has_app_entry, applied_to, tget, temp_read, read, get, mbind, C_bind in *.
  destruct (t_get _ _ _) as [[v l]|]; [|done].
  by rewrite (good_flag _ _ v (or_introl eq_refl) (Ht _ _ eq_refl)).
Qed.

Lemma run_cap auths e : typed e → get_global_cap auths e = (inr (cap_of e), e).
Proof. intros Ht. apply pers_read_u32; [done|]. intros v Hv. destruct (good_cap v Hv) as (n & -> & _). by exists n. Qed.

Lemma run_org_count c o auths e : typed e → get_org_assignment_count c o auths e = (inr (org_count_of e c o), e).
Proof.
  intros Ht. apply pers_read_u32; [done|]. intros v Hv.
  destruct (good_u32 _ _ v (or_intror (or_introl eq_refl)) Hv) as (n & -> & _). by exists n.
Qed.

Lemma run_org_cap o auths e : typed e → get_org_cap o auths e = (inr (org_cap_of e o), e).
Proof.
  intros Ht. apply pers_read_u32; [done|]. intros v Hv.
  destruct (good_u32 _ _ v (or_intror (or_intror eq_refl)) Hv) as (n & -> & _). by exists n.
Qed.

Lemma run_maintains m o auths e : typed e → is_maintainer m o auths e = (inr (maintains e m o), e).
Proof. intros Ht. apply pers_read_flag; [done|]. intros v. apply good_flag. tauto. Qed.

Lemma run_assigned c o i auths e : typed e → has_assignment o i c auths e = (inr (assigned_to e c o i), e).
Proof. intros Ht. apply pers_read_flag; [done|]. intros v. apply good_flag. tauto. Qed.

Lemma run_admin auths e : typed e → get_admin auths e = (inr (admin_of e), e).
Proof.
  intros [_ Hp]. specialize (Hp admin_key). unfold get_admin, admin_of, pget, pers_read, read, get, mbind, C_bind in *.
  destruct (p_get _ _) as [[]|]; try done; by specialize (Hp _ eq_refl).
Qed.

Lemma run_initialized auths e : typed e →
  require_initialized NotInitialized auths e =
  (match admin_of e with Some _ => inr tt | None => inl (Err NotInitialized) end, e).
Proof.
  intros Ht. unfold require_initialized. rewrite (run_bind _ _ _ _ _ _ (run_admin auths e Ht)).
  by destruct (admin_of e).
Qed.

Lemma run_auth a auths e : require_auth (E := E) a auths e = (if decide (a ∈ auths) then inr tt else inl Trap, e).
Proof. unfold require_auth. by case_decide. Qed.

Lemma run_pass {B} (m : C E ()) (f : () → C E B) auths e : (when false m ≫= f) auths e = f tt auths e.
Proof. done. Qed.

Lemma run_when {x} b auths e : when (E := E) b (panic_with_error x) auths e = (if b then inl (Err x) else inr tt, e).
Proof. by destruct b. Qed.

(** *** Writing: what each step makes of the storage. *)

Definition tset (k : key) (v : value) (e : E) : E := with_temporary (t_set (sequence e) k v (temporary e)) e.
Definition tdel (k : key) (e : E) : E := with_temporary (t_remove k (temporary e)) e.
Definition text (k : key) (e : E) : E :=
  with_temporary (default (temporary e) (t_extend (sequence e) k APP_TTL_LEDGERS APP_TTL_LEDGERS (temporary e))) e.
Definition pset (k : key) (v : value) (e : E) : E := with_persistent (p_set k v (persistent e)) e.
Definition pdel (k : key) (e : E) : E := with_persistent (p_remove k (persistent e)) e.
Definition done_with (x : logged) (e : E) : E := (publish x [] (bump_instance [] e).2).2.

Lemma run_done x auths e : (_ ← bump_instance; publish x) auths e = (inr tt, done_with x e).
Proof. done. Qed.

Lemma run_extend k auths e : is_Some (tget e k) →
  temp_extend k APP_TTL_LEDGERS APP_TTL_LEDGERS auths e = (inr tt, text k e).
Proof.
  intros [[v l] Hk]. unfold temp_extend, text.
  by destruct (t_extend_live _ _ APP_TTL_LEDGERS APP_TTL_LEDGERS _ _ _ Hk) as (t' & -> & _).
Qed.

Lemma tget_tset k v k' e :
  tget (tset k v e) k' =
  if decide (k' = k) then Some (v, match tget e k with Some (_, l) => l | None => sequence e + min_ttl - 1 end)
  else tget e k'.
Proof. apply t_get_set. Qed.

Lemma tget_tdel k k' e : tget (tdel k e) k' = if decide (k' = k) then None else tget e k'.
Proof. apply t_get_remove. Qed.

(** An extension gives an entry the whole time, unless it has more. *)
Lemma tget_text k k' e : is_Some (tget e k) →
  tget (text k e) k' =
  if decide (k' = k) then (λ vl, (vl.1, Z.max vl.2 (sequence e + APP_TTL_LEDGERS))) <$> tget e k else tget e k'.
Proof.
  intros [[v l] Hk]. unfold tget, text. cbn [sequence temporary with_temporary].
  destruct (t_extend_live _ _ APP_TTL_LEDGERS APP_TTL_LEDGERS _ _ _ Hk) as (t' & -> & Ht'); [done|].
  cbn [default]. rewrite Ht'. unfold tget in Hk. rewrite Hk. case_decide; [|done]. cbn. f_equal. f_equal.
  destruct (Z.ltb_spec (l - sequence e) APP_TTL_LEDGERS); lia.
Qed.

Lemma pget_pset k v k' e : pget (pset k v e) k' = if decide (k' = k) then Some v else pget e k'.
Proof. apply p_get_set. Qed.
Lemma pget_pdel k k' e : pget (pdel k e) k' = if decide (k' = k) then None else pget e k'.
Proof. apply p_get_remove. Qed.

Lemma typed_tset k v e : typed e → good k v = true → typed (tset k v e).
Proof. intros [Ht Hp] Hg. split; [|done]. intros k' v' l. rewrite tget_tset. case_decide; [naive_solver|apply Ht]. Qed.
Lemma typed_tdel k e : typed e → typed (tdel k e).
Proof. intros [Ht Hp]. split; [|done]. intros k' v' l. rewrite tget_tdel. case_decide; [done|apply Ht]. Qed.
Lemma typed_text k e : typed e → is_Some (tget e k) → typed (text k e).
Proof.
  intros [Ht Hp] Hk. split; [|done]. intros k' v' l. rewrite tget_text by done. case_decide; [|apply Ht].
  subst. destruct (tget e k) as [[v l']|] eqn:E; [|done]. intros [= <- <-]. by apply (Ht k v l').
Qed.
Lemma typed_pset k v e : typed e → good k v = true → typed (pset k v e).
Proof. intros [Ht Hp] Hg. split; [done|]. intros k' v'. rewrite pget_pset. case_decide; [naive_solver|apply Hp]. Qed.
Lemma typed_pdel k e : typed e → typed (pdel k e).
Proof. intros [Ht Hp]. split; [done|]. intros k' v'. rewrite pget_pdel. case_decide; [done|apply Hp]. Qed.

(** *** Ranges *)

Lemma count_range e c : typed e → 0 ≤ count_of e c ≤ u32_max.
Proof.
  intros [Ht _]. unfold count_of. specialize (Ht (global_app_count_key c)).
  destruct (tget _ _) as [[v l]|]; [|done].
  by destruct (good_u32 _ _ v (or_introl eq_refl) (Ht _ _ eq_refl)) as (n & -> & Hn).
Qed.

Lemma cap_range e : typed e → 0 ≤ cap_of e ≤ u32_max.
Proof.
  intros [_ Hp]. unfold cap_of. specialize (Hp global_cap_key). destruct (pget _ _) as [v|]; [|done].
  by destruct (good_cap v (Hp _ eq_refl)) as (n & -> & Hn).
Qed.

Lemma org_count_range e c o : typed e → 0 ≤ org_count_of e c o ≤ u32_max.
Proof.
  intros [_ Hp]. unfold org_count_of. specialize (Hp (org_assignment_count_key c o)).
  destruct (pget _ _) as [v|]; [|done].
  by destruct (good_u32 _ _ v (or_intror (or_introl eq_refl)) (Hp _ eq_refl)) as (n & -> & Hn).
Qed.

Lemma org_cap_range e o : typed e → 0 ≤ org_cap_of e o ≤ u32_max.
Proof.
  intros [_ Hp]. unfold org_cap_of. specialize (Hp (org_cap_key o)). destruct (pget _ _) as [v|]; [|done].
  by destruct (good_u32 _ _ v (or_intror (or_intror eq_refl)) (Hp _ eq_refl)) as (n & -> & Hn).
Qed.

Lemma checked_ok (n : Z) auths (e : E) : 0 ≤ n ≤ u32_max → checked n auths e = (inr n, e).
Proof. intros Hn. unfold checked. rewrite (proj2 (andb_true_iff _ _)); [done|]. split; lia. Qed.

Lemma good_count c n : 0 ≤ n ≤ u32_max → good (global_app_count_key c) (VU32 n) = true.
Proof. intros Hn. cbn. unfold u32_ok. lia. Qed.

Lemma applied_entry e c o i : typed e →
  if applied_to e c o i then ∃ l, tget e (app_entry_key c o i) = Some (VBool true, l)
  else tget e (app_entry_key c o i) = None.
Proof.
  intros [Ht _]. unfold applied_to. specialize (Ht (app_entry_key c o i)).
  destruct (tget _ _) as [[v l]|]; [|done].
  rewrite (good_flag _ _ v (or_introl eq_refl) (Ht _ _ eq_refl)). cbn. by exists l.
Qed.

(** *** The calls, as tables of what they check and what they leave behind. *)

Definition applied_env (c o : string) (i : Z) (e : E) : E :=
  done_with (Published (Applied c o i))
    (text (app_entry_key c o i) (text (global_app_count_key c)
      (tset (app_entry_key c o i) (VBool true) (tset (global_app_count_key c) (VU32 (count_of e c + 1)) e)))).

Definition consumed (c o : string) (i : Z) (e : E) : E :=
  let n := saturating_sub (count_of e c) 1 in
  if n =? 0 then tdel (global_app_count_key c) (tdel (app_entry_key c o i) e)
  else tset (global_app_count_key c) (VU32 n) (tdel (app_entry_key c o i) e).

Definition withdrawn_env (c o : string) (i : Z) (e : E) : E :=
  done_with (Published (Withdrew c o i)) (consumed c o i e).

Definition assigned_env (m c o : string) (i : Z) (e : E) : E :=
  done_with (Published (Assigned c m o i))
    (pset (assignment_entry_key o i c) (VBool true)
      (pset (org_assignment_count_key c o) (VU32 (org_count_of e c o + 1)) (consumed c o i e))).

(** The end of an assignment: [complete_assignment] and [revoke_assignment]. *)
Definition freed (c o : string) (i n : Z) (e : E) : E :=
  let e1 := pdel (assignment_entry_key o i c) e in
  if n =? 0 then pdel (org_assignment_count_key c o) e1
  else pset (org_assignment_count_key c o) (VU32 n) e1.

Ltac step_auth c auths e := pose proof (run_auth c auths e) as Ha; case_decide;
  [rewrite (run_bind _ _ _ _ _ _ Ha)|by rewrite (run_fail _ _ _ _ _ _ Ha)]; clear Ha.
Ltac step_initialized auths e Ht := pose proof (run_initialized auths e Ht) as Ha; destruct (admin_of e);
  [rewrite (run_bind _ _ _ _ _ _ Ha)|by rewrite (run_fail _ _ _ _ _ _ Ha)]; clear Ha.

Lemma apply_run c o i auths e : typed e →
  apply_for_issue c o i auths e =
  match admin_of e with
  | None => (inl (Err NotInitialized), e)
  | Some _ =>
      if decide (c ∈ auths) then
        if cap_of e <=? count_of e c then (inl (Err GlobalApplicationLimitReached), e)
        else if applied_to e c o i then (inl (Err DuplicateApplication), e)
        else (inr tt, applied_env c o i e)
      else (inl Trap, e)
  end.
Proof.
  intros Ht. unfold apply_for_issue. step_initialized auths e Ht. step_auth c auths e.
  runs (run_count c auths e Ht). runs (run_cap auths e Ht).
  pose proof (count_range e c Ht). pose proof (cap_range e Ht).
  destruct (Z.leb_spec (cap_of e) (count_of e c)); [done|]. rewrite run_pass.
  runs (run_applied c o i auths e Ht). pose proof (applied_entry e c o i Ht) as Hentry.
  destruct (applied_to e c o i); [done|]. rewrite run_pass.
  runs (checked_ok (count_of e c + 1) auths e ltac:(lia)).
  set (e1 := tset (global_app_count_key c) (VU32 (count_of e c + 1)) e).
  set (e2 := tset (app_entry_key c o i) (VBool true) e1).
  runs (eq_refl : set_global_app_count c (count_of e c + 1) auths e = (inr tt, e1)).
  runs (eq_refl : set_app_entry c o i auths e1 = (inr tt, e2)).
  assert (is_Some (tget e2 (global_app_count_key c))) as Hlive1.
  { unfold e2, e1. rewrite !tget_tset. rewrite decide_False by done. by rewrite decide_True. }
  runs (run_extend (global_app_count_key c) auths e2 Hlive1).
  assert (is_Some (tget (text (global_app_count_key c) e2) (app_entry_key c o i))) as Hlive2.
  { rewrite tget_text by done. rewrite decide_False by done. unfold e2. rewrite tget_tset. by rewrite decide_True. }
  by runs (run_extend (app_entry_key c o i) auths _ Hlive2).
Qed.

Lemma consume_run c o i auths e : typed e →
  consume_application c o i auths e = (inr tt, consumed c o i e).
Proof.
  intros Ht. unfold consume_application.
  runs (eq_refl : remove_app_entry c o i auths e = (inr tt, tdel (app_entry_key c o i) e)).
  runs (run_count c auths _ (typed_tdel (app_entry_key c o i) e Ht)).
  assert (count_of (tdel (app_entry_key c o i) e) c = count_of e c) as ->.
  { unfold count_of. by rewrite tget_tdel, decide_False. }
  cbv zeta. unfold consumed. cbv zeta. by destruct (saturating_sub (count_of e c) 1 =? 0).
Qed.

Lemma typed_consumed c o i e : typed e → typed (consumed c o i e).
Proof.
  intros Ht. unfold consumed. cbv zeta. pose proof (count_range e c Ht). destruct (_ =? 0).
  - by apply typed_tdel, typed_tdel.
  - apply typed_tset; [by apply typed_tdel|]. apply good_count. unfold saturating_sub. lia.
Qed.

Lemma withdraw_run c o i auths e : typed e →
  withdraw_application c o i auths e =
  match admin_of e with
  | None => (inl (Err NotInitialized), e)
  | Some _ =>
      if decide (c ∈ auths) then
        if applied_to e c o i then (inr tt, withdrawn_env c o i e) else (inl (Err ApplicationNotFound), e)
      else (inl Trap, e)
  end.
Proof.
  intros Ht. unfold withdraw_application. step_initialized auths e Ht. step_auth c auths e.
  runs (run_applied c o i auths e Ht). destruct (applied_to e c o i); [|done]. cbn [negb]. rewrite run_pass.
  by runs (consume_run c o i auths e Ht).
Qed.

(** What every call of a maintainer begins with. *)
Definition maintainer_check (m o : string) (auths : list string) (e : E) : failure + () :=
  match admin_of e with
  | None => inl (Err NotInitialized)
  | Some _ =>
      if decide (m ∈ auths) then
        if maintains e m o then inr tt else inl (Err UnauthorizedMaintainer)
      else inl Trap
  end.

Lemma maintainer_run m o auths e : typed e →
  require_maintainer m o auths e = (maintainer_check m o auths e, e).
Proof.
  intros Ht. unfold require_maintainer, maintainer_check. step_initialized auths e Ht. step_auth m auths e.
  runs (run_maintains m o auths e Ht). by destruct (maintains e m o).
Qed.

Ltac step_maintainer m o auths e Ht :=
  pose proof (maintainer_run m o auths e Ht) as Ha; destruct (maintainer_check m o auths e) as [?|[]];
  [by rewrite (run_fail _ _ _ _ _ _ Ha)|rewrite (run_bind _ _ _ _ _ _ Ha)]; clear Ha.

Lemma consumed_persistent c o i e k : pget (consumed c o i e) k = pget e k.
Proof. unfold consumed. cbv zeta. by destruct (_ =? 0). Qed.

(** The debug assertion of [assign_issue] holds. *)
Lemma assign_run debug m c o i auths e : typed e →
  assign_issue debug m c o i auths e =
  match maintainer_check m o auths e with
  | inl x => (inl x, e)
  | inr _ =>
      if applied_to e c o i then
        if org_cap_of e o <=? org_count_of e c o then (inl (Err OrgAssignmentLimitReached), e)
        else if assigned_to e c o i then (inl (Err AlreadyAssigned), e)
        else (inr tt, assigned_env m c o i e)
      else (inl (Err ApplicationNotFound), e)
  end.
Proof.
  intros Ht. unfold assign_issue. step_maintainer m o auths e Ht.
  runs (run_applied c o i auths e Ht). destruct (applied_to e c o i); [|done]. cbn [negb]. rewrite run_pass.
  runs (run_org_count c o auths e Ht). runs (run_org_cap o auths e Ht).
  pose proof (org_count_range e c o Ht). pose proof (org_cap_range e o Ht).
  destruct (Z.leb_spec (org_cap_of e o) (org_count_of e c o)); [done|]. rewrite run_pass.
  runs (run_assigned c o i auths e Ht). destruct (assigned_to e c o i); [done|]. rewrite run_pass.
  runs (consume_run c o i auths e Ht).
  runs (checked_ok (org_count_of e c o + 1) auths (consumed c o i e) ltac:(lia)).
  set (e1 := pset (org_assignment_count_key c o) (VU32 (org_count_of e c o + 1)) (consumed c o i e)).
  set (e2 := pset (assignment_entry_key o i c) (VBool true) e1).
  runs (eq_refl : set_org_assignment_count c o (org_count_of e c o + 1) auths (consumed c o i e) = (inr tt, e1)).
  runs (eq_refl : set_assignment o i c auths e1 = (inr tt, e2)).
  assert (typed e2) as Ht2.
  { apply typed_pset; [|done]. apply typed_pset; [by apply typed_consumed|]. cbn. unfold u32_ok. lia. }
  destruct debug; [|by rewrite run_pass].
  assert (when true (written ← get_org_assignment_count c o; sentinel ← has_assignment o i c;
    when ((written =? 0) || negb sentinel) (panic_with_error CounterInconsistency)) auths e2 = (inr tt, e2)) as Hok.
  { assert (org_count_of e2 c o = org_count_of e c o + 1) as Hn.
    { unfold org_count_of at 1, e2, e1. rewrite !pget_pset. by repeat case_decide. }
    assert (assigned_to e2 c o i = true) as Hs.
    { unfold assigned_to, e2. rewrite pget_pset. by repeat case_decide. }
    cbn [when]. runs (run_org_count c o auths e2 Ht2). runs (run_assigned c o i auths e2 Ht2).
    rewrite Hn, Hs. by destruct (Z.eqb_spec (org_count_of e c o + 1) 0); [lia|]. }
  by runs Hok.
Qed.

Lemma freed_run c o i n auths e x : typed e →
  (_ ← store_assignment_count c o n; _ ← bump_instance; publish x) auths (pdel (assignment_entry_key o i c) e) =
  (inr tt, done_with x (freed c o i n e)).
Proof. intros Ht. unfold store_assignment_count, freed. by destruct (n =? 0). Qed.

Lemma org_count_pdel c o i e : org_count_of (pdel (assignment_entry_key o i c) e) c o = org_count_of e c o.
Proof. unfold org_count_of. by rewrite pget_pdel, decide_False. Qed.

(** What the end of an assignment requires. *)
Definition assignment_check (m c o : string) (i : Z) (auths : list string) (e : E) : failure + () :=
  match maintainer_check m o auths e with
  | inl x => inl x
  | inr _ => if assigned_to e c o i then inr tt else inl (Err AssignmentNotFound)
  end.

Lemma assignment_run m c o i auths e : typed e →
  require_assignment m c o i auths e = (assignment_check m c o i auths e, e).
Proof.
  intros Ht. unfold require_assignment, assignment_check. step_maintainer m o auths e Ht.
  runs (run_assigned c o i auths e Ht). by destruct (assigned_to e c o i).
Qed.

Ltac step_assignment m c o i auths e Ht :=
  pose proof (assignment_run m c o i auths e Ht) as Ha; destruct (assignment_check m c o i auths e) as [?|[]];
  [by rewrite (run_fail _ _ _ _ _ _ Ha)|rewrite (run_bind _ _ _ _ _ _ Ha)]; clear Ha.

Lemma complete_run debug m c o i auths e : typed e →
  complete_assignment debug m c o i auths e =
  match assignment_check m c o i auths e with
  | inl x => (inl x, e)
  | inr _ =>
      if debug && (org_count_of e c o =? 0) then (inl (Err CounterInconsistency), e)
      else (inr tt, done_with (Published (Completed c m o i)) (freed c o i (saturating_sub (org_count_of e c o) 1) e))
  end.
Proof.
  intros Ht. unfold complete_assignment. step_assignment m c o i auths e Ht.
  assert (when debug (counter ← get_org_assignment_count c o;
      when (counter =? 0) (panic_with_error CounterInconsistency)) auths e =
    (if debug && (org_count_of e c o =? 0) then inl (Err CounterInconsistency) else inr tt, e)) as Hd.
  { destruct debug; [|done]. cbn [when andb]. runs (run_org_count c o auths e Ht). by destruct (_ =? 0). }
  destruct (debug && _); [by rewrite (run_fail _ _ _ _ _ _ Hd)|rewrite (run_bind _ _ _ _ _ _ Hd)].
  runs (eq_refl : remove_assignment o i c auths e = (inr tt, pdel (assignment_entry_key o i c) e)).
  runs (run_org_count c o auths _ (typed_pdel (assignment_entry_key o i c) e Ht)). rewrite org_count_pdel.
  by apply freed_run.
Qed.

Lemma revoke_run m c o i auths e : typed e →
  revoke_assignment m c o i auths e =
  match assignment_check m c o i auths e with
  | inl x => (inl x, e)
  | inr _ =>
      if org_count_of e c o =? 0 then (inl (Err CounterInconsistency), pdel (assignment_entry_key o i c) e)
      else (inr tt, done_with (Published (Revoked c m o i)) (freed c o i (org_count_of e c o - 1) e))
  end.
Proof.
  intros Ht. unfold revoke_assignment. step_assignment m c o i auths e Ht.
  pose proof (org_count_range e c o Ht) as Hrange.
  runs (eq_refl : remove_assignment o i c auths e = (inr tt, pdel (assignment_entry_key o i c) e)).
  runs (run_org_count c o auths _ (typed_pdel (assignment_entry_key o i c) e Ht)). rewrite org_count_pdel.
  destruct (Z.eqb_spec (org_count_of e c o) 0) as [Hz|Hz]; [by rewrite Hz|]. rewrite run_pass.
  runs (checked_ok (org_count_of e c o - 1) auths (pdel (assignment_entry_key o i c) e) ltac:(lia)).
  by apply freed_run.
Qed.

(** *** The calls of the administrator, and those of anybody. *)

Definition admin_check (auths : list string) (e : E) : failure + () :=
  match admin_of e with
  | None => inl (Err NotInitialized)
  | Some a => if decide (a ∈ auths) then inr tt else inl Trap
  end.

Lemma admin_run auths e : typed e → require_admin auths e = (admin_check auths e, e).
Proof.
  intros Ht. unfold require_admin, admin_check. pose proof (run_initialized auths e Ht) as Hi.
  destruct (admin_of e) as [a|] eqn:Ea; [rewrite (run_bind _ _ _ _ _ _ Hi)|by rewrite (run_fail _ _ _ _ _ _ Hi)].
  runs (run_admin auths e Ht). rewrite Ea. apply run_auth.
Qed.

Ltac step_admin auths e Ht :=
  pose proof (admin_run auths e Ht) as Ha; destruct (admin_check auths e) as [?|[]];
  [by rewrite (run_fail _ _ _ _ _ _ Ha)|rewrite (run_bind _ _ _ _ _ _ Ha)]; clear Ha.

Lemma initialize_run a auths e : typed e →
  initialize a auths e =
  match admin_of e with
  | Some _ => (inl (Err AlreadyInitialized), e)
  | None =>
      if decide (a ∈ auths) then
        (inr tt, done_with (Published (Init a))
                   (pset global_cap_key (VU32 GLOBAL_APP_LIMIT) (pset admin_key (VAddress a) e)))
      else (inl Trap, e)
  end.
Proof.
  intros Ht. unfold initialize. runs (run_admin auths e Ht). destruct (admin_of e); [done|]. by step_auth a auths e.
Qed.

Lemma register_run a m o auths e : typed e →
  register_maintainer a m o auths e =
  match admin_check auths e with
  | inl x => (inl x, e)
  | inr _ => (inr tt, done_with (Published (MaintReg m o)) (pset (maintainer_key m o) (VBool true) e))
  end.
Proof. intros Ht. unfold register_maintainer. by step_admin auths e Ht. Qed.

Lemma deregister_run a m o auths e : typed e →
  deregister_maintainer a m o auths e =
  match admin_check auths e with
  | inl x => (inl x, e)
  | inr _ =>
      if maintains e m o
      then (inr tt, done_with (Published (MaintDrg a m o)) (pdel (maintainer_key m o) e))
      else (inl (Err MaintainerNotFound), e)
  end.
Proof.
  intros Ht. unfold deregister_maintainer. step_admin auths e Ht. runs (run_maintains m o auths e Ht).
  by destruct (maintains e m o).
Qed.

Lemma set_cap_run a n auths e : typed e →
  contract_set_global_cap a n auths e =
  match admin_check auths e with
  | inl x => (inl x, e)
  | inr _ =>
      if 100 <? n then (inl (Err CapOutOfRange), e)
      else (inr tt, done_with (Published (CapUpd a n)) (pset global_cap_key (VU32 n) e))
  end.
Proof. intros Ht. unfold contract_set_global_cap. step_admin auths e Ht. by destruct (100 <? n). Qed.

Lemma emergency_run a n auths e : typed e →
  emergency_set_global_cap a n auths e =
  match admin_check auths e with
  | inl x => (inl x, e)
  | inr _ =>
      if 100 <? n then (inl (Err CapOutOfRange), e)
      else (inr tt, done_with (Published (EmrgCap a (cap_of e) n)) (pset global_cap_key (VU32 n) e))
  end.
Proof.
  intros Ht. unfold emergency_set_global_cap. step_admin auths e Ht. destruct (100 <? n); [done|]. rewrite run_pass.
  by runs (run_cap auths e Ht).
Qed.

Lemma set_org_cap_run upd lo hi m o n auths e : typed e →
  contract_set_org_cap upd lo hi m o n auths e =
  match maintainer_check m o auths e with
  | inl x => (inl x, e)
  | inr _ =>
      if (n <? lo) || (hi <? n) then (inl (Err InvalidOrgCap), e)
      else (inr tt, done_with (upd o (org_cap_of e o) n) (pset (org_cap_key o) (VU32 n) e))
  end.
Proof.
  intros Ht. unfold contract_set_org_cap. step_maintainer m o auths e Ht. destruct (_ || _); [done|].
  rewrite run_pass. by runs (run_org_cap o auths e Ht).
Qed.

Lemma typed_count c e : typed e → 0 < count_of e c → is_Some (tget e (global_app_count_key c)).
Proof. intros _. unfold count_of. by destruct (tget _ _). Qed.

Definition extended_env (c o : string) (i : Z) (e : E) : E :=
  let e1 := text (app_entry_key c o i) e in if 0 <? count_of e c then text (global_app_count_key c) e1 else e1.

Lemma extend_ttl_run c o i auths e : typed e →
  extend_application_ttl c o i auths e =
  (if applied_to e c o i then (inr tt, extended_env c o i e) else (inl (Err ApplicationNotFound), e)).
Proof.
  intros Ht. unfold extend_application_ttl. runs (run_applied c o i auths e Ht).
  pose proof (applied_entry e c o i Ht) as Hentry. destruct (applied_to e c o i); [|done]. cbn [negb].
  destruct Hentry as [l Hl]. rewrite run_pass. assert (is_Some (tget e (app_entry_key c o i))) as Hsome by by rewrite Hl.
  runs (run_extend (app_entry_key c o i) auths e Hsome).
  runs (run_count c auths _ (typed_text (app_entry_key c o i) e Ht Hsome)).
  assert (count_of (text (app_entry_key c o i) e) c = count_of e c) as ->.
  { unfold count_of. by rewrite tget_text, decide_False by done. }
  unfold extended_env. cbv zeta. destruct (Z.ltb_spec 0 (count_of e c)); [|done]. cbn [when].
  apply run_extend. rewrite tget_text, decide_False by done. by apply typed_count.
Qed.

(** ** What is kept: the counters count. *)

Record coherent (e : E) : Prop := {
  co_typed : typed e;
  (** the counter of a contributor lives at least as long as each application *)
  co_alive c o i v l : tget e (app_entry_key c o i) = Some (v, l) →
    ∃ n L, tget e (global_app_count_key c) = Some (VU32 n, L) ∧ l ≤ L;
  co_apps c l : NoDup l → Forall (λ x : string * Z, applied_to e c x.1 x.2 = true) l →
    Z.of_nat (length l) ≤ count_of e c;
  co_asgs c o : ∃ l, NoDup l ∧ (∀ i, i ∈ l ↔ assigned_to e c o i = true) ∧
    Z.of_nat (length l) = org_count_of e c o;
}.

Lemma filter_other {A} `{EqDecision A} (a : A) (l : list A) : NoDup l →
  length l = ((if decide (a ∈ l) then 1 else 0) + length (filter (λ x, x ≠ a) l))%nat.
Proof.
  induction l as [|b l IH]; [done|]. intros [Hb Hl]%NoDup_cons. rewrite filter_cons. specialize (IH Hl). cbn [length].
  destruct (decide (b = a)) as [->|Hne].
  - rewrite (decide_False (P := a ≠ a)) by auto. rewrite (decide_False (P := a ∈ l)) in IH by done.
    rewrite decide_True by set_solver. lia.
  - rewrite (decide_True (P := b ≠ a)) by done. cbn [length]. rewrite IH. repeat case_decide; try lia; set_solver.
Qed.

(** What a change of the persistent storage that leaves the assignments alone keeps. *)
Lemma coherent_persistent e e' :
  coherent e → typed e' → (∀ k, tget e' k = tget e k) →
  (∀ c o i, pget e' (assignment_entry_key o i c) = pget e (assignment_entry_key o i c)) →
  (∀ c o, pget e' (org_assignment_count_key c o) = pget e (org_assignment_count_key c o)) →
  coherent e'.
Proof.
  intros [_ Halive Happs Hasgs] Ht' Ht Ha Hn. split; [done|..].
  - intros c o i v l. rewrite !Ht. apply Halive.
  - intros c l. unfold count_of. rewrite Ht. intros Hnd Hall. apply Happs; [done|]. eapply Forall_impl; [exact Hall|].
    intros x. unfold applied_to. by rewrite Ht.
  - intros c o. destruct (Hasgs c o) as (l & Hl & Hin & Hlen). exists l. unfold assigned_to, org_count_of.
    rewrite Hn. split; [done|]. split; [|done]. intros i. rewrite Ha. apply Hin.
Qed.

(** One change of the temporary storage: of an application and its contributor's counter. *)
Definition touches (c o : string) (i : Z) (a n : option (value * Z)) (e e' : E) : Prop :=
  ∀ k, tget e' k = if decide (k = app_entry_key c o i) then a
                   else if decide (k = global_app_count_key c) then n else tget e k.

Lemma touches_applied c o i a n e e' c' o' i' : touches c o i a n e e' →
  applied_to e' c' o' i' =
  if decide (c' = c ∧ o' = o ∧ i' = i) then flag (fst <$> a) else applied_to e c' o' i'.
Proof.
  intros Ht. unfold applied_to. rewrite Ht.
  rewrite (decide_False (P := app_entry_key c' o' i' = global_app_count_key c)) by done.
  destruct (decide (c' = c ∧ o' = o ∧ i' = i)) as [(-> & -> & ->)|Hne]; [by rewrite decide_True|].
  rewrite decide_False; [done|]. intros [= -> -> ->]. by apply Hne.
Qed.

Lemma touches_count c o i a n e e' c' : touches c o i a n e e' →
  count_of e' c' = if decide (c' = c) then u32_or 0 (fst <$> n) else count_of e c'.
Proof.
  intros Ht. unfold count_of. rewrite Ht.
  rewrite (decide_False (P := global_app_count_key c' = app_entry_key c o i)) by done.
  destruct (decide (c' = c)) as [->|Hne]; [by rewrite decide_True|].
  rewrite decide_False; [done|]. by intros [= ->].
Qed.

Lemma coherent_touches c o i a n e e' :
  coherent e → typed e' → touches c o i a n e e' → (∀ k, pget e' k = pget e k) →
  (∀ o' i' v l, tget e' (app_entry_key c o' i') = Some (v, l) → ∃ m L, n = Some (VU32 m, L) ∧ l ≤ L) →
  (∀ l, NoDup l → Forall (λ x : string * Z, applied_to e' c x.1 x.2 = true) l →
    Z.of_nat (length l) ≤ u32_or 0 (fst <$> n)) →
  coherent e'.
Proof.
  intros [_ Halive Happs Hasgs] Ht' Ht Hp Hn Hl. split; [done|..].
  - intros c' o' i' v l Hk. destruct (decide (c' = c)) as [->|Hne].
    + rewrite (Ht (global_app_count_key c)). rewrite decide_False, decide_True by done. by apply (Hn o' i' v l).
    + rewrite Ht in Hk. rewrite Ht. rewrite !decide_False in Hk by naive_solver.
      rewrite !decide_False by naive_solver. by apply (Halive c' o' i' v l).
  - intros c' l Hnd Hall. rewrite (touches_count _ _ _ _ _ _ _ c' Ht). case_decide as Hc.
    + subst. by apply Hl.
    + apply Happs; [done|]. eapply Forall_impl; [exact Hall|]. intros [o' i']. cbn [fst snd].
      rewrite (touches_applied _ _ _ _ _ _ _ c' o' i' Ht). by rewrite decide_False by tauto.
  - intros c' o'. destruct (Hasgs c' o') as (l & Hnd & Hin & Hlen). exists l. unfold assigned_to, org_count_of.
    rewrite Hp. split; [done|]. split; [|done]. intros i'. rewrite Hp. apply Hin.
Qed.

(** *** Applying *)

Lemma applied_lookup c o i e : typed e → applied_to e c o i = false →
  ∃ L, sequence e + APP_TTL_LEDGERS ≤ L ∧
    (∀ v l, tget e (global_app_count_key c) = Some (v, l) → l ≤ L) ∧
    touches c o i (Some (VBool true, sequence e + APP_TTL_LEDGERS)) (Some (VU32 (count_of e c + 1), L))
      e (applied_env c o i e).
Proof.
  intros Ht Happ. pose proof (applied_entry e c o i Ht) as Hnone. rewrite Happ in Hnone.
  pose proof min_ttl_range as Hmin.
  set (g := global_app_count_key c). set (a := app_entry_key c o i).
  set (n := VU32 (count_of e c + 1)). set (L0 := match tget e g with Some (_, l) => l | None => sequence e + min_ttl - 1 end).
  assert (a ≠ g) as Hapart by done.
  exists (Z.max L0 (sequence e + APP_TTL_LEDGERS)). split; [lia|]. split.
  { intros v l Hg. unfold L0. rewrite Hg. lia. }
  intros k. change (tget (applied_env c o i e) k) with (tget (text a (text g (tset a (VBool true) (tset g n e)))) k).
  assert (∀ k, tget (tset a (VBool true) (tset g n e)) k =
    if decide (k = a) then Some (VBool true, sequence e + min_ttl - 1) else
    if decide (k = g) then Some (n, L0) else tget e k) as Hset.
  { intros k'. rewrite !tget_tset. rewrite (decide_False (P := a = g)) by done. fold a in Hnone. by rewrite Hnone. }
  assert (is_Some (tget (tset a (VBool true) (tset g n e)) g)) as Hs1.
  { rewrite Hset, decide_False, decide_True by done. done. }
  assert (∀ k, tget (text g (tset a (VBool true) (tset g n e))) k =
    if decide (k = a) then Some (VBool true, sequence e + min_ttl - 1) else
    if decide (k = g) then Some (n, Z.max L0 (sequence e + APP_TTL_LEDGERS)) else tget e k) as Hext.
  { intros k'. rewrite tget_text, !Hset by done. rewrite (decide_False (P := g = a)), (decide_True (P := g = g)) by done.
    cbn [fmap option_fmap option_map fst snd]. repeat case_decide; try done; congruence. }
  rewrite tget_text by by rewrite Hext, decide_True. rewrite !Hext. rewrite (decide_True (P := a = a)) by done.
  cbn [fmap option_fmap option_map fst snd]. change (sequence (text g _)) with (sequence e).
  fold a g. case_decide; [|done]. do 2 f_equal. lia.
Qed.

Lemma typed_touches c o i a n e e' : typed e → touches c o i a n e e' → (∀ k, pget e' k = pget e k) →
  (∀ v l, a = Some (v, l) → v = VBool true) →
  (∀ v l, n = Some (v, l) → good (global_app_count_key c) v = true) → typed e'.
Proof.
  intros [Ht Hp] Hto Hpe Ha Hn. split.
  - intros k v l. rewrite Hto. repeat case_decide; subst; [|by apply Hn|apply Ht].
    intros Hv. by rewrite (Ha _ _ Hv).
  - intros k v. rewrite Hpe. apply Hp.
Qed.

Lemma coherent_applied c o i e : coherent e → applied_to e c o i = false → count_of e c < u32_max →
  coherent (applied_env c o i e).
Proof.
  intros Hco Happ Hmax. pose proof (co_typed e Hco) as Ht.
  destruct (applied_lookup c o i e Ht Happ) as (L & HL & HgL & Hto).
  pose proof (count_range e c Ht) as Hrange.
  eapply coherent_touches; [exact Hco| |exact Hto|done|..].
  - eapply typed_touches; [exact Ht|exact Hto|done|by intros ? ? [= <- _]|].
    intros v l [= <- _]. apply good_count. lia.
  - intros o' i' v l Hk. exists (count_of e c + 1), L. split; [done|]. rewrite Hto in Hk.
    case_decide; [by injection Hk; intros; lia|]. rewrite decide_False in Hk by done.
    destruct (co_alive e Hco _ _ _ _ _ Hk) as (m & L' & Hg & Hle). specialize (HgL _ _ Hg). lia.
  - intros l Hnd Hall. cbn. rewrite (filter_other (o, i) l Hnd).
    pose proof (co_apps e Hco c (filter (λ x, x ≠ (o, i)) l) (NoDup_filter _ _ Hnd)) as Hle.
    ospecialize (Hle _); [|case_decide; lia].
    rewrite Forall_forall in Hall |- *. intros [o' i'] [Hne Hin]%list_elem_of_filter.
    specialize (Hall _ Hin). cbn [fst snd] in *. rewrite (touches_applied _ _ _ _ _ _ _ c o' i' Hto) in Hall.
    by rewrite decide_False in Hall by naive_solver.
Qed.

(** *** Withdrawing and being assigned: an application less. *)

Lemma consumed_lookup c o i e : coherent e → applied_to e c o i = true →
  ∃ L, (∀ o' i' v l, tget e (app_entry_key c o' i') = Some (v, l) → l ≤ L) ∧ 1 ≤ count_of e c ∧
    touches c o i None (if count_of e c - 1 =? 0 then None else Some (VU32 (count_of e c - 1), L)) e (consumed c o i e).
Proof.
  intros Hco Happ. pose proof (co_typed e Hco) as Ht. pose proof (applied_entry e c o i Ht) as Hentry.
  rewrite Happ in Hentry. destruct Hentry as [l Hl].
  destruct (co_alive e Hco _ _ _ _ _ Hl) as (n & L & Hg & HlL). exists L.
  assert (1 ≤ count_of e c) as Hpos.
  { apply (co_apps e Hco c [(o, i)]); [apply NoDup_singleton|]. by constructor. }
  split; [|split; [done|]].
  - intros o' i' v l' Hk. destruct (co_alive e Hco _ _ _ _ _ Hk) as (n' & L' & Hg' & Hle). congruence.
  - intros k. unfold consumed, saturating_sub. cbv zeta. rewrite Z.max_r by lia.
    destruct (count_of e c - 1 =? 0).
    + rewrite !tget_tdel. repeat case_decide; congruence.
    + rewrite tget_tset, !tget_tdel. rewrite (decide_False (P := global_app_count_key c = app_entry_key c o i)) by done.
      rewrite Hg. repeat case_decide; congruence.
Qed.

Lemma coherent_consumed c o i e : coherent e → applied_to e c o i = true → coherent (consumed c o i e).
Proof.
  intros Hco Happ. pose proof (co_typed e Hco) as Ht. pose proof (count_range e c Ht) as Hrange.
  destruct (consumed_lookup c o i e Hco Happ) as (L & HL & Hpos & Hto).
  assert (∀ l, NoDup l → Forall (λ x : string * Z, applied_to (consumed c o i e) c x.1 x.2 = true) l →
    Z.of_nat (length l) ≤ count_of e c - 1) as Hcount.
  { intros l Hnd Hall. assert (Z.of_nat (length ((o, i) :: l)) ≤ count_of e c) as Hle; [|cbn [length] in Hle; lia].
    rewrite Forall_forall in Hall. apply (co_apps e Hco).
    - apply NoDup_cons. split; [|done]. intros Hin. specialize (Hall _ Hin). cbn [fst snd] in Hall.
      rewrite (touches_applied _ _ _ _ _ _ _ c o i Hto) in Hall. by rewrite decide_True in Hall.
    - constructor; [done|]. rewrite Forall_forall. intros [o' i'] Hin. specialize (Hall _ Hin). cbn [fst snd] in Hall.
      rewrite (touches_applied _ _ _ _ _ _ _ _ _ _ Hto) in Hall. by case_decide. }
  eapply coherent_touches; [exact Hco|by apply typed_consumed|exact Hto|intros k; apply consumed_persistent|..].
  - intros o' i' v l Hk.
    assert (applied_to (consumed c o i e) c o' i' = true) as Happ'.
    { pose proof (applied_entry _ c o' i' (typed_consumed c o i e Ht)) as Hb. destruct (applied_to _ c o' i'); [done|congruence]. }
    specialize (Hcount [(o', i')] (NoDup_singleton _) (proj2 (Forall_singleton _ (o', i')) Happ')).
    cbn [length] in Hcount. destruct (Z.eqb_spec (count_of e c - 1) 0); [lia|].
    eexists _, L. split; [done|]. rewrite Hto in Hk. case_decide; [done|]. rewrite decide_False in Hk by done. by apply (HL o' i' v).
  - intros l Hnd Hall. specialize (Hcount l Hnd Hall). destruct (Z.eqb_spec (count_of e c - 1) 0); cbn; lia.
Qed.

(** *** Assignments begin and end. *)

(** A list with one element put in or taken out. *)
Lemma relist (i : Z) (b : bool) (l : list Z) : NoDup l → ∃ l', NoDup l' ∧
  (∀ j, j ∈ l' ↔ if decide (j = i) then b = true else j ∈ l) ∧
  Z.of_nat (length l') =
    Z.of_nat (length l) + (if b then 1 else 0) - (if bool_decide (i ∈ l) then 1 else 0).
Proof.
  intros Hnd. assert (∀ j, j ∈ filter (λ j, j ≠ i) l ↔ j ≠ i ∧ j ∈ l) as Hin by (intros j; by rewrite list_elem_of_filter).
  pose proof (NoDup_filter (λ j, j ≠ i) l Hnd) as Hnd'. rewrite (filter_other i l Hnd).
  exists (if b then i :: filter (λ j, j ≠ i) l else filter (λ j, j ≠ i) l). split; [|split].
  - destruct b; [|done]. apply NoDup_cons. split; [|done]. rewrite Hin. tauto.
  - intros j. destruct b; rewrite ?elem_of_cons, Hin; case_decide; naive_solver.
  - destruct (decide (i ∈ l)) as [Hi|Hi]; [rewrite bool_decide_true by done|rewrite bool_decide_false by done];
      destruct b; cbn [length]; lia.
Qed.

(** A change of one assignment and of its counter. *)
Lemma coherent_assignment c o i b n e e' :
  coherent e → typed e' → (∀ k, tget e' k = tget e k) →
  (∀ k, pget e' k = if decide (k = assignment_entry_key o i c) then b
                    else if decide (k = org_assignment_count_key c o) then n else pget e k) →
  u32_or 0 n = org_count_of e c o + (if flag b then 1 else 0) - (if assigned_to e c o i then 1 else 0) →
  coherent e'.
Proof.
  intros Hco Ht' Ht Hp Hn. split; [done|..].
  - intros c' o' i' v l. rewrite !Ht. apply (co_alive e Hco).
  - intros c' l Hnd Hall. unfold count_of. rewrite Ht. apply (co_apps e Hco); [done|].
    eapply Forall_impl; [exact Hall|]. intros x. unfold applied_to. by rewrite Ht.
  - intros c' o'. destruct (co_asgs e Hco c' o') as (l & Hnd & Hin & Hlen).
    assert (∀ j, assigned_to e' c' o' j =
      if decide (c' = c ∧ o' = o ∧ j = i) then flag b else assigned_to e c' o' j) as Hasg.
    { intros j. unfold assigned_to. rewrite Hp. rewrite (decide_False (P := _ = org_assignment_count_key c o)) by done.
      do 2 case_decide; naive_solver. }
    unfold org_count_of. rewrite Hp. rewrite (decide_False (P := _ = assignment_entry_key o i c)) by done.
    destruct (decide (c' = c ∧ o' = o)) as [[-> ->]|Hne].
    + rewrite decide_True by done. rewrite Hn, <- Hlen.
      assert (assigned_to e c o i = bool_decide (i ∈ l)) as ->.
      { apply eq_true_iff_eq. rewrite <- Hin. by rewrite bool_decide_eq_true. }
      destruct (relist i (flag b) l Hnd) as (l' & Hnd' & Hin' & Hlen'). exists l'. split; [done|]. split; [|lia].
      intros j. rewrite Hin', Hasg. destruct (decide (j = i)) as [->|Hne]; [by rewrite decide_True|].
      rewrite (decide_False (P := _ ∧ _)) by tauto. apply Hin.
    + rewrite decide_False by naive_solver. exists l. split; [done|]. split; [|done]. intros j. rewrite Hasg, decide_False by tauto.
      apply Hin.
Qed.

Lemma coherent_assigned m c o i e : coherent e → applied_to e c o i = true → assigned_to e c o i = false →
  org_count_of e c o < u32_max → coherent (assigned_env m c o i e).
Proof.
  intros Hco Happ Hasg Hmax. pose proof (coherent_consumed c o i e Hco Happ) as Hco'.
  pose proof (org_count_range e c o (co_typed e Hco)).
  assert (org_count_of (consumed c o i e) c o = org_count_of e c o) as Hn.
  { unfold org_count_of. by rewrite consumed_persistent. }
  assert (assigned_to (consumed c o i e) c o i = false) as Ha.
  { unfold assigned_to. by rewrite consumed_persistent. }
  apply (coherent_assignment c o i (Some (VBool true)) (Some (VU32 (org_count_of e c o + 1))) (consumed c o i e)); [done|..].
  - apply typed_pset; [apply typed_pset; [apply Hco'|]|done]. cbn. unfold u32_ok. lia.
  - done.
  - intros k. unfold assigned_env. change (pget (done_with ?x ?e) k) with (pget e k). by rewrite !pget_pset.
  - rewrite Hn, Ha. cbn. lia.
Qed.

Lemma coherent_freed c o i x e : coherent e → assigned_to e c o i = true →
  1 ≤ org_count_of e c o ∧ coherent (done_with x (freed c o i (org_count_of e c o - 1) e)).
Proof.
  intros Hco Hasg. pose proof (org_count_range e c o (co_typed e Hco)) as Hrange.
  assert (1 ≤ org_count_of e c o) as Hpos.
  { destruct (co_asgs e Hco c o) as (l & Hnd & Hin & Hlen). apply Hin in Hasg. destruct l; [set_solver|]. cbn in Hlen. lia. }
  split; [done|]. set (n := org_count_of e c o - 1).
  apply (coherent_assignment c o i None (if n =? 0 then None else Some (VU32 n)) e); [done|..].
  - unfold freed. cbv zeta. fold n. destruct (n =? 0); [apply typed_pdel, typed_pdel, Hco|].
    apply typed_pset; [apply typed_pdel, Hco|]. cbn. unfold u32_ok. lia.
  - intros k. unfold freed. cbv zeta. by destruct (n =? 0).
  - intros k. change (pget (done_with ?x ?e) k) with (pget e k). unfold freed. cbv zeta.
    destruct (n =? 0); rewrite ?pget_pset, !pget_pdel; by repeat case_decide; simplify_eq.
  - rewrite Hasg. cbn. destruct (Z.eqb_spec n 0); cbn; lia.
Qed.

(** *** Time *)

(** Lifetimes that only grow, the counter's as far as those of the applications. *)
Lemma extended_lookup c o i e : coherent e → applied_to e c o i = true →
  let N := sequence e + APP_TTL_LEDGERS in
  ∃ l L, tget e (app_entry_key c o i) = Some (VBool true, l) ∧
    tget e (global_app_count_key c) = Some (VU32 (count_of e c), L) ∧ l ≤ L ∧
    touches c o i (Some (VBool true, Z.max l N)) (Some (VU32 (count_of e c), Z.max L N)) e (extended_env c o i e).
Proof.
  intros Hco Happ N. pose proof (co_typed e Hco) as Ht. pose proof (applied_entry e c o i Ht) as Hentry.
  rewrite Happ in Hentry. destruct Hentry as [l Hl].
  destruct (co_alive e Hco _ _ _ _ _ Hl) as (n & L & Hg & HlL).
  assert (count_of e c = n) as Hn by (unfold count_of; by rewrite Hg).
  assert (1 ≤ count_of e c) as Hpos.
  { apply (co_apps e Hco c [(o, i)]); [apply NoDup_singleton|]. by constructor. }
  exists l, L. rewrite Hn. do 3 (split; [done|]).
  intros k. unfold extended_env. cbv zeta. rewrite (proj2 (Z.ltb_lt 0 (count_of e c))) by lia.
  assert (is_Some (tget e (app_entry_key c o i))) as Hs by by rewrite Hl.
  rewrite tget_text; [|rewrite tget_text, decide_False by done; by rewrite Hg].
  rewrite !tget_text by done. rewrite (decide_False (P := global_app_count_key c = _)) by done. rewrite Hl, Hg.
  change (sequence (text (app_entry_key c o i) e)) with (sequence e). cbn [fmap option_fmap option_map fst snd].
  fold N. by repeat case_decide; simplify_eq.
Qed.

Lemma coherent_extended c o i e : coherent e → applied_to e c o i = true → coherent (extended_env c o i e).
Proof.
  intros Hco Happ. pose proof (co_typed e Hco) as Ht.
  destruct (extended_lookup c o i e Hco Happ) as (l & L & Hl & Hg & HlL & Hto).
  assert (∀ k, pget (extended_env c o i e) k = pget e k) as Hp by (intros k; unfold extended_env; by destruct (0 <? _)).
  eapply coherent_touches; [exact Hco| |exact Hto|exact Hp|..].
  - eapply typed_touches; [exact Ht|exact Hto|exact Hp|by intros ? ? [= <- _]|].
    intros v l' [= <- _]. by apply good_count, count_range.
  - intros o' i' v l' Hk. eexists _, _. split; [done|]. rewrite Hto in Hk.
    case_decide; [by injection Hk; intros; lia|]. rewrite decide_False in Hk by done.
    destruct (co_alive e Hco _ _ _ _ _ Hk) as (n' & L' & Hg' & Hle). rewrite Hg in Hg'. injection Hg'. intros. lia.
  - intros l' Hnd Hall. cbn. apply (co_apps e Hco); [done|].
    eapply Forall_impl; [exact Hall|]. intros [o' i']. cbn [fst snd].
    rewrite (touches_applied _ _ _ _ _ _ _ _ _ _ Hto). case_decide as Heq; [|done]. by destruct Heq as (_ & -> & ->).
Qed.

Lemma tget_pass n k (e : E) :
  tget (pass n e) k =
  match tget e k with Some (v, l) => if sequence e + Z.of_nat n <=? l then Some (v, l) else None | None => None end.
Proof. apply (t_get_later (sequence e)). lia. Qed.

Lemma coherent_pass n e : coherent e → coherent (pass n e).
Proof.
  intros [[Ht Hp] Halive Happs Hasgs].
  assert (∀ k v l, tget (pass n e) k = Some (v, l) → tget e k = Some (v, l) ∧ sequence e + Z.of_nat n ≤ l) as Hsub.
  { intros k v l. rewrite tget_pass. destruct (tget e k) as [[v' l']|]; [|done].
    destruct (Z.leb_spec (sequence e + Z.of_nat n) l'); [|done]. by intros [= <- <-]. }
  assert (∀ c o i v l, tget (pass n e) (app_entry_key c o i) = Some (v, l) →
    ∃ m L, tget (pass n e) (global_app_count_key c) = Some (VU32 m, L) ∧ l ≤ L ∧ count_of e c = m) as Hlive.
  { intros c o i v l [Hk Hl]%Hsub. destruct (Halive _ _ _ _ _ Hk) as (m & L & Hg & HL). exists m, L.
    rewrite tget_pass, Hg. rewrite (proj2 (Z.leb_le _ L)) by lia. unfold count_of. by rewrite Hg. }
  split.
  - split; [|exact Hp]. intros k v l [Hk _]%Hsub. by apply (Ht k v l).
  - intros c o i v l Hk. destruct (Hlive _ _ _ _ _ Hk) as (m & L & Hg & HL & _). by exists m, L.
  - intros c [|[o i] l] Hnd Hall.
    { unfold count_of. cbn. destruct (tget _ _) as [[v l]|] eqn:Hk; [|done]. cbn.
      destruct (Hsub _ _ _ Hk) as [Hk' _]. by destruct (good_u32 _ _ v (or_introl eq_refl) (Ht _ _ _ Hk')) as (m & -> & Hm & _). }
    assert (Z.of_nat (length ((o, i) :: l)) ≤ count_of e c) as Hle.
    { apply Happs; [done|]. eapply Forall_impl; [exact Hall|]. intros x. unfold applied_to.
      destruct (tget (pass n e) _) as [[v l']|] eqn:Hk; [|done]. by destruct (Hsub _ _ _ Hk) as [-> _]. }
    apply Forall_cons in Hall as [Hoi _]. unfold applied_to in Hoi. cbn [fst snd] in Hoi.
    destruct (tget (pass n e) (app_entry_key c o i)) as [[v l']|] eqn:Hk; [|done].
    destruct (Hlive _ _ _ _ _ Hk) as (m & L & Hg & _ & Hm). 
    assert (count_of (pass n e) c = m) as -> by (unfold count_of; by rewrite Hg). lia.
  - exact Hasgs.
Qed.

(** *** Every history *)

Section history.
Variable debug : bool.
Variable org_cap_updated : string → Z → Z → logged.
Variables ORG_CAP_MIN ORG_CAP_MAX : Z.
#[local] Abbreviation invoke := (invoke debug org_cap_updated ORG_CAP_MIN ORG_CAP_MAX).
#[local] Abbreviation transact := (transact debug org_cap_updated ORG_CAP_MIN ORG_CAP_MAX).
#[local] Abbreviation step := (step debug org_cap_updated ORG_CAP_MIN ORG_CAP_MAX).
#[local] Abbreviation history := (history debug org_cap_updated ORG_CAP_MIN ORG_CAP_MAX).

(** Arguments that are not numbers of 32 bits do not reach the contract. *)
Lemma run_checked n auths (e : E) (m : Z → C E ()) :
  (n ← checked n; m n) auths e = if u32_ok n then m n auths e else (inl Trap, e).
Proof. unfold checked. unfold mbind, C_bind, u32_ok. by destruct (_ && _). Qed.

(** What a call that returns leaves behind. *)
Definition granted (f : failure + ()) : bool := match f with inr _ => true | inl _ => false end.
Definition cap_ok (n : Z) : bool := u32_ok n && negb (100 <? n).
Definition effect (cl : call) (auths : list string) (e : E) : option E :=
  match cl with
  | Initialize a =>
      if bool_decide (admin_of e = None) && bool_decide (a ∈ auths)
      then Some (done_with (Published (Init a))
                   (pset global_cap_key (VU32 GLOBAL_APP_LIMIT) (pset admin_key (VAddress a) e)))
      else None
  | RegisterMaintainer a m o =>
      if granted (admin_check auths e)
      then Some (done_with (Published (MaintReg m o)) (pset (maintainer_key m o) (VBool true) e)) else None
  | DeregisterMaintainer a m o =>
      if granted (admin_check auths e) && maintains e m o
      then Some (done_with (Published (MaintDrg a m o)) (pdel (maintainer_key m o) e)) else None
  | SetGlobalCap a n =>
      if cap_ok n && granted (admin_check auths e)
      then Some (done_with (Published (CapUpd a n)) (pset global_cap_key (VU32 n) e)) else None
  | EmergencySetGlobalCap a n =>
      if cap_ok n && granted (admin_check auths e)
      then Some (done_with (Published (EmrgCap a (cap_of e) n)) (pset global_cap_key (VU32 n) e)) else None
  | ApplyForIssue c o i =>
      if bool_decide (is_Some (admin_of e)) && bool_decide (c ∈ auths) &&
         negb (cap_of e <=? count_of e c) && negb (applied_to e c o i)
      then Some (applied_env c o i e) else None
  | WithdrawApplication c o i =>
      if bool_decide (is_Some (admin_of e)) && bool_decide (c ∈ auths) && applied_to e c o i
      then Some (withdrawn_env c o i e) else None
  | AssignIssue m c o i =>
      if granted (maintainer_check m o auths e) && applied_to e c o i &&
         negb (org_cap_of e o <=? org_count_of e c o) && negb (assigned_to e c o i)
      then Some (assigned_env m c o i e) else None
  | CompleteAssignment m c o i =>
      if granted (maintainer_check m o auths e) && assigned_to e c o i
      then Some (done_with (Published (Completed c m o i)) (freed c o i (org_count_of e c o - 1) e)) else None
  | RevokeAssignment m c o i =>
      if granted (maintainer_check m o auths e) && assigned_to e c o i
      then Some (done_with (Published (Revoked c m o i)) (freed c o i (org_count_of e c o - 1) e)) else None
  | SetOrgCap m o n =>
      if u32_ok n && granted (maintainer_check m o auths e) && negb ((n <? ORG_CAP_MIN) || (ORG_CAP_MAX <? n))
      then Some (done_with (org_cap_updated o (org_cap_of e o) n) (pset (org_cap_key o) (VU32 n) e)) else None
  | ExtendApplicationTtl c o i => if applied_to e c o i then Some (extended_env c o i e) else None
  end.

Lemma granted_assignment m c o i auths e :
  granted (assignment_check m c o i auths e) = granted (maintainer_check m o auths e) && assigned_to e c o i.
Proof. unfold assignment_check. destruct (maintainer_check _ _ _ _); [done|]. by destruct (assigned_to e c o i). Qed.

Lemma positive_org_count c o i e : coherent e → assigned_to e c o i = true → 1 ≤ org_count_of e c o.
Proof. intros Hco Ha. by apply (coherent_freed c o i (Unlisted "" []) e). Qed.

(** Nothing else happens: a call that does not have its effect fails, and never with
    [CounterInconsistency]. *)
Lemma invoke_effect cl auths e : coherent e →
  match invoke cl auths e with
  | (inr _, e') => effect cl auths e = Some e'
  | (inl x, _) => effect cl auths e = None ∧ x ≠ Err CounterInconsistency
  end.
Proof.
  intros Hco. pose proof (co_typed e Hco) as Ht.
  assert (∀ m o, maintainer_check m o auths e ≠ inl (Err CounterInconsistency)) as Hm.
  { intros m o. unfold maintainer_check. destruct (admin_of e); [|done]. case_decide; [|done]. by destruct (maintains e m o). }
  assert (admin_check auths e ≠ inl (Err CounterInconsistency)) as Ha.
  { unfold admin_check. destruct (admin_of e); [|done]. by case_decide. }
  destruct cl as [a|a m o|a m o|a n|a n|c o i|c o i|m c o i|m c o i|m c o i|m o n|c o i]; cbn [Contract.invoke effect].
  - rewrite initialize_run by done. destruct (admin_of e); [done|]. by destruct (decide (a ∈ auths)) as [?|?]; 
      [rewrite (bool_decide_true (a ∈ auths))|rewrite (bool_decide_false (a ∈ auths))].
  - rewrite register_run by done. destruct (admin_check auths e); [|done]. split; [done|]. congruence.
  - rewrite deregister_run by done. destruct (admin_check auths e); [split; [done|congruence]|]. by destruct (maintains e m o).
  - rewrite run_checked. unfold cap_ok. destruct (u32_ok n); [|done]. rewrite set_cap_run by done.
    destruct (admin_check auths e); [split; [by destruct (100 <? n)|congruence]|]. by destruct (100 <? n).
  - rewrite run_checked. unfold cap_ok. destruct (u32_ok n); [|done]. rewrite emergency_run by done.
    destruct (admin_check auths e); [split; [by destruct (100 <? n)|congruence]|]. by destruct (100 <? n).
  - rewrite apply_run by done. destruct (admin_of e); [|done]. rewrite bool_decide_true by eauto.
    case_decide; [rewrite bool_decide_true by done|by rewrite bool_decide_false].
    destruct (cap_of e <=? count_of e c); [done|]. by destruct (applied_to e c o i).
  - rewrite withdraw_run by done. destruct (admin_of e); [|done]. rewrite bool_decide_true by eauto.
    case_decide; [rewrite bool_decide_true by done|by rewrite bool_decide_false]. by destruct (applied_to e c o i).
  - rewrite assign_run by done. specialize (Hm m o). destruct (maintainer_check m o auths e); [split; [done|congruence]|].
    destruct (applied_to e c o i); [|done]. destruct (org_cap_of e o <=? org_count_of e c o); [done|].
    by destruct (assigned_to e c o i).
  - rewrite complete_run by done. specialize (Hm m o). rewrite <- granted_assignment. pose proof (positive_org_count c o i e Hco) as Hpos.
    unfold assignment_check in *. destruct (maintainer_check m o auths e); [split; [done|congruence]|].
    destruct (assigned_to e c o i); [|done]. specialize (Hpos eq_refl).
    rewrite (proj2 (Z.eqb_neq (org_count_of e c o) 0)) by lia. rewrite andb_false_r. cbn [granted].
    unfold saturating_sub. by rewrite Z.max_r by lia.
  - rewrite revoke_run by done. specialize (Hm m o). rewrite <- granted_assignment. pose proof (positive_org_count c o i e Hco) as Hpos.
    unfold assignment_check in *. destruct (maintainer_check m o auths e); [split; [done|congruence]|].
    destruct (assigned_to e c o i); [|done]. specialize (Hpos eq_refl).
    by rewrite (proj2 (Z.eqb_neq (org_count_of e c o) 0)) by lia.
  - rewrite run_checked. destruct (u32_ok n); [|done]. rewrite set_org_cap_run by done. specialize (Hm m o).
    destruct (maintainer_check m o auths e); [split; [done|congruence]|]. by destruct (_ || _).
  - rewrite extend_ttl_run by done. by destruct (applied_to e c o i).
Qed.

Lemma transact_effect cl auths e : coherent e → transact cl auths e = default e (effect cl auths e).
Proof.
  intros Hco. unfold Contract.transact. pose proof (invoke_effect cl auths e Hco) as He.
  destruct (invoke cl auths e) as [[x|[]] e']; [destruct He as [-> _]|rewrite He]; done.
Qed.

Lemma coherent_done x e : coherent e → coherent (done_with x e).
Proof. by intros []. Qed.

(** Keys that have nothing to do with assignments. *)
Definition other_key (k : key) : Prop :=
  (∀ c o i, assignment_entry_key o i c ≠ k) ∧ (∀ c o, org_assignment_count_key c o ≠ k).

Lemma coherent_pset k v e : coherent e → good k v = true → other_key k → coherent (pset k v e).
Proof.
  intros Hco Hg [Ha Hn]. by apply (coherent_persistent e); [|apply (typed_pset k v e (co_typed e Hco))|..];
    intros; rewrite ?pget_pset, ?decide_False.
Qed.

Lemma u32_okP n : u32_ok n = true → 0 ≤ n ≤ u32_max.
Proof. unfold u32_ok. lia. Qed.

Lemma coherent_effect cl auths e e' : coherent e → effect cl auths e = Some e' → coherent e'.
Proof.
  intros Hco. pose proof (co_typed e Hco) as Ht.
  destruct cl as [a|a m o|a m o|a n|a n|c o i|c o i|m c o i|m c o i|m c o i|m o n|c o i]; cbn [effect];
    match goal with |- (if ?b then _ else _) = _ → _ => destruct b eqn:Hb; [|done] end; intros [= <-].
  - apply coherent_done. assert (coherent (pset admin_key (VAddress a) e)) as Hco'; [|by apply coherent_pset].
    by apply coherent_pset.
  - by apply coherent_done, coherent_pset.
  - apply coherent_done, (coherent_persistent e); [done|by apply (typed_pdel (maintainer_key m o) e)|done|..];
      intros; by rewrite pget_pdel, decide_False.
  - apply coherent_done, coherent_pset; [done|cbn; unfold cap_ok in Hb|done]. by destruct (u32_ok n).
  - apply coherent_done, coherent_pset; [done|cbn; unfold cap_ok in Hb|done]. by destruct (u32_ok n).
  - pose proof (cap_range e Ht). apply coherent_applied; [done|by destruct (applied_to e c o i); rewrite andb_comm in Hb|].
    destruct (Z.leb_spec (cap_of e) (count_of e c)); [by rewrite andb_false_r in Hb|lia].
  - apply andb_prop in Hb as [_ Hb]. by apply coherent_done, coherent_consumed.
  - pose proof (org_cap_range e o Ht). apply andb_prop in Hb as [Hb Has]. apply andb_prop in Hb as [Hb Hcap].
    apply andb_prop in Hb as [_ Happ]. apply coherent_assigned; [done|done|by destruct (assigned_to e c o i)|lia].
  - apply andb_prop in Hb as [_ Hb]. by apply coherent_freed.
  - apply andb_prop in Hb as [_ Hb]. by apply coherent_freed.
  - apply coherent_done, coherent_pset; [done|cbn; by destruct (u32_ok n)|done].
  - by apply coherent_extended.
Qed.

Lemma coherent_step x e : coherent e → coherent (step e x).
Proof.
  intros Hco. destruct x as [cl auths|n]; [|by apply coherent_pass]. cbn [Contract.step].
  rewrite transact_effect by done. destruct (effect cl auths e) eqn:He; [|done]. by eapply coherent_effect.
Qed.

Lemma coherent_history xs e : coherent e → coherent (history e xs).
Proof. revert e. induction xs as [|x xs IH]; intros e Hco; [done|]. by apply IH, coherent_step. Qed.

(** *** What one call can change *)

(** Its effect on the applications and on the persistent entries. *)
Definition same_applications (e e' : E) : Prop := ∀ k, tget e' k = tget e k.

Lemma applications_effect cl auths e e' : coherent e → effect cl auths e = Some e' →
  match cl with
  | ApplyForIssue c o i =>
      ∃ n, touches c o i (Some (VBool true, sequence e + APP_TTL_LEDGERS)) n e e' ∧
           u32_or 0 (fst <$> n) = count_of e c + 1
  | WithdrawApplication c o i | AssignIssue _ c o i =>
      ∃ n, touches c o i None n e e' ∧ u32_or 0 (fst <$> n) = count_of e c - 1
  | ExtendApplicationTtl c o i => ∃ l n, applied_to e c o i = true ∧
      touches c o i (Some (VBool true, l)) n e e' ∧ u32_or 0 (fst <$> n) = count_of e c
  | _ => same_applications e e'
  end.
Proof.
  intros Hco. pose proof (co_typed e Hco) as Ht.
  assert (∀ c o i, applied_to e c o i = true → ∃ n, touches c o i None n e (consumed c o i e) ∧
    u32_or 0 (fst <$> n) = count_of e c - 1) as Hconsumed.
  { intros c o i Happ. destruct (consumed_lookup c o i e Hco Happ) as (L & _ & _ & Hto). eexists. split; [exact Hto|].
    by destruct (Z.eqb_spec (count_of e c - 1) 0) as [->|]. }
  destruct cl as [a|a m o|a m o|a n|a n|c o i|c o i|m c o i|m c o i|m c o i|m o n|c o i]; cbn [effect];
    match goal with |- (if ?b then _ else _) = _ → _ => destruct b eqn:Hb; [|done] end; intros [= <-]; try done.
  - destruct (applied_lookup c o i e Ht) as (L & _ & _ & Hto); [by destruct (applied_to e c o i); rewrite andb_comm in Hb|].
    eexists. by split; [exact Hto|].
  - apply andb_prop in Hb as [_ Hb]. apply (Hconsumed c o i Hb).
  - destruct (applied_to e c o i) eqn:Happ; [|by rewrite andb_false_r in Hb]. apply (Hconsumed c o i Happ).
  - intros k. unfold freed. cbv zeta. by destruct (_ =? 0).
  - intros k. unfold freed. cbv zeta. by destruct (_ =? 0).
  - destruct (extended_lookup c o i e Hco Hb) as (l & L & _ & _ & _ & Hto). eexists _, _.
    split; [done|]. by split; [exact Hto|].
Qed.

(** The entries of the persistent storage, one kind after the other. *)
Ltac effects :=
  match goal with |- (if ?b then _ else _) = _ → _ => destruct b eqn:Hb; [|done] end; intros [= <-].
Ltac entries :=
  repeat match goal with |- context [pget (done_with ?x ?e) ?k] => change (pget (done_with x e) k) with (pget e k) end;
  unfold applied_env, withdrawn_env, assigned_env, extended_env, freed; cbv zeta;
  repeat match goal with |- context [if ?b =? ?c then _ else _] => destruct (b =? c) end;
  repeat match goal with |- context [if ?b <? ?c then _ else _] => destruct (b <? c) end;
  repeat match goal with |- context [pget (done_with ?x ?e) ?k] => change (pget (done_with x e) k) with (pget e k) end;
  repeat match goal with |- context [pget (text ?x ?e) ?k] => change (pget (text x e) k) with (pget e k) end;
  repeat match goal with |- context [pget (tset ?x ?v ?e) ?k] => change (pget (tset x v e) k) with (pget e k) end;
  rewrite ?pget_pset, ?pget_pdel, ?pget_pset, ?pget_pdel, ?consumed_persistent.

Lemma cap_effect cl auths e e' : effect cl auths e = Some e' →
  cap_of e' = match cl with
              | Initialize _ => GLOBAL_APP_LIMIT
              | SetGlobalCap _ n | EmergencySetGlobalCap _ n => n
              | _ => cap_of e
              end.
Proof. destruct cl; cbn [effect]; effects; unfold cap_of; entries; by repeat case_decide; simplify_eq. Qed.

Lemma admin_effect cl auths e e' : effect cl auths e = Some e' →
  admin_of e' = match cl with Initialize a => Some a | _ => admin_of e end.
Proof. destruct cl; cbn [effect]; effects; unfold admin_of; entries; by repeat case_decide; simplify_eq. Qed.

Lemma maintains_effect cl auths e e' m o : effect cl auths e = Some e' →
  maintains e' m o =
  match cl with
  | RegisterMaintainer _ m' o' => if decide (m = m' ∧ o = o') then true else maintains e m o
  | DeregisterMaintainer _ m' o' => if decide (m = m' ∧ o = o') then false else maintains e m o
  | _ => maintains e m o
  end.
Proof.
  destruct cl; cbn [effect]; effects; unfold maintains; entries; repeat case_decide; simplify_eq; naive_solver.
Qed.

Lemma assigned_effect cl auths e e' c o i : effect cl auths e = Some e' →
  assigned_to e' c o i =
  match cl with
  | AssignIssue _ c' o' i' => if decide (c = c' ∧ o = o' ∧ i = i') then true else assigned_to e c o i
  | CompleteAssignment _ c' o' i' | RevokeAssignment _ c' o' i' =>
      if decide (c = c' ∧ o = o' ∧ i = i') then false else assigned_to e c o i
  | _ => assigned_to e c o i
  end.
Proof.
  destruct cl; cbn [effect]; effects; unfold assigned_to; entries; repeat case_decide; simplify_eq; naive_solver.
Qed.

Lemma org_cap_effect cl auths e e' o : effect cl auths e = Some e' →
  org_cap_of e' o =
  match cl with SetOrgCap _ o' n => if decide (o = o') then n else org_cap_of e o | _ => org_cap_of e o end.
Proof. destruct cl; cbn [effect]; effects; unfold org_cap_of; entries; repeat case_decide; simplify_eq; naive_solver. Qed.

Lemma applied_effect cl auths e e' c o i : coherent e → effect cl auths e = Some e' →
  applied_to e' c o i =
  match cl with
  | ApplyForIssue c' o' i' => if decide (c = c' ∧ o = o' ∧ i = i') then true else applied_to e c o i
  | WithdrawApplication c' o' i' | AssignIssue _ c' o' i' =>
      if decide (c = c' ∧ o = o' ∧ i = i') then false else applied_to e c o i
  | _ => applied_to e c o i
  end.
Proof.
  intros Hco He. pose proof (applications_effect cl auths e e' Hco He) as Happ. clear He.
  destruct cl; try (unfold applied_to; by rewrite Happ).
  - destruct Happ as (n & Hto & _). by rewrite (touches_applied _ _ _ _ _ _ _ _ _ _ Hto).
  - destruct Happ as (n & Hto & _). by rewrite (touches_applied _ _ _ _ _ _ _ _ _ _ Hto).
  - destruct Happ as (n & Hto & _). by rewrite (touches_applied _ _ _ _ _ _ _ _ _ _ Hto).
  - destruct Happ as (l & n & Ha & Hto & _). rewrite (touches_applied _ _ _ _ _ _ _ _ _ _ Hto).
    case_decide as Heq; [|done]. by destruct Heq as (-> & -> & ->).
Qed.

(** A counter grows only below the cap. *)
Lemma counts_effect cl auths e e' : coherent e → effect cl auths e = Some e' →
  ∀ c, count_of e' c ≤ Z.max (count_of e c) (cap_of e).
Proof.
  intros Hco He. pose proof (applications_effect cl auths e e' Hco He) as Happ. revert He.
  assert (same_applications e e' → ∀ c, count_of e' c ≤ Z.max (count_of e c) (cap_of e)) as Hsame.
  { intros Hs c. unfold count_of. rewrite Hs. lia. }
  assert (∀ c o i a n, touches c o i a n e e' → u32_or 0 (fst <$> n) ≤ Z.max (count_of e c) (cap_of e) →
    ∀ c', count_of e' c' ≤ Z.max (count_of e c') (cap_of e)) as Hto.
  { intros c o i a n Hto Hn c'. rewrite (touches_count _ _ _ _ _ _ _ _ Hto). case_decide; [by subst|lia]. }
  destruct cl; cbn [effect] in *; match goal with |- (if ?b then _ else _) = _ → _ => destruct b eqn:Hb; [|done] end;
    intros _; try by apply Hsame.
  - destruct Happ as (n & Ht & Hn). apply (Hto _ _ _ _ _ Ht). rewrite Hn.
    destruct (Z.leb_spec (cap_of e) (count_of e contributor)); [by rewrite andb_false_r in Hb|lia].
  - destruct Happ as (n & Ht & Hn). apply (Hto _ _ _ _ _ Ht). lia.
  - destruct Happ as (n & Ht & Hn). apply (Hto _ _ _ _ _ Ht). lia.
  - destruct Happ as (l & n & _ & Ht & Hn). apply (Hto _ _ _ _ _ Ht). lia.
Qed.

(** ** Theorems *)

(** A contract that was never called. *)
Definition untouched (e : E) : Prop :=
  (∀ k, tget e k = None) ∧ (∀ k, pget e k = None) ∧ log e = [].

Lemma coherent_untouched e : untouched e → coherent e.
Proof.
  intros (Ht & Hp & _). split; [split|..].
  - intros k v l. by rewrite Ht.
  - intros k v. by rewrite Hp.
  - intros c o i v l. by rewrite Ht.
  - intros c [|[o i] l] _ Hall; [unfold count_of; by rewrite Ht|].
    apply Forall_cons in Hall as [Hoi _]. unfold applied_to in Hoi. by rewrite Ht in Hoi.
  - intros c o. exists []. unfold assigned_to, org_count_of. setoid_rewrite Hp. split; [apply NoDup_nil_2|].
    split; [|done]. intros i. set_solver.
Qed.

Lemma coherent_run e xs : untouched e → coherent (history e xs).
Proof. intros He. by apply coherent_history, coherent_untouched. Qed.

(** The highest cap that was in force. *)
Definition cap_asked (x : event) : Z :=
  match x with
  | Call (SetGlobalCap _ n) _ | Call (EmergencySetGlobalCap _ n) _ => if cap_ok n then n else GLOBAL_APP_LIMIT
  | _ => GLOBAL_APP_LIMIT
  end.
Definition highest_cap (xs : list event) : Z := foldr (λ x m, Z.max (cap_asked x) m) GLOBAL_APP_LIMIT xs.

Lemma highest_cap_range xs : GLOBAL_APP_LIMIT ≤ highest_cap xs ≤ 100.
Proof.
  assert (∀ x, GLOBAL_APP_LIMIT ≤ Z.max GLOBAL_APP_LIMIT (cap_asked x) ≤ 100) as Hx.
  { intros [[]|]; cbn; unfold cap_ok, GLOBAL_APP_LIMIT; try lia; destruct (u32_ok new_cap); cbn; try lia;
      destruct (Z.ltb_spec 100 new_cap); cbn; lia. }
  induction xs as [|x xs IH]; [done|]. specialize (Hx x). unfold highest_cap in *. cbn [foldr]. lia.
Qed.

Definition capped (m : Z) (e : E) : Prop := cap_of e ≤ m ∧ ∀ c, count_of e c ≤ m.

Lemma capped_step m x e : coherent e → capped m e → GLOBAL_APP_LIMIT ≤ m → capped (Z.max m (cap_asked x)) (step e x).
Proof.
  intros Hco [Hcap Hcount] Hm. destruct x as [cl auths|n]; cbn [Contract.step].
  - rewrite transact_effect by done. destruct (effect cl auths e) as [e'|] eqn:He; cbn [default from_option Datatypes.id].
    + pose proof (cap_effect _ _ _ _ He) as Hcap'. split.
      * rewrite Hcap'. destruct cl; cbn [cap_asked]; try lia; cbn [effect] in He; destruct (cap_ok new_cap); try done; lia.
      * intros c. pose proof (counts_effect _ _ _ _ Hco He c). specialize (Hcount c). lia.
    + split; [lia|]. intros c. specialize (Hcount c). lia.
  - split; [change (cap_of (pass n e)) with (cap_of e); lia|]. intros c. specialize (Hcount c).
    pose proof (count_range e c (co_typed e Hco)).
    unfold count_of in *. rewrite tget_pass. destruct (tget e _) as [[v l]|]; [|cbn in *; lia].
    destruct (_ <=? l); cbn in *; unfold GLOBAL_APP_LIMIT in *; lia.
Qed.

Lemma capped_history xs : ∀ m e, coherent e → capped m e → GLOBAL_APP_LIMIT ≤ m →
  capped (Z.max m (highest_cap xs)) (history e xs).
Proof.
  induction xs as [|x xs IH]; intros m e Hco Hc Hm.
  { destruct Hc as [Hc1 Hc2]. split; [cbn; lia|]. intros c. specialize (Hc2 c). cbn. lia. }
  change (history e (x :: xs)) with (history (step e x) xs).
  specialize (IH (Z.max m (cap_asked x)) (step e x) (coherent_step x e Hco) (capped_step m x e Hco Hc Hm) ltac:(lia)).
  cbn [highest_cap foldr]. fold (highest_cap xs). by rewrite Z.max_assoc.
Qed.


(** The caps of the organisations: four, or one that was accepted. *)
Definition org_cap_bound : Z := Z.max ORG_ASSIGNMENT_LIMIT ORG_CAP_MAX.

Definition org_capped (e : E) : Prop :=
  (∀ o, org_cap_of e o ≤ org_cap_bound) ∧ ∀ c o, org_count_of e c o ≤ org_cap_bound.

Lemma org_count_effect cl auths e e' : coherent e → effect cl auths e = Some e' →
  ∀ c o, org_count_of e' c o ≤ Z.max (org_count_of e c o) (org_cap_of e o).
Proof.
  intros Hco. destruct cl; cbn [effect];
    match goal with |- (if ?b then _ else _) = _ → _ => destruct b eqn:Hb; [|done] end; intros [= <-] c' o';
    pose proof (org_count_range e c' o' (co_typed e Hco)); unfold org_count_of in *; entries; repeat case_decide;
    simplify_eq; cbn [u32_or]; try lia.
  rewrite !andb_true_iff, !negb_true_iff, Z.leb_gt in Hb. destruct Hb as [[_ Hb] _]. unfold org_count_of in *. lia.
Qed.

Lemma org_capped_step x e : coherent e → org_capped e → org_capped (step e x).
Proof.
  intros Hco [Hcap Hcount]. destruct x as [cl auths|n]; [|done]. cbn [Contract.step].
  rewrite transact_effect by done. destruct (effect cl auths e) as [e'|] eqn:He; cbn [default from_option Datatypes.id]; [|done].
  split.
  - intros o. rewrite (org_cap_effect _ _ _ _ o He). destruct cl; try apply Hcap. case_decide; [|apply Hcap].
    cbn [effect] in He. unfold org_cap_bound. destruct (Z.ltb_spec ORG_CAP_MAX new_cap); [|lia].
    by rewrite orb_true_r, andb_false_r in He.
  - intros c o. pose proof (org_count_effect _ _ _ _ Hco He c o). specialize (Hcap o). specialize (Hcount c o). lia.
Qed.

Lemma org_capped_history xs : ∀ e, coherent e → org_capped e → org_capped (history e xs).
Proof.
  induction xs as [|x xs IH]; intros e Hco Hc; [done|].
  apply (IH (step e x)); [by apply coherent_step|by apply org_capped_step].
Qed.

Lemma has_orphan_run c o ids auths e : typed e →
  has_orphan c o ids auths e = (inr (existsb (assigned_to e c o) ids), e).
Proof.
  intros Ht. induction ids as [|i ids IH]; [done|]. cbn [has_orphan existsb].
  runs (run_assigned c o i auths e Ht). by destruct (assigned_to e c o i).
Qed.

Lemma consistency_run pairs ids auths e : coherent e → check_consistency pairs ids auths e = (inr [], e).
Proof.
  intros Hco. pose proof (co_typed e Hco) as Ht. induction pairs as [|p pairs IH]; [done|]. cbn [check_consistency].
  runs (run_org_count p.1 p.2 auths e Ht).
  assert ((if org_count_of e p.1 p.2 =? 0 then has_orphan p.1 p.2 ids else mret false) auths e = (inr false, e)) as Ho.
  { destruct (Z.eqb_spec (org_count_of e p.1 p.2) 0) as [Hz|]; [|done]. rewrite has_orphan_run by done.
    do 2 f_equal. apply not_true_iff_false. intros (i & _ & Hi)%existsb_exists.
    pose proof (positive_org_count _ _ _ _ Hco Hi). lia. }
  runs Ho. by runs IH.
Qed.

(** C4: The counter of a contributor in an organisation is the number of issues of it they are
    assigned to, and never above four or the largest cap that can be set: whoever called what.
    So no call fails with [CounterInconsistency], with debug assertions or without, and
    [check_consistency] has nothing to report. *)
Theorem assignments_counted e xs c o :
  untouched e → let e' := history e xs in
  (∃ l, NoDup l ∧ (∀ i, i ∈ l ↔ assigned_to e' c o i = true) ∧ Z.of_nat (length l) = org_count_of e' c o) ∧
  org_count_of e' c o ≤ org_cap_bound ∧
  (∀ cl auths, fst (invoke cl auths e') ≠ inl (Err CounterInconsistency)) ∧
  (∀ pairs ids auths, check_consistency pairs ids auths e' = (inr [], e')).
Proof.
  intros He e'. pose proof (coherent_run e xs He) as Hco. fold e' in Hco. split; [apply (co_asgs _ Hco)|]. split.
  { assert (org_capped e) as Hc.
    { destruct He as (_ & Hp & _). unfold org_capped, org_cap_of, org_count_of, org_cap_bound. setoid_rewrite Hp.
      cbn. unfold ORG_ASSIGNMENT_LIMIT. split; intros; lia. }
    apply (org_capped_history xs e (coherent_untouched e He) Hc). }
  split.
  - intros cl auths. pose proof (invoke_effect cl auths e' Hco) as Hi. destruct (invoke cl auths e') as [[x|[]] e1]; [|done].
    destruct Hi as [_ Hx]. cbn. congruence.
  - intros pairs ids auths. by apply consistency_run.
Qed.

(** Who has to agree to a call. *)
Definition agreed (cl : call) (auths : list string) (e : E) : Prop :=
  let admin := ∃ a, admin_of e = Some a ∧ a ∈ auths in
  let maintainer m o := m ∈ auths ∧ maintains e m o = true in
  match cl with
  | Initialize a => admin_of e = None ∧ a ∈ auths
  | RegisterMaintainer _ _ _ | DeregisterMaintainer _ _ _ | SetGlobalCap _ _ | EmergencySetGlobalCap _ _ => admin
  | ApplyForIssue c _ _ | WithdrawApplication c _ _ => c ∈ auths
  | AssignIssue m c o i => maintainer m o ∧ applied_to e c o i = true
  | CompleteAssignment m _ o _ | RevokeAssignment m _ o _ | SetOrgCap m o _ => maintainer m o
  | ExtendApplicationTtl c o i => True
  end.

Lemma effect_agreed cl auths e e' : effect cl auths e = Some e' → agreed cl auths e.
Proof.
  assert (∀ m o, granted (maintainer_check m o auths e) = true → m ∈ auths ∧ maintains e m o = true) as Hm.
  { intros m o. unfold maintainer_check. destruct (admin_of e); [|done]. case_decide; [|done]. by destruct (maintains e m o). }
  assert (granted (admin_check auths e) = true → ∃ a, admin_of e = Some a ∧ a ∈ auths) as Ha.
  { unfold admin_check. destruct (admin_of e) as [a|]; [|done]. case_decide; [|done]. intros _. by exists a. }
  destruct cl; cbn [effect agreed];
    match goal with |- (if ?b then _ else _) = _ → _ => destruct b eqn:Hb; [|done] end; intros _;
    rewrite ?andb_true_iff, ?bool_decide_eq_true in Hb; try by (apply Ha; tauto).
  all: try by (apply Hm; tauto).
  all: try tauto.
  split; [apply Hm; tauto|tauto].
Qed.

(** C5: Nobody changes what is another's: in whatever state the calls have brought the contract to,
    a call makes an application only with the contributor's authorisation, and ends one, or
    makes or ends an assignment, only with theirs or that of a maintainer of the organisation;
    what is assigned was applied for. Maintainers and caps change only with the administrator's
    authorisation, who stays the same once there is one; and a call that fails changes nothing. *)
Theorem calls_authorized e xs cl auths c o i :
  untouched e → let e1 := history e xs in let e2 := transact cl auths e1 in
  let by_maintainer := ∃ m, m ∈ auths ∧ maintains e1 m o = true in
  (applied_to e2 c o i ≠ applied_to e1 c o i → if applied_to e2 c o i then c ∈ auths else c ∈ auths ∨ by_maintainer) ∧
  (assigned_to e2 c o i ≠ assigned_to e1 c o i →
     by_maintainer ∧ (assigned_to e2 c o i = true → applied_to e1 c o i = true)) ∧
  (∀ m, maintains e2 m o ≠ maintains e1 m o → ∃ a, admin_of e1 = Some a ∧ a ∈ auths) ∧
  (cap_of e2 ≠ cap_of e1 → ∃ a, admin_of e2 = Some a ∧ a ∈ auths) ∧
  (is_Some (admin_of e1) → admin_of e2 = admin_of e1) ∧
  (∀ x e', invoke cl auths e1 = (inl x, e') → e2 = e1).
Proof.
  intros He e1 e2 bm. pose proof (coherent_run e xs He) as Hco. fold e1 in Hco.
  pose proof (invoke_effect cl auths e1 Hco) as Hres. unfold e2. rewrite transact_effect by done.
  destruct (effect cl auths e1) as [e'|] eqn:Heff; cbn [default from_option Datatypes.id]; [|split_and!; try done; by intros []].
  pose proof (effect_agreed _ _ _ _ Heff) as Hag. split_and!.
  - rewrite (applied_effect _ _ _ _ c o i Hco Heff).
    destruct cl; try by (intros []). all: case_decide as Heq; try by (intros []). all: destruct Heq as (-> & -> & ->); cbn [agreed] in Hag; intros _.
    + done.
    + by left.
    + right. exists maintainer. apply Hag.
  - rewrite (assigned_effect _ _ _ _ c o i Heff).
    destruct cl; try by (intros []). all: case_decide as Heq; try by (intros []). all: destruct Heq as (-> & -> & ->); cbn [agreed] in Hag; intros _.
    all: split; [exists maintainer; apply Hag|]; intros ?; (done || apply Hag).
  - intros m. rewrite (maintains_effect _ _ _ _ m o Heff). destruct cl; try by (intros []). all: by case_decide.
  - rewrite (cap_effect _ _ _ _ Heff), (admin_effect _ _ _ _ Heff). destruct cl; try by (intros []). all: cbn [agreed] in Hag; try done.
    intros _. exists admin. by split; [|apply Hag].
  - rewrite (admin_effect _ _ _ _ Heff). destruct cl; try done. cbn [agreed] in Hag. destruct Hag as [-> _]. by intros [? ?].
  - intros x e0 Hi. rewrite Hi in Hres. by destruct Hres.
Qed.

(** *** How long an application lives *)

Definition concerns (c o : string) (i : Z) (x : event) : bool :=
  match x with
  | Call (ApplyForIssue c' o' i') _ | Call (WithdrawApplication c' o' i') _
  | Call (AssignIssue _ c' o' i') _ | Call (ExtendApplicationTtl c' o' i') _ =>
      bool_decide (c' = c ∧ o' = o ∧ i' = i)
  | _ => false
  end.

Definition lives_until (e : E) (c o : string) (i l : Z) : Prop :=
  tget e (app_entry_key c o i) = if sequence e <=? l then Some (VBool true, l) else None.

Lemma sequence_effect cl auths e e' : effect cl auths e = Some e' → sequence e' = sequence e.
Proof.
  destruct cl; cbn [effect]; effects; unfold applied_env, withdrawn_env, assigned_env, extended_env, freed, consumed;
    cbv zeta; repeat match goal with |- context [if ?b then _ else _] => destruct b end; done.
Qed.

Lemma lives_step c o i l x e : coherent e → concerns c o i x = false →
  lives_until e c o i l → lives_until (step e x) c o i l.
Proof.
  intros Hco Hx. unfold lives_until. destruct x as [cl auths|n]; cbn [Contract.step].
  - rewrite transact_effect by done. destruct (effect cl auths e) as [e'|] eqn:He; cbn [default from_option Datatypes.id]; [|done].
    rewrite (sequence_effect _ _ _ _ He). intros <-. pose proof (applications_effect _ _ _ _ Hco He) as Happ.
    assert (∀ c' o' i' a n, touches c' o' i' a n e e' → bool_decide (c' = c ∧ o' = o ∧ i' = i) = false →
      tget e' (app_entry_key c o i) = tget e (app_entry_key c o i)) as Hto.
    { intros c' o' i' a n Hto Hne%bool_decide_eq_false. rewrite Hto. rewrite decide_False by naive_solver. by rewrite decide_False. }
    destruct cl; try by apply Happ.
    all: cbn in Hx; destruct Happ as (n & Happ); try (destruct Happ as (n' & _ & Happ)); by eapply Hto; [apply Happ|].
  - intros Hl. rewrite tget_pass, Hl. cbn [sequence pass].
    destruct (Z.leb_spec (sequence e) l); [done|]. by rewrite (proj2 (Z.leb_gt _ _)) by lia.
Qed.

Lemma lives_history c o i l ys : ∀ e, coherent e → forallb (λ x, negb (concerns c o i x)) ys = true →
  lives_until e c o i l → lives_until (history e ys) c o i l.
Proof.
  induction ys as [|x ys IH]; intros e Hco; [done|]. cbn [forallb]. intros [Hx Hys]%andb_prop Hl.
  apply (IH (step e x)); [by apply coherent_step|done|]. apply lives_step; [done|by destruct (concerns c o i x)|done].
Qed.

(** C15: An application lives for exactly [APP_TTL_LEDGERS] ledgers, if it is not withdrawn, assigned
    or extended: whatever else is called, by the contributor or by others, whatever counters and
    caps it changes, [has_applied] answers yes up to that ledger and no after it. *)
Theorem application_lifetime e xs c o i auths e2 ys :
  untouched e → invoke (ApplyForIssue c o i) auths (history e xs) = (inr tt, e2) →
  forallb (λ x, negb (concerns c o i x)) ys = true →
  let e3 := history e2 ys in
  has_app_entry c o i [] e3 = (inr (sequence e3 <=? sequence (history e xs) + APP_TTL_LEDGERS), e3).
Proof.
  intros He Hi Hys e3. pose proof (coherent_run e xs He) as Hco. set (e1 := history e xs) in *.
  pose proof (invoke_effect (ApplyForIssue c o i) auths e1 Hco) as Heff. rewrite Hi in Heff.
  pose proof (coherent_effect _ _ _ _ Hco Heff) as Hco2.
  destruct (applications_effect _ _ _ _ Hco Heff) as (n & Hto & _).
  assert (lives_until e2 c o i (sequence e1 + APP_TTL_LEDGERS)) as Hl.
  { unfold lives_until. rewrite Hto, decide_True by done. rewrite (sequence_effect _ _ _ _ Heff).
    by rewrite (proj2 (Z.leb_le _ _)) by (unfold APP_TTL_LEDGERS; lia). }
  pose proof (lives_history c o i _ ys e2 Hco2 Hys Hl) as Hl3. fold e3 in Hl3.
  rewrite run_applied by apply (co_typed _ (coherent_history ys e2 Hco2)). do 2 f_equal.
  unfold applied_to. rewrite Hl3. by destruct (_ <=? _).
Qed.

(** *** What the published events tell *)

Definition listed (l : list logged) : list contract_event :=
  omap (λ x, match x with Published ev => Some ev | Unlisted _ _ => None end) l.

Definition same_issue (c o : string) (i : Z) (c' o' : string) (i' : Z) : bool :=
  bool_decide (c = c' ∧ o = o' ∧ i = i').

(** What an event makes of whether somebody is assigned, or has applied. *)
Definition says_assigned (c o : string) (i : Z) (b : bool) (x : ContractEventType * string * string * Z) : bool :=
  let '(ty, c', o', i') := x in
  if same_issue c o i c' o' i'
  then match ty with assigned => true | completed | revoked => false | _ => b end else b.
Definition says_applied (c o : string) (i : Z) (b : bool) (x : ContractEventType * string * string * Z) : bool :=
  let '(ty, c', o', i') := x in
  if same_issue c o i c' o' i'
  then match ty with applied => true | withdrew | assigned => false | _ => b end else b.
Definition told (says : bool → ContractEventType * string * string * Z → bool) (l : list logged) : bool :=
  fold_left says (omap state_change (listed l)) false.

(** The event of a call. *)
Definition event_of (cl : call) : option contract_event :=
  match cl with
  | Initialize a => Some (Init a)
  | RegisterMaintainer _ m o => Some (MaintReg m o)
  | DeregisterMaintainer a m o => Some (MaintDrg a m o)
  | SetGlobalCap a n => Some (CapUpd a n)
  | EmergencySetGlobalCap a n => None
  | ApplyForIssue c o i => Some (Applied c o i)
  | WithdrawApplication c o i => Some (Withdrew c o i)
  | AssignIssue m c o i => Some (Assigned c m o i)
  | CompleteAssignment m c o i => Some (Completed c m o i)
  | RevokeAssignment m c o i => Some (Revoked c m o i)
  | SetOrgCap _ _ _ | ExtendApplicationTtl _ _ _ => None
  end.

(** The event of [set_org_cap] is none of [events.rs]. *)
Definition org_cap_unlisted : Prop := ∀ o a b, ∃ t l, org_cap_updated o a b = Unlisted t l.

Lemma told_effect cl auths e e' says : org_cap_unlisted → effect cl auths e = Some e' →
  told says (log e') =
  match event_of cl with
  | Some ev => match state_change ev with Some x => says (told says (log e)) x | None => told says (log e) end
  | None => told says (log e)
  end.
Proof.
  intros Hun He. unfold told, listed.
  assert ((log e' = log e ∧ event_of cl = None) ∨ ∃ x, log e' = log e ++ [x] ∧
    omap state_change (listed [x]) = match event_of cl with Some ev => omap state_change [ev] | None => [] end) as Hlog.
  { revert He. destruct cl; cbn [effect]; effects;
      unfold applied_env, withdrawn_env, assigned_env, extended_env, freed, consumed; cbv zeta;
      repeat match goal with |- context [if ?b =? ?c then _ else _] => destruct (b =? c) end;
      try (right; eexists; split; [reflexivity|reflexivity]).
    - right. eexists. split; [reflexivity|]. 
      match goal with |- context [org_cap_updated ?o ?a ?b] => by destruct (Hun o a b) as (t & l & ->) end.
    - left. by destruct (0 <? _). }
  unfold listed in *. destruct Hlog as [[-> ->] | (x & -> & Hx)]; [done|].
  rewrite !omap_app, Hx, fold_left_app. destruct cl; cbn; try done.
Qed.

(** Who is assigned, and who may still have an application, can be read off the log. *)
Definition log_tells (e : E) : Prop :=
  ∀ c o i, assigned_to e c o i = told (says_assigned c o i) (log e) ∧
    (applied_to e c o i = true → told (says_applied c o i) (log e) = true).

Lemma log_tells_step x e : org_cap_unlisted → coherent e → log_tells e → log_tells (step e x).
Proof.
  intros Hun Hco Hlog c o i. destruct (Hlog c o i) as [Has Hap]. destruct x as [cl auths|n]; cbn [Contract.step].
  - rewrite transact_effect by done. destruct (effect cl auths e) as [e'|] eqn:He; cbn [default from_option Datatypes.id]; [|done].
    rewrite !(told_effect _ _ _ _ _ Hun He), (assigned_effect _ _ _ _ c o i He), (applied_effect _ _ _ _ c o i Hco He).
    rewrite Has. revert Hap. generalize (told (says_assigned c o i) (log e)) (told (says_applied c o i) (log e)).
    intros b b' Hap. destruct cl; cbn [event_of state_change says_assigned says_applied]; try done;
      unfold same_issue; case_decide; rewrite ?bool_decide_true, ?bool_decide_false by done; done.
  - split; [done|]. intros Hp. apply Hap. revert Hp. unfold applied_to. rewrite tget_pass.
    destruct (tget e _) as [[v l]|]; [|done]. by destruct (_ <=? l).
Qed.

Lemma log_tells_history xs : ∀ e, org_cap_unlisted → coherent e → log_tells e → log_tells (history e xs).
Proof.
  induction xs as [|x xs IH]; intros e Hun Hco Hl; [done|].
  apply (IH (step e x)); [done|by apply coherent_step|by apply log_tells_step].
Qed.

(** What the indexer makes of the events of the log, whatever ledger, hash and time they come with. *)
Definition indexed decodeScVal encode parse_date (ev : contract_event) (r : option ContractEventRecord) : Prop :=
  ∃ id l t tx, r = parseRpcEvent decodeScVal parse_date (rpc_event encode ev id l t tx).

Definition row_change (r : ContractEventRecord) : option (ContractEventType * string * string * Z) :=
  match contributor r, org_id r, issue_id r with
  | Some c, Some o, Some i => Some (event_type r, c, o, i)
  | _, _, _ => None
  end.

Definition decodes (decodeScVal : string → option native) encode (ev : contract_event) : Prop :=
  Forall (λ v, decodeScVal (encode v) = Some v) ((published ev).2 :: (published ev).1).

Lemma indexed_change decodeScVal encode parse_date evs rows :
  Forall (decodes decodeScVal encode) evs →
  Forall2 (indexed decodeScVal encode parse_date) evs rows →
  omap row_change (omap Datatypes.id rows) = omap state_change evs.
Proof.
  intros Hd. induction 1 as [|ev r evs rows (id & l & t & tx & ->) _ IH]; [done|].
  apply Forall_cons in Hd as [Hev Hd]. specialize (IH Hd).
  cbn. rewrite (parse_event decodeScVal encode parse_date ev id l t tx Hev).
  destruct (state_change ev) as [[[[ty c] o] i]|]; cbn; by rewrite IH.
Qed.

(** The table of the indexer tells who is assigned: after any history of the contract, an issue is
    assigned to a contributor exactly when the last row about the two that says assigned,
    completed or revoked says assigned; and who has an application that has not expired is one
    whose last row of applied, withdrew and assigned says applied. *)
Theorem index_tells_assignments decodeScVal encode parse_date e xs rows c o i :
  let e' := history e xs in
  untouched e → org_cap_unlisted → Forall (decodes decodeScVal encode) (listed (log e')) →
  Forall2 (indexed decodeScVal encode parse_date) (listed (log e')) rows →
  let changes := omap row_change (omap Datatypes.id rows) in
  assigned_to e' c o i = fold_left (says_assigned c o i) changes false ∧
  (applied_to e' c o i = true → fold_left (says_applied c o i) changes false = true).
Proof.
  intros e' He Hun Hd Hrows changes. unfold changes. rewrite (indexed_change _ _ _ _ _ Hd Hrows).
  assert (log_tells e) as Hl.
  { destruct He as (Ht & Hp & Hlog). intros c' o' i'. unfold assigned_to, applied_to. rewrite Ht, Hp, Hlog. done. }
  apply (log_tells_history xs e Hun (coherent_untouched e He) Hl c o i).
Qed.

End history.
End storage.

(** ** A storage of maps, and a history *)

Definition live_entry (n : Z) (k : key) (t : gmap key (value * Z)) : option (value * Z) :=
  match t !! k with Some (v, l) => if n <=? l then Some (v, l) else None | None => None end.

#[export] Instance map_temporary : Temporary (gmap key (value * Z)) := {
  t_get := live_entry;
  t_set n k v t := <[k := (v, match live_entry n k t with Some (_, l) => l | None => n + 16 - 1 end)]> t;
  t_remove k t := delete k t;
  t_extend n k th ex t :=
    match live_entry n k t with
    | Some (v, l) => Some (<[k := (v, if l - n <? th then Z.max l (n + ex) else l)]> t)
    | None => None
    end;
  min_ttl := 16;
}.
#[export] Instance map_persistent : Persistent (gmap key value) := {
  p_get k p := p !! k; p_set k v p := <[k := v]> p; p_remove k p := delete k p;
}.

Lemma live_entry_le n k t v l : live_entry n k t = Some (v, l) → t !! k = Some (v, l) ∧ n ≤ l.
Proof.
  unfold live_entry. destruct (t !! k) as [[v' l']|]; [|done]. destruct (Z.leb_spec n l'); [|done].
  by intros [= -> ->].
Qed.

#[export] Instance map_temporary_laws : TemporaryLaws (gmap key (value * Z)).
Proof.
  split.
  - intros n k t v l Hk. by apply live_entry_le in Hk as [_ ?].
  - intros n n' k t Hle. cbn. unfold live_entry. destruct (t !! k) as [[v l]|]; [|done].
    destruct (Z.leb_spec n l); [done|]. by rewrite (proj2 (Z.leb_gt n' l)) by lia.
  - intros n k v k' t. cbn. unfold live_entry at 1. destruct (decide (k' = k)) as [->|Hne].
    + rewrite lookup_insert_eq. destruct (live_entry n k t) as [[v' l]|] eqn:Hk.
      * apply live_entry_le in Hk as [_ Hk]. by rewrite (proj2 (Z.leb_le n l)).
      * by rewrite (proj2 (Z.leb_le _ _)) by lia.
    + by rewrite lookup_insert_ne by done.
  - intros n k k' t. cbn. unfold live_entry. case_decide as Hk; [subst; by rewrite lookup_delete_eq|].
    by rewrite lookup_delete_ne by done.
  - intros n k th ex t Hk. cbn in *. by rewrite Hk.
  - intros n k th ex t v l Hk _. cbn in *. rewrite Hk. eexists. split; [done|]. intros k'. unfold live_entry at 1.
    apply live_entry_le in Hk as [_ Hk]. case_decide as Heq; [subst|by rewrite lookup_insert_ne by done].
    rewrite lookup_insert_eq. rewrite (proj2 (Z.leb_le _ _)); [done|]. destruct (_ <? th); lia.
  - done.
Qed.
#[export] Instance map_persistent_laws : PersistentLaws (gmap key value).
Proof.
  split; intros; cbn; case_decide as Hk; subst; by rewrite ?lookup_insert_eq, ?lookup_insert_ne, ?lookup_delete_eq, ?lookup_delete_ne.
Qed.

Definition map_env : Type := env (gmap key (value * Z)) (gmap key value).
Definition new_env : map_env := mkEnv 1000 ∅ ∅ 2000 "" [].
Definition run_map : map_env → list event → map_env :=
  history true (λ o a b, Unlisted "org_cap" [Sym o; U32 a; U32 b]) 1 20.

Lemma untouched_new : untouched new_env.
Proof. done. Qed.

Definition opening : list event :=
  [Call (Initialize "A") ["A"]; Call (RegisterMaintainer "A" "M" "org") ["A"];
   Call (ApplyForIssue "C" "org" 1) ["C"]; Pass 10000; Call (ApplyForIssue "C" "org" 2) ["C"]].

(** An application that has expired still counts as long as a later one is alive, and after it:
    an issue that was withdrawn leaves a counter of one although nothing is pending. *)
Example expired_still_counts :
  let e1 := run_map new_env (opening ++ [Pass 10000]) in
  let e2 := run_map e1 [Call (WithdrawApplication "C" "org" 2) ["C"]] in
  (applied_to e1 "C" "org" 1, applied_to e1 "C" "org" 2, count_of e1 "C") = (false, true, 2) ∧
  (applied_to e2 "C" "org" 1, applied_to e2 "C" "org" 2, count_of e2 "C") = (false, false, 1).
Proof. vm_compute. done. Qed.

(** With the cap at two the contributor is refused with one application pending. *)
Example refused_below_the_cap :
  let e := run_map new_env (opening ++ [Call (SetGlobalCap "A" 2) ["A"]; Pass 10000]) in
  (applied_to e "C" "org" 1, applied_to e "C" "org" 2) = (false, true) ∧
  fst (apply_for_issue "C" "org" 3 ["C"] e) = inl (Err GlobalApplicationLimitReached).
Proof. vm_compute. done. Qed.


Definition worked : list event :=
  opening ++ [Call (AssignIssue "M" "C" "org" 2) ["M"]; Call (AssignIssue "M" "C" "org" 1) ["M"];
              Call (CompleteAssignment "M" "C" "org" 2) ["M"]].

Lemma assignments_counted_witness :
  org_count_of (run_map new_env worked) "C" "org" ≤ 20 ∧
  fst (check_consistency [("C", "org")] [1; 2] [] (run_map new_env worked)) = inr [].
Proof.
  destruct (assignments_counted true (λ o a b, Unlisted "org_cap" [Sym o; U32 a; U32 b]) 1 20 new_env worked "C" "org"
    untouched_new) as (_ & Hle & _ & Hc).
  split; [exact Hle|]. unfold run_map. rewrite Hc. reflexivity.
Defined.

Lemma calls_authorized_witness :
  assigned_to (run_map new_env worked) "C" "org" 1 = true ∧
  (assigned_to (transact true (λ o a b, Unlisted "org_cap" [Sym o; U32 a; U32 b]) 1 20
     (RevokeAssignment "M" "C" "org" 1) [] (run_map new_env worked)) "C" "org" 1 ≠
   assigned_to (run_map new_env worked) "C" "org" 1 → ∃ m, m ∈ ([] : list string) ∧
     maintains (run_map new_env worked) m "org" = true).
Proof.
  split; [vm_compute; reflexivity|]. intros Hne.
  destruct (calls_authorized true (λ o a b, Unlisted "org_cap" [Sym o; U32 a; U32 b]) 1 20 new_env worked
    (RevokeAssignment "M" "C" "org" 1) [] "C" "org" 1 untouched_new) as (_ & Ha & _).
  exact (proj1 (Ha Hne)).
Defined.

Definition later : list event :=
  [Pass 5000; Call (ApplyForIssue "C" "org" 3) ["C"]; Pass 10000; Call (WithdrawApplication "C" "org" 3) ["C"]; Pass 2281].

Definition second : (failure + ()) * map_env :=
  invoke true (λ o a b, Unlisted "org_cap" [Sym o; U32 a; U32 b]) 1 20 (ApplyForIssue "C" "org" 2) ["C"]
    (run_map new_env (take 4 opening)).

Lemma application_lifetime_witness :
  fst (has_app_entry "C" "org" 2 [] (run_map second.2 later)) = inr false ∧
  fst (has_app_entry "C" "org" 2 [] (run_map second.2 (take 3 later))) = inr true.
Proof.
  assert (second = (inr tt, second.2)) as Hi.
  { rewrite (surjective_pairing second) at 1. f_equal. }
  pose proof (λ ys, application_lifetime true (λ o a b, Unlisted "org_cap" [Sym o; U32 a; U32 b]) 1 20 new_env (take 4 opening)
    "C" "org" 2 ["C"] second.2 ys untouched_new Hi) as Hl.
  split.
  - unfold run_map. rewrite (Hl later eq_refl). vm_compute. reflexivity.
  - unfold run_map. rewrite (Hl (take 3 later) eq_refl). vm_compute. reflexivity.
Defined.

(** A printer and a reader of the values this history publishes. *)
Definition show_value (v : native) : string :=
  match v with
  | NStr s => "s" +:+ s
  | NArr (NStr "org" :: _) => "applied"
  | NArr _ => "assigned"
  | _ => "?"
  end.
Definition read_value (s : string) : option native :=
  if String.eqb s "applied" then Some (NArr [NStr "org"; NNum 1])
  else if String.eqb s "assigned" then Some (NArr [NStr "M"; NStr "org"; NNum 1])
  else match s with String _ rest => Some (NStr rest) | EmptyString => None end.
Definition short : list event := take 3 opening ++ [Call (AssignIssue "M" "C" "org" 1) ["M"]].

Lemma index_tells_assignments_witness :
  let rows := (λ ev, parseRpcEvent read_value (λ _, Fin 0) (rpc_event show_value ev "12-0-1" "12" "now" None)) <$>
    listed (log (run_map new_env short)) in
  assigned_to (run_map new_env short) "C" "org" 1 =
    fold_left (says_assigned "C" "org" 1) (omap row_change (omap Datatypes.id rows)) false ∧
  assigned_to (run_map new_env short) "C" "org" 1 = true.
Proof.
  intros rows. split; [|vm_compute; reflexivity].
  destruct (index_tells_assignments true (λ o a b, Unlisted "org_cap" [Sym o; U32 a; U32 b]) 1 20 read_value show_value
    (λ _, Fin 0) new_env short rows "C" "org" 1 untouched_new) as [Ha _]; [..|exact Ha].
  - intros o a b. by exists "org_cap", [Sym o; U32 a; U32 b].
  - repeat constructor.
  - unfold rows. apply Forall2_fmap_r, Forall_Forall2_diag, Forall_true. intros ev.
    exists "12-0-1", "12", "now", None. reflexivity.
Defined.
