(* ===== verification/Url.v ===== *)
(** * URLs and property access

    [encodeURIComponent] and [URLSearchParams], and what reading a property of a parsed
    document does; shared by the clients of HTTP services. *)

From Stdlib Require Import String Ascii.
From S2P Require Import Prelude Js Decimal.

#[local] Open Scope string_scope.
#[local] Open Scope list_scope.
#[local] Open Scope Z_scope.

(** ** URL encoding *)

Definition hex_digit (n : Z) : ascii :=
  ascii_of_nat (Z.to_nat (if n <? 10 then 48 + n else 55 + n)).

Definition percent (c : ascii) : list ascii :=
  ["%"%char; hex_digit (code c / 16); hex_digit (code c mod 16)].

Definition alnum (c : ascii) : bool := is_upper c || is_lower c || is_digit c.
Definition one_of (s : string) (c : ascii) : bool := existsb (Ascii.eqb c) (lst s).

(** [encodeURIComponent(s)]. *)
Definition encodeURIComponent (s : string) : string :=
  str (concat ((λ c, if alnum c || one_of "-_.!~*'()" c then [c] else percent c) <$> lst s)).

(** [decodeURIComponent(s)], [None] when it throws: a percent sign without two digits.  That
    the bytes are well-formed UTF-8 is not checked: the strings are byte strings. *)
Fixpoint decode_list (l : list ascii) : option (list ascii) :=
  match l with
  | [] => Some []
  | "%"%char :: l' =>
      match l' with
      | a :: b :: l'' =>
          x ← hex_val a; y ← hex_val b; r ← decode_list l'';
          Some (ascii_of_nat (Z.to_nat (16 * x + y)) :: r)
      | _ => None
      end
  | c :: l' => r ← decode_list l'; Some (c :: r)
  end.

Definition decodeURIComponent (s : string) : option string := str <$> decode_list (lst s).

(** The serialisation of [URLSearchParams]. *)
Definition form_encode (s : string) : string :=
  str (concat ((λ c, if alnum c || one_of "*-._" c then [c]
                     else if Ascii.eqb c " " then ["+"%char] else percent c) <$> lst s)).

Definition search_params (l : list (string * string)) : string :=
  join "&" ((λ '(k, v), form_encode k +:+ "=" +:+ form_encode v) <$> l).

(** ** Parsed documents *)

(** Access to a property of [null] or [undefined] throws; of another value it does not. *)
Definition get (k : string) (v : json) : outcome (option json) :=
  match v with
  | JNull => Throw (ErrorObj "TypeError" ("Cannot read properties of null (reading '" +:+ k +:+ "')"))
  | _ => Ret (prop k v)
  end.

Fixpoint map_outcome {A B} (f : A → outcome B) (l : list A) : outcome (list B) :=
  match l with
  | [] => Ret []
  | x :: l' =>
      match f x with
      | Throw e => Throw e
      | Ret y => match map_outcome f l' with Throw e => Throw e | Ret ys => Ret (y :: ys) end
      end
  end.

(** [a === b] on values that came out of [JSON.parse]: two arrays or objects are never the
    same one. *)
Definition strict_eq (a b : json) : bool :=
  match a, b with
  | JNull, JNull => true
  | JBool x, JBool y => Bool.eqb x y
  | JNum m k, JNum n l => m * pow10 l =? n * pow10 k
  | JStr s, JStr t => String.eqb s t
  | _, _ => false
  end.

(** [JSON.stringify] of [Number(s)]: what is not finite becomes [null]. *)
Definition number_json (n : numval) : json :=
  match n with
  | NumNaN | NumInf _ => JNull
  | NumDec m e => if 0 <=? e then jint (m * 10 ^ e) else JNum m (Z.to_nat (- e))
  end.

(** [a ?? d] on a possibly [undefined] value. *)
Definition nullish_or (a : option json) (d : json) : json :=
  match a with None | Some JNull => d | Some v => v end.

(** The characters [rel=], a quote, [next], a quote. *)
Definition rel_next : string :=
  let quote := String (ascii_of_nat 34) "" in "rel=" +:+ quote +:+ "next" +:+ quote.

(** ** Lemmas *)

Lemma map_outcome_all {A B} (f : A → outcome B) (g : A → B) l :
  (∀ x, x ∈ l → f x = Ret (g x)) → map_outcome f l = Ret (g <$> l).
Proof.
  induction l as [|x l IH]; intros H; [done|]. cbn [map_outcome].
  rewrite H by set_solver. rewrite IH by set_solver. done.
Qed.

(** [Number] of a run of digits. *)
Lemma js_Number_digits s : digits (lst s) → lst s ≠ [] → js_Number s = NumDec (dval 0 (lst s)) 0.
Proof.
  intros Hd Hne. unfold js_Number.
  assert (Forall (λ c, is_ws c = false) (lst s)) as Hws
    by (eapply Forall_impl; [exact Hd|]; intros; by apply digit_not_ws).
  assert (trim_list (lst s) = lst s) as ->.
  { rewrite <- (lst_str (trim_list _)). f_equal. by apply trim_none. }
  destruct (lst s) as [|c l] eqn:E; [done|].
  assert (radix_literal (c :: l) = None) as ->.
  { destruct c as [[] [] [] [] [] [] [] []]; try done. destruct l as [|x [|d l]]; try done.
    assert (is_digit x = true) as Hx.
    { unfold digits in Hd. rewrite Forall_forall in Hd. apply Hd. set_solver. }
    destruct x as [[] [] [] [] [] [] [] []]; done. }
  assert (is_digit c = true) as Hc by (by inv Hd).
  assert (unsigned_decimal false (c :: l) = NumDec (dval 0 (c :: l)) 0) as Hu.
  { unfold unsigned_decimal. rewrite decide_False by (intros [= -> _]; done).
    rewrite span_digits_all by done. cbn [app]. rewrite app_nil_r, digits_value_all by done. done. }
  destruct c as [[] [] [] [] [] [] [] []]; done.
Qed.

(** [Number(String(n))] as it is sent. *)
Lemma number_json_pretty n : 0 ≤ n → number_json (js_Number (pretty n)) = jint n.
Proof.
  intros Hn. destruct (pretty_digits n Hn) as (Hd & Hv & Hne & _).
  rewrite js_Number_digits, Hv by done. cbn. f_equal. lia.
Qed.

Lemma str_app_nil_r (s : string) : s +:+ "" = s.
Proof. induction s as [|c s IH]; [done|]. exact (f_equal (String c) IH). Qed.

(** [String(n)] of a natural number of a document. *)
Lemma js_String_jint n : 0 ≤ n → js_String (jint n) = pretty n.
Proof.
  intros Hn. cbn [js_String jint]. unfold print_num, jint. change (pow10 0) with 1.
  rewrite Z.abs_eq, Z.div_1_r, Z.mod_1_r by done. cbn [Nat.eqb].
  replace (n <? 0) with false by lia. apply str_app_nil_r.
Qed.

(** What is encoded is read back. *)
Lemma decode_percent c l : decode_list (percent c ++ l) = (r ← decode_list l; Some (c :: r)).
Proof. by destruct c as [[] [] [] [] [] [] [] []]. Qed.

Lemma decode_plain c l : (alnum c || one_of "-_.!~*'()" c) = true →
  decode_list (c :: l) = (r ← decode_list l; Some (c :: r)).
Proof. by destruct c as [[] [] [] [] [] [] [] []]. Qed.

Lemma decode_encode s : decodeURIComponent (encodeURIComponent s) = Some s.
Proof.
  unfold decodeURIComponent, encodeURIComponent. rewrite lst_str.
  assert (∀ l, decode_list (concat ((λ c, if alnum c || one_of "-_.!~*'()" c then [c] else percent c) <$> l)) =
    Some l) as H.
  { induction l as [|c l IH]; [done|]. cbn [fmap list_fmap concat].
    destruct (alnum c || one_of "-_.!~*'()" c) eqn:E; cbn [app].
    - rewrite decode_plain by done. by rewrite IH.
    - rewrite decode_percent. by rewrite IH. }
  rewrite H. cbn. by rewrite str_lst.
Qed.

(** An encoded component holds no character that means something in a URL. *)
Lemma encode_chars s c : c ∈ lst (encodeURIComponent s) → alnum c || one_of "-_.!~*'()%" c = true.
Proof.
  unfold encodeURIComponent. rewrite lst_str. intros Hc%list_elem_of_In%in_concat.
  destruct Hc as (p & (d & -> & _)%list_elem_of_In%list_elem_of_fmap & Hin%list_elem_of_In).
  revert Hin. clear. destruct d as [[] [] [] [] [] [] [] []]; cbn; intros Hin;
    repeat (apply elem_of_cons in Hin as [->|Hin]; [reflexivity|]); by apply elem_of_nil in Hin.
Qed.

Lemma encode_nonempty s : s ≠ "" → encodeURIComponent s ≠ "".
Proof.
  intros Hs E. pose proof (decode_encode s) as Hd. rewrite E in Hd. cbn in Hd. congruence.
Qed.
