(* ===== verification/GitHub.v ===== *)
(** * The GitHub client of the API ([src/github.ts])

    [fetch], [validateOrg] and the pagination loop of [fetchIssues] over a GitHub API that
    is a parameter. *)

From Stdlib Require Import String Ascii.
From S2P Require Import Prelude Js Url.

#[local] Open Scope string_scope.
#[local] Open Scope list_scope.
#[local] Open Scope Z_scope.

(** What [fetch] resolves to; [hr_json] is [response.json()], [None] when it throws. *)
Record http_response := mkHttp {
  hr_status : Z;
  hr_statusText : string;
  hr_headers : list (string * string);
  hr_json : option json;
}.

Definition hr_ok (r : http_response) : bool := (200 <=? hr_status r) && (hr_status r <=? 299).

Record GitHubIssue := mkIssue {
  id : option json;
  number : option json;
  title : option json;
  body : option json;
  labels : list (option json);
  state_open : bool;
  created_at : option json;
  updated_at : option json;
}.

Section GitHub.
Context {N : Type}.
(** [this.token]. *)
Variable token : string.
(** The global [fetch]: an answer or a rejection. *)
Variable http : string → list (string * string) → N → (http_response + exn) * N.

Definition baseUrl : string := "https://api.github.com".

Definition request_headers : list (string * string) :=
  [("Accept", "application/vnd.github.v3+json"); ("User-Agent", "WorkloadGovernor")] ++
  (if String.eqb token "" then [] else [("Authorization", "token " +:+ token)]).

(** [this.fetch(path)]; the callers pass no options. *)
Definition fetch (path : string) : M N http_response :=
  answer ← local (http (baseUrl +:+ path) request_headers);
  match answer with
  | inr e => throw e
  | inl response =>
      if hr_ok response then mret response
      else throw (Error ("GitHub API error: " +:+ pretty (hr_status response) +:+ " " +:+
                         hr_statusText response))
  end.

Definition validateOrg (org : string) : M N bool :=
  try_catch
    (_ ← fetch ("/orgs/" +:+ encodeURIComponent org); mret true)
    (λ err, if includes "404" (error_text err) then mret false else throw err).

(** ** [fetchIssues] *)

(** [((item.labels || []) as ...).map((label) => label.name)]. *)
Definition label_names (item : json) : outcome (list (option json)) :=
  match prop "labels" item with
  | Some v =>
      if truthy v then
        match v with
        | JArr l => map_outcome (get "name") l
        | _ => Throw (ErrorObj "TypeError" "(item.labels || []).map is not a function")
        end
      else Ret []
  | None => Ret []
  end.

Definition to_issue (item : json) : outcome GitHubIssue :=
  match label_names item with
  | Throw e => Throw e
  | Ret ls =>
      Ret (mkIssue (prop "id" item) (prop "number" item) (prop "title" item) (prop "body" item)
             ls (match prop "state" item with Some (JStr s) => String.eqb s "open" | _ => false end)
             (prop "created_at" item) (prop "updated_at" item))
  end.

(** [!item.pull_request]. *)
Definition not_pull_request (item : json) : outcome bool :=
  match get "pull_request" item with
  | Throw e => Throw e
  | Ret v => Ret (negb (truthy_opt v))
  end.

(** The filter runs over the whole page before the map. *)
Definition page_issues (items : list json) : outcome (list GitHubIssue) :=
  match map_outcome not_pull_request items with
  | Throw e => Throw e
  | Ret keep =>
      map_outcome to_issue (fst <$> filter (λ p : json * bool, p.2 = true) (zip items keep))
  end.

Definition issues_path (org : string) (since : option string) (perPage page : Z) : string :=
  let params := [("state", "open"); ("per_page", pretty perPage); ("page", pretty page);
                 ("sort", "updated"); ("direction", "asc")] ++
                match since with
                | Some s => if String.eqb s "" then [] else [("since", s)]
                | None => []
                end in
  "/search/issues?" +:+ search_params params +:+ "&q=repo:" +:+ org.


(** The [link] header announces a next page. *)
Definition has_next (r : http_response) : bool :=
  match assoc "link" (hr_headers r) with
  | Some l => includes rel_next l
  | None => false
  end.

(** The loop with [fuel] pages left; [None] is the exhaustion of the fuel. *)
Fixpoint fetch_pages (fuel : nat) (org : string) (since : option string) (perPage page : Z)
    (issues : list GitHubIssue) : M N (option (list GitHubIssue)) :=
  match fuel with
  | O => mret None
  | S fuel' =>
      response ← fetch (issues_path org since perPage page);
      match hr_json response with
      | None => throw (ErrorObj "SyntaxError" "Unexpected token in JSON")
      | Some JNull => throw (ErrorObj "TypeError" "Cannot read properties of null")
      | Some data =>
          match prop "items" data with
          | Some (JArr items) =>
              match page_issues items with
              | Throw e => throw e
              | Ret pageIssues =>
                  let issues := issues ++ pageIssues in
                  if has_next response && (Z.of_nat (length pageIssues) =? perPage)
                  then fetch_pages fuel' org since perPage (page + 1) issues
                  else mret (Some issues)
              end
          | _ => mret (Some issues)
          end
      end
  end.

Definition fetchIssues (fuel : nat) (org : string) (since : option string) (perPage : Z)
    : M N (option (list GitHubIssue)) :=
  fetch_pages fuel org since perPage 1 [].

End GitHub.

(** ** Theorems *)

Section theorems.
Context {N : Type}.
Variable token : string.
Variable http : string → list (string * string) → N → (http_response + exn) * N.

(** What the search API of a repository serves: the items of its pages, with a [link] to
    the next page on all of them but the last. *)
Definition serves (org : string) (since : option string) (perPage : Z)
    (pages : list (list json)) : Prop :=
  ∀ i items n, pages !! i = Some items →
    ∃ r, http (baseUrl +:+ issues_path org since perPage (Z.of_nat i + 1))
           (request_headers token) n = (inl r, n) ∧
      hr_ok r = true ∧ hr_json r = Some (JObj [("items", JArr items)]) ∧
      has_next r = bool_decide (S i < length pages)%nat.

(** The issues the loop collects: it goes on after a page only if all of the page's items
    are issues. *)
Fixpoint collected (perPage : Z) (pages : list (list GitHubIssue)) : list GitHubIssue :=
  match pages with
  | [] => []
  | p :: ps =>
      p ++ (if Z.of_nat (length p) =? perPage then collected perPage ps else [])
  end.

Lemma fetch_page_ok path w r :
  (∀ n, http (baseUrl +:+ path) (request_headers token) n = (inl r, n)) → hr_ok r = true →
  fetch token http path w = (Ret r, w).
Proof.
  intros Hh Hok. unfold fetch. unfold mbind, M_bind, local. rewrite Hh, Hok.
  by destruct w.
Qed.

Lemma serves_fetch org since perPage pages i items w :
  serves org since perPage pages → pages !! i = Some items →
  ∃ r, fetch token http (issues_path org since perPage (Z.of_nat i + 1)) w = (Ret r, w) ∧
    hr_json r = Some (JObj [("items", JArr items)]) ∧
    has_next r = bool_decide (S i < length pages)%nat.
Proof.
  intros Hs Hi. destruct (Hs i items (st w) Hi) as (r & Hh & Hok & Hj & Hn).
  exists r. split_and!; [|done..]. unfold fetch, mbind, M_bind, local. rewrite Hh, Hok.
  by destruct w.
Qed.

Lemma fetch_pages_spec org since perPage pages : serves org since perPage pages →
  ∀ ps issues i acc w,
  drop i pages = ps → Forall2 (λ items l, page_issues items = Ret l) ps issues → ps ≠ [] →
  fetch_pages token http (length ps) org since perPage (Z.of_nat i + 1) acc w =
    (Ret (Some (acc ++ collected perPage issues)), w).
Proof.
  intros Hs. induction ps as [|items ps IH]; intros issues i acc w Hd Hf Hne; [done|].
  inversion Hf as [|? l ? issues' Hl Hf']; subst.
  assert (pages !! i = Some items) as Hi.
  { rewrite <- (Nat.add_0_r i), <- lookup_drop, Hd. done. }
  destruct (serves_fetch org since perPage pages i items w Hs Hi) as (r & Hr & Hj & Hn).
  simpl. rewrite (bind_intro _ _ _ _ _ Hr), Hj. cbn [prop assoc]. simpl. rewrite Hl, Hn.
  assert (drop (S i) pages = ps) as Hd'
    by (by rewrite <- Nat.add_1_r, <- drop_drop, Hd).
  destruct (Z.of_nat (length l) =? perPage) eqn:El; simpl.
  - destruct ps as [|items' ps].
    + rewrite bool_decide_false.
      * inversion Hf'; subst. simpl. by rewrite app_nil_r.
      * intros Hlt. apply (f_equal length) in Hd'. rewrite length_drop in Hd'. simpl in Hd'. lia.
    + rewrite bool_decide_true.
      * cbn [andb]. replace (Z.of_nat i + 1 + 1) with (Z.of_nat (S i) + 1) by lia.
        rewrite (IH issues' (S i) (acc ++ l) w Hd' Hf'); [|done]. by rewrite <- app_assoc.
      * apply (f_equal length) in Hd'. rewrite length_drop in Hd'. simpl in Hd'. lia.
  - rewrite andb_false_r. by rewrite app_nil_r.
Qed.

(** on a repository whose search has the given pages, [fetchIssues] ends within that many
    requests and returns the issues of the pages up to and including the first one that
    does not consist of [perPage] issues; in particular it returns all of them only when no
    page but the last holds a pull request. *)
Theorem fetchIssues_pages org since perPage pages issues w :
  serves org since perPage pages → pages ≠ [] →
  Forall2 (λ items l, page_issues items = Ret l) pages issues →
  fetchIssues token http (length pages) org since perPage w =
    (Ret (Some (collected perPage issues)), w) ∧
  (Forall (λ l, Z.of_nat (length l) = perPage) (take (length issues - 1) issues) →
   collected perPage issues = concat issues).
Proof.
  intros Hs Hne Hf. split.
  - exact (fetch_pages_spec org since perPage pages Hs pages issues 0 [] w eq_refl Hf Hne).
  - clear. induction issues as [|l issues IH]; intros Hfull; [done|].
    destruct issues as [|l' issues]; [simpl; by destruct (_ =? _)|].
    simpl in Hfull. inversion Hfull as [|? ? Hl Hrest]; subst. simpl.
    rewrite Z.eqb_refl. f_equal. apply IH. simpl. by rewrite Nat.sub_0_r.
Qed.

(** [validateOrg] answers [true] exactly when GitHub answers with a success; anything else
    is [false] or rethrown according to whether the text of the error contains 404. *)
Theorem validateOrg_spec org w :
  let path := "/orgs/" +:+ encodeURIComponent org in
  let '(answer, n) := http (baseUrl +:+ path) (request_headers token) (st w) in
  validateOrg token http org w =
    (match answer with
     | inl r =>
         if hr_ok r then Ret true
         else
           let e := Error ("GitHub API error: " +:+ pretty (hr_status r) +:+ " " +:+
                           hr_statusText r) in
           if includes "404" (error_text e) then Ret false else Throw e
     | inr e => if includes "404" (error_text e) then Ret false else Throw e
     end, World n (sched w)).
Proof.
  intros path. unfold validateOrg, try_catch, fetch. unfold_m. fold path.
  destruct (http (baseUrl +:+ path) (request_headers token) (st w)) as [[r|e] n].
  - destruct (hr_ok r); [done|]. by case_match.
  - by case_match.
Qed.

End theorems.

(** ** Concrete runs: two pages of one item, the first a pull request *)

Definition demo_items : list (list json) :=
  [[JObj [("id", jint 1); ("pull_request", JObj [])]]; [JObj [("id", jint 2)]]].

Definition demo_page (n : nat) : http_response :=
  mkHttp 200 "OK" (if (n =? 0)%nat then [("link", rel_next)] else [])
    (Some (JObj [("items", JArr (default [] (demo_items !! n)))])).

Definition demo_http (url : string) (_ : list (string * string)) (u : unit)
    : (http_response + exn) * unit :=
  (inl (demo_page (if String.eqb url (baseUrl +:+ issues_path "o/r" None 1 1)
                   then 0%nat else 1%nat)), u).

Lemma fetchIssues_pages_witness :
  fetchIssues "" demo_http 2 "o/r" None 1 (World tt []) =
    (Ret (Some (collected 1 [[]; [mkIssue (Some (jint 2)) None None None [] false None None]])),
     World tt []) ∧
  (Forall (λ l, Z.of_nat (length l) = 1)
     (take 1 [[]; [mkIssue (Some (jint 2)) None None None [] false None None]]) →
   collected 1 [[]; [mkIssue (Some (jint 2)) None None None [] false None None]] =
   concat [[]; [mkIssue (Some (jint 2)) None None None [] false None None]]).
Proof.
  apply (fetchIssues_pages "" demo_http "o/r" None 1 demo_items
           [[]; [mkIssue (Some (jint 2)) None None None [] false None None]] (World tt [])).
  - intros [|[|i]] items n Hi; [| |done]; simpl in Hi; simplify_eq;
      eexists; (split; [vm_compute; reflexivity|]); (split; [reflexivity|]);
      (split; reflexivity).
  - done.
  - repeat constructor.
Defined.
