(* ===== verification/Admin.v ===== *)
(** * The admin routes ([src/routes/admin.ts])

    Signature authentication, the unsigned maintainer transactions, and the registration of
    an organisation with its rollback.  A handler runs over the database, the Soroban
    service and GitHub. *)

From Stdlib Require Import String.
From S2P Require Import Prelude Js Http Validation Db Soroban Xdr GitHub.

#[local] Open Scope string_scope.
#[local] Open Scope list_scope.
#[local] Open Scope Z_scope.

Record admin_state (C G : Type) := AdminState {
  admin_db : db;
  admin_chain : @rpc_state C;
  github : G;
}.
Arguments AdminState {C G} admin_db admin_chain github.
Arguments admin_db {C G} a.
Arguments admin_chain {C G} a.
Arguments github {C G} a.

#[export, program] Instance HasDb_admin {C G} : HasDb (admin_state C G) :=
  {| get_db := admin_db; set_db d s := AdminState d (admin_chain s) (github s) |}.
Solve Obligations with (done || by intros ? ? []).

Definition on_chain {C G A} (m : M (@rpc_state C) A) : M (admin_state C G) A :=
  zoom admin_chain (λ c s, AdminState (admin_db s) c (github s)) m.

Definition on_github {C G A} (m : M G A) : M (admin_state C G) A :=
  zoom github (λ g s, AdminState (admin_db s) (admin_chain s) g) m.

Section Admin.
Context {C G : Type} `{Rpc C} `{Zod}.
Variable sc : Db.schema.
(** [parseAuthHeader] and [verifySignature] of [src/signature.ts]. *)
Variable parseAuth : option string → option SignedMessage.
Variable verifySig : option json → option json → option json → bool.
(** [github.validateOrg]. *)
Variable validateOrg : string → M G bool.
(** [soroban.registerMaintainer(admin, maintainer, org_id)]. *)
Variable registerMaintainer : string → string → string → M (@rpc_state C) unit.
(** [flatten().fieldErrors] of a failed validation. *)
Variable flatten : list issue → json.

Notation state := (admin_state C G).

Definition unauthorized : response := error_response 401 "unauthorized".

(** The middleware answers, or attaches [adminAddress] and goes on. *)
Definition signatureAuthMiddleware (r : request) : response + string :=
  match parseAuth (header "authorization" r) with
  | None => inl unauthorized
  | Some signed =>
      if verifySig (adminAddress signed) (signed_message signed) (signature signed)
      then inr (default "undefined" (js_String <$> adminAddress signed))
      else inl unauthorized
  end.

(** A string property of a validated body. *)
Definition text (k : string) (r : request) : string :=
  default "" (body_prop k r ≫= as_string).

Definition sign_message : string :=
  "Sign this transaction with your admin key and submit to /broadcast".

Definition xdr_answer (xdr : string) : response :=
  send_json 200 (obj [("xdr", Some (JStr xdr)); ("message", Some (JStr sign_message))]).

Definition lift (o : outcome Tx) : M state Tx :=
  match o with Ret a => mret a | Throw e => throw e end.

(** [INSERT INTO pending_transactions ... ON CONFLICT ... DO UPDATE]. *)
Definition upsert_pending (admin org maintainer xdr : string) : M state unit :=
  query sc [Columns "pending_transactions" ["admin_address"; "org_id"; "maintainer_address";
                                            "transaction_xdr"; "created_at"];
            ConflictTarget "pending_transactions" ["admin_address"; "maintainer_address"; "org_id"]]
    (λ d, let row := mkPending admin org maintainer xdr in
          let same p := String.eqb (p_admin p) admin && String.eqb (p_org_id p) org &&
                        String.eqb (p_maintainer p) maintainer in
          (tt, set_pending
                 (if existsb same (pending_transactions d)
                  then (λ p, if same p then row else p) <$> pending_transactions d
                  else pending_transactions d ++ [row]) d)).

(** [POST /maintainers], after authentication and validation. *)
Definition register_maintainer (account : string) (r : request) : M state response :=
  let maintainer := text "maintainer_address" r in
  let org := text "org_id" r in
  try_catch
    (tx ← lift (buildRawTransaction account (text "sequence" r) "register_maintainer"
                  [ArgAddress maintainer; ArgSymbol org]);
     _ ← upsert_pending account org maintainer (toXDR tx);
     mret (xdr_answer (toXDR tx)))
    (λ err, mret (error_response 400 (error_message "internal error" err))).

(** [sequence ?? await soroban.getAccountSequence(account)]. *)
Definition sequence_or_fetch (account : string) (r : request) : M state string :=
  match body_prop "sequence" r ≫= as_string with
  | Some s => mret s
  | None => on_chain (getAccountSequence account)
  end.

(** [DELETE /maintainers], after authentication and validation. *)
Definition deregister_maintainer (account : string) (r : request) : M state response :=
  let maintainer := text "maintainer_address" r in
  let org := text "org_id" r in
  try_catch
    (seq ← sequence_or_fetch account r;
     tx ← lift (buildRawTransaction account seq "deregister_maintainer"
                  [ArgAddress maintainer; ArgSymbol org]);
     mret (xdr_answer (toXDR tx)))
    (λ err,
      let msg := error_message "internal error" err in
      if includes "MaintainerNotFound" msg || includes "error code=17" msg then
        mret (send_json 404 (obj
          [("error", Some (JStr "MaintainerNotFound")); ("code", Some (jint 17));
           ("message", Some (JStr ("Maintainer " +:+ maintainer +:+
                                   " is not registered for org " +:+ org)))]))
      else mret (error_response 400 msg)).

(** ** [POST /orgs] *)

Definition find_org (org : string) : M state (list org_row) :=
  select sc [Columns "orgs" ["org_id"]] (λ d, filter (λ r, o_org_id r = org) (orgs d)).

(** A duplicate [org_id] violates the primary key. *)
Definition insert_org (org github_org : string) (cap : Z) : M state unit :=
  call (λ s,
    match unmet sc [Columns "orgs" ["org_id"; "github_org"; "org_cap"]] with
    | Some r => (Throw (Error (complaint r)), s)
    | None =>
        let d := get_db s in
        if existsb (λ r, String.eqb (o_org_id r) org) (orgs d)
        then (Throw (Error "duplicate key value violates unique constraint"), s)
        else (Ret tt, set_db (set_orgs (orgs d ++ [mkOrg org None (Some github_org) (Some cap)]) d) s)
    end).

Definition delete_org_row (org : string) : M state unit :=
  query sc [Columns "orgs" ["org_id"]]
    (λ d, (tt, set_orgs (filter (λ r, o_org_id r ≠ org) (orgs d)) d)).

Definition contract_error (maintainer msg : string) (registered : list string) : response :=
  send_json 502 (obj
    [("error", Some (JStr "contract_error"));
     ("message", Some (JStr ("Failed to register maintainer " +:+ maintainer +:+ ": " +:+ msg)));
     ("registered", Some (JArr (JStr <$> registered)))]).

(** The loop over the maintainers: [Some] is the answer of the rollback. *)
Fixpoint register_all (admin org : string) (registered maintainers : list string)
    : M state (option response) :=
  match maintainers with
  | [] => mret None
  | maintainer :: rest =>
      failed ← try_catch
                 (_ ← on_chain (registerMaintainer admin maintainer org); mret None)
                 (λ err, mret (Some err));
      match failed with
      | None => register_all admin org (registered ++ [maintainer]) rest
      | Some err =>
          _ ← try_catch (delete_org_row org) (λ _, mret tt);
          mret (Some (contract_error maintainer (error_message "contract error" err) registered))
      end
  end.

Definition strings (v : option json) : list string :=
  match v with Some (JArr l) => omap as_string l | _ => [] end.

Definition num_of (v : option json) : Z :=
  match v with Some (JNum m k) => jnum_int m k | _ => 0 end.

(** [POST /orgs], after authentication, with the validated data. *)
Definition register_org_data (admin : string) (data : json) : M state response :=
  let github_org := default "" (prop "github_org" data ≫= as_string) in
  let org := default "" (prop "org_id" data ≫= as_string) in
  let maintainers := strings (prop "maintainers" data) in
  let cap := num_of (prop "org_cap" data) in
  checked ← try_catch (b ← on_github (validateOrg github_org); mret (inr b))
              (λ err, mret (inl (send_json 502 (obj
                 [("error", Some (JStr "github_api_error"));
                  ("message", Some (JStr (error_message "GitHub API error" err)))]))));
  match (checked : response + bool) with
  | inl res => mret res
  | inr false =>
      mret (send_json 422 (obj
        [("error", Some (JStr "invalid_github_org"));
         ("message", Some (JStr ("GitHub organisation '" +:+ github_org +:+ "' does not exist")))]))
  | inr true =>
      existing ← find_org org;
      match existing with
      | _ :: _ =>
          mret (send_json 409 (obj
            [("error", Some (JStr "conflict"));
             ("message", Some (JStr ("Organisation '" +:+ org +:+ "' is already registered")))]))
      | [] =>
          _ ← insert_org org github_org cap;
          failed ← register_all admin org [] maintainers;
          match failed with
          | Some res => mret res
          | None =>
              mret (send_json 201 (obj
                [("org_id", Some (JStr org)); ("github_org", Some (JStr github_org));
                 ("maintainers", Some (JArr (JStr <$> maintainers)));
                 ("org_cap", Some (jint cap));
                 ("message", Some (JStr "Organisation registered successfully"))]))
          end
      end
  end.

Definition register_org (admin : string) (r : request) : M state response :=
  match safeParse registerOrgSchema (req_body r) with
  | Failure errs =>
      mret (send_json 400 (obj [("error", Some (JStr "validation_error"));
                                ("details", Some (flatten errs))]))
  | Success data => register_org_data admin data
  end.

(** A route: authentication, then validation, then the handler. *)
Definition admin_route (s : option Validation.schema) (h : string → request → M state response)
    (r : request) : M state response :=
  match signatureAuthMiddleware r with
  | inl res => mret res
  | inr admin =>
      match s with
      | None => h admin r
      | Some s =>
          match validateBody s r with
          | Respond res => mret res
          | Next r' _ => h admin r'
          end
      end
  end.

Definition post_maintainers :=
  admin_route (Some registerMaintainerBodySchema) register_maintainer.
Definition delete_maintainers :=
  admin_route (Some deregisterMaintainerBodySchema) deregister_maintainer.
Definition post_orgs := admin_route None register_org.

End Admin.

(** [SorobanService] has no method [registerMaintainer]: calling it is a [TypeError]. *)
Definition missing_method {C} (_ _ _ : string) : M (@rpc_state C) unit :=
  throw (ErrorObj "TypeError" "soroban.registerMaintainer is not a function").

(** ** Theorems *)

Section theorems.
Context {C G : Type} `{Rpc C} `{Zod}.
Variable sc : Db.schema.
Variable parseAuth : option string → option SignedMessage.
Variable verifySig : option json → option json → option json → bool.
Variable validateOrg : string → M G bool.
Variable registerMaintainer : string → string → string → M (@rpc_state C) unit.
Variable flatten : list issue → json.

Notation state := (admin_state C G).


Lemma on_chain_admin {A} (m : M (@rpc_state C) A) (w : world state) o w' :
  on_chain m w = (o, w') → admin_db (st w') = admin_db (st w).
Proof. unfold on_chain, zoom. destruct (m _) as [o1 w1]. by intros [= <- <-]. Qed.

Lemma on_github_admin {A} (m : M G A) (w : world state) o w' :
  on_github m w = (o, w') → admin_db (st w') = admin_db (st w).
Proof. unfold on_github, zoom. destruct (m _) as [o1 w1]. by intros [= <- <-]. Qed.

Hypothesis registerMaintainer_shrinks : ∀ a m o, shrinks (registerMaintainer a m o).
Hypothesis validateOrg_shrinks : ∀ o, shrinks (validateOrg o).
Hypothesis orgs_table : unmet sc [Columns "orgs" ["org_id"]] = None.
Hypothesis orgs_columns : unmet sc [Columns "orgs" ["org_id"; "github_org"; "org_cap"]] = None.

(** The loop without faults: either every maintainer is registered, or the rows of the
    organisation are gone. *)
Lemma register_all_spec admin org ms : ∀ reg (s : state),
  ∃ res s', register_all sc registerMaintainer admin org reg ms (World s []) =
              (Ret res, World s' []) ∧
    match res with
    | None => admin_db s' = admin_db s
    | Some r => status r = 502 ∧
        admin_db s' = set_orgs (filter (λ r, o_org_id r ≠ org) (orgs (admin_db s))) (admin_db s)
    end.
Proof.
  induction ms as [|m ms IH]; intros reg s; [by exists None, s|]. cbn [register_all].
  destruct (on_chain (G := G) (registerMaintainer admin m org) (World s [])) as [o w1] eqn:E.
  pose proof (on_chain_admin _ _ _ _ E) as Hd.
  assert (shrinks (on_chain (G := G) (registerMaintainer admin m org))) as Hsh
    by (by apply shrinks_zoom).
  pose proof (shrinks_fine _ _ _ _ Hsh E) as Hw. simpl in Hd.
  destruct o as [[]|err].
  - rewrite (bind_intro _ _ _ None w1)
      by (apply try_Ret; by rewrite (bind_intro _ _ _ _ _ E)).
    rewrite Hw. destruct (IH (reg ++ [m]) (st w1)) as (res & s' & Hr & Hc).
    exists res, s'. split; [exact Hr|]. by rewrite Hd in Hc.
  - rewrite (bind_intro _ _ _ (Some err) w1)
      by (rewrite (try_Throw _ _ _ err w1); [done|by rewrite (bind_throw _ _ _ _ _ E)]).
    rewrite Hw. erewrite bind_intro by (apply try_Ret; by apply query_ok).
    eexists _, _. split; [reflexivity|]. split; [done|]. simpl. by rewrite Hd.
Qed.

Lemma insert_org_fresh org gh cap (s : state) :
  Forall (λ r, o_org_id r ≠ org) (orgs (admin_db s)) →
  insert_org sc org gh cap (World s []) =
    (Ret tt, World (set_db (set_orgs (orgs (admin_db s) ++ [mkOrg org None (Some gh) (Some cap)])
                              (admin_db s)) s) []).
Proof.
  intros Hnew. unfold insert_org, call. simpl. rewrite orgs_columns.
  destruct (existsb _ _) eqn:Ex; [|done]. exfalso.
  apply existsb_exists in Ex as (r & Hr & Heq%String.eqb_eq).
  rewrite Forall_forall in Hnew. by apply (Hnew r); [apply list_elem_of_In|].
Qed.


End theorems.

(** *** [SorobanService] as it is *)

Section missing.
Context {C G : Type} `{Rpc C} `{Zod}.

(** The data of a validated body names at least one maintainer. *)
Lemma validated_maintainers body data :
  parse registerOrgSchema body = Some (Some data) → strings (prop "maintainers" data) ≠ [].
Proof.
  intros Hp. destruct (parse_object_inv _ _ _ Hp) as (o & o' & -> & [= ->] & Hf).
  assert ((∀ k s, (k, s) ∈ [("maintainers", ZArray orgs_stellarAddress
                       [min_items 1 "At least one maintainer is required";
                        max_items 10 "At most 10 maintainers allowed"])] →
           parse s (assoc k o) = Some (assoc k o'))) as Hl.
  { intros k s Hin. eapply parse_fields_lookup; [|exact Hf|].
    - repeat constructor; set_solver.
    - apply list_elem_of_singleton in Hin. simplify_eq. set_solver. }
  specialize (Hl _ _ ltac:(by apply list_elem_of_singleton)). simpl.
  destruct (assoc "maintainers" o) as [[| | | |l|]|]; try done.
  rewrite parse_array in Hl.
  destruct (all_hold _ (length l)) eqn:Eh; [|done].
  destruct (mapM _ l) as [l'|] eqn:Em; [|done]. simpl in Hl.
  injection Hl as Hl. rewrite <- Hl. destruct l as [|x l]; [done|].
  apply mapM_Some in Em. inversion Em as [|? y ? ? Hx]; subst.
  simpl in Hx. destruct x; try done. case_match; [|done]. by injection Hx as <-.
Qed.

Lemma register_all_missing sc admin org reg m ms :
  yields (λ r, ∃ res, r = Some res ∧ status res = 502)
    (register_all (C := C) (G := G) sc missing_method admin org reg (m :: ms)).
Proof.
  intros w a w' Hr. cbn [register_all] in Hr.
  apply bind_Ret in Hr as (failed & w1 & Hf & Hr).
  unfold try_catch, on_chain, zoom, missing_method in Hf. unfold_m. simplify_eq.
  destruct (delete_org_row sc org _) as [[]]; simplify_eq; by eexists.
Qed.

(** with [SorobanService] as it is, which has no [registerMaintainer], no request to
    [POST /orgs] is ever answered 201, whatever the database, GitHub and the node do. *)
Theorem register_org_never_succeeds sc validateOrg flatten admin r :
  yields (λ res, status res ≠ 201)
    (register_org (C := C) (G := G) sc validateOrg missing_method flatten admin r).
Proof.
  unfold register_org. destruct (safeParse registerOrgSchema (req_body r)) as [data|] eqn:Ep;
    [|by apply yields_ret].
  assert (strings (prop "maintainers" data) ≠ []) as Hm.
  { apply (validated_maintainers (req_body r)).
    destruct (parse registerOrgSchema (req_body r)) as [[d|]|] eqn:E.
    - rewrite (safeParse_success _ _ _ E) in Ep. by simplify_eq.
    - destruct (parse_object_inv _ _ _ E) as (? & ? & _ & ? & _). done.
    - destruct (safeParse_failure _ _ E) as [? Ef]. congruence. }
  unfold register_org_data. destruct (strings (prop "maintainers" data)) as [|m ms]; [done|].
  apply yields_bind_post with (Q := λ c, ∀ res, c = inl res → status res ≠ 201).
  { apply yields_try; [|intros e; by apply yields_ret; intros ? [= <-]].
    apply yields_bind. intros b. by apply yields_ret. }
  intros [res|[]] Hres; [by apply yields_ret, Hres| |by apply yields_ret].
  apply yields_bind. intros [|x l]; [|by apply yields_ret].
  apply yields_bind. intros _.
  eapply yields_bind_post; [apply register_all_missing|].
  intros ? (res & -> & Hst). apply yields_ret. congruence.
Qed.

End missing.

(** ** Concrete runs *)

Definition demo_data : json :=
  JObj [("github_org", JStr "stellar"); ("org_id", JStr "org");
        ("maintainers", JArr [JStr demo_account]); ("org_cap", jint 4)].

Definition demo_admin_state : admin_state unit unit := AdminState empty_db (RpcState tt []) tt.


