(* ===== verification/Contributors.v ===== *)
(** * The contributor routes ([src/routes/contributors.ts])

    The profile of a contributor, the lists of applications and assignments, the counts and
    the monthly activity, all read from the database.  Queries that the source sends
    together ([Promise.all]) are sent one after the other: they only read. *)

From Stdlib Require Import String Sorting.Sorted.
From S2P Require Import Prelude Js Http Decimal Db.

#[local] Open Scope string_scope.
#[local] Open Scope list_scope.
#[local] Open Scope Z_scope.

Definition isValidStellarAddress (addr : string) : bool :=
  (50 <=? strlen addr) && (strlen addr <=? 56) && matches_G_base32 addr.

Definition invalid_address : response := error_response 400 "invalid stellar address format".

(** ** Grouping by organisation

    A [Map] with its entries in insertion order. *)
Definition entries := list (string * (Z * Z)).

(** [map.get(k) ?? {0, 0}], updated by [f] and set again. *)
Fixpoint update (f : Z * Z → Z * Z) (k : string) (m : entries) : entries :=
  match m with
  | [] => [(k, f (0, 0))]
  | (k', v) :: m' => if String.eqb k' k then (k', f v) :: m' else (k', v) :: update f k m'
  end.

Definition add_application (m : entries) (o : string) : entries :=
  update (λ '(a, b), (a + 1, b)) o m.
Definition add_assignment (m : entries) (o : string) : entries :=
  update (λ '(a, b), (a, b + 1)) o m.

Definition breakdown (apps asgs : list string) : entries :=
  fold_left add_assignment asgs (fold_left add_application apps []).

Definition entry_json (e : string * (Z * Z)) : json :=
  obj [("org_id", Some (JStr e.1)); ("applications", Some (jint e.2.1));
       ("assignments", Some (jint e.2.2))].

(** ** Months

    A month is its number of months since year 0; the database runs in UTC. *)
Definition month_of (ms : Z) : Z :=
  let '(y, m, _) := civil_of_days (ms / 86400000) in 12 * y + (m - 1).

Definition month_label (k : Z) : string := pad4 (k / 12) +:+ "-" +:+ pad2 (k mod 12 + 1).

Record MonthlyActivityRow := mkActivity {
  month : Z;
  act_applied : Z;
  act_assigned : Z;
  act_completed : Z;
}.

Definition activity_json (r : MonthlyActivityRow) : json :=
  obj [("month", Some (JStr (month_label (month r)))); ("applied", Some (jint (act_applied r)));
       ("assigned", Some (jint (act_assigned r)));
       ("completed", Some (jint (act_completed r)))].

Definition zlen {A} (l : list A) : Z := Z.of_nat (length l).

(** The last twelve months, oldest first. *)
Definition last_months (now : Z) : list Z :=
  (λ n, month_of now - 11 + Z.of_nat n) <$> seq 0 12.

Definition in_month (k : Z) (ms : Z) : bool := month_of ms =? k.

(** The rows of the activity query. *)
Definition activity_rows (now : Z) (address : string) (d : db) : list MonthlyActivityRow :=
  (λ k, mkActivity k
     (zlen (filter (λ a, ap_contributor a = address ∧ in_month k (ap_created_at a) = true)
              (applications d)))
     (zlen (filter (λ a, as_contributor a = address ∧ in_month k (as_created_at a) = true)
              (assignments d)))
     (zlen (filter (λ e, ce_contributor e = Some address ∧ ce_event_type e = "completed" ∧
                         in_month k (ce_timestamp e) = true) (contract_events d))))
  <$> last_months now.

Definition event_json (r : contract_event_row) : json :=
  obj [("id", Some (jint (ce_id r))); ("event_type", Some (JStr (ce_event_type r)));
       ("org_id", Some (match ce_org_id r with Some o => JStr o | None => JNull end));
       ("issue_id", Some (match ce_issue_id r with Some i => jint i | None => JNull end));
       ("tx_hash", Some (JStr (ce_tx_hash r))); ("ledger", Some (jint (ce_ledger_seq r)));
       ("timestamp", Some (JStr (toISOString (ce_timestamp r))))].

Section Contributors.
Context {S : Type} `{HasDb S}.
Variable sc : schema.
(** [String(date)]. *)
Variable date_string : Z → string.

Definition to_count (n : jsnum) : Z := js_or n 0.

Definition countApplications (address : string) : M S Z :=
  c ← select sc [Columns "applications" ["contributor"]]
        (λ d, count_rows (λ a, ap_contributor a = address) (applications d));
  mret (to_count (parseInt c)).

Definition countAssignments (address : string) : M S Z :=
  c ← select sc [Columns "assignments" ["contributor"]]
        (λ d, count_rows (λ a, as_contributor a = address) (assignments d));
  mret (to_count (parseInt c)).

Definition getOrgBreakdown (address : string) : M S entries :=
  appRows ← select sc [Columns "applications" ["org_id"; "contributor"]]
              (λ d, ap_org_id <$> filter (λ a, ap_contributor a = address) (applications d));
  asgRows ← select sc [Columns "assignments" ["org_id"; "contributor"]]
              (λ d, as_org_id <$> filter (λ a, as_contributor a = address) (assignments d));
  mret (breakdown appRows asgRows).

Definition count_events (address : string) : M S string :=
  select sc [Columns "contract_events" ["contributor"]]
    (λ d, count_rows (λ e, ce_contributor e = Some address) (contract_events d)).

(** Activity in [contract_events] only; a failing query counts as none. *)
Definition orphan_activity (address : string) : M S bool :=
  try_catch (c ← count_events address; mret (negb (to_count (parseInt c) =? 0)))
    (λ _, mret false).

Definition recent_events (address : string) : M S (list json) :=
  try_catch
    (rows ← select sc [Columns "contract_events" ["id"; "event_type"; "org_id"; "issue_id";
                         "tx_hash"; "ledger_seq"; "timestamp"; "contributor"]]
              (λ d, order_desc ce_timestamp (filter (λ e, ce_contributor e = Some address) (contract_events d)));
     mret (event_json <$> js_slice (Fin 0) (Fin 50) rows))
    (λ _, mret []).

(** A route that answers 500 when its queries fail. *)
Definition guarded (address : string) (m : M S response) : M S response :=
  if isValidStellarAddress address
  then try_catch m (λ err, mret (error_response 500 (error_message "internal server error" err)))
  else mret invalid_address.

(** [GET /:address]. *)
Definition get_profile (address : string) : M S response :=
  guarded address
    (globalApplicationCount ← countApplications address;
     globalAssignmentCount ← countAssignments address;
     active ← (if (globalApplicationCount =? 0) && (globalAssignmentCount =? 0)
               then orphan_activity address else mret true);
     if negb active then mret (error_response 404 "contributor not found") else
     orgs ← getOrgBreakdown address;
     recentEvents ← recent_events address;
     mret (send_json 200 (obj
       [("address", Some (JStr address));
        ("global_application_count", Some (jint globalApplicationCount));
        ("global_assignment_count", Some (jint globalAssignmentCount));
        ("orgs", Some (JArr (entry_json <$> orgs)));
        ("recent_events", Some (JArr recentEvents))]))).

(** [GET /:address/stats]. *)
Definition get_stats (address : string) : response :=
  send_json 200 (obj [("address", Some (JStr address));
                      ("global_application_count", Some (jint 2));
                      ("org_assignment_counts", Some (obj [("org_stellar_001", Some (jint 1))]))]).

(** The title and status of an issue; a failing or empty lookup keeps the defaults. *)
Definition issue_meta (issueId : Z) : M S (string * string) :=
  try_catch
    (rows ← select sc [Columns "issues" ["title"; "status"; "id"]; Int4 (Fin issueId)]
              (λ d, filter (λ i, i_id i = issueId) (issues d));
     mret (match rows with
           | i :: _ => (i_title i, i_status i)
           | [] => ("Unknown Issue", "open")
           end))
    (λ _, mret ("Unknown Issue", "open")).

Definition enriched (contributor org : string) (issueId created_at : Z) : M S json :=
  meta ← issue_meta issueId;
  mret (obj [("contributor", Some (JStr contributor)); ("org_id", Some (JStr org));
             ("issue_id", Some (jint issueId));
             ("created_at", Some (JStr (date_string created_at)));
             ("title", Some (JStr meta.1)); ("status", Some (JStr meta.2))]).

(** [Promise.all(rows.map(f))]. *)
Definition enrich_all {A} (f : A → M S json) (rows : list A) : M S (list json) :=
  for_fold (λ acc r, j ← f r; mret (acc ++ [j])) [] rows.

(** [GET /:address/applications]. *)
Definition get_applications (address : string) : M S response :=
  guarded address
    (apps ← select sc [Columns "applications" ["contributor"; "org_id"; "issue_id"; "created_at"]]
              (λ d, filter (λ a, ap_contributor a = address) (applications d));
     rows ← enrich_all (λ a, enriched (ap_contributor a) (ap_org_id a) (ap_issue_id a)
                               (ap_created_at a)) apps;
     mret (send_json 200 (JArr rows))).

(** [GET /:address/assignments]. *)
Definition get_assignments (address : string) : M S response :=
  guarded address
    (asgs ← select sc [Columns "assignments" ["contributor"; "org_id"; "issue_id"; "created_at"]]
              (λ d, filter (λ a, as_contributor a = address) (assignments d));
     rows ← enrich_all (λ a, enriched (as_contributor a) (as_org_id a) (as_issue_id a)
                               (as_created_at a)) asgs;
     mret (send_json 200 (JArr rows))).

(** [GET /:address/counts]. *)
Definition get_counts (address : string) : M S response :=
  guarded address
    (totalApplications ← countApplications address;
     totalAssignments ← countAssignments address;
     byOrganization ← getOrgBreakdown address;
     mret (send_json 200 (obj
       [("totalApplications", Some (jint totalApplications));
        ("totalAssignments", Some (jint totalAssignments));
        ("byOrganization", Some (JArr (entry_json <$> byOrganization)))]))).

(** [GET /:address/activity] at time [now]. *)
Definition get_activity (now : Z) (address : string) : M S response :=
  guarded address
    (rows ← select sc [Columns "applications" ["created_at"; "contributor"];
                       Columns "assignments" ["created_at"; "contributor"];
                       Columns "contract_events" ["timestamp"; "contributor"; "event_type"]]
              (activity_rows now address);
     mret (send_json 200 (obj [("activity", Some (JArr (activity_json <$> rows)))]))).

End Contributors.

(** ** Lemmas *)

Definition lookup_entry (k : string) (m : entries) : Z * Z := default (0, 0) (assoc k m).

Lemma update_keys f k m :
  (update f k m).*1 = if decide (k ∈ m.*1) then m.*1 else m.*1 ++ [k].
Proof.
  induction m as [|[k' v] m IH]; [done|]. cbn [update].
  destruct (String.eqb_spec k' k) as [->|Hne]; rewrite !fmap_cons; cbn [fst].
  - by rewrite decide_True by set_solver.
  - rewrite IH. destruct (decide (k ∈ m.*1)).
    + by rewrite decide_True by set_solver.
    + by rewrite decide_False by set_solver.
Qed.

Lemma update_lookup f k k' m :
  lookup_entry k' (update f k m) =
    if decide (k' = k) then f (lookup_entry k m) else lookup_entry k' m.
Proof.
  unfold lookup_entry. induction m as [|[k2 v] m IH]; simpl.
  - destruct (String.eqb_spec k' k) as [->|]; [by rewrite decide_True|by rewrite decide_False].
  - destruct (String.eqb_spec k2 k) as [->|Hne]; simpl.
    + rewrite String.eqb_refl. destruct (String.eqb_spec k' k) as [->|Hk]; case_decide; done.
    + destruct (String.eqb_spec k' k2) as [->|Hk].
      * by rewrite decide_False by done.
      * rewrite IH. case_decide; [|done]. subst.
        by destruct (String.eqb_spec k k2).
Qed.

Definition occ (k : string) (l : list string) : Z := zlen (filter (λ x, x = k) l).

Lemma occ_cons k x l : occ k (x :: l) = (if decide (x = k) then 1 else 0) + occ k l.
Proof. unfold occ, zlen. rewrite filter_cons. case_decide; simpl length; lia. Qed.

Lemma add_applications_lookup l : ∀ m k,
  lookup_entry k (fold_left add_application l m) =
    ((lookup_entry k m).1 + occ k l, (lookup_entry k m).2).
Proof.
  induction l as [|x l IH]; intros m k; simpl; [destruct (lookup_entry k m) as [a b]; cbn; unfold occ, zlen; f_equal; cbn; lia|].
  rewrite IH, occ_cons. unfold add_application. rewrite update_lookup.
  destruct (decide (k = x)) as [->|Hne].
  - rewrite decide_True by done. destruct (lookup_entry x m); simpl. f_equal. lia.
  - rewrite (decide_False (P := x = k)) by done. done.
Qed.

Lemma add_assignments_lookup l : ∀ m k,
  lookup_entry k (fold_left add_assignment l m) =
    ((lookup_entry k m).1, (lookup_entry k m).2 + occ k l).
Proof.
  induction l as [|x l IH]; intros m k; simpl; [destruct (lookup_entry k m) as [a b]; cbn; unfold occ, zlen; f_equal; cbn; lia|].
  rewrite IH, occ_cons. unfold add_assignment. rewrite update_lookup.
  destruct (decide (k = x)) as [->|Hne].
  - rewrite decide_True by done. destruct (lookup_entry x m); simpl. f_equal. lia.
  - rewrite (decide_False (P := x = k)) by done. done.
Qed.

Lemma fold_update_keys (g : string → Z * Z → Z * Z) l : ∀ m, NoDup m.*1 →
  let m' := fold_left (λ m k, update (g k) k m) l m in
  NoDup m'.*1 ∧ ∀ k, k ∈ m'.*1 ↔ k ∈ m.*1 ∨ k ∈ l.
Proof.
  induction l as [|x l IH]; intros m Hn; simpl; [set_solver|].
  destruct (IH (update (g x) x m)) as [H1 H2].
  { rewrite update_keys. case_decide; [done|].
    apply NoDup_app. split_and!; [done|set_solver|apply NoDup_singleton]. }
  split; [done|]. intros k. rewrite H2, update_keys. case_decide; set_solver.
Qed.

Lemma breakdown_keys apps asgs k :
  NoDup (breakdown apps asgs).*1 ∧
  (k ∈ (breakdown apps asgs).*1 ↔ k ∈ apps ∨ k ∈ asgs).
Proof.
  destruct (fold_update_keys (λ _ '(a, b), (a + 1, b)) apps []) as [N1 K1]; [constructor|].
  destruct (fold_update_keys (λ _ '(a, b), (a, b + 1)) asgs
    (fold_left add_application apps []) N1) as [N2 K2].
  split; [exact N2|]. etrans; [apply K2|]. rewrite (K1 k). set_solver.
Qed.

Lemma breakdown_lookup apps asgs k :
  lookup_entry k (breakdown apps asgs) = (occ k apps, occ k asgs).
Proof.
  unfold breakdown. rewrite add_assignments_lookup, add_applications_lookup. cbn. by f_equal; lia.
Qed.

(** The totals over a list of entries. *)
Definition total (m : entries) : Z * Z :=
  (foldr Z.add 0 (m.*2.*1), foldr Z.add 0 (m.*2.*2)).

Lemma update_total f da db k m :
  (∀ v, f v = (v.1 + da, v.2 + db)) →
  total (update f k m) = ((total m).1 + da, (total m).2 + db).
Proof.
  intros Hf. induction m as [|[k' v] m IH]; unfold total in *; cbn [update].
  - rewrite Hf. cbn. f_equal; lia.
  - destruct (String.eqb k' k); rewrite !fmap_cons; cbn [foldr fst snd].
    + rewrite Hf. cbn. f_equal; lia.
    + injection IH as H1 H2. rewrite H1, H2. f_equal; lia.
Qed.

Lemma fold_total f da db l : (∀ v, f v = (v.1 + da, v.2 + db)) → ∀ m,
  total (fold_left (λ m k, update f k m) l m) =
    ((total m).1 + da * zlen l, (total m).2 + db * zlen l).
Proof.
  intros Hf. unfold zlen. induction l as [|x l IH]; intros m; cbn [fold_left].
  - apply injective_projections; cbn; lia.
  - rewrite IH, (update_total f da db) by done. apply injective_projections; cbn [fst snd length]; lia.
Qed.

Lemma breakdown_total apps asgs : total (breakdown apps asgs) = (zlen apps, zlen asgs).
Proof.
  unfold breakdown, add_application, add_assignment.
  rewrite (fold_total _ 0 1), (fold_total _ 1 0) by (intros []; apply injective_projections; cbn; lia).
  apply injective_projections; cbn [fst snd total foldr fmap list_fmap]; lia.
Qed.

(** A row is looked up by its key. *)
Lemma lookup_entry_elem m k v : NoDup m.*1 → (k, v) ∈ m → lookup_entry k m = v.
Proof.
  unfold lookup_entry. induction m as [|[k' v'] m IH]; [set_solver|].
  rewrite fmap_cons. cbn [fst]. intros [Hk Hn]%NoDup_cons [Heq|Hin]%elem_of_cons; cbn.
  - simplify_eq. by rewrite String.eqb_refl.
  - destruct (String.eqb_spec k k') as [->|]; [|by apply IH].
    exfalso. apply Hk, list_elem_of_fmap. by exists (k', v).
Qed.

Lemma last_months_spec now :
  length (last_months now) = 12%nat ∧ NoDup (last_months now) ∧
  (∀ i k, last_months now !! i = Some k → k = month_of now - 11 + Z.of_nat i) ∧
  ∀ k, k ∈ last_months now ↔ month_of now - 11 ≤ k ≤ month_of now.
Proof.
  unfold last_months. split_and!.
  - by rewrite length_fmap, length_seq.
  - apply NoDup_fmap_2; [intros i j; lia|apply NoDup_seq].
  - intros i k. rewrite list_lookup_fmap, fmap_Some. intros (n & Hn & ->).
    apply lookup_seq in Hn as [-> _]. lia.
  - intros k. rewrite list_elem_of_fmap. split.
    + intros (n & -> & Hn). apply elem_of_seq in Hn. lia.
    + intros Hk. exists (Z.to_nat (k - (month_of now - 11))).
      split; [lia|]. apply elem_of_seq. lia.
Qed.

Lemma window_column {A} (P : A → Prop) `{∀ x, Decision (P x)} (ms : A → Z) now l :
  foldr Z.add 0 ((λ k, zlen (filter (λ x, P x ∧ in_month k (ms x) = true) l)) <$> last_months now) =
  zlen (filter (λ x, P x ∧ month_of now - 11 ≤ month_of (ms x) ≤ month_of now) l).
Proof.
  destruct (last_months_spec now) as (_ & Hn & _ & Hm).
  etrans; [|etrans; [apply (count_by_key (λ x, month_of (ms x)) _ (filter P l) Hn)|]].
  - f_equal. apply list_fmap_ext. intros _ k _. unfold zlen. do 2 f_equal. rewrite list_filter_filter.
    apply list_filter_iff. intros x. unfold in_month. rewrite Z.eqb_eq. tauto.
  - unfold zlen. do 2 f_equal. rewrite list_filter_filter. apply list_filter_iff. intros x.
    rewrite Hm. tauto.
Qed.

Section theorems.
Context {S : Type} `{HasDb S}.

Lemma to_count_Fin z : to_count (Fin z) = z.
Proof. by destruct z. Qed.

Lemma countApplications_ok address (s : S) :
  countApplications migrate_schema address (World s []) =
    (Ret (zlen (filter (λ a, ap_contributor a = address) (applications (get_db s)))), World s []).
Proof.
  unfold countApplications. erewrite bind_intro by (by apply select_ok).
  by rewrite parse_count, to_count_Fin.
Qed.

Lemma countAssignments_ok address (s : S) :
  countAssignments migrate_schema address (World s []) =
    (Ret (zlen (filter (λ a, as_contributor a = address) (assignments (get_db s)))), World s []).
Proof.
  unfold countAssignments. erewrite bind_intro by (by apply select_ok).
  by rewrite parse_count, to_count_Fin.
Qed.

Lemma getOrgBreakdown_ok address (s : S) :
  getOrgBreakdown migrate_schema address (World s []) =
    (Ret (breakdown
            (ap_org_id <$> filter (λ a, ap_contributor a = address) (applications (get_db s)))
            (as_org_id <$> filter (λ a, as_contributor a = address) (assignments (get_db s)))),
     World s []).
Proof.
  unfold getOrgBreakdown. by do 2 erewrite bind_intro by (by apply select_ok).
Qed.

Lemma zlen_zero {A} (l : list A) : (zlen l =? 0) = bool_decide (l = []).
Proof. by destruct l. Qed.

Lemma zlen_fmap {A B} (f : A → B) l : zlen (f <$> l) = zlen l.
Proof. unfold zlen. by rewrite length_fmap. Qed.

Lemma orphan_activity_ok address (s : S) :
  orphan_activity migrate_schema address (World s []) =
    (Ret (negb (bool_decide (filter (λ e, ce_contributor e = Some address)
                               (contract_events (get_db s)) = []))), World s []).
Proof.
  unfold orphan_activity. apply try_Ret. unfold count_events.
  erewrite bind_intro by (by apply select_ok). rewrite parse_count.
  by rewrite to_count_Fin, <- zlen_zero.
Qed.

Lemma recent_events_ok address (s : S) :
  recent_events migrate_schema address (World s []) =
    (Ret (event_json <$> take 50 (order_desc ce_timestamp (filter (λ e, ce_contributor e = Some address)
                                               (contract_events (get_db s))))), World s []).
Proof.
  unfold recent_events. apply try_Ret. erewrite bind_intro by (by apply select_ok).
  by rewrite js_slice_fin by lia.
Qed.

(** the profile of a valid address, over the schema [migrate] creates and without
    faults: 404 exactly when no table mentions the contributor; otherwise the global counts
    are the numbers of rows, each organisation appears once with its own counts, which add
    up to the global ones, and the events are the fifty newest, newest first. *)
Theorem profile_correct address (s : S) :
  isValidStellarAddress address = true →
  let d := get_db s in
  let apps := ap_org_id <$> filter (λ a, ap_contributor a = address) (applications d) in
  let asgs := as_org_id <$> filter (λ a, as_contributor a = address) (assignments d) in
  let evs := filter (λ e, ce_contributor e = Some address) (contract_events d) in
  ∃ orgs newest,
    get_profile migrate_schema address (World s []) =
      (Ret (if bool_decide (apps = [] ∧ asgs = [] ∧ evs = [])
            then error_response 404 "contributor not found"
            else send_json 200 (obj
              [("address", Some (JStr address));
               ("global_application_count", Some (jint (zlen apps)));
               ("global_assignment_count", Some (jint (zlen asgs)));
               ("orgs", Some (JArr (entry_json <$> orgs)));
               ("recent_events", Some (JArr (event_json <$> take 50 newest)))])),
       World s []) ∧
    NoDup orgs.*1 ∧
    (∀ o a b, (o, (a, b)) ∈ orgs → a = occ o apps ∧ b = occ o asgs ∧ (o ∈ apps ∨ o ∈ asgs)) ∧
    total orgs = (zlen apps, zlen asgs) ∧
    newest ≡ₚ evs ∧ descending ce_timestamp newest.
Proof.
  intros Hv d apps asgs evs. exists (breakdown apps asgs), (order_desc ce_timestamp evs).
  destruct (order_desc_spec ce_timestamp evs) as [Hp Hn]. split_and!; [|by apply breakdown_keys|
    |apply breakdown_total|done|done].
  2:{ intros o a b Ho. destruct (breakdown_keys apps asgs o) as [Hd Hk].
      pose proof (lookup_entry_elem _ _ _ Hd Ho) as Hl. rewrite breakdown_lookup in Hl.
      injection Hl as <- <-. split_and!; [done..|]. apply Hk, list_elem_of_fmap. by eexists (o, _). }
  unfold get_profile, guarded. rewrite Hv. apply try_Ret.
  erewrite bind_intro by apply countApplications_ok.
  erewrite bind_intro by apply countAssignments_ok.
  erewrite (bind_intro _ _ _ (negb (bool_decide (apps = [] ∧ asgs = [] ∧ evs = [])))).
  2:{ rewrite <- (zlen_fmap ap_org_id), <- (zlen_fmap as_org_id), !zlen_zero.
      fold d. fold apps asgs.
      destruct apps, asgs; cbn; [rewrite orphan_activity_ok; fold d; fold evs; by destruct evs|..];
        reflexivity. }
  rewrite negb_involutive. destruct (bool_decide _); [done|].
  erewrite bind_intro by apply getOrgBreakdown_ok.
  erewrite bind_intro by apply recent_events_ok.
  rewrite <- (zlen_fmap ap_org_id), <- (zlen_fmap as_org_id). done.
Qed.

(** the activity of a valid address, over the schema [migrate] creates and without
    faults: twelve rows, one per month from eleven months ago to the current one and in
    that order, and every column adds up to the number of rows of the contributor that
    fall into the window. *)
Theorem activity_window now address (s : S) :
  isValidStellarAddress address = true →
  let d := get_db s in
  let inside ms := month_of now - 11 ≤ month_of ms ≤ month_of now in
  let rows := activity_rows now address d in
  get_activity migrate_schema now address (World s []) =
    (Ret (send_json 200 (obj [("activity", Some (JArr (activity_json <$> rows)))])), World s []) ∧
  length rows = 12%nat ∧
  (∀ i r, rows !! i = Some r → month r = month_of now - 11 + Z.of_nat i) ∧
  foldr Z.add 0 (act_applied <$> rows) =
    zlen (filter (λ a, ap_contributor a = address ∧ inside (ap_created_at a)) (applications d)) ∧
  foldr Z.add 0 (act_assigned <$> rows) =
    zlen (filter (λ a, as_contributor a = address ∧ inside (as_created_at a)) (assignments d)) ∧
  foldr Z.add 0 (act_completed <$> rows) =
    zlen (filter (λ e, (ce_contributor e = Some address ∧ ce_event_type e = "completed") ∧
                       inside (ce_timestamp e)) (contract_events d)).
Proof.
  intros Hv d inside rows. destruct (last_months_spec now) as (Hl & Hn & Hi & Hm).
  split_and!.
  - unfold get_activity, guarded. rewrite Hv. apply try_Ret.
    by erewrite bind_intro by (by apply select_ok).
  - unfold rows, activity_rows. by rewrite length_fmap.
  - intros i r. unfold rows, activity_rows. rewrite list_lookup_fmap, fmap_Some.
    intros (k & Hk & ->). by apply Hi.
  - by apply (window_column (λ a, ap_contributor a = address) ap_created_at).
  - by apply (window_column (λ a, as_contributor a = address) as_created_at).
  - etrans; [|by apply (window_column (λ e, ce_contributor e = Some address ∧
                          ce_event_type e = "completed") ce_timestamp)].
    unfold rows, activity_rows. rewrite <- list_fmap_compose. f_equal.
    apply list_fmap_ext. intros _ k _. cbn. f_equal. apply list_filter_iff. tauto.
Qed.

End theorems.

(** ** Concrete runs *)

Definition alice : string := "GAAAAAAAAAAAAAAAAAAAAAAAAAAAAAAAAAAAAAAAAAAAAAAAAAAAAAAA".

Definition sample_db : db :=
  mkDb [] [] 1
    [mkApplication alice "org_b" 1 "pending" 1700000000000;
     mkApplication "someone" "org_c" 2 "pending" 1700000000000;
     mkApplication alice "org_b" 3 "pending" 1710000000000]
    [mkAssignment alice "org_a" 1 "active" 1710000000000]
    [mkContractEvent 1 "applied" (Some alice) (Some "org_b") (Some 1) "t1" 0 5 1700000000000;
     mkContractEvent 2 "completed" (Some alice) (Some "org_a") (Some 1) "t2" 0 6 1710000000000]
    3 [] [] 1 [] [].

Example sample_breakdown :
  breakdown ["org_b"; "org_b"] ["org_a"] = [("org_b", (2, 0)); ("org_a", (0, 1))].
Proof. reflexivity. Qed.

Example sample_months : month_label <$> last_months 1710000000000 =
  ["2023-04"; "2023-05"; "2023-06"; "2023-07"; "2023-08"; "2023-09"; "2023-10"; "2023-11";
   "2023-12"; "2024-01"; "2024-02"; "2024-03"].
Proof. vm_compute. reflexivity. Qed.

Lemma profile_correct_witness :
  ∃ orgs newest,
    get_profile migrate_schema alice (World sample_db []) =
      (Ret (send_json 200 (obj
              [("address", Some (JStr alice));
               ("global_application_count", Some (jint 2));
               ("global_assignment_count", Some (jint 1));
               ("orgs", Some (JArr (entry_json <$> orgs)));
               ("recent_events", Some (JArr (event_json <$> take 50 newest)))])),
       World sample_db []) ∧ total orgs = (2, 1).
Proof.
  destruct (profile_correct alice sample_db) as (orgs & newest & H & _ & _ & Ht & _);
    [vm_compute; reflexivity|].
  exists orgs, newest. split; [exact H|exact Ht].
Defined.

Lemma activity_window_witness :
  length (activity_rows 1710000000000 alice sample_db) = 12%nat ∧
  foldr Z.add 0 (act_completed <$> activity_rows 1710000000000 alice sample_db) = 1.
Proof.
  destruct (activity_window 1710000000000 alice sample_db) as (_ & H1 & _ & _ & _ & H2);
    [vm_compute; reflexivity|].
  split; [exact H1|]. etrans; [exact H2|]. vm_compute. reflexivity.
Defined.
