(* ===== verification/Browser.v ===== *)
(** * What the frontend uses of the browser

    [localStorage], the comparator sort of [Array.prototype.sort], reading a date, shortened
    addresses, and the page arithmetic its tables share. *)

From Stdlib Require Import String Ascii Sorted.
From S2P Require Import Prelude Js Decimal Paging.

#[local] Open Scope string_scope.
#[local] Open Scope list_scope.
#[local] Open Scope Z_scope.

(** ** [localStorage] *)

Definition storage := gmap string string.

Definition getItem (k : string) (s : storage) : option string := s !! k.
Definition setItem (k v : string) (s : storage) : storage := <[k := v]> s.
Definition removeItem (k : string) (s : storage) : storage := delete k s.

(** A truthy string of a possibly missing one. *)
Definition filled (o : option string) : option string :=
  match o with Some "" => None | _ => o end.

(** ** Sorting

    [sort(cmp)] is stable; a comparator that returns [NaN] says [equal].  Its result is
    specified only for a consistent comparator, and every comparator below is one on the
    values the API produces. *)
Definition goes_before (c : jsnum) : bool := match c with Fin z => z <? 0 | NaN => false end.

Fixpoint insert_by {A} (cmp : A → A → jsnum) (e : A) (l : list A) : list A :=
  match l with
  | [] => [e]
  | x :: l' => if goes_before (cmp e x) then e :: l else x :: insert_by cmp e l'
  end.

Definition sort_by {A} (cmp : A → A → jsnum) (l : list A) : list A :=
  fold_left (λ acc e, insert_by cmp e acc) l [].

(** ** Dates *)

(** The day number of a civil date. *)
Definition days_of_civil (y m d : Z) : Z :=
  let y' := if m <=? 2 then y - 1 else y in
  let era := y' / 400 in
  let yoe := y' mod 400 in
  let mp := if 2 <? m then m - 3 else m + 9 in
  let doy := (153 * mp + 2) / 5 + d - 1 in
  let doe := yoe * 365 + yoe / 4 - yoe / 100 + doy in
  era * 146097 + doe - 719468.

Definition digits_of (l : list ascii) : option Z :=
  match l with
  | [] => None
  | _ => if forallb is_digit l then Some (digits_value 0 l) else None
  end.

Definition days_in_month (y m : Z) : Z :=
  if m =? 2 then (if (y mod 4 =? 0) && (negb (y mod 100 =? 0) || (y mod 400 =? 0)) then 29 else 28)
  else if (m =? 4) || (m =? 6) || (m =? 9) || (m =? 11) then 30 else 31.

Definition date_part (l : list ascii) : option Z :=
  match l with
  | [a; b; c; d; "-"%char; e; f; "-"%char; g; h] =>
      y ← digits_of [a; b; c; d]; m ← digits_of [e; f]; dd ← digits_of [g; h];
      if (1 <=? m) && (m <=? 12) && (1 <=? dd) && (dd <=? days_in_month y m)
      then Some (days_of_civil y m dd) else None
  | _ => None
  end.

Definition clock (hh mm ss ms : option Z) : option Z :=
  h ← hh; m ← mm; s ← ss; f ← ms;
  if (h <=? 23) && (m <=? 59) && (s <=? 59) then Some (h * 3600000 + m * 60000 + s * 1000 + f)
  else None.

Definition time_part (l : list ascii) : option Z :=
  match l with
  | [] => Some 0
  | ["T"%char; a; b; ":"%char; c; d; ":"%char; e; f; "Z"%char] =>
      clock (digits_of [a; b]) (digits_of [c; d]) (digits_of [e; f]) (Some 0)
  | ["T"%char; a; b; ":"%char; c; d; ":"%char; e; f; "."%char; g; h; i; "Z"%char] =>
      clock (digits_of [a; b]) (digits_of [c; d]) (digits_of [e; f]) (digits_of [g; h; i])
  | _ => None
  end.

(** [new Date(s).getTime()] of the UTC forms of the date-time format of the language, which
    are the ones [toISOString] prints and the date-only one; the others (local times, and
    what only some engines read) are not distinguished from an invalid date. *)
Definition getTime (s : string) : jsnum :=
  match date_part (take 10 (lst s)), time_part (drop 10 (lst s)) with
  | Some d, Some t => Fin (d * 86400000 + t)
  | _, _ => NaN
  end.

Example getTime_iso : getTime "2026-07-20T12:00:00.123Z" = Fin 1784548800123.
Proof. reflexivity. Qed.
Example getTime_day : getTime "1970-01-02" = Fin 86400000.
Proof. reflexivity. Qed.
Example getTime_leap : getTime "2025-02-29" = NaN.
Proof. reflexivity. Qed.

(** ** Shortened text *)

(** [s.slice(-n)], for [n] above 0. *)
Definition slice_last (n : nat) (s : string) : string := str (drop (length (lst s) - n) (lst s)).

Definition ellipsis : string := "…".

(** [s.length > n ? `${s.slice(0, a)}…${s.slice(-b)}` : s]. *)
Definition shorten (n : Z) (a b : nat) (s : string) : string :=
  if n <? strlen s then slice_to a s +:+ ellipsis +:+ slice_last b s else s.

(** The text between double quotes. *)
Definition quoted (s : string) : string :=
  let quote := String (ascii_of_nat 34) "" in quote +:+ s +:+ quote.

(** ** Pages *)

(** [Math.ceil(total / size)], and what a pager that shows at least one page says. *)
Definition pages (total size : Z) : Z := ceil_div total size.
Definition last_page (total size : Z) : Z := Z.max 1 (pages total size).

(** A pager with its two buttons, [None] when it is not drawn. *)
Record pager := mkPager { prev_disabled : bool; next_disabled : bool }.

Definition draw_pager (page last : Z) : option pager :=
  if last <=? 1 then None else Some (mkPager (page =? 1) (page =? last)).

(** ** Lemmas *)

Section sort.
Context {A : Type}.

Lemma insert_by_perm (cmp : A → A → jsnum) e l : insert_by cmp e l ≡ₚ e :: l.
Proof.
  induction l as [|x l IH]; [done|]. cbn [insert_by]. case_match; [done|]. rewrite IH. constructor.
Qed.

Lemma sort_by_perm (cmp : A → A → jsnum) l : sort_by cmp l ≡ₚ l.
Proof.
  unfold sort_by.
  assert (∀ acc, fold_left (λ acc e, insert_by cmp e acc) l acc ≡ₚ l ++ acc) as H.
  { induction l as [|x l IH]; intros acc; cbn [fold_left app]; [done|].
    by rewrite IH, insert_by_perm, Permutation_middle. }
  by rewrite H, app_nil_r.
Qed.

(** A comparator that subtracts finite keys sorts by them. *)
Section keyed.
Variables (cmp : A → A → jsnum) (key : A → Z).

Definition by_key (l : list A) : Prop :=
  ∀ a b, a ∈ l → b ∈ l → cmp a b = Fin (key a - key b).

Lemma insert_by_sorted e l : by_key (e :: l) → StronglySorted (λ a b, key a ≤ key b) l →
  StronglySorted (λ a b, key a ≤ key b) (insert_by cmp e l).
Proof.
  intros Hk. induction 1 as [|x l Hl IH Hx]; cbn [insert_by]; [repeat constructor|].
  rewrite (Hk e x) by set_solver. cbn [goes_before].
  destruct (Z.ltb_spec (key e - key x) 0).
  - constructor; [by constructor|]. constructor; [lia|].
    eapply Forall_impl; [exact Hx|]. cbn. lia.
  - constructor.
    + apply IH. intros a b Ha Hb. apply Hk; set_solver.
    + rewrite insert_by_perm. constructor; [lia|done].
Qed.

Lemma sort_by_sorted l : by_key l → StronglySorted (λ a b, key a ≤ key b) (sort_by cmp l).
Proof.
  unfold sort_by. intros Hk.
  assert (∀ acc, by_key (l ++ acc) → StronglySorted (λ a b, key a ≤ key b) acc →
    StronglySorted (λ a b, key a ≤ key b) (fold_left (λ acc e, insert_by cmp e acc) l acc)) as H.
  { clear Hk. induction l as [|x l IH]; intros acc Hk Hs; cbn [fold_left]; [done|]. apply IH.
    - intros a b. rewrite !elem_of_app, !insert_by_perm. intros Ha Hb. apply Hk; set_solver.
    - apply insert_by_sorted; [|done]. intros a b Ha Hb. apply Hk; set_solver. }
  apply H; [|constructor]. by rewrite app_nil_r.
Qed.

(** No element goes before an earlier one. *)
Lemma sort_by_order l : by_key l →
  StronglySorted (λ a b, goes_before (cmp b a) = false) (sort_by cmp l).
Proof.
  intros Hk. pose proof (sort_by_sorted l Hk) as Hs.
  assert (by_key (sort_by cmp l)) as Hk' by (intros a b; rewrite !sort_by_perm; apply Hk).
  induction Hs as [|a l' Hl' IH Ha]; [constructor|]. constructor.
  - apply IH. intros x y Hx Hy. apply Hk'; set_solver.
  - apply Forall_forall. intros b Hb. rewrite Hk' by set_solver. rewrite Forall_forall in Ha.
    specialize (Ha b Hb). cbn. apply Z.ltb_ge. lia.
Qed.

End keyed.
End sort.

Lemma getItem_setItem k v s : getItem k (setItem k v s) = Some v.
Proof. apply lookup_insert_eq. Qed.

Lemma getItem_setItem_ne k k' v s : k ≠ k' → getItem k' (setItem k v s) = getItem k' s.
Proof. apply lookup_insert_ne. Qed.

Lemma last_page_spec total size : 0 ≤ total → 0 < size →
  (last_page total size - 1) * size ≤ total ∧ total ≤ last_page total size * size ∧
  (0 < total → (last_page total size - 1) * size < total).
Proof.
  intros Ht Hs. unfold last_page, pages. pose proof (ceil_div_spec total size Hs). nia.
Qed.
