(* ===== verification/Preferences.v ===== *)
(** * What the frontend remembers of its reader ([src/frontend/src/])

    The theme ([theme.ts], [hooks/useTheme.ts]), the settings of each wallet
    ([hooks/useSettings.ts]), the wallet itself ([hooks/useWallet.ts]), the order and pins of the
    organisations ([components/OrgBookmarkList.tsx]), the onboarding and the first hint: state
    machines over [localStorage]. *)

From Stdlib Require Import String Ascii Sorted.
From stdpp Require Import sorting.
From S2P Require Import Prelude Js Decimal Browser.

#[local] Open Scope string_scope.
#[local] Open Scope list_scope.
#[local] Open Scope Z_scope.

(** [localStorage], or [None] where each access throws. *)
Definition local_storage := option storage.

Definition read_item (k : string) (ls : local_storage) : option string := ls ≫= getItem k.
Definition write_item (k v : string) (ls : local_storage) : local_storage := setItem k v <$> ls.
Definition remove_item (k : string) (ls : local_storage) : local_storage := removeItem k <$> ls.

Definition is_some {A} (o : option A) : bool := match o with Some _ => true | None => false end.

(** ** The theme *)

Module Theme.

Inductive preference := dark | light | system.
#[export] Instance preference_eq_dec : EqDecision preference.
Proof. solve_decision. Defined.

Definition STORAGE_KEY : string := "wg-theme".
Definition name (dark : bool) : string := if dark then "dark" else "light".

(** The reader's browser: what it stores, what the system prefers, the attribute [data-theme] of
    the document, and what the button says, [true] for dark. *)
Record page := mkPage {
  store : local_storage;
  os_dark : bool;
  data_theme : option string;
  button : option bool;
}.

Definition getStoredPreference (p : page) : option preference :=
  match read_item STORAGE_KEY (store p) with
  | Some "dark" => Some dark
  | Some "light" => Some light
  | _ => None
  end.

Definition shouldUseDarkMode (p : page) : bool :=
  match getStoredPreference p with Some dark => true | Some light => false | _ => os_dark p end.

Definition isDark (p : page) : bool := bool_decide (data_theme p = Some "dark").

Definition applyTheme (d : bool) (p : page) : page := mkPage (store p) (os_dark p) (Some (name d)) (button p).
Definition updateToggleIcon (p : page) : page := mkPage (store p) (os_dark p) (data_theme p) (Some (isDark p)).

Definition setTheme (pref : preference) (p : page) : page :=
  let ls := match pref with
            | system => remove_item STORAGE_KEY (store p)
            | dark => write_item STORAGE_KEY "dark" (store p)
            | light => write_item STORAGE_KEY "light" (store p)
            end in
  let p1 := mkPage ls (os_dark p) (data_theme p) (button p) in
  updateToggleIcon
    (applyTheme (match pref with system => shouldUseDarkMode p1 | dark => true | light => false end) p1).

Definition handleToggleClick (p : page) : page := setTheme (if isDark p then light else dark) p.

Definition handleOsChange (matches : bool) (p : page) : page :=
  let p1 := mkPage (store p) matches (data_theme p) (button p) in
  match getStoredPreference p1 with
  | Some _ => p1
  | None => updateToggleIcon (applyTheme matches p1)
  end.

Definition initTheme (p : page) : page := updateToggleIcon (applyTheme (shouldUseDarkMode p) p).

(** The script of the head, before anything is drawn. *)
Definition FOUC_PREVENTION_SNIPPET (p : page) : page :=
  match store p with
  | None => p
  | Some _ =>
      match getStoredPreference p with
      | Some dark => applyTheme true p
      | Some _ => applyTheme false p
      | None => if os_dark p then applyTheme true p else p
      end
  end.

Inductive event := Set_ (pref : preference) | ToggleClick | OsChange (matches : bool).

Definition step (p : page) (e : event) : page :=
  match e with
  | Set_ pref => setTheme pref p
  | ToggleClick => handleToggleClick p
  | OsChange b => handleOsChange b p
  end.

Definition history (p : page) (es : list event) : page := fold_left step es (initTheme p).

(** *** The hook ([useTheme.ts]): the same key, two classes and another default *)

Record hook_page := mkHookPage { stored : local_storage; theme : bool; classes : gset string; attribute : option string }.

Definition getInitialTheme (ls : local_storage) (os_light : option bool) : bool :=
  match read_item STORAGE_KEY ls with
  | Some "dark" => true
  | Some "light" => false
  | _ => match os_light with Some l => negb l | None => true end
  end.

Definition apply_class (d : bool) (p : hook_page) : hook_page :=
  mkHookPage (stored p) (theme p)
    (if d then ({["theme-dark"]} ∪ classes p) ∖ {["theme-light"]} else ({["theme-light"]} ∪ classes p) ∖ {["theme-dark"]})
    (Some (name d)).

Definition mount (ls : local_storage) (os_light : option bool) (cs : gset string) : hook_page :=
  let d := getInitialTheme ls os_light in apply_class d (mkHookPage ls d cs None).

Definition toggle (p : hook_page) : hook_page :=
  let d := negb (theme p) in
  apply_class d (mkHookPage (write_item STORAGE_KEY (name d) (stored p)) d (classes p) (attribute p)).

(** *** Lemmas and theorems *)

Lemma isDark_name d p : data_theme p = Some (name d) → isDark p = d.
Proof. unfold isDark. intros ->. by destruct d. Qed.

(** What the document and the button show is what the store and the system ask for. *)
Definition agrees (p : page) : Prop :=
  data_theme p = Some (name (shouldUseDarkMode p)) ∧ button p = Some (shouldUseDarkMode p).

Lemma agrees_shown p d : shouldUseDarkMode p = d → agrees (updateToggleIcon (applyTheme d p)).
Proof.
  intros <-. split; [done|]. cbn [updateToggleIcon button].
  f_equal. by rewrite (isDark_name (shouldUseDarkMode p)).
Qed.

Lemma agrees_step p e : is_some (store p) = true → agrees p →
  agrees (step p e) ∧ is_some (store (step p e)) = true.
Proof.
  intros Hs Ha. destruct p as [[ls|] os dt btn]; [|done].
  assert (∀ pref os dt btn, agrees (setTheme pref (mkPage (Some ls) os dt btn)) ∧
    is_some (store (setTheme pref (mkPage (Some ls) os dt btn))) = true) as Hset.
  { intros pref os' dt' btn'. unfold setTheme. destruct pref; (split; [apply agrees_shown|done]);
      unfold shouldUseDarkMode, getStoredPreference, read_item, write_item, remove_item; cbn [store fmap option_fmap option_map mbind option_bind];
      rewrite ?getItem_setItem; done. }
  destruct e as [pref| |b]; cbn [step]; [apply Hset|apply Hset|].
  unfold handleOsChange. cbn [store os_dark data_theme button].
  destruct (getStoredPreference _) as [q|] eqn:Eq.
  - split; [|done]. destruct Ha as [Hd Hb]. unfold agrees, shouldUseDarkMode in *.
    unfold getStoredPreference in *. cbn [store data_theme button os_dark] in *. rewrite Eq in *.
    assert (q ≠ system) by (intros ->; repeat case_match; done). by destruct q.
  - split; [|done]. apply agrees_shown. unfold shouldUseDarkMode. by rewrite Eq.
Qed.

(** As long as the browser can store, the page is dark exactly when the stored preference says
    so or, without one, when the system does, and the button says the same, whatever was
    chosen, toggled and changed in the system before; the script of the head has already
    darkened the page exactly when it starts dark. *)
Theorem theme_agrees p es : is_some (store p) = true →
  agrees (history p es) ∧
  (data_theme p = None → isDark (FOUC_PREVENTION_SNIPPET p) = shouldUseDarkMode p).
Proof.
  intros Hs. split.
  - assert (agrees (history p es) ∧ is_some (store (history p es)) = true) as [H _]; [|done].
    unfold history. induction es as [|e es IH] using rev_ind.
    + split; [by apply agrees_shown|done].
    + rewrite fold_left_app. cbn [fold_left]. destruct IH. by apply agrees_step.
  - intros Hd. unfold FOUC_PREVENTION_SNIPPET, shouldUseDarkMode. destruct (store p) eqn:E; [|done].
    destruct (getStoredPreference p) as [[]|] eqn:Eg; cbn; try done.
    + exfalso. unfold getStoredPreference in Eg. repeat case_match; done.
    + destruct (os_dark p); [done|]. unfold isDark. by rewrite Hd.
Qed.

Lemma theme_agrees_witness :
  agrees (history (mkPage (Some ∅) true None None) [ToggleClick; OsChange true; Set_ system; OsChange false]) ∧
  data_theme (history (mkPage (Some ∅) true None None) [ToggleClick; OsChange true]) = Some "light".
Proof.
  destruct (theme_agrees (mkPage (Some ∅) true None None) [ToggleClick; OsChange true; Set_ system; OsChange false])
    as [H _]; [reflexivity|].
  split; [exact H|vm_compute; reflexivity].
Defined.

(** Where storing throws, the choice is lost with the next change of the system. *)
Example choice_not_kept : data_theme (history (mkPage None true None None) [Set_ light; OsChange true]) = Some "dark".
Proof. vm_compute. reflexivity. Qed.
End Theme.

(** ** The settings of each wallet ([useSettings.ts]) *)

Module Settings.

(** An object as the code spreads it; [gmap] because the order of its keys is never looked at. *)
Definition settings := gmap string json.

Definition DEFAULT_SETTINGS : settings :=
  list_to_map [("theme", JStr "system"); ("language", JStr "en"); ("defaultOrg", JStr "");
               ("hideApplied", JBool false); ("emailNotifications", JBool false)].

Definition storageKey (address : option string) : string := "wg_settings_" +:+ default "anonymous" address.

(** [{...DEFAULT_SETTINGS, ...v}]: the properties of an object, the elements of an array and the
    characters of a string; nothing of the rest. *)
Definition entries (v : json) : settings :=
  match v with
  | JObj l => list_to_map (rev l)
  | JArr l => list_to_map (imap (λ i x, (pretty (Z.of_nat i), x)) l)
  | JStr s => list_to_map (imap (λ i c, (pretty (Z.of_nat i), JStr (String c ""))) (lst s))
  | _ => ∅
  end.
Definition spread (v : json) : settings := entries v ∪ DEFAULT_SETTINGS.

Section settings.
(** [JSON.parse], [None] where it throws, and [JSON.stringify] of the settings. *)
Variable JSON_parse : string → option json.
Variable JSON_stringify : settings → string.

Definition load (ls : local_storage) (address : option string) : settings :=
  match filled (read_item (storageKey address) ls) with
  | None => DEFAULT_SETTINGS
  | Some raw => match JSON_parse raw with Some v => spread v | None => DEFAULT_SETTINGS end
  end.

Definition save (address : option string) (s : settings) (ls : local_storage) : local_storage :=
  write_item (storageKey address) (JSON_stringify s) ls.

(** The attributes of the document. *)
Record root := mkRoot { data_theme : option json; lang : option json }.

Definition theme_attribute (theme : option json) : option json :=
  match theme with Some (JStr s) => if String.eqb s "system" then None else theme | _ => theme end.
Definition applyTheme (theme : option json) (r : root) : root := mkRoot (theme_attribute theme) (lang r).
Definition applyLanguage (l : option json) (r : root) : root := mkRoot (data_theme r) l.

Record page := mkPage { store : local_storage; address : option string; shown : settings; document : root }.

(** The effects that follow a change of the settings. *)
Definition apply_effects (p : page) : page :=
  mkPage (store p) (address p) (shown p)
    (applyLanguage (shown p !! "language") (applyTheme (shown p !! "theme") (document p))).

Inductive event :=
  | Connect (address : option string)         (** another wallet, or none *)
  | updateSetting (key : string) (value : json)
  | resetSettings.

Definition step (p : page) (e : event) : page :=
  match e with
  | Connect a => apply_effects (mkPage (store p) a (load (store p) a) (document p))
  | updateSetting k v =>
      let next := <[k := v]> (shown p) in
      apply_effects (mkPage (save (address p) next (store p)) (address p) next (document p))
  | resetSettings =>
      apply_effects (mkPage (save (address p) DEFAULT_SETTINGS (store p)) (address p) DEFAULT_SETTINGS (document p))
  end.

Definition mount (ls : local_storage) (a : option string) : page :=
  apply_effects (mkPage ls a (load ls a) (mkRoot None None)).

Definition history (ls : local_storage) (a : option string) (es : list event) : page :=
  fold_left step es (mount ls a).

(** *** What the settings promise: each wallet has its own, kept for the next time.

    No wallet counts as a wallet of the name [anonymous]. *)

Record spec := mkSpec { who : option string; kept : option string → settings }.

Definition wallet_name (a : option string) : string := default "anonymous" a.

Definition keep (a : option string) (s : settings) (f : option string → settings) : option string → settings :=
  λ b, if decide (wallet_name b = wallet_name a) then s else f b.

Definition spec_step (x : spec) (e : event) : spec :=
  match e with
  | Connect a => mkSpec a (kept x)
  | updateSetting k v => mkSpec (who x) (keep (who x) (<[k := v]> (kept x (who x))) (kept x))
  | resetSettings => mkSpec (who x) (keep (who x) DEFAULT_SETTINGS (kept x))
  end.

Definition implements (p : page) (x : spec) : Prop :=
  is_some (store p) = true ∧ address p = who x ∧ shown p = kept x (who x) ∧
  (∀ a, load (store p) a = kept x a) ∧
  data_theme (document p) = theme_attribute (shown p !! "theme") ∧
  lang (document p) = shown p !! "language".

(** The two functions of the language keep settings, where what is written back is read: true of
    what JSON can say. *)
Definition kept_by_json (s : settings) : Prop :=
  JSON_stringify s ≠ "" ∧ ∃ v, JSON_parse (JSON_stringify s) = Some v ∧ spread v = s.

(** The settings that a history saves. *)
Fixpoint saves (P : settings → Prop) (x : spec) (es : list event) : Prop :=
  match es with
  | [] => True
  | e :: es' =>
      match e with
      | Connect _ => True
      | updateSetting k v => P (<[k := v]> (kept x (who x)))
      | resetSettings => P DEFAULT_SETTINGS
      end ∧ saves P (spec_step x e) es'
  end.

Lemma load_save a b s ls : is_some ls = true → kept_by_json s →
  load (save a s ls) b = if decide (wallet_name b = wallet_name a) then s else load ls b.
Proof.
  destruct ls as [m|]; [|done]. intros _ (Hne & v & Hp & Hs). unfold load, save, read_item, write_item.
  cbn [fmap option_fmap option_map mbind option_bind]. case_decide as E.
  - unfold storageKey, wallet_name in *. rewrite E, getItem_setItem. rewrite <- Hs at 2.
    destruct (JSON_stringify s) as [|c t] eqn:Ej; [done|]. cbn [filled]. by rewrite Hp.
  - rewrite getItem_setItem_ne; [done|]. intros Hk. apply E. by injection Hk.
Qed.

Lemma implements_step p x e : implements p x → saves kept_by_json x [e] → implements (step p e) (spec_step x e).
Proof.
  intros (Hs & Ha & Hsh & Hl & _ & _) [He _].
  assert (∀ s, kept_by_json s → implements (apply_effects (mkPage (save (address p) s (store p)) (address p) s (document p)))
    (mkSpec (who x) (keep (who x) s (kept x)))) as Hkeep.
  { intros s Hgood. split; [by destruct (store p)|]. split; [done|]. unfold keep. cbn [shown kept who].
    split; [by rewrite decide_True|]. split; [|done]. intros b. cbn [apply_effects store]. rewrite load_save, Hl by done.
    by rewrite Ha. }
  destruct e as [a|k v|]; cbn [step spec_step]; [|by rewrite <- Hsh in *; apply Hkeep|by apply Hkeep].
  split; [done|]. split; [done|]. split; [apply Hl|]. by split.
Qed.

Lemma implements_history es : ∀ p x, implements p x → saves kept_by_json x es →
  implements (fold_left step es p) (fold_left spec_step es x).
Proof.
  induction es as [|e es IH]; intros p x Hp; [done|]. intros [He Hes]. cbn [fold_left].
  apply IH; [|done]. by apply implements_step.
Qed.
End settings.



(** A reader who chose dark with the button of the page ([wg-theme]) and changed no setting: the
    settings take the attribute away. *)
Example button_overridden :
  data_theme (applyTheme (DEFAULT_SETTINGS !! "theme") (mkRoot (Some (JStr "dark")) None)) = None.
Proof. reflexivity. Qed.
End Settings.

(** ** The wallet ([useWallet.ts]) *)

Module Wallet.

Definition STORAGE_KEY : string := "wg_wallet_pubkey".

Record state := mkState {
  store : storage;
  publicKey : option string;
  error : option string;
  connecting : bool;
  networkMismatch : bool;
  isInstalled : bool;
}.

Definition mount (s : storage) : state := mkState s (getItem STORAGE_KEY s) None false false true.

(** What the three calls of the extension answer: its [error], or what it was asked for. *)
Record freighter := mkFreighter {
  is_connected : outcome (option string * bool);
  get_address : outcome (option string * string);
  get_network : outcome (option string * string);
}.

(** [VITE_STELLAR_NETWORK || 'TESTNET'] *)
Definition expectedNetwork (env : option string) : string := toUpperCase (default "TESTNET" (filled env)).

Inductive event :=
  | Begin                          (** [connect] until its first [await] *)
  | Finish (f : freighter)         (** the rest of it *)
  | Disconnect.

Definition fail (installed : bool) (msg : string) (s : state) : state :=
  mkState (store s) (publicKey s) (Some msg) false (networkMismatch s) installed.
Definition caught (installed : bool) (e : exn) (s : state) : state := fail installed (error_message "Unknown error" e) s.

(** The body of [connect] and its [finally]. *)
Definition finish (env : option string) (f : freighter) (s : state) : state :=
  match is_connected f with
  | Throw e => caught (isInstalled s) e s
  | Ret (err, connected) =>
      if is_some (filled err) || negb connected
      then fail false "Freighter extension not found. Please install it." s
      else match get_address f with
           | Throw e => caught true e s
           | Ret (err, address) =>
               match filled err with
               | Some msg => fail true msg s
               | None =>
                   match get_network f with
                   | Throw e => caught true e s
                   | Ret (err, network) =>
                       let mismatch := negb (is_some (filled err)) && negb (String.eqb network "") &&
                                       negb (String.eqb (toUpperCase network) (expectedNetwork env)) in
                       mkState (setItem STORAGE_KEY address (store s)) (Some address) (error s) false
                         (networkMismatch s || mismatch) true
                   end
               end
           end
  end.

Definition step (env : option string) (s : state) (e : event) : state :=
  match e with
  | Begin => mkState (store s) (publicKey s) None true false (isInstalled s)
  | Finish f => finish env f s
  | Disconnect => mkState (removeItem STORAGE_KEY (store s)) None None (connecting s) false (isInstalled s)
  end.

Definition history (env : option string) (s : storage) (es : list event) : state := fold_left (step env) es (mount s).

(** What the extension has to answer for a wallet to be connected. *)
Definition grants (f : freighter) (address : string) : Prop :=
  ∃ err err' err'' n, is_connected f = Ret (err, true) ∧ filled err = None ∧
    get_address f = Ret (err', address) ∧ filled err' = None ∧ get_network f = Ret (err'', n).

Lemma finish_cases env f s :
  (∃ address, grants f address ∧ publicKey (finish env f s) = Some address ∧
     store (finish env f s) = setItem STORAGE_KEY address (store s)) ∨
  ((∀ address, ¬ grants f address) ∧ publicKey (finish env f s) = publicKey s ∧
     store (finish env f s) = store s ∧ is_some (error (finish env f s)) = true).
Proof.
  unfold finish, grants.
  destruct (is_connected f) as [[err []]|e] eqn:E1; cbn [negb orb]; rewrite ?orb_true_r, ?orb_false_r;
    [|right; split; [naive_solver|done]..].
  destruct (filled err) as [m|] eqn:F1; cbn [is_some]; [right; split; [naive_solver|done]|].
  destruct (get_address f) as [[err' a]|e] eqn:E2; [|right; split; [naive_solver|done]].
  destruct (filled err') as [m|] eqn:F2; [right; split; [naive_solver|done]|].
  destruct (get_network f) as [[err'' n]|e] eqn:E3; [|right; split; [naive_solver|done]].
  left. exists a. split; [by exists err, err', err'', n|done].
Qed.

(** The wallet shown is always the one that is stored, so that the next visit shows the same:
    after any connections and disconnections, however their answers interleave, a fresh page
    shows the same wallet; it is the one the extension granted last, and an attempt that fails
    leaves it as it was and says why. *)
Theorem wallet_remembered env s es :
  let p := history env s es in
  publicKey p = getItem STORAGE_KEY (store p) ∧
  publicKey (mount (store p)) = publicKey p ∧
  ∀ f, let p' := step env p (Finish f) in
    connecting p' = false ∧
    ((∃ address, grants f address ∧ publicKey p' = Some address) ∨
     ((∀ address, ¬ grants f address) ∧ publicKey p' = publicKey p ∧ is_some (error p') = true)).
Proof.
  intros p. assert (publicKey p = getItem STORAGE_KEY (store p)) as Hp.
  { subst p. unfold history. induction es as [|e es IH] using rev_ind; [done|].
    rewrite fold_left_app. cbn [fold_left]. set (q := fold_left _ es _) in *.
    destruct e as [|f|]; cbn [step publicKey store]; [done| |symmetry; apply (lookup_delete_eq (M := gmap string))].
    destruct (finish_cases env f q) as [(a & _ & -> & ->)|(_ & -> & -> & _)]; [|done].
    by rewrite getItem_setItem. }
  split; [done|]. split; [done|]. intros f p'. split.
  - subst p'. cbn [step]. unfold finish, caught, fail. by repeat case_match.
  - destruct (finish_cases env f p) as [(a & Ha & Hk & _)|(Hno & Hk & _ & He)]; [left; by exists a|right; by repeat split].
Qed.

(** A wallet on another network is connected all the same. *)
Example other_network :
  let p := history None ∅ [Begin; Finish (mkFreighter (Ret (None, true)) (Ret (None, "GA")) (Ret (None, "PUBLIC")))] in
  publicKey p = Some "GA" ∧ networkMismatch p = true.
Proof. done. Qed.

(** A connection that was under way when the reader disconnected brings the wallet back. *)
Example disconnected_too_early :
  publicKey (history None ∅ [Begin; Disconnect; Finish (mkFreighter (Ret (None, true)) (Ret (None, "GA")) (Ret (None, "TESTNET")))]) =
  Some "GA".
Proof. done. Qed.
End Wallet.

(** ** The list of organisations ([OrgBookmarkList.tsx]) *)

Module Bookmarks.

Record OrgItem := mkOrg { id : string; label : string }.

Definition MAX_PINS : nat := 3.
Definition PINNED_KEY (wallet : string) : string := "wg:pinned:" +:+ wallet.
Definition ORDER_KEY (wallet : string) : string := "wg:orgOrder:" +:+ wallet.
Definition storage_key (walletAddress : option string) : string := default "__guest__" walletAddress.

(** [indexOf], and [findIndex] of an organisation. *)
Fixpoint indexOf (x : string) (l : list string) : option nat :=
  match l with
  | [] => None
  | y :: l' => if String.eqb x y then Some O else S <$> indexOf x l'
  end.

(** [new Map(order.map((id, i) => [id, i]))].get(id): the last of equal entries. *)
Fixpoint orderMap (order : list string) (x : string) : option nat :=
  match order with
  | [] => None
  | y :: l => match orderMap l x with
              | Some i => Some (S i)
              | None => if String.eqb x y then Some O else None
              end
  end.

Definition position (orgs : list OrgItem) (order : list string) (o : OrgItem) : Z :=
  match orderMap order (id o) with
  | Some i => Z.of_nat i
  | None => match indexOf (id o) (id <$> orgs) with Some i => Z.of_nat i | None => -1 end
  end.

Definition applyOrder (orgs : list OrgItem) (order : list string) : list OrgItem :=
  sort_by (λ a b, Fin (position orgs order a - position orgs order b)) orgs.

Definition has (x : string) (l : list string) : bool := bool_decide (x ∈ l).

Definition floatPinned (sorted : list OrgItem) (pinned : list string) : list OrgItem :=
  filter (λ o, has (id o) pinned) sorted ++ filter (λ o, negb (has (id o) pinned)) sorted.

(** [new Set(l)], in the order its elements came in. *)
Fixpoint distinct (l : list string) : list string :=
  match l with [] => [] | x :: l' => x :: filter (λ y, y ≠ x) (distinct l') end.

Record state := mkState {
  store : storage;
  wallet : string;
  order : list string;
  pinned : list string;       (** a set, in the order it was filled *)
  dragId : option string;
  overId : option string;
}.

Section list.
Variables (JSON_parse : string → option (list string)) (JSON_stringify : list string → string).
Variable orgs : list OrgItem.

Definition readJson (key : string) (s : storage) : list string :=
  match filled (getItem key s) with Some raw => default [] (JSON_parse raw) | None => [] end.

Definition sorted (s : state) : list OrgItem := floatPinned (applyOrder orgs (order s)) (pinned s).

(** The two effects that write what is shown under the key of the wallet. *)
Definition persist (s : state) : state :=
  mkState (setItem (PINNED_KEY (wallet s)) (JSON_stringify (pinned s))
            (setItem (ORDER_KEY (wallet s)) (JSON_stringify (order s)) (store s)))
    (wallet s) (order s) (pinned s) (dragId s) (overId s).

Definition mount (st : storage) (walletAddress : option string) : state :=
  let w := storage_key walletAddress in
  persist (mkState st w (readJson (ORDER_KEY w) st) (distinct (readJson (PINNED_KEY w) st)) None None).

(** What a new order starts from: what is shown, then what was kept. *)
Definition base (s : state) : list string :=
  let ids := id <$> sorted s in
  let current := match ids with [] => id <$> orgs | _ => ids end in
  filter (λ x, has x (id <$> orgs)) (distinct (current ++ order s)).

(** [next.splice(i, 1); next.splice(j, 0, x)] *)
Definition move (i j : nat) (x : string) (l : list string) : list string :=
  let l' := delete i l in take j l' ++ x :: drop j l'.

Definition swap (i j : nat) (l : list string) : list string :=
  match l !! i, l !! j with
  | Some a, Some b => <[i := b]> (<[j := a]> l)
  | _, _ => l
  end.

Inductive event :=
  | DragStart (x : string) | DragOver (x : string) | Drop | DragEnd
  | ArrowUp (x : string) | ArrowDown (x : string)
  | TogglePin (x : string) | ResetOrder
  | SwitchWallet (walletAddress : option string).

Definition set_order (o : list string) (s : state) : state :=
  mkState (store s) (wallet s) o (pinned s) (dragId s) (overId s).

Definition reorder (f : list string → option (list string)) (s : state) : state :=
  match f (base s) with Some next => set_order next s | None => s end.

Definition handleDrop (s : state) : state :=
  match filled (dragId s), filled (overId s) with
  | Some from, Some to =>
      if String.eqb from to then s
      else let s' := reorder (λ b, i ← indexOf from b; j ← indexOf to b; Some (move i j from b)) s in
           mkState (store s') (wallet s') (order s') (pinned s') None None
  | _, _ => s
  end.

Definition togglePin (x : string) (l : list string) : list string :=
  if has x l then filter (λ y, y ≠ x) l
  else if (length l <? MAX_PINS)%nat then l ++ [x] else l.

Definition step (s : state) (e : event) : state :=
  match e with
  | DragStart x => mkState (store s) (wallet s) (order s) (pinned s) (Some x) (overId s)
  | DragOver x => mkState (store s) (wallet s) (order s) (pinned s) (dragId s) (Some x)
  | Drop => persist (handleDrop s)
  | DragEnd => mkState (store s) (wallet s) (order s) (pinned s) None (overId s)
  | ArrowUp x =>
      persist (reorder (λ b, i ← indexOf x b; Some (match i with O => b | S j => swap i j b end)) s)
  | ArrowDown x =>
      persist (reorder (λ b, i ← indexOf x b; Some (if (S i <? length b)%nat then swap i (S i) b else b)) s)
  | TogglePin x =>
      persist (mkState (store s) (wallet s) (order s) (togglePin x (pinned s)) (dragId s) (overId s))
  | ResetOrder => persist (mkState (store s) (wallet s) [] [] (dragId s) (overId s))
  | SwitchWallet a => persist (mkState (store s) (storage_key a) (order s) (pinned s) (dragId s) (overId s))
  end.

Definition history (st : storage) (a : option string) (es : list event) : state := fold_left step es (mount st a).
End list.

(** *** Lemmas *)

Lemma indexOf_lookup x l i : indexOf x l = Some i → l !! i = Some x.
Proof.
  revert i. induction l as [|y l IH]; intros i; [done|]. cbn [indexOf]. destruct (String.eqb_spec x y) as [->|].
  - by intros [= <-].
  - destruct (indexOf x l) as [j|]; [|done]. intros [= <-]. by apply IH.
Qed.

Lemma indexOf_nodup x l i : NoDup l → l !! i = Some x → indexOf x l = Some i.
Proof.
  intros Hl. revert i. induction Hl as [|y l Hy _ IH]; intros i; [done|]. cbn [indexOf]. destruct i as [|i].
  - intros [= ->]. by rewrite String.eqb_refl.
  - intros Hi. change (l !! i = Some x) in Hi.
    destruct (String.eqb_spec x y) as [->|]; [by apply list_elem_of_lookup_2 in Hi|]. by rewrite (IH i Hi).
Qed.

Lemma orderMap_in x l i : orderMap l x = Some i → x ∈ l.
Proof.
  revert i. induction l as [|y l IH]; intros i; [done|]. cbn [orderMap].
  destruct (orderMap l x) as [j|] eqn:E; [intros _; right; by eapply IH|].
  destruct (String.eqb_spec x y) as [->|]; [intros _; left|done].
Qed.

Lemma orderMap_nodup x l i : NoDup l → l !! i = Some x → orderMap l x = Some i.
Proof.
  intros Hl. revert i. induction Hl as [|y l Hy _ IH]; intros i; [done|]. cbn [orderMap]. destruct i as [|i].
  - intros [= ->]. destruct (orderMap l x) eqn:E; [by apply orderMap_in in E|]. by rewrite String.eqb_refl.
  - intros Hi. change (l !! i = Some x) in Hi. by rewrite (IH i Hi).
Qed.

Section sorting.
Context (orgs : list OrgItem) (Hids : NoDup (id <$> orgs)).

(** An order of all the organisations is the order they are shown in. *)
Lemma applyOrder_shown next : next ≡ₚ id <$> orgs → id <$> applyOrder orgs next = next.
Proof.
  intros Hp. assert (NoDup next) as Hnd by (by rewrite Hp).
  set (pos x := match indexOf x next with Some i => Z.of_nat i | None => -1 end).
  assert (∀ i x, next !! i = Some x → pos x = Z.of_nat i) as Hpos
    by (intros i x Hi; unfold pos; by rewrite (indexOf_nodup _ _ _ Hnd Hi)).
  assert (applyOrder orgs next ≡ₚ orgs) as Hperm by apply sort_by_perm.
  apply (StronglySorted_unique_strong (λ a b, pos a ≤ pos b)).
  - intros a b Ha Hb Hab Hba. rewrite Hperm, <- Hp in Ha.
    apply list_elem_of_lookup in Ha as [i Hi], Hb as [j Hj]. rewrite (Hpos i a Hi), (Hpos j b Hj) in *.
    assert (i = j) as -> by lia. congruence.
  - apply (StronglySorted_fmap id (λ a b, pos (id a) ≤ pos (id b))); [done|].
    apply (sort_by_sorted _ (λ o, pos (id o))). intros a b Ha Hb.
    assert (∀ o, o ∈ orgs → position orgs next o = pos (id o)) as Hm; [|by rewrite !Hm].
    intros o Ho. assert (id o ∈ next) as Hin by (rewrite Hp; by apply list_elem_of_fmap_2).
    apply list_elem_of_lookup in Hin as [i Hi]. unfold position.
    by rewrite (orderMap_nodup _ _ _ Hnd Hi), (Hpos i (id o) Hi).
  - assert (∀ suf pre, next = pre ++ suf → StronglySorted (λ a b, pos a ≤ pos b) suf) as Hs; [|by apply (Hs next [])].
    induction suf as [|x suf IH]; intros pre Hn; constructor.
    + apply (IH (pre ++ [x])). by rewrite <- (assoc_L (++)).
    + apply Forall_forall. intros y Hy. apply list_elem_of_lookup in Hy as [j Hj].
      rewrite (Hpos (length pre) x) by (rewrite Hn; by apply list_lookup_middle).
      rewrite (Hpos (length pre + S j)%nat y); [lia|]. rewrite Hn, lookup_app_r by lia.
      by replace (length pre + S j - length pre)%nat with (S j) by lia.
  - by rewrite Hperm.
Qed.
End sorting.

Lemma distinct_spec l : NoDup (distinct l) ∧ ∀ x, x ∈ distinct l ↔ x ∈ l.
Proof.
  induction l as [|y l [IHn IHe]]; cbn [distinct]; [split; [constructor|done]|]. split.
  - constructor; [rewrite list_elem_of_filter; naive_solver|by apply NoDup_filter].
  - intros x. rewrite !elem_of_cons, list_elem_of_filter, IHe. destruct (decide (x = y)); naive_solver.
Qed.

(** What is already in a list adds nothing to the set of it. *)
Lemma distinct_filter (P : string → Prop) `{∀ x, Decision (P x)} l b :
  NoDup l → Forall P l → (∀ x, x ∈ b → P x → x ∈ l) → filter P (distinct (l ++ b)) = l.
Proof.
  intros Hl. revert P H b. induction Hl as [|x l Hx Hl IH]; intros P HP b Hpl Hb.
  - apply filter_none, Forall_forall. intros x Hx Hpx. rewrite (proj2 (distinct_spec _)) in Hx.
    specialize (Hb x Hx Hpx). by apply not_elem_of_nil in Hb.
  - apply Forall_cons in Hpl as [Hpx Hpl]. cbn [app distinct]. rewrite filter_cons_True by done. f_equal.
    rewrite list_filter_filter. apply (IH (λ y, P y ∧ y ≠ x)).
    + rewrite Forall_forall in Hpl |- *. intros y Hy. split; [by apply Hpl|by intros ->].
    + intros y Hy [Hpy Hne]. apply Hb in Hpy; [|done]. by apply elem_of_cons in Hpy as [|].
Qed.

(** The identifiers in the order they are shown. *)
Definition shown (orgs : list OrgItem) (s : state) : list string := id <$> sorted orgs s.
Definition float (pins l : list string) : list string :=
  filter (λ x, has x pins) l ++ filter (λ x, negb (has x pins)) l.

Lemma filter_split {A} (P : A → bool) (l : list A) : filter P l ++ filter (λ x, negb (P x)) l ≡ₚ l.
Proof.
  induction l as [|x l IH]; [done|]. rewrite !filter_cons. destruct (P x); cbn; [by constructor|].
  etrans; [symmetry; apply Permutation_middle|]. by constructor.
Qed.

Lemma filter_ids (P : string → bool) (l : list OrgItem) : id <$> filter (λ o, P (id o)) l = filter P (id <$> l).
Proof.
  induction l as [|o l IH]; [done|]. cbn [fmap list_fmap]. rewrite !filter_cons.
  destruct (decide (P (id o))); cbn [fmap list_fmap]; by rewrite <- IH.
Qed.

Lemma shown_float orgs s : shown orgs s = float (pinned s) (id <$> applyOrder orgs (order s)).
Proof.
  unfold shown, sorted, floatPinned, float. rewrite fmap_app.
  by rewrite (filter_ids (λ x, has x (pinned s))), (filter_ids (λ x, negb (has x (pinned s)))).
Qed.

Lemma shown_perm orgs s : shown orgs s ≡ₚ id <$> orgs.
Proof.
  rewrite shown_float. unfold float. rewrite filter_split. apply fmap_Permutation, sort_by_perm.
Qed.

Lemma float_nothing l : float [] l = l.
Proof.
  assert (∀ x, has x [] = false) as Hn by (intros x; apply bool_decide_eq_false_2, not_elem_of_nil).
  unfold float. rewrite filter_none, filter_all; [done|apply Forall_forall; intros x _; rewrite Hn; cbn; tauto..].
Qed.

Lemma base_shown orgs s : NoDup (id <$> orgs) → base orgs s = shown orgs s.
Proof.
  intros Hnd. pose proof (shown_perm orgs s) as Hp. unfold base. fold (shown orgs s).
  assert (filter (λ x, has x (id <$> orgs)) (distinct (shown orgs s ++ order s)) = shown orgs s) as H.
  { apply distinct_filter; [by rewrite Hp|apply Forall_forall|]; intros x Hx.
    - rewrite Hp in Hx. by apply bool_decide_pack.
    - intros Hin. rewrite Hp. by apply bool_decide_unpack in Hin. }
  destruct (shown orgs s) eqn:E; [|exact H]. apply Permutation_nil in Hp. rewrite Hp in H |- *. exact H.
Qed.

Lemma shown_next orgs s s' next : NoDup (id <$> orgs) → next ≡ₚ id <$> orgs →
  order s' = next → pinned s' = pinned s → shown orgs s' = float (pinned s) next.
Proof. intros Hnd Hp Ho Hpin. by rewrite shown_float, Hpin, Ho, applyOrder_shown. Qed.

Lemma move_perm i j x l : l !! i = Some x → move i j x l ≡ₚ l.
Proof.
  intros Hi. unfold move. rewrite <- Permutation_middle, take_drop. symmetry. by apply delete_Permutation.
Qed.

Lemma swap_perm i j l : swap i j l ≡ₚ l.
Proof.
  unfold swap. destruct (l !! i) as [a|] eqn:Ei; [|done]. destruct (l !! j) as [b|] eqn:Ej; [|done].
  by apply Permutation_insert_swap.
Qed.

(** *** Theorems *)

Section theorems.
Context (JSON_parse : string → option (list string)) (JSON_stringify : list string → string).
Context (orgs : list OrgItem) (Hids : NoDup (id <$> orgs)).
Let stp := step JSON_stringify orgs.

Lemma reorder_shown_next f s next : f (shown orgs s) = Some next → next ≡ₚ shown orgs s →
  shown orgs (reorder orgs f s) = float (pinned s) next.
Proof.
  intros Hf Hp. unfold reorder. rewrite base_shown, Hf by done.
  apply (shown_next _ s _ next); [done|by rewrite Hp, shown_perm|done|done].
Qed.

Lemma shown_persist s : shown orgs (persist JSON_stringify s) = shown orgs s.
Proof. done. Qed.

(** An organisation that is dragged onto another, or moved with an arrow key, is shown where
    it was put: the list shown is the old one with it taken out and put back at the place of
    the other, or exchanged with its neighbour, pinned organisations staying before the rest. *)
Theorem reorder_shown s from to i j :
  let ids := shown orgs s in
  indexOf from ids = Some i → indexOf to ids = Some j → from ≠ to → from ≠ "" → to ≠ "" →
  shown orgs (fold_left stp [DragStart from; DragOver to; Drop] s) = float (pinned s) (move i j from ids) ∧
  shown orgs (stp s (ArrowUp from)) = float (pinned s) (match i with O => ids | S k => swap i k ids end) ∧
  shown orgs (stp s (ArrowDown from)) =
    float (pinned s) (if (S i <? length ids)%nat then swap i (S i) ids else ids).
Proof.
  intros ids Hi Hj Hne Hf Ht. assert (ids !! i = Some from) as Hl by (by apply indexOf_lookup).
  assert (filled (Some from) = Some from ∧ filled (Some to) = Some to) as [Ef Et] by (split; by destruct from, to).
  split; [|split].
  - cbn [fold_left]. subst stp. cbn [step]. rewrite shown_persist. unfold handleDrop. cbn [dragId overId].
    rewrite Ef, Et. destruct (String.eqb_spec from to) as [|_]; [done|].
    set (s2 := mkState _ _ _ _ _ (Some to)). set (f := λ b, _).
    change (shown orgs (reorder orgs f s2) = float (pinned s2) (move i j from ids)).
    apply reorder_shown_next; change (shown orgs s2) with ids; [subst f; cbn beta; by rewrite Hi; cbn; rewrite Hj|].
    by apply move_perm.
  - subst stp. cbn [step]. rewrite shown_persist. apply reorder_shown_next; fold ids; [by rewrite Hi|].
    destruct i; [done|apply swap_perm].
  - subst stp. cbn [step]. rewrite shown_persist. apply reorder_shown_next; fold ids; [by rewrite Hi|].
    case_match; [apply swap_perm|done].
Qed.

Lemma togglePin_spec x l : NoDup l → NoDup (togglePin x l) ∧ (length (togglePin x l) ≤ Nat.max MAX_PINS (length l))%nat.
Proof.
  intros Hl. unfold togglePin, has. case_bool_decide as Hx.
  - split; [by apply NoDup_filter|]. pose proof (length_filter_le (λ y, y ≠ x) l). lia.
  - destruct (Nat.ltb_spec (length l) MAX_PINS); [|split; [done|lia]].
    split; [apply NoDup_app; split; [done|]; split; [set_solver|apply NoDup_singleton]|].
    rewrite length_app. cbn [length]. lia.
Qed.

Lemma pinned_step s e : (pinned (stp s e) = pinned s ∨ pinned (stp s e) = []) ∨ ∃ x, pinned (stp s e) = togglePin x (pinned s).
Proof.
  subst stp. destruct e; cbn [step persist pinned]; eauto.
  - left. left. unfold handleDrop, reorder. repeat case_match; done.
  - left. left. unfold reorder. by case_match.
  - left. left. unfold reorder. by case_match.
Qed.

(** Whatever is dragged, moved, pinned and reset, by whichever wallets, and whatever was stored:
    each organisation is shown once, the pinned ones before the rest, no organisation is pinned
    twice, and there are never more than three pins unless more were stored. *)
Theorem bookmarks_kept st a es :
  let s := history JSON_parse JSON_stringify orgs st a es in
  sorted orgs s ≡ₚ orgs ∧
  (∃ n, Forall (λ o, id o ∈ pinned s) (take n (sorted orgs s)) ∧ Forall (λ o, id o ∉ pinned s) (drop n (sorted orgs s))) ∧
  NoDup (pinned s) ∧
  (length (pinned s) ≤ Nat.max MAX_PINS (length (readJson JSON_parse (PINNED_KEY (storage_key a)) st)))%nat.
Proof.
  intros s. split; [|split].
  - unfold sorted, floatPinned. etrans; [apply filter_split|]. apply sort_by_perm.
  - unfold sorted, floatPinned. set (l := applyOrder orgs (order s)).
    exists (length (filter (λ o, has (id o) (pinned s)) l)). rewrite take_app_length, drop_app_length.
    split; apply Forall_forall; intros o [Ho _]%list_elem_of_filter.
    + by apply bool_decide_unpack in Ho.
    + apply negb_prop_elim in Ho. intros Hin. apply Ho. by apply bool_decide_pack.
  - subst s. unfold history. set (n := Nat.max _ _).
    induction es as [|e es [IHn IHl]] using rev_ind.
    + cbn [fold_left mount persist pinned]. destruct (distinct_spec (readJson JSON_parse (PINNED_KEY (storage_key a)) st)) as [Hd He].
      split; [done|]. assert (length (distinct (readJson JSON_parse (PINNED_KEY (storage_key a)) st)) ≤
        length (readJson JSON_parse (PINNED_KEY (storage_key a)) st))%nat; [|lia].
      apply NoDup_incl_length; [by apply NoDup_ListNoDup|]. intros x. by rewrite <- !list_elem_of_In, He.
    + rewrite fold_left_app. cbn [fold_left]. set (q := fold_left _ es _) in *.
      change (step JSON_stringify orgs q e) with (stp q e).
      destruct (pinned_step q e) as [[->| ->]|[x ->]]; [done|split; [constructor|cbn; lia]|].
      destruct (togglePin_spec x (pinned q) IHn) as [? ?]. split; [done|lia].
Qed.

(** When another wallet is connected while the list is shown, what that wallet had kept is
    lost: the order and the pins of the wallet before are written over it, and the next visit
    of the new wallet finds those. *)
Theorem bookmarks_overwritten s a :
  JSON_stringify (order s) ≠ "" → JSON_parse (JSON_stringify (order s)) = Some (order s) →
  JSON_stringify (pinned s) ≠ "" → JSON_parse (JSON_stringify (pinned s)) = Some (pinned s) →
  let s' := stp s (SwitchWallet a) in
  order s' = order s ∧ pinned s' = pinned s ∧
  let m := mount JSON_parse JSON_stringify (store s') a in
  order m = order s ∧ pinned m = distinct (pinned s).
Proof.
  intros Hs1 Hp1 Hs2 Hp2 s'. split; [done|]. split; [done|]. intros m.
  assert (∀ k v l, getItem k (store s') = Some v → v ≠ "" → JSON_parse v = Some l →
    readJson JSON_parse k (store s') = l) as Hread.
  { intros k v l Hk Hv Hl. unfold readJson. rewrite Hk. destruct v; [done|]. cbn [filled]. by rewrite Hl. }
  subst m. cbn [mount persist order pinned]. split.
  - eapply Hread; [|exact Hs1|exact Hp1]. subst s' stp. cbn [step persist store wallet order].
    rewrite getItem_setItem_ne; [apply getItem_setItem|]. by intros [=].
  - f_equal. eapply Hread; [|exact Hs2|exact Hp2]. apply getItem_setItem.
Qed.
End theorems.

Definition three : list OrgItem := [mkOrg "a" "A"; mkOrg "b" "B"; mkOrg "c" "C"].
Definition fresh : state := mkState ∅ "__guest__" [] [] None None.

Lemma reorder_shown_witness :
  shown three (fold_left (step (λ _, "x") three) [DragStart "a"; DragOver "c"; Drop] fresh) = ["b"; "c"; "a"].
Proof.
  assert (NoDup (id <$> three)) as Hnd by (apply (bool_decide_unpack _); vm_compute; exact I).
  destruct (reorder_shown (λ _, "x") three Hnd fresh "a" "c" 0 2) as [H _]; [reflexivity|reflexivity|discriminate..|].
  etrans; [exact H|reflexivity].
Defined.

Lemma bookmarks_overwritten_witness :
  let print (l : list string) := match l with [] => "none" | x :: _ => x end in
  let parse raw := Some [raw] in
  let s := mkState {["wg:orgOrder:B" := "b"]} "A" ["c"] ["a"] None None in
  order (mount parse print (store (step print three s (SwitchWallet (Some "B")))) (Some "B")) = ["c"].
Proof.
  intros print parse s.
  destruct (bookmarks_overwritten parse print three s (Some "B")) as (_ & _ & H & _);
    [discriminate|reflexivity|discriminate|reflexivity|].
  exact H.
Defined.
End Bookmarks.

(** ** The hint of the first visit ([ShortcutHintBanner.tsx]), and the button that brings the
    onboarding back ([GetStartedButton] of [OnboardingWizard.tsx]) *)

Module Hint.

Definition BANNER_STORAGE_KEY : string := "wg_shortcut_hint_dismissed".

Record state := mkState { store : storage; visible : bool; timer : bool; helped : nat }.

Definition mount (s : storage) : state :=
  let first := negb (is_some (filled (getItem BANNER_STORAGE_KEY s))) in mkState s first first 0.

Inductive event := Dismiss | Show | Timeout | Unmount.

Definition dismiss (s : state) : state :=
  mkState (setItem BANNER_STORAGE_KEY "1" (store s)) false (timer s) (helped s).

(** The buttons are there while the hint is; the timer runs once, unless the hint goes away. *)
Definition step (s : state) (e : event) : state :=
  match e with
  | Dismiss => if visible s then dismiss s else s
  | Show => if visible s then let s' := dismiss s in mkState (store s') (visible s') (timer s') (S (helped s')) else s
  | Timeout => if timer s then let s' := dismiss s in mkState (store s') (visible s') false (helped s') else s
  | Unmount => mkState (store s) false false (helped s)
  end.

Definition history (s : storage) (es : list event) : state := fold_left step es (mount s).

(** The hint is shown on the visits before the first that dismisses it, by hand or by waiting. *)
Lemma hint_until_dismissed s es :
  let p := history s es in
  visible (mount (store p)) = visible (mount s) && negb (is_some (filled (getItem BANNER_STORAGE_KEY (store p)))) ∧
  (visible p = true → visible (mount (store p)) = true).
Proof.
  intros p. assert ((store p = s ∧ (visible p = true → visible (mount s) = true)) ∨
    (getItem BANNER_STORAGE_KEY (store p) = Some "1" ∧ visible p = false)) as Hp.
  { subst p. unfold history. induction es as [|e es IH] using rev_ind; [by left|].
    rewrite fold_left_app. cbn [fold_left]. set (q := fold_left _ es _) in *.
    destruct e; cbn [step].
    - destruct (visible q) eqn:E; [right; cbn [dismiss store visible]; by rewrite getItem_setItem|by rewrite E].
    - destruct (visible q) eqn:E; [right; cbn [dismiss store visible]; by rewrite getItem_setItem|by rewrite E].
    - destruct (timer q); [right; cbn [dismiss store visible]; by rewrite getItem_setItem|done].
    - destruct IH as [[H _]|[H _]]; [by left|by right]. }
  destruct Hp as [[-> Hv]|[He Hv]]; cbn [mount visible].
  - split; [by destruct (is_some _)|exact Hv].
  - rewrite He, Hv. split; [by rewrite andb_false_r|done].
Qed.
End Hint.

Module GetStarted.

Definition STORAGE_KEY : string := "wg_onboarding_done".

(** The button is there once the onboarding was dismissed; a click forgets that and reloads. *)
Definition shown (s : storage) : bool := is_some (filled (getItem STORAGE_KEY s)).
Definition handleClick (s : storage) : storage := removeItem STORAGE_KEY s.

Lemma brought_back s : shown (handleClick s) = false.
Proof.
  assert (getItem STORAGE_KEY (removeItem STORAGE_KEY s) = None) as H by apply (lookup_delete_eq (M := gmap string)).
  unfold shown, handleClick. by rewrite H.
Qed.
End GetStarted.
