(* ===== verification/IssueService.v ===== *)
(** * The cached issue service ([src/services/issueService.ts])

    The list with its filters, its pages and its cache, one issue, the statistics and the
    invalidation of the cache, over the tables the queries name and the Redis client.  The
    module that opens the database ([config/database]) and the one that opens Redis
    ([config/redis]) are not part of the repository: the query builder is read as it is
    documented, and both connections are parameters. *)

From Stdlib Require Import String Ascii.
From S2P Require Import Prelude Js Paging Cache Browser.

#[local] Open Scope string_scope.
#[local] Open Scope list_scope.
#[local] Open Scope Z_scope.

(** ** The tables *)

Record issue_record := mkIssue {
  id : string; org_id : string; title : string; number : Z; url : string;
  labels : option (list string); max_applicants : option Z; issue_status : string;
  created_at : string; updated_at : string;  (** as JSON prints them *)
}.
Record application_record := mkApplication { ap_issue_id : string; ap_status : string }.
Record assignment_record := mkAssignment { as_issue_id : string; contributor : string; as_status : string }.

Record tables := mkTables {
  issues : list issue_record; applications : list application_record; assignments : list assignment_record;
}.

(** A row of the joined query; [None] is what a left join puts where nothing matches. *)
Record joined := mkJoined { row : issue_record; applicant_count : option Z; assignee : option string }.

Definition pending_count (t : tables) (i : string) : option Z :=
  match filter (λ a, ap_status a = "pending" ∧ ap_issue_id a = i) (applications t) with
  | [] => None
  | l => Some (Z.of_nat (length l))
  end.

Definition active_assignees (t : tables) (i : string) : list string :=
  contributor <$> filter (λ a, as_status a = "active" ∧ as_issue_id a = i) (assignments t).

Definition join_row (t : tables) (r : issue_record) : list joined :=
  match active_assignees t (id r) with
  | [] => [mkJoined r (pending_count t (id r)) None]
  | l => mkJoined r (pending_count t (id r)) ∘ Some <$> l
  end.

(** ** Queries

    A statement of the query builder: its select list, its tables as the rows they join to,
    its conditions. *)
Inductive column := Plain (expr : string) | CountAll (alias : string).
Record query := mkQuery {
  columns : list column; from : tables → list joined; conditions : list (joined → bool);
}.

Definition where_ (c : joined → bool) (q : query) : query :=
  mkQuery (columns q) (from q) (conditions q ++ [c]).
(** [count(...)] adds to the select list. *)
Definition count (alias : string) (q : query) : query :=
  mkQuery (columns q ++ [CountAll alias]) (from q) (conditions q).

Definition rows (q : query) (t : tables) : list joined :=
  filter (λ j, forallb (λ c, c j) (conditions q) = true) (from q t).

Definition is_plain (c : column) : bool := match c with Plain _ => true | CountAll _ => false end.

(** Without a [GROUP BY] no column may stand beside an aggregate. *)
Definition group_error : exn :=
  ErrorObj "error" ("column " +:+ quoted "issues.id" +:+
    " must appear in the GROUP BY clause or be used in an aggregate function").

(** [.first()] of a counting query. *)
Definition run_count (q : query) (t : tables) : outcome Z :=
  if existsb is_plain (columns q) then Throw group_error else Ret (Z.of_nat (length (rows q t))).

(** [a ILIKE pattern], with [%], [_] and the escape character. *)
Fixpoint like (p s : list ascii) : bool :=
  match p with
  | [] => match s with [] => true | _ => false end
  | "%"%char :: p' => existsb (like p') ((λ n, drop n s) <$> seq 0 (S (length s)))
  | "_"%char :: p' => match s with _ :: s' => like p' s' | [] => false end
  | "\"%char :: c :: p' =>
      match s with d :: s' => Ascii.eqb (to_lower_char c) (to_lower_char d) && like p' s' | [] => false end
  | c :: p' =>
      match s with d :: s' => Ascii.eqb (to_lower_char c) (to_lower_char d) && like p' s' | [] => false end
  end.

Definition ilike (s pattern : string) : bool := like (lst pattern) (lst s).

(** ** The service *)

Record IssueFilter := mkFilter {
  f_org_id : option string; f_label : option string; f_status : option string;
  f_page : option Z; f_page_size : option Z; f_search : option string;
}.

Definition CACHE_TTL : Z := 30.
Definition DEFAULT_PAGE_SIZE : Z := 20.
Definition MAX_PAGE_SIZE : Z := 100.

Definition page_of (f : IssueFilter) : Z := default 1 (f_page f).
Definition size_of (f : IssueFilter) : Z := default DEFAULT_PAGE_SIZE (f_page_size f).
Definition offset_of (f : IssueFilter) : Z := (page_of f - 1) * size_of f.
Definition limit_of (f : IssueFilter) : Z := Z.min (size_of f) MAX_PAGE_SIZE.

Definition part (name : string) (v : option string) : list string :=
  match filled v with Some s => [name +:+ s] | None => [] end.
Definition number_part (name : string) (v : option Z) : list string :=
  match v with Some 0 | None => [] | Some n => [name +:+ pretty n] end.

Definition buildCacheKey (f : IssueFilter) : string :=
  join ":" (["issues"] ++ part "org_" (f_org_id f) ++ part "label_" (f_label f) ++
            part "status_" (f_status f) ++ number_part "page_" (f_page f) ++
            number_part "size_" (f_page_size f) ++ part "search_" (f_search f)).

Definition available_row (j : joined) : bool :=
  match max_applicants (row j) with Some m => default 0 (applicant_count j) <? m | None => false end
  && match assignee j with None => true | Some _ => false end.

Definition base_query : query :=
  mkQuery [Plain "issues.*"; Plain "COALESCE(applicant_count.count, 0) as applicant_count";
           Plain "COALESCE(assigned.assignee, NULL) as assigned_to"]
    (λ t, r ← issues t; join_row t r)
    [λ j, String.eqb (issue_status (row j)) "open"].

Definition with_filter {A} (v : option A) (c : A → joined → bool) (q : query) : query :=
  match v with Some a => where_ (c a) q | None => q end.

Definition list_query (f : IssueFilter) : query :=
  let q := with_filter (filled (f_org_id f)) (λ o j, String.eqb (org_id (row j)) o) base_query in
  let q := with_filter (filled (f_label f))
             (λ l j, existsb (String.eqb l) (default [] (labels (row j)))) q in
  let status := default "available" (f_status f) in
  let q := if String.eqb status "assigned"
           then where_ (λ j, match assignee j with Some _ => true | None => false end) q
           else if String.eqb status "available" then where_ available_row q else q in
  with_filter (filled (f_search f)) (λ s j, ilike (title (row j)) ("%" +:+ s +:+ "%")) q.

(** [v || d] of a number. *)
Definition or_one (v : option Z) : Z := match v with None | Some 0 => 1 | Some n => n end.

Definition issue_json (r : issue_record) (count : Z) (assigned_to : json) : json :=
  obj [("id", Some (JStr (id r))); ("org_id", Some (JStr (org_id r))); ("title", Some (JStr (title r)));
       ("number", Some (jint (number r))); ("url", Some (JStr (url r)));
       ("labels", Some (JArr (JStr <$> default [] (labels r)))); ("applicant_count", Some (jint count));
       ("max_applicants", Some (jint (or_one (max_applicants r)))); ("assigned_to", Some assigned_to);
       ("created_at", Some (JStr (created_at r))); ("updated_at", Some (JStr (updated_at r)))].

Definition processed (j : joined) : json :=
  issue_json (row j) (default 0 (applicant_count j))
    (match filled (assignee j) with Some a => JStr a | None => JNull end).

Record service (R : Type) := Service { tbl : tables; client : R }.
Arguments Service {R} tbl client.
Arguments tbl {R} s.
Arguments client {R} s.

Section service.
Context {R : Type} `{RedisStore R}.
Variable JSON_parse : string → option json.
Variable JSON_stringify : json → string.
(** [redisClient.isConnected]. *)
Variable isConnected : R → bool.
(** [ORDER BY issues.created_at DESC]: rows created at the same time in any order. *)
Variable newest_first : list joined → list joined.

Notation state := (service R).

Definition redis {A} (f : R → A * R) : M state A :=
  call (λ s, let '(a, r) := f (client s) in (Ret a, Service (tbl s) r)).
Definition read_db {A} (f : tables → outcome A) : M state A := call (λ s, (f (tbl s), s)).

Definition getFromCache (key : string) : M state json :=
  try_catch
    (up ← gets (λ s, isConnected (client s));
     if (up : bool) then
       data ← redis (λ r, (r_get key r, r));
       match filled data with
       | None => mret JNull
       | Some d => match JSON_parse d with
                   | Some v => mret v
                   | None => throw (ErrorObj "SyntaxError" "Unexpected token in JSON")
                   end
       end
     else mret JNull)
    (λ _, mret JNull).

Definition setCache (key : string) (value : json) : M state unit :=
  try_catch
    (up ← gets (λ s, isConnected (client s));
     if (up : bool) then redis (λ r, (tt, r_setex key CACHE_TTL (JSON_stringify value) r)) else mret tt)
    (λ _, mret tt).

Definition invalidation_pattern (org_id : option string) : string :=
  match filled org_id with Some o => "issues:org_" +:+ o +:+ ":*" | None => "issues:*" end.

Definition invalidateCache (org_id : option string) : M state unit :=
  try_catch
    (up ← gets (λ s, isConnected (client s));
     if (up : bool) then
       keys ← redis (λ r, (r_keys (invalidation_pattern org_id) r, r));
       match keys with
       | [] => mret tt
       | _ => redis (λ r, (tt, r_del keys r))
       end
     else mret tt)
    (λ _, mret tt).

(** The rows of a page; the database refuses a negative limit or offset. *)
Definition page_rows (f : IssueFilter) (q : query) (t : tables) : outcome (list joined) :=
  if (offset_of f <? 0) || (limit_of f <? 0)
  then Throw (ErrorObj "error" "LIMIT and OFFSET must not be negative")
  else Ret (take (Z.to_nat (limit_of f)) (drop (Z.to_nat (offset_of f)) (newest_first (rows q t)))).

Definition total_pages (total limit : Z) : json :=
  if limit =? 0 then JNull else jint (ceil_div total limit).

Definition result_json (f : IssueFilter) (total : Z) (data : list joined) : json :=
  obj [("data", Some (JArr (processed <$> data))); ("total", Some (jint total));
       ("page", Some (jint (page_of f))); ("pageSize", Some (jint (limit_of f)));
       ("totalPages", Some (total_pages total (limit_of f)))].

Definition getIssues (f : IssueFilter) : M state json :=
  let cacheKey := buildCacheKey f in
  cached ← getFromCache cacheKey;
  if truthy cached then mret cached else
  let q := list_query f in
  total ← read_db (run_count (count "total" q));
  data ← read_db (page_rows f q);
  let result := result_json f total data in
  _ ← setCache cacheKey result;
  mret result.

Definition getIssueById (i : string) : M state json :=
  record ← read_db (λ t, Ret (head (filter (λ r, id r = i) (issues t))));
  mret match record with Some r => issue_json r 0 JNull | None => JNull end.

(** The counting queries of [getIssueStats] select nothing else. *)
Definition stats_query (o : option string) : query :=
  with_filter (filled o) (λ o j, String.eqb (org_id (row j)) o)
    (mkQuery [] (λ t, (λ r, mkJoined r None None) <$> issues t) []).

Definition is_open (j : joined) : bool := String.eqb (issue_status (row j)) "open".
Definition has_active (t : tables) (j : joined) : bool :=
  match active_assignees t (id (row j)) with [] => false | _ => true end.
Definition has_room (t : tables) (j : joined) : bool :=
  match max_applicants (row j) with
  | Some m => default 0 (pending_count t (id (row j))) <? m
  | None => false
  end.

Definition count_rows (conds : tables → list (joined → bool)) (o : option string) : M state Z :=
  read_db (λ t, run_count (count "count" (fold_left (λ q c, where_ c q) (conds t) (stats_query o))) t).

Definition getIssueStats (o : option string) : M state (Z * Z * Z * Z) :=
  total ← count_rows (λ _, []) o;
  open ← count_rows (λ _, [is_open]) o;
  assigned ← count_rows (λ t, [has_active t]) o;
  available ← count_rows (λ t, [is_open; has_room t; λ j, negb (has_active t j)]) o;
  mret (total, open, assigned, available).

End service.

(** ** Lemmas *)

Lemma with_filter_columns {A} (v : option A) c q : columns (with_filter v c q) = columns q.
Proof. by destruct v. Qed.

(** The filters leave the select list alone. *)
Lemma list_query_columns f : columns (list_query f) = columns base_query.
Proof.
  unfold list_query. rewrite with_filter_columns. repeat case_match; cbn [where_ columns];
    by rewrite !with_filter_columns.
Qed.

Section theorems.
Context {R : Type} `{RedisStore R}.
Variable JSON_parse : string → option json.
Variable JSON_stringify : json → string.
Variable isConnected : R → bool.
Variable newest_first : list joined → list joined.

Notation state := (service R).

(** What the cache holds for a key. *)
Definition held (key : string) (j : json) (s : state) : Prop :=
  ∃ text, isConnected (client s) = true ∧ r_get key (client s) = Some text ∧ JSON_parse text = Some j.

(** A call that reads: its value, or a fault of the connection. *)
Definition reads {A} (v : outcome A) (w : world state) (o : outcome A) (w' : world state) : Prop :=
  st w' = st w ∧ (sched w = [] → sched w' = [] ∧ o = v) ∧ (o = v ∨ ∃ e, o = Throw e).

Lemma redis_reads {A} (g : R → A) w : let r := redis (λ r, (g r, r)) w in
  reads (Ret (g (client (st w)))) w r.1 r.2.
Proof. destruct w as [[t c] [|[| |] fs]]; split_and!; cbn; eauto; done. Qed.

Lemma db_reads {A} (f : tables → outcome A) w : let r := read_db f w in
  reads (f (tbl (st w))) w r.1 r.2.
Proof. destruct w as [[t c] [|[| |] fs]]; split_and!; cbn; eauto; done. Qed.

(** Reading the cache changes nothing and never throws. *)
Lemma getFromCache_reads key w :
  let r := getFromCache JSON_parse isConnected key w in
  st r.2 = st w ∧ (sched w = [] → sched r.2 = []) ∧
  ∃ j, r.1 = Ret j ∧ (j = JNull ∨ held key j (st w)).
Proof.
  unfold getFromCache, gets, local. unfold_m.
  destruct (isConnected (client (st w))) eqn:Ec; [|destruct w; cbn; eauto 6].
  pose proof (redis_reads (λ r, r_get key r) (World (st w) (sched w))) as (H1 & H2 & H3).
  destruct (redis _ _) as [[data|e] w1]; cbn in *; [|split_and!; [done|naive_solver|eauto]].
  assert (filled data = None ∨ r_get key (client (st w)) = filled data) as Hd.
  { destruct H3 as [[= ->]|[e [=]]]. destruct (r_get _ _) as [[]|]; cbn; auto. }
  destruct (filled data) as [d|] eqn:Ef; cbn; [|split_and!; [done|naive_solver|eauto]].
  destruct (JSON_parse d) as [v|] eqn:Ep; cbn; (split_and!; [done|naive_solver|]); [|eauto].
  exists v. split; [done|]. right. destruct Hd as [|Hd]; [done|]. by exists d.
Qed.

(** The list is never computed: its counting query keeps the columns of the list beside the
    count, which the database refuses, so [getIssues] answers only what a cache already holds
    and otherwise throws, without having stored anything; and since it stores nothing, only
    another program can have put a list into the cache. *)
Theorem list_never_computed f (w : world state) :
  let r := getIssues JSON_parse JSON_stringify isConnected newest_first f w in
  st r.2 = st w ∧
  match r.1 with
  | Ret j => held (buildCacheKey f) j (st w) ∧ truthy j = true
  | Throw e => sched w = [] → e = group_error
  end.
Proof.
  unfold getIssues. unfold_m.
  pose proof (getFromCache_reads (buildCacheKey f) w) as (H1 & H2 & j & H3 & H4).
  destruct (getFromCache _ _ _ w) as [o w1]. cbn in *. subst o.
  destruct (truthy j) eqn:Et; cbn.
  { split; [done|]. destruct H4 as [->|H4]; [done|]. done. }
  pose proof (db_reads (run_count (count "total" (list_query f))) w1) as (G1 & G2 & G3).
  assert (∀ t, run_count (count "total" (list_query f)) t = Throw group_error) as He.
  { intros t. unfold run_count, count. cbn [columns]. by rewrite list_query_columns. }
  rewrite He in G2, G3. destruct (read_db _ w1) as [o w2]. cbn in *.
  destruct o as [total|e]; [by destruct G3 as [|[? ?]]|]. cbn. split; [congruence|].
  intros Hs. destruct (G2 (H2 Hs)) as [_ Hg]. by simplify_eq.
Qed.

(** ** The statistics *)

(** The issues of an organisation, or all of them. *)
Definition of_org (o : option string) (r : issue_record) : bool :=
  match filled o with Some o => String.eqb (org_id r) o | None => true end.

Definition counted (t : tables) (o : option string) (P : issue_record → bool) : Z :=
  Z.of_nat (length (filter (λ r, of_org o r && P r = true) (issues t))).

Definition open_issue (r : issue_record) : bool := String.eqb (issue_status r) "open".
Definition taken (t : tables) (r : issue_record) : bool :=
  match active_assignees t (id r) with [] => false | _ => true end.
Definition free (t : tables) (r : issue_record) : bool :=
  open_issue r && (match max_applicants r with
                   | Some m => default 0 (pending_count t (id r)) <? m
                   | None => false
                   end) && negb (taken t r).

Lemma length_filter_fmap {A B} (f : A → B) (P : B → bool) (Q : A → bool) (l : list A) :
  (∀ x, P (f x) = Q x) →
  length (filter (λ y, P y = true) (f <$> l)) = length (filter (λ x, Q x = true) l).
Proof.
  intros HPQ. induction l as [|x l IH]; [done|]. cbn [fmap list_fmap].
  rewrite !filter_cons, HPQ. by destruct (decide _); cbn; rewrite IH.
Qed.

Lemma where_all cs : ∀ q,
  columns (fold_left (λ q c, where_ c q) cs q) = columns q ∧
  from (fold_left (λ q c, where_ c q) cs q) = from q ∧
  conditions (fold_left (λ q c, where_ c q) cs q) = conditions q ++ cs.
Proof.
  induction cs as [|c cs IH]; intros q; cbn [fold_left]; [by rewrite app_nil_r|].
  destruct (IH (where_ c q)) as (-> & -> & ->). cbn. by rewrite <- app_assoc.
Qed.

Lemma count_rows_counts conds o (P : issue_record → bool) (s : state) :
  (∀ r, forallb (λ c, c (mkJoined r None None)) (conds (tbl s)) = P r) →
  count_rows conds o (World s []) = (Ret (counted (tbl s) o P), World s []).
Proof.
  intros Hc. unfold count_rows, read_db, call. cbn [sched st].
  destruct (where_all (conds (tbl s)) (stats_query o)) as (F1 & F2 & F3).
  unfold run_count, count, rows. cbn [columns from conditions]. rewrite F1, F2, F3.
  assert (columns (stats_query o) = []) as -> by (unfold stats_query; by rewrite with_filter_columns).
  cbn [app existsb is_plain orb]. f_equal. f_equal. unfold counted. f_equal.
  assert (from (stats_query o) (tbl s) = (λ r, mkJoined r None None) <$> issues (tbl s)) as ->
    by (unfold stats_query; by destruct (filled o)).
  apply (length_filter_fmap _ (λ j, forallb (λ c, c j) _) (λ r, of_org o r && P r)). intros r.
  rewrite forallb_app, Hc. f_equal. unfold stats_query, of_org. destruct (filled o); cbn; [by rewrite andb_true_r|done].
Qed.

Lemma counted_le t o (P Q : issue_record → bool) : (∀ r, P r = true → Q r = true) →
  counted t o P ≤ counted t o Q.
Proof.
  intros HPQ. unfold counted. apply Nat2Z.inj_le. induction (issues t) as [|r l IH]; [done|].
  rewrite !filter_cons. specialize (HPQ r).
  destruct (of_org o r), (P r), (Q r); repeat case_decide; cbn in *; try lia; naive_solver.
Qed.

Lemma counted_disjoint t o (P Q : issue_record → bool) : (∀ r, P r = true → Q r = false) →
  counted t o P + counted t o Q ≤ counted t o (λ _, true).
Proof.
  intros HPQ. unfold counted. rewrite <- Nat2Z.inj_add. apply Nat2Z.inj_le.
  induction (issues t) as [|r l IH]; [done|]. rewrite !filter_cons. specialize (HPQ r).
  destruct (of_org o r), (P r), (Q r); repeat case_decide; cbn in *; try lia; naive_solver.
Qed.

(** The filter of the list, for an organisation and the default status. *)
Definition default_filter (o : option string) (page page_size : option Z) : IssueFilter :=
  mkFilter o None None page page_size None.

(** An issue makes one row of the default list if it is free, and none otherwise. *)
Lemma default_rows t o page page_size :
  length (rows (list_query (default_filter o page page_size)) t) =
  length (filter (λ r, of_org o r && free t r = true) (issues t)).
Proof.
  set (q := list_query _).
  assert (∀ j, forallb (λ c, c j) (conditions q) =
    of_org o (row j) && (open_issue (row j) && available_row j)) as Hc.
  { intros j. unfold q, list_query, default_filter, of_org, open_issue. cbn.
    destruct (filled o); cbn; [|by rewrite andb_true_r].
    rewrite !andb_true_r. by destruct (String.eqb (org_id _) _), (String.eqb (issue_status _) _). }
  assert (from q = λ t, r ← issues t; join_row t r) as Hq
    by (unfold q, list_query, default_filter; cbn; by destruct (filled o)).
  unfold rows. rewrite Hq. induction (issues t) as [|r l IH]; [done|]. cbn [mbind list_bind].
  rewrite filter_app, length_app, IH, (filter_cons _ r l).
  enough (length (filter (λ j, forallb (λ c, c j) (conditions q) = true) (join_row t r)) =
          if of_org o r && free t r then 1%nat else 0%nat) as ->
    by (by destruct (of_org o r && free t r)).
  unfold join_row, free, taken. destruct (active_assignees t (id r)) as [|a l'] eqn:Ea.
  - rewrite filter_cons, Hc. cbn [row]. unfold available_row. cbn [row applicant_count assignee].
    rewrite andb_true_r. cbn [negb]. rewrite andb_true_r.
    by destruct (of_org o r), (open_issue r), (max_applicants r) as [m|]; cbn; try destruct (_ <? m).
  - rewrite andb_false_r, andb_false_r. clear Ea.
    induction (a :: l') as [|x xs IHx]; [done|]. cbn [fmap list_fmap]. rewrite filter_cons, Hc. cbn [row].
    assert (available_row ((mkJoined r (pending_count t (id r)) ∘ Some) x) = false) as ->
      by (apply andb_false_r).
    rewrite !andb_false_r, decide_False by done. exact IHx.
Qed.

(** The statistics agree with each other and with the list: over any tables and for any
    organisation, the four numbers count exactly the issues, the open ones, the ones somebody
    is assigned to and the ones that are open, have room for another application and nobody is
    assigned to; available is at most open, open at most total, available and assigned together
    at most total, and available is the number of rows the default list would have. *)
Theorem stats_count_issues o page page_size (s : state) :
  ∃ total open assigned available,
    getIssueStats o (World s []) = (Ret (total, open, assigned, available), World s []) ∧
    total = counted (tbl s) o (λ _, true) ∧ open = counted (tbl s) o open_issue ∧
    assigned = counted (tbl s) o (taken (tbl s)) ∧ available = counted (tbl s) o (free (tbl s)) ∧
    available ≤ open ≤ total ∧ available + assigned ≤ total ∧
    available = Z.of_nat (length (rows (list_query (default_filter o page page_size)) (tbl s))).
Proof.
  eexists _, _, _, _. split.
  { unfold getIssueStats.
    rewrite (bind_intro _ _ _ _ _ (count_rows_counts (λ _, []) o (λ _, true) s ltac:(done))).
    rewrite (bind_intro _ _ _ _ _ (count_rows_counts (λ _, [is_open]) o open_issue s
      ltac:(intros; cbn; apply andb_true_r))).
    rewrite (bind_intro _ _ _ _ _ (count_rows_counts (λ t, [has_active t]) o (taken (tbl s)) s
      ltac:(intros; cbn; apply andb_true_r))).
    rewrite (bind_intro _ _ _ _ _ (count_rows_counts (λ t, [is_open; has_room t; λ j, negb (has_active t j)]) o
      (free (tbl s)) s ltac:(intros; cbn; rewrite andb_true_r; apply andb_assoc))).
    done. }
  do 4 (split; [done|]). split; [split; apply counted_le; unfold free, open_issue; intros r Hr|].
  - by apply andb_true_iff in Hr as [[? _]%andb_true_iff _].
  - done.
  - split; [|unfold counted; by rewrite default_rows].
    apply counted_disjoint. unfold free. intros r [_ Hr]%andb_true_iff. by apply negb_true_iff in Hr.
Qed.
End theorems.

(** ** Keys and pages *)

(** Different filters can share a key. *)
Example keys_collide :
  buildCacheKey (mkFilter (Some "a") (Some "b") None None None None) =
  buildCacheKey (mkFilter (Some "a:label_b") None None None None None).
Proof. reflexivity. Qed.

(** The pattern that drops the lists of an organisation misses the list with no other filter,
    whose key has nothing after the organisation. *)
Lemma plain_list_kept o : o ≠ "" →
  buildCacheKey (mkFilter (Some o) None None None None None) = "issues:org_" +:+ o ∧
  invalidation_pattern (Some o) = "issues:org_" +:+ o +:+ ":*".
Proof. intros Ho. destruct o; [done|]. done. Qed.

(** Up to a hundred rows a page, the pages are the rows, each once. *)
Lemma pages_cover newest_first q t size : 0 < size ≤ 100 →
  let l := newest_first (rows q t) in
  Forall2 (λ i o, o = Ret (window (Z.of_nat i + 1) size l))
    (seq 0 (page_count (Z.of_nat (length l)) size))
    ((λ i, page_rows newest_first (mkFilter None None None (Some (Z.of_nat i + 1)) (Some size) None) q t) <$>
       seq 0 (page_count (Z.of_nat (length l)) size)) ∧
  concat ((λ i, window (Z.of_nat i + 1) size l) <$> seq 0 (page_count (Z.of_nat (length l)) size)) = l.
Proof.
  intros Hs l. split; [|apply windows_cover; lia]. apply Forall2_fmap_r, Forall_Forall2_diag, Forall_true.
  intros i. unfold compose, page_rows, offset_of, limit_of, page_of, size_of, MAX_PAGE_SIZE. cbn [f_page f_page_size default].
  unfold Datatypes.id. replace (Z.min size 100) with size by lia.
  assert ((Z.of_nat i + 1 - 1) * size <? 0 = false) as -> by (apply Z.ltb_ge; nia).
  by assert (size <? 0 = false) as -> by (apply Z.ltb_ge; lia).
Qed.

(** Above a hundred the offset still counts the size asked for, and rows are skipped. *)
Example large_pages_skip :
  let f page := mkFilter None None None (Some page) (Some 200) None in
  (offset_of (f 1), limit_of (f 1), offset_of (f 2)) = (0, 100, 200).
Proof. reflexivity. Qed.

(** Looked up on its own, an issue has no applicants and nobody is assigned to it. *)
Example single_issue_ignores_tables :
  let t := mkTables [mkIssue "1" "o" "t" 7 "u" None (Some 3) "open" "" ""] []
             [mkAssignment "1" "GA" "active"] in
  (getIssueById (R := gmap string string) "1" (World (Service t ∅) [])).1 =
    Ret (issue_json (mkIssue "1" "o" "t" 7 "u" None (Some 3) "open" "" "") 0 JNull) ∧
  taken t (mkIssue "1" "o" "t" 7 "u" None (Some 3) "open" "" "") = true.
Proof. split; reflexivity. Qed.
