(* ===== verification/ContractErrors.v ===== *)
(** * What the frontend says about contract errors

    The three copies of [mapContractError] (in [useApplyForIssue.ts],
    [useWithdrawApplication.ts] and [MaintainerPanelContainer.tsx]) with their messages, and
    the catalogue of [ErrorRecovery.tsx] with [parseContractErrorCode]. *)

From Stdlib Require Import String Ascii.
From S2P Require Import Prelude Js Decimal Browser.

#[local] Open Scope string_scope.
#[local] Open Scope list_scope.
#[local] Open Scope Z_scope.

(** ** The pattern of the first match of [/error code[=: ]+(\d+)/i] *)

Fixpoint skip_while (f : ascii → bool) (l : list ascii) : list ascii :=
  match l with c :: l' => if f c then skip_while f l' else l | [] => [] end.

(** The digits after a prefix (in lower case) and at least one separator. *)
Definition digits_after (pre : string) (sep : ascii → bool) (l : list ascii) :
    option (list ascii) :=
  let n := length (lst pre) in
  if decide (to_lower_char <$> take n l = lst pre) then
    match drop n l with
    | c :: r =>
        if sep c then match span_digits (skip_while sep r) with ([], _) => None | (d, _) => Some d end
        else None
    | [] => None
    end
  else None.

(** The first position a pattern matches at. *)
Fixpoint first_match {A} (here : list ascii → option A) (l : list ascii) : option A :=
  match here l with
  | Some d => Some d
  | None => match l with [] => None | _ :: l' => first_match here l' end
  end.

Definition separator (c : ascii) : bool :=
  Ascii.eqb c "=" || Ascii.eqb c ":" || Ascii.eqb c " ".

Definition contract_code (msg : string) : option Z :=
  digits_value 0 <$> first_match (digits_after "error code" separator) (lst msg).

(** ** The messages *)

Definition message_of (c : Z) (l : list (Z * string)) : option string :=
  snd <$> head (filter (λ e, e.1 = c) l).

Definition CONTRACT_ERROR_MESSAGES : list (Z * string) := [
  (1, "The contract has already been initialised.");
  (2, "The contract has not been initialised yet.");
  (3, "You are not authorised as admin.");
  (4, "You are not a registered maintainer for this organisation.");
  (5, "Contributor authorisation failed. Make sure your wallet is connected.");
  (6, "You have reached the global limit of 15 pending applications. Withdraw an application to apply for new issues.");
  (7, "You have reached the limit of 4 active assignments for this organisation.");
  (8, "You have already applied for this issue.");
  (9, "No application found for this issue.");
  (10, "No active assignment found for this issue.");
  (11, "This issue is already assigned to someone.");
  (17, "Maintainer not found for this organisation.")].

Definition panel_messages : list (Z * string) := [
  (4, "You are not a registered maintainer for this organisation.");
  (9, "Application not found.");
  (10, "Assignment not found.");
  (11, "This issue is already assigned.")].

(** [mapContractError(err)]: the copies differ in their messages and their last resort. *)
Definition mapContractError (messages : list (Z * string)) (unexpected : string) (err : exn) :
    string :=
  match err with
  | OtherValue _ => unexpected
  | ErrorObj _ msg =>
      match contract_code msg with
      | Some c => default ("Contract error " +:+ pretty c +:+ ".") (message_of c messages)
      | None =>
          let m := toLowerCase msg in
          if includes "user rejected" m || includes "user denied" m || includes "cancelled" m
          then "Transaction was cancelled." else msg
      end
  end.

Definition apply_error : exn → string :=
  mapContractError CONTRACT_ERROR_MESSAGES "An unexpected error occurred. Please try again.".
Definition panel_error : exn → string :=
  mapContractError panel_messages "An unexpected error occurred.".

(** ** The catalogue *)

Inductive kind := transient | action | info.
Inductive severity := error | warning | info_severity.
Inductive cta := retry | withdraw | custom.

(** The texts take what is known of the contributor. *)
Record context := mkContext { globalCount : option Z; orgCount : option Z; orgId : option string }.

Record ErrorEntry := mkEntry {
  title : string; message : context → string; e_kind : kind; e_severity : severity;
  ctaLabel : option string; ctaAction : option cta; resolution : string;
}.

Definition plural (n : Z) (word : string) : string := word +:+ (if n =? 1 then "" else "s").

Definition global_limit_message (ctx : context) : string :=
  let count := default 15 (globalCount ctx) in
  "You currently have " +:+ pretty count +:+ " pending " +:+ plural count "application" +:+
  " across all organisations — the maximum allowed is 15. Withdraw at least one before applying again.".

Definition org_limit_message (ctx : context) : string :=
  let count := default 4 (orgCount ctx) in
  let org := match filled (orgId ctx) with Some o => " in " +:+ quoted o | None => "" end in
  "You already have " +:+ pretty count +:+ " active " +:+ plural count "assignment" +:+ org +:+
  " — the maximum per organisation is 4. Complete or wait for revocation of an existing assignment before taking on more.".

Definition ERROR_CATALOGUE : list (Z * ErrorEntry) := [
  (-1, mkEntry "Connection timed out"
      (λ _, "The transaction request timed out before reaching the network. This is usually temporary.")
      transient warning (Some "Try again") (Some retry)
      ("Click " +:+ quoted "Try again" +:+ " to resubmit. If the problem persists, check your internet connection."));
  (1, mkEntry "Contract already initialised"
      (λ _, "This contract has already been set up. Calling initialise a second time is not allowed.")
      info info_severity None None
      "No action needed — the contract is already live. Do not call initialise again.");
  (2, mkEntry "Contract not initialised"
      (λ _, "The contract has not been set up yet. All state-changing operations require initialisation first.")
      info error None None
      "The admin must call initialise before any other contract function.");
  (3, mkEntry "Admin authorisation failed"
      (λ _, "This action requires admin privileges. The transaction was signed by the wrong account.")
      info error None None
      "Sign the transaction with the admin account registered on-chain.");
  (4, mkEntry "Not a registered maintainer"
      (λ _, "You are not registered as a maintainer for this organisation. Only registered maintainers can assign, complete, or revoke issues.")
      info error None None
      "Ask the admin to run register_maintainer for your account and organisation.");
  (5, mkEntry "Contributor authorisation failed"
      (λ _, "The transaction must be signed by the contributor account listed in the request.")
      info error None None
      "Ensure your connected wallet matches the contributor address in the request.");
  (6, mkEntry "Global application limit reached"
      global_limit_message
      action warning (Some "Withdraw an application") (Some withdraw)
      "Withdraw one or more existing applications to free a slot, then retry.");
  (7, mkEntry "Organisation assignment limit reached"
      org_limit_message
      info warning None None
      "A maintainer must complete or revoke one of your active assignments in this organisation.");
  (8, mkEntry "Application already exists"
      (λ _, "You have already applied for this issue. Duplicate applications are not allowed.")
      action info_severity (Some "Withdraw and re-apply") (Some withdraw)
      "If you want to reset your application, withdraw it first then apply again.");
  (9, mkEntry "Application not found"
      (λ _, "No pending application was found for this issue. It may have expired (Wave TTL elapsed) or was never submitted.")
      action warning (Some "Apply for this issue") (Some custom)
      "Submit a new application. If within an active Wave, use extend_application_ttl to prevent future expiry.");
  (10, mkEntry "Assignment not found"
      (λ _, "No active assignment was found for this issue and contributor. It may have already been completed or revoked.")
      info info_severity None None
      "Verify the current state using is_assigned before retrying.");
  (11, mkEntry "Issue already assigned"
      (λ _, "This issue already has an active assignment. It must be completed or revoked before it can be assigned again.")
      info warning None None
      "Use complete_assignment or revoke_assignment to close the existing assignment first.");
  (13, mkEntry "Storage inconsistency detected"
      (λ _, "An internal counter inconsistency was detected — the assignment entry exists but the organisation counter is zero. This indicates a storage corruption or migration error.")
      info error None None
      "Contact the contract admin to run a corrective migration script before retrying.")].

Definition FALLBACK_ENTRY : ErrorEntry :=
  mkEntry "Unexpected contract error"
      (λ _, "An unexpected error was returned by the contract. Please try again or contact support.")
      transient error (Some "Try again") (Some retry)
      "If the problem persists, include the error code and transaction details when contacting support.".

Definition catalogue (c : Z) : option ErrorEntry :=
  snd <$> head (filter (λ e, e.1 = c) ERROR_CATALOGUE).

Definition entry_of (c : Z) : ErrorEntry := default FALLBACK_ENTRY (catalogue c).

(** The button of an error, given the callbacks that were passed. *)
Definition button (c : Z) (onRetry onWithdraw onCta : bool) : option cta :=
  match ctaAction (entry_of c) with
  | Some retry => if onRetry then Some retry else None
  | Some withdraw => if onWithdraw then Some withdraw else None
  | Some custom => if onCta then Some custom else None
  | None => None
  end.

(** [/timeout|timed?\s*out|econnreset|network/i]: the second alternative is [time], a [d] or
    not, white space or not, [out]. *)
Definition timed_out (l : list ascii) : option unit :=
  if decide (take 4 l = lst "time") then
    let r := drop 4 l in
    let here r := if decide (take 3 (drop_ws r) = lst "out") then Some () else None in
    match r with
    | "d"%char :: r' => match here r' with Some u => Some u | None => here r end
    | _ => here r
    end
  else None.

Definition transient_text (raw : string) : bool :=
  let m := toLowerCase raw in
  includes "timeout" m || (match first_match timed_out (lst m) with Some _ => true | None => false end) ||
  includes "econnreset" m || includes "network" m.

Definition colon_or_space (c : ascii) : bool := Ascii.eqb c ":" || is_ws c.

(** [/ContractError\((\d+)\)|error[_\s]code[:\s]+(\d+)|code[:\s]+(\d+)/i] at the front. *)
Definition contract_error_here (l : list ascii) : option (list ascii) :=
  if decide (to_lower_char <$> take 14 l = lst "contracterror(") then
    match span_digits (drop 14 l) with
    | ([], _) => None
    | (d, ")"%char :: _) => Some d
    | _ => None
    end
  else None.

Definition error_code_here (l : list ascii) : option (list ascii) :=
  if decide (to_lower_char <$> take 5 l = lst "error") then
    match drop 5 l with
    | c :: r => if Ascii.eqb c "_" || is_ws c then digits_after "code" colon_or_space r else None
    | [] => None
    end
  else None.

Definition code_here (l : list ascii) : option (list ascii) :=
  match contract_error_here l with
  | Some d => Some d
  | None => match error_code_here l with
            | Some d => Some d
            | None => digits_after "code" colon_or_space l
            end
  end.

Definition parseContractErrorCode (raw : string) : option Z :=
  if transient_text raw then Some (-1) else
  match first_match code_here (lst raw) with
  | None => None
  | Some d => let c := digits_value 0 d in
              match catalogue c with Some _ => Some c | None => None end
  end.

(** The discriminants of the contract ([src/errors.rs]). *)
Definition contract_errors : list Z := [1; 2; 3; 4; 5; 6; 7; 8; 9; 10; 11; 12; 17].

(** ** Lemmas *)

Example code_of_message : contract_code "Contract Error code: 6 (HostError)" = Some 6.
Proof. reflexivity. Qed.
Example parse_timeout : parseContractErrorCode "request timed  out" = Some (-1).
Proof. reflexivity. Qed.
Example parse_code : parseContractErrorCode "failed: ContractError(11)" = Some 11.
Proof. reflexivity. Qed.

(** What the transaction service of the backend throws is not read by any of them. *)
Example host_error_unread : contract_code "HostError: Error(Contract, #6)" = None.
Proof. reflexivity. Qed.
Example host_error_unparsed : parseContractErrorCode "HostError: Error(Contract, #6)" = None.
Proof. reflexivity. Qed.

Lemma span_digits_rest d r : digits d → (∀ c r', r = c :: r' → is_digit c = false) →
  span_digits (d ++ r) = (d, r).
Proof.
  intros Hd Hr. induction Hd as [|c d Hc _ IH]; cbn.
  - destruct r as [|c r]; [done|]. cbn. by rewrite (Hr c r).
  - by rewrite Hc, IH.
Qed.

Lemma first_match_here {A} (here : list ascii → option A) l d : here l = Some d → first_match here l = Some d.
Proof. by destruct l as [|c l]; cbn [first_match]; intros ->. Qed.

(** A message that starts like the one of the contract client is read back. *)
Lemma contract_code_reads n rest : 0 ≤ n →
  (∀ c r', lst rest = c :: r' → is_digit c = false) →
  contract_code ("error code: " +:+ pretty n +:+ rest) = Some n.
Proof.
  intros Hn Hr. unfold contract_code. rewrite !lst_app.
  destruct (pretty_digits n Hn) as (Hd & Hv & Hne & _). set (d := lst (pretty n)) in *.
  assert (digits_after "error code" separator (lst "error code: " ++ d ++ lst rest) = Some d) as He.
  { unfold digits_after. cbn -[span_digits]. rewrite decide_True by done.
    destruct d as [|c d']; [done|]. inv Hd. cbn [skip_while app].
    assert (separator c = false) as ->.
    { unfold separator. destruct (Ascii.eqb_spec c "="), (Ascii.eqb_spec c ":"), (Ascii.eqb_spec c " ");
        subst; done. }
    change (c :: d' ++ lst rest) with ((c :: d') ++ lst rest).
    by rewrite span_digits_rest by (try done; by constructor). }
  rewrite (first_match_here _ _ _ He).
  cbn. by rewrite digits_value_all, Hv.
Qed.

(** ** Theorems *)

(** the codes of the contract and what is said of them: an error message that carries the
    code of any discriminant of the contract but [CapOutOfRange] is shown as the text for
    it, and [CapOutOfRange] by its number; the catalogue knows every discriminant but
    [CapOutOfRange] and [MaintainerNotFound], which it offers to retry. *)
Theorem contract_errors_shown rest : (∀ c r', lst rest = c :: r' → is_digit c = false) →
  (∀ c, c ∈ contract_errors → ∃ text,
     apply_error (Error ("error code: " +:+ pretty c +:+ rest)) = text ∧
     (if decide (c = 12) then text = "Contract error 12." else (c, text) ∈ CONTRACT_ERROR_MESSAGES)) ∧
  (∀ c, c ∈ contract_errors → catalogue c = None ↔ c = 12 ∨ c = 17) ∧
  button 12 true true true = Some retry ∧ button 17 true true true = Some retry.
Proof.
  intros Hr. split; [|split; [|done]].
  - intros c Hc. eexists. split; [reflexivity|]. unfold apply_error, mapContractError, Error.
    rewrite contract_code_reads; [|by unfold contract_errors in Hc; set_unfold; lia|done].
    unfold contract_errors in Hc. set_unfold.
    repeat (destruct Hc as [->|Hc]); [..|done]; vm_compute; try reflexivity;
      repeat (first [left; reflexivity | right]).
  - intros c Hc. unfold contract_errors in Hc. set_unfold.
    repeat (destruct Hc as [->|Hc]); [..|done]; vm_compute; split; intros H; try discriminate H; try lia; try tauto.
Qed.

Lemma contract_errors_shown_witness :
  apply_error (Error "error code: 8 (host)") = "You have already applied for this issue." ∧
  button 12 true true true = Some retry.
Proof.
  assert (∀ c r', lst " (host)" = c :: r' → is_digit c = false) as Hr
    by (intros c r' H; injection H as <- <-; reflexivity).
  destruct (contract_errors_shown " (host)" Hr) as (H & _ & H12 & _).
  split; [|exact H12].
  assert (8 ∈ contract_errors) as H8 by (apply (bool_decide_unpack _); vm_compute; exact I).
  destruct (H 8 H8) as (text & Ht & _). vm_compute. reflexivity.
Defined.
