(* ===== verification/Client.v ===== *)
(** * The data hooks of the frontend ([frontend/src/hooks/])

    A hook that loads data when its parameters change: its requests, the replies that may
    come back in any order, and the state React shows.  [useIssueDetail.ts] and
    [useActivityStats.ts] cancel a request when the parameters change; [useDashboard.ts] and
    [useContributorProfile.ts] do not. *)

From Stdlib Require Import String.
From S2P Require Import Prelude Js Url Http Db Contributors.

#[local] Open Scope string_scope.
#[local] Open Scope list_scope.
#[local] Open Scope Z_scope.

(** ** Replies *)

(** What [fetch] settles to; the body is [res.json()], [None] when it throws. *)
Inductive reply :=
  | Answered (code : Z) (body : option json)
  | Rejected (e : exn).

(** [res.ok]. *)
Definition ok (code : Z) : bool := (200 <=? code) && (code <=? 299).

(** The reply of a route, as the browser parses it. *)
Definition reply_of (res : response) : reply := Answered (Http.status res) (rbody res).

Definition null_property (k : string) : exn :=
  ErrorObj "TypeError" ("Cannot read properties of null (reading '" +:+ k +:+ "')").
Definition bad_json : exn := ErrorObj "SyntaxError" "Unexpected token in JSON".

(** [const body = await res.json().catch(() => ({})); new Error(body.error ?? dflt)]. *)
Definition error_of_body (dflt : string) (body : option json) : exn :=
  match body with
  | None => Error dflt
  | Some JNull => null_property "error"
  | Some b => Error (js_String (nullish_or (prop "error" b) (JStr dflt)))
  end.

(** [new Error(`HTTP ${res.status}`)]. *)
Definition http_error (code : Z) : string := "HTTP " +:+ pretty code.

(** ** A hook and its requests *)

(** [P]: what a request asks for, [R]: what it settles to, [S]: the state of the hook. *)
Record hook (P R S : Type) := Hook {
  cancels : bool;                  (** the effect returns a cleanup that cancels the request *)
  wanted : P → bool;               (** the guard before the request *)
  on_skip : S → S;                 (** what the guard does instead of the request *)
  on_start : P → S → S;
  on_reply : P → R → S → S;
  on_end : S → S;                  (** the [finally] *)
}.
Arguments Hook {P R S} cancels wanted on_skip on_start on_reply on_end.
Arguments cancels {P R S} h.
Arguments wanted {P R S} h p.
Arguments on_skip {P R S} h s.
Arguments on_start {P R S} h p s.
Arguments on_reply {P R S} h p r s.
Arguments on_end {P R S} h s.

Inductive phase (R : Type) := Waiting | Replied (r : R) | Done (r : R).
Arguments Waiting {R}.
Arguments Replied {R} r.
Arguments Done {R} r.

(** A request: what it asked for and whether its cleanup has not run. *)
Record run (P R : Type) := Run { asked : P; live : bool; at_phase : phase R }.
Arguments Run {P R} asked live at_phase.
Arguments asked {P R} r.
Arguments live {P R} r.
Arguments at_phase {P R} r.

Record component (P R S : Type) := Component { shown : S; runs : list (run P R) }.
Arguments Component {P R S} shown runs.
Arguments shown {P R S} c.
Arguments runs {P R S} c.

(** What happens to a mounted component: its parameters change or a refetch is asked for, a
    request settles, its [finally] runs, it goes away. *)
Inductive event (P R : Type) :=
  | Render (p : P)
  | Reply (i : nat) (r : R)
  | Finally (i : nat)
  | Unmount.
Arguments Render {P R} p.
Arguments Reply {P R} i r.
Arguments Finally {P R} i.
Arguments Unmount {P R}.

Section hook.
Context {P R S : Type}.
Variable h : hook P R S.

Definition retire (rs : list (run P R)) : list (run P R) :=
  if cancels h then (λ r, Run (asked r) false (at_phase r)) <$> rs else rs.

Definition step (c : component P R S) (e : event P R) : component P R S :=
  match e with
  | Render p =>
      if wanted h p
      then Component (on_start h p (shown c)) (retire (runs c) ++ [Run p true Waiting])
      else Component (on_skip h (shown c)) (retire (runs c))
  | Reply i r =>
      match runs c !! i with
      | Some (Run p l Waiting) =>
          Component (if l then on_reply h p r (shown c) else shown c)
            (<[i := Run p l (Replied r)]> (runs c))
      | _ => c
      end
  | Finally i =>
      match runs c !! i with
      | Some (Run p l (Replied r)) =>
          Component (if l then on_end h (shown c) else shown c)
            (<[i := Run p l (Done r)]> (runs c))
      | _ => c
      end
  | Unmount => Component (shown c) (retire (runs c))
  end.

Definition mount (s : S) : component P R S := Component s [].
Definition history (s : S) (es : list (event P R)) : component P R S := fold_left step es (mount s).

(** The parameters on screen, if a request was made for them. *)
Definition rendered (es : list (event P R)) : option P :=
  fold_left (λ o e, match e with
                    | Render p => if wanted h p then Some p else None
                    | Unmount => None
                    | _ => o
                    end) es None.

Lemma rendered_wanted es p : rendered es = Some p → wanted h p = true.
Proof.
  unfold rendered. induction es as [|e es IH] using rev_ind; [done|].
  rewrite fold_left_app. cbn [fold_left]. destruct e as [q|i r|i|]; try done.
  destruct (wanted h q) eqn:E; intros; by simplify_eq.
Qed.

(** The state as one request alone makes it of an earlier state. *)
Definition view (p : P) (ph : phase R) (s : S) : S :=
  match ph with
  | Waiting => on_start h p s
  | Replied r => on_reply h p r (on_start h p s)
  | Done r => on_end h (on_reply h p r (on_start h p s))
  end.

(** *** A hook that cancels *)

(** At most the last request is live, and a live one alone made the state. *)
Definition tidy (o : option P) (c : component P R S) : Prop :=
  (∀ i r, runs c !! i = Some r → live r = true → Datatypes.S i = length (runs c)) ∧
  match o with
  | Some p => ∃ ph s0, last (runs c) = Some (Run p true ph) ∧ shown c = view p ph s0
  | None => ∀ r, last (runs c) = Some r → live r = false
  end.

Lemma tidy_last o c i p l ph : tidy o c → runs c !! i = Some (Run p l ph) →
  (l = true → o = Some p ∧ i = (length (runs c) - 1)%nat ∧ ∃ s0, shown c = view p ph s0).
Proof.
  intros [Hlive Ho] Hi ->. pose proof (Hlive _ _ Hi eq_refl) as Hn.
  assert (last (runs c) = Some (Run p true ph)) as Hl.
  { rewrite last_lookup. by replace (Nat.pred (length (runs c))) with i by lia. }
  destruct o as [q|].
  - destruct Ho as (ph' & s0 & Hl' & Hs). rewrite Hl in Hl'. simplify_eq. split_and!; eauto. lia.
  - by specialize (Ho _ Hl).
Qed.

(** Moving one request on keeps the component tidy when the state moves with a live one. *)
Lemma tidy_move o c i p l ph ph' s' :
  tidy o c → runs c !! i = Some (Run p l ph) →
  (if l then ∃ s0, s' = view p ph' s0 else s' = shown c) →
  tidy o (Component s' (<[i := Run p l ph']> (runs c))).
Proof.
  intros Ht Hi Hs. pose proof (lookup_lt_Some _ _ _ Hi) as Hlt.
  split; cbn [shown runs].
  - intros j r Hj Hr. rewrite length_insert.
    destruct (decide (i = j)) as [<-|Hne].
    + rewrite list_lookup_insert_eq in Hj by done. injection Hj as <-. cbn in Hr. subst l.
      by apply (proj1 Ht _ _ Hi).
    + rewrite list_lookup_insert_ne in Hj by done. by apply (proj1 Ht _ _ Hj).
  - assert (∀ r, last (<[i := Run p l ph']> (runs c)) = Some r →
      (i = (length (runs c) - 1)%nat ∧ r = Run p l ph') ∨
      (i ≠ (length (runs c) - 1)%nat ∧ last (runs c) = Some r)) as Hlast.
    { intros r. rewrite !last_lookup, length_insert. intros Hr.
      destruct (decide (i = (length (runs c) - 1)%nat)) as [He|Hne].
      - left. replace (Nat.pred (length (runs c))) with i in Hr by lia.
        rewrite list_lookup_insert_eq in Hr by done. by simplify_eq.
      - right. rewrite list_lookup_insert_ne in Hr by lia. done. }
    destruct l.
    + destruct (tidy_last _ _ _ _ _ _ Ht Hi eq_refl) as (-> & He & _).
      destruct Hs as [s0 ->]. exists ph', s0. split; [|done].
      rewrite last_lookup, length_insert. replace (Nat.pred (length (runs c))) with i by lia.
      by rewrite list_lookup_insert_eq by done.
    + subst s'. destruct Ht as [Hlive Ho]. destruct o as [q|].
      * destruct Ho as (phq & s0 & Hl & Hs). exists phq, s0. split; [|done].
        rewrite last_lookup in Hl |- *. rewrite length_insert.
        rewrite list_lookup_insert_ne; [done|]. intros ->. by simplify_eq.
      * intros r [[_ ->]|[_ Hr]]%Hlast; [done|by apply Ho].
Qed.

Hypothesis Hcancels : cancels h = true.

Lemma retire_dead rs r : r ∈ retire rs → live r = false.
Proof. unfold retire. rewrite Hcancels. by intros (r0 & -> & _)%list_elem_of_fmap. Qed.

Lemma tidy_step o c e : tidy o c →
  tidy (match e with
        | Render p => if wanted h p then Some p else None
        | Unmount => None
        | _ => o
        end) (step c e).
Proof.
  intros Ht. assert (∀ s, tidy None (Component s (retire (runs c)))) as Hret.
  { intros s. split; cbn [shown runs].
    - intros i r Hi Hr. apply list_elem_of_lookup_2, retire_dead in Hi. congruence.
    - intros r Hr. by eapply retire_dead, last_Some_elem_of. }
  destruct e as [p|i r|i|]; cbn [step]; [destruct (wanted h p)| | |]; [|apply Hret| | |apply Hret].
  - split; cbn [shown runs].
    + intros i r [Hi|[Hi Hr]]%lookup_app_Some Hl.
      * apply list_elem_of_lookup_2, retire_dead in Hi. congruence.
      * rewrite length_app. cbn. apply list_lookup_singleton_Some in Hr as [Hz _]. lia.
    + exists Waiting, (shown c). by rewrite last_snoc.
  - destruct (runs c !! i) as [[p l []]|] eqn:Hi; try done.
    apply (tidy_move _ _ _ _ _ _ _ _ Ht Hi). destruct l; [|done].
    destruct (tidy_last _ _ _ _ _ _ Ht Hi eq_refl) as (_ & _ & s0 & Hs). exists s0. by rewrite Hs.
  - destruct (runs c !! i) as [[p l []]|] eqn:Hi; try done.
    apply (tidy_move _ _ _ _ _ _ _ _ Ht Hi). destruct l; [|done].
    destruct (tidy_last _ _ _ _ _ _ Ht Hi eq_refl) as (_ & _ & s0 & Hs). exists s0. by rewrite Hs.
Qed.

Lemma tidy_history s es : tidy (rendered es) (history s es).
Proof.
  unfold history, rendered. induction es as [|e es IH] using rev_ind.
  - split; [done|]. by intros r Hr.
  - rewrite !fold_left_app. by apply tidy_step.
Qed.

(** Whatever older requests do, the state is what the latest one made of it. *)
Lemma latest_wins s es p : rendered es = Some p →
  ∃ ph s0, last (runs (history s es)) = Some (Run p true ph) ∧
    shown (history s es) = view p ph s0.
Proof. intros Hp. pose proof (tidy_history s es) as [_ H]. by rewrite Hp in H. Qed.

End hook.

(** ** The hooks *)

(** The state of [useIssueDetail] and [useActivityStats]. *)
Record loaded := mkLoaded { data : option json; loading : bool; error : option string }.

Definition begin_load (s : loaded) : loaded := mkLoaded (data s) true None.
Definition end_load (s : loaded) : loaded := mkLoaded (data s) false (error s).

Definition is_abort (e : exn) : bool :=
  match e with ErrorObj n _ => String.eqb n "AbortError" | OtherValue _ => false end.

(** [.then(setData).catch(...)]. *)
Definition deliver {R} (decode : R → outcome (option json)) (r : R) (s : loaded) : loaded :=
  match decode r with
  | Ret d => mkLoaded d (loading s) (error s)
  | Throw e =>
      if is_abort e then s
      else mkLoaded (data s) (loading s) (Some (error_message "Unknown error" e))
  end.

(** The first [.then] of both hooks. *)
Definition read_body (r : reply) : outcome json :=
  match r with
  | Rejected e => Throw e
  | Answered code body =>
      if ok code then match body with Some j => Ret j | None => Throw bad_json end
      else Throw (error_of_body (http_error code) body)
  end.

Module IssueDetail.

Record params := mkParams { apiBase : string; orgId : string; issueId : string; tick : Z }.

Definition url (p : params) : string :=
  apiBase p +:+ "/issues/" +:+ encodeURIComponent (orgId p) +:+ "/" +:+
  encodeURIComponent (issueId p).

Definition answer (r : reply) : outcome (option json) :=
  match read_body r with Ret j => Ret (Some j) | Throw e => Throw e end.

Definition useIssueDetail : hook params reply loaded :=
  Hook true (λ p, negb (String.eqb (orgId p) "") && negb (String.eqb (issueId p) "")) id
    (λ _, begin_load) (λ _, deliver answer) end_load.

Definition initial : loaded := mkLoaded None false None.

End IssueDetail.

Module ActivityStats.

Record params := mkParams { apiBase : string; address : string; tick : Z }.

Definition url (p : params) : string :=
  apiBase p +:+ "/contributors/" +:+ encodeURIComponent (address p) +:+ "/activity".

(** [.then(({ activity: data }) => ...)]. *)
Definition answer (r : reply) : outcome (option json) :=
  match read_body r with
  | Ret JNull => Throw (null_property "activity")
  | Ret j => Ret (prop "activity" j)
  | Throw e => Throw e
  end.

Definition useActivityStats : hook params reply loaded :=
  Hook true (λ p, negb (String.eqb (address p) "")) id (λ _, begin_load) (λ _, deliver answer)
    end_load.

Definition initial : loaded := mkLoaded (Some (JArr [])) false None.

End ActivityStats.

Module Profile.

Record params := mkParams { apiBase : string; address : option string }.

Inductive ProfileState := idle | loading | ready | not_found | error.

Record state := mkState { profile : option json; status : ProfileState; message : option string }.

Definition wants (p : params) : bool :=
  match address p with Some (String _ _) => true | _ => false end.

Definition url (p : params) : string :=
  apiBase p +:+ "/contributors/" +:+ encodeURIComponent (default "undefined" (address p)).

Definition fail (e : exn) (s : state) : state :=
  mkState (profile s) error (Some (error_message "Unknown error" e)).

(** What [load] does once [fetch] settled. *)
Definition receive (r : reply) (s : state) : state :=
  match r with
  | Rejected e => fail e s
  | Answered code body =>
      if code =? 404 then mkState None not_found (message s)
      else if negb (ok code) then fail (Error (http_error code)) s
      else match body with
           | Some j => mkState (Some j) ready (message s)
           | None => fail bad_json s
           end
  end.

Definition useContributorProfile : hook params reply state :=
  Hook false wants id (λ _ s, mkState (profile s) loading None) (λ _, receive) id.

Definition initial : state := mkState None idle None.

End Profile.

Module Dashboard.

Definition GLOBAL_CAP : Z := 15.
Definition ORG_CAP : Z := 4.

Record params := mkParams { apiBase : string; address : option string }.

Record OrgUsage := mkUsage { org_id : option json; assignments : json; applications : json }.

Record DashboardData := mkData {
  globalApplicationCount : json;
  orgUsage : list OrgUsage;
  lastRefreshed : Z;
}.

Inductive FetchState := idle | loading | error.

Record state := mkState {
  data : option DashboardData;
  fetch_state : FetchState;
  message : option string;
}.

Definition url (p : params) : string :=
  apiBase p +:+ "/contributors/" +:+ default "null" (address p) +:+ "/counts".

Definition usage (o : json) : outcome OrgUsage :=
  match o with
  | JNull => Throw (null_property "org_id")
  | _ => Ret (mkUsage (prop "org_id" o) (nullish_or (prop "assignments" o) (jint 0))
                (nullish_or (prop "applications" o) (jint 0)))
  end.

(** The body of the [try] after [fetch]. *)
Definition decode (now : Z) (r : reply) : outcome DashboardData :=
  match r with
  | Rejected e => Throw e
  | Answered code body =>
      if negb (ok code) then Throw (Error ("Stats fetch failed: " +:+ pretty code))
      else match body with
           | None => Throw bad_json
           | Some JNull => Throw (null_property "byOrganization")
           | Some stats =>
               match nullish_or (prop "byOrganization" stats) (JArr []) with
               | JArr l =>
                   match map_outcome usage l with
                   | Throw e => Throw e
                   | Ret u => Ret (mkData (nullish_or (prop "totalApplications" stats) (jint 0))
                                     u now)
                   end
               | _ => Throw (ErrorObj "TypeError" "map is not a function")
               end
           end
  end.

Definition receive (r : reply * Z) (s : state) : state :=
  match decode r.2 r.1 with
  | Ret d => mkState (Some d) idle (message s)
  | Throw e => mkState (data s) error (Some (error_message "Unknown error" e))
  end.

(** A reply comes with the time it arrives at. *)
Definition useDashboard : hook params (reply * Z) state :=
  Hook false (λ p, match address p with Some (String _ _) => true | _ => false end) id
    (λ _ s, mkState (data s) loading None) (λ _, receive) id.

Definition initial : state := mkState None idle None.

(** [v >= n] for a number [v]. *)
Definition at_least (n : Z) (v : json) : bool :=
  match v with JNum m k => n * pow10 k <=? m | _ => false end.

Definition showWarning (s : state) : bool :=
  match data s with
  | None => false
  | Some d => at_least 12 (globalApplicationCount d) ||
              existsb (λ o, at_least 3 (assignments o)) (orgUsage d)
  end.

End Dashboard.

(** ** Lemmas *)

(** What a hook shows while it waits and once its request is over. *)
Lemma loaded_view {P} (want : P → bool) dec p (ph : phase reply) s0 :
  let s := view (Hook true want id (λ _, begin_load) (λ _, deliver dec) end_load) p ph s0 in
  (loading s = match ph with Done _ => false | _ => true end) ∧
  match ph with
  | Waiting => error s = None
  | Replied r | Done r =>
      match dec r with
      | Ret d => data s = d ∧ error s = None
      | Throw e => error s =
          if is_abort e then None else Some (error_message "Unknown error" e)
      end
  end.
Proof.
  destruct ph as [|r|r]; cbn; unfold deliver; try destruct (dec r) as [d|e];
    try destruct (is_abort e); done.
Qed.

Lemma get_counts_ok {S} `{HasDb S} address (s : S) : isValidStellarAddress address = true →
  let apps := ap_org_id <$> filter (λ a, ap_contributor a = address) (applications (get_db s)) in
  let asgs := as_org_id <$> filter (λ a, as_contributor a = address) (assignments (get_db s)) in
  get_counts migrate_schema address (World s []) =
    (Ret (send_json 200 (obj
       [("totalApplications", Some (jint (zlen apps)));
        ("totalAssignments", Some (jint (zlen asgs)));
        ("byOrganization", Some (JArr (entry_json <$> breakdown apps asgs)))])), World s []).
Proof.
  intros Hv apps asgs. unfold get_counts, guarded. rewrite Hv. apply try_Ret.
  erewrite bind_intro by apply countApplications_ok.
  erewrite bind_intro by apply countAssignments_ok.
  erewrite bind_intro by apply getOrgBreakdown_ok.
  unfold apps, asgs. by rewrite !zlen_fmap.
Qed.

Lemma at_least_jint n z : Dashboard.at_least n (jint z) = (n <=? z).
Proof. cbn. unfold pow10. cbn. by rewrite Z.mul_1_r. Qed.

(** What the dashboard makes of an entry of the breakdown. *)
Definition usage_of (e : string * (Z * Z)) : Dashboard.OrgUsage :=
  Dashboard.mkUsage (Some (JStr e.1)) (jint e.2.2) (jint e.2.1).

Lemma receive_counts a b m now st :
  Dashboard.receive (reply_of (send_json 200 (obj
    [("totalApplications", Some (jint a)); ("totalAssignments", Some (jint b));
     ("byOrganization", Some (JArr (entry_json <$> m)))])), now) st =
  Dashboard.mkState (Some (Dashboard.mkData (jint a) (usage_of <$> m) now)) Dashboard.idle
    (Dashboard.message st).
Proof.
  assert (map_outcome Dashboard.usage (entry_json <$> m) = Ret (usage_of <$> m)) as Hm.
  { induction m as [|e m IH]; [done|]. rewrite !fmap_cons. cbn [map_outcome]. rewrite IH. done. }
  unfold Dashboard.receive, Dashboard.decode, reply_of. cbn -[map_outcome]. by rewrite Hm.
Qed.

Lemma occ_pos o l : 0 < occ o l → o ∈ l.
Proof.
  induction l as [|x l IH]; [done|]. rewrite occ_cons. destruct (decide (x = o)) as [->|Hne].
  - by left.
  - intros H. right. apply IH. lia.
Qed.

Lemma occ_assignments address o (l : list assignment_row) :
  occ o (as_org_id <$> filter (λ a, as_contributor a = address) l) =
  zlen (filter (λ a, as_org_id a = o ∧ as_contributor a = address) l).
Proof.
  induction l as [|x l IH]; [done|]. rewrite !filter_cons.
  destruct (decide (as_contributor x = address)).
  - rewrite fmap_cons, occ_cons, IH. unfold zlen.
    repeat case_decide; cbn [length]; first [lia | naive_solver].
  - rewrite IH. by rewrite decide_False by naive_solver.
Qed.

(** The usages: one per organisation, with its assignments. *)
Lemma usages_correct ls rs :
  NoDup (Dashboard.org_id <$> (usage_of <$> breakdown ls rs)) ∧
  (∀ u, u ∈ usage_of <$> breakdown ls rs → ∃ o,
     Dashboard.org_id u = Some (JStr o) ∧ Dashboard.assignments u = jint (occ o rs)) ∧
  (existsb (λ u, Dashboard.at_least 3 (Dashboard.assignments u)) (usage_of <$> breakdown ls rs) = true
   ↔ ∃ o, 3 ≤ occ o rs).
Proof.
  destruct (breakdown_keys ls rs "") as [Hd _].
  assert (∀ e, e ∈ breakdown ls rs → e.2 = (occ e.1 ls, occ e.1 rs)) as He.
  { intros [o v] Hin. cbn. by rewrite <- breakdown_lookup, (lookup_entry_elem _ _ _ Hd Hin). }
  split_and!.
  - rewrite <- list_fmap_compose. apply (NoDup_fmap_2_strong (λ e, Some (JStr e.1))).
    + intros [o1 v1] [o2 v2] H1%He H2%He. cbn in *. congruence.
    + by apply NoDup_fmap_1 in Hd.
  - intros u (e & -> & Hin%He)%list_elem_of_fmap. exists e.1. cbn. by rewrite Hin.
  - rewrite existsb_exists. split.
    + intros (u & Hu & Hge). apply list_elem_of_In, list_elem_of_fmap in Hu as (e & -> & Hin%He).
      exists e.1. cbn [usage_of Dashboard.assignments] in Hge. rewrite Hin, at_least_jint in Hge.
      by apply Z.leb_le in Hge.
    + intros (o & Ho). destruct (breakdown_keys ls rs o) as [_ Hk].
      assert (o ∈ (breakdown ls rs).*1) as (e & -> & Hin)%list_elem_of_fmap.
      { apply Hk. right. apply occ_pos. lia. }
      exists (usage_of e). rewrite <- list_elem_of_In. split; [by apply list_elem_of_fmap_2|].
      cbn [usage_of Dashboard.assignments]. rewrite at_least_jint, (He _ Hin). by apply Z.leb_le.
Qed.

(** ** Theorems *)

(** whatever requests were made before, in whatever order their replies come in, and
    however often the page changed or was left and entered again, the issue page shows what
    its latest request made of it: while that waits, it loads; when that is over, it shows
    the issue it answered, or its error. *)
Theorem issue_detail_latest es p :
  rendered IssueDetail.useIssueDetail es = Some p →
  let c := history IssueDetail.useIssueDetail IssueDetail.initial es in
  ∃ ph, last (runs c) = Some (Run p true ph) ∧
    (loading (shown c) = match ph with Done _ => false | _ => true end) ∧
    match ph with
    | Waiting => error (shown c) = None
    | Replied r | Done r =>
        match IssueDetail.answer r with
        | Ret d => data (shown c) = d ∧ error (shown c) = None
        | Throw e => error (shown c) =
            if is_abort e then None else Some (error_message "Unknown error" e)
        end
    end.
Proof.
  intros Hp c. destruct (latest_wins IssueDetail.useIssueDetail eq_refl IssueDetail.initial es p Hp)
    as (ph & s0 & Hl & Hs). exists ph. split; [exact Hl|]. unfold c. rewrite Hs. apply loaded_view.
Qed.

(** [useContributorProfile] does not cancel: a reply to an earlier address that comes in
    after the one to the address on screen replaces its profile. *)
Theorem profile_race base a b ja jb :
  a ≠ "" → b ≠ "" →
  let pa := Profile.mkParams base (Some a) in
  let pb := Profile.mkParams base (Some b) in
  let es := [Render pa; Render pb; Reply 1 (Answered 200 (Some jb)); Reply 0 (Answered 200 (Some ja))] in
  rendered Profile.useContributorProfile es = Some pb ∧
  Profile.profile (shown (history Profile.useContributorProfile Profile.initial es)) = Some ja ∧
  Profile.status (shown (history Profile.useContributorProfile Profile.initial es)) = Profile.ready.
Proof. intros Ha Hb. destruct a as [|x a], b as [|y b]; done. Qed.

(** the dashboard over the route it reads: for a valid address, over the tables
    [migrate] creates and without faults, it shows the number of applications of the
    contributor, every organisation once with its own assignments, and warns exactly when
    there are twelve applications or more, or three assignments in one organisation. *)
Theorem dashboard_shows_counts {S} `{HasDb S} address now (s : S) st :
  isValidStellarAddress address = true →
  let apps := filter (λ a, ap_contributor a = address) (applications (get_db s)) in
  let asgs o := filter (λ a, as_org_id a = o ∧ as_contributor a = address)
                  (assignments (get_db s)) in
  ∃ res data, get_counts migrate_schema address (World s []) = (Ret res, World s []) ∧
    let st' := Dashboard.receive (reply_of res, now) st in
    Dashboard.data st' = Some data ∧ Dashboard.fetch_state st' = Dashboard.idle ∧
    Dashboard.globalApplicationCount data = jint (zlen apps) ∧
    NoDup (Dashboard.org_id <$> Dashboard.orgUsage data) ∧
    (∀ u, u ∈ Dashboard.orgUsage data → ∃ o, Dashboard.org_id u = Some (JStr o) ∧
       Dashboard.assignments u = jint (zlen (asgs o))) ∧
    (Dashboard.showWarning st' = true ↔ 12 ≤ zlen apps ∨ ∃ o, 3 ≤ zlen (asgs o)).
Proof.
  intros Hv apps asgs.
  set (ls := ap_org_id <$> apps).
  set (rs := as_org_id <$> filter (λ a, as_contributor a = address) (assignments (get_db s))).
  eexists _, (Dashboard.mkData (jint (zlen ls)) (usage_of <$> breakdown ls rs) now).
  split; [by apply get_counts_ok|]. fold apps. fold ls. fold rs.
  rewrite receive_counts. assert (zlen ls = zlen apps) as Hls by apply zlen_fmap.
  destruct (usages_correct ls rs) as (H1 & H2 & H3).
  split; [done|]. split; [done|]. split; [by cbn; rewrite Hls|]. split; [exact H1|]. split.
  - intros u Hu. destruct (H2 u Hu) as (o & Ho & Hc). exists o.
    split; [done|]. unfold asgs. by rewrite <- occ_assignments.
  - unfold Dashboard.showWarning.
    cbn [Dashboard.data Dashboard.globalApplicationCount Dashboard.orgUsage].
    rewrite orb_true_iff, at_least_jint, Z.leb_le, H3, Hls.
    apply or_iff_compat_l. unfold asgs. by setoid_rewrite <- occ_assignments.
Qed.

(** ** Concrete runs *)

Definition detail_page (o i : string) : IssueDetail.params := IssueDetail.mkParams "/api" o i 0.
Definition demo_detail (n : Z) : json := obj [("applicant_count", Some (jint n))].

(** The page moves from one issue to another while the first reply is on its way. *)
Definition demo_visit : list (event IssueDetail.params reply) :=
  [Render (detail_page "o" "1"); Render (detail_page "o" "2");
   Reply 1 (Answered 200 (Some (demo_detail 2))); Reply 0 (Answered 200 (Some (demo_detail 1)));
   Finally 0; Finally 1].

Lemma issue_detail_latest_witness :
  rendered IssueDetail.useIssueDetail demo_visit = Some (detail_page "o" "2") ∧
  let c := history IssueDetail.useIssueDetail IssueDetail.initial demo_visit in
  data (shown c) = Some (demo_detail 2) ∧
  ∃ ph, last (runs c) = Some (Run (detail_page "o" "2") true ph) ∧
    (loading (shown c) = match ph with Done _ => false | _ => true end).
Proof.
  split; [reflexivity|]. split; [reflexivity|].
  destruct (issue_detail_latest demo_visit (detail_page "o" "2") eq_refl) as (ph & H1 & H2 & _).
  exact (ex_intro _ ph (conj H1 H2)).
Defined.

Lemma profile_race_witness :
  let es := [Render (Profile.mkParams "/api" (Some "GA")); Render (Profile.mkParams "/api" (Some "GB"));
             Reply 1 (Answered 200 (Some (JStr "of GB"))); Reply 0 (Answered 200 (Some (JStr "of GA")))] in
  Profile.profile (shown (history Profile.useContributorProfile Profile.initial es)) =
    Some (JStr "of GA").
Proof.
  assert ("GA" ≠ "") as Ha by discriminate. assert ("GB" ≠ "") as Hb by discriminate.
  destruct (profile_race "/api" "GA" "GB" (JStr "of GA") (JStr "of GB") Ha Hb) as (_ & H & _).
  exact H.
Defined.

Lemma dashboard_shows_counts_witness :
  isValidStellarAddress alice = true ∧
  ∃ res data, get_counts migrate_schema alice (World sample_db []) = (Ret res, World sample_db []) ∧
    let st' := Dashboard.receive (reply_of res, 7) Dashboard.initial in
    Dashboard.data st' = Some data.
Proof.
  split; [reflexivity|].
  destruct (dashboard_shows_counts alice 7 sample_db Dashboard.initial eq_refl)
    as (res & data & H1 & H2 & _).
  exact (ex_intro _ res (ex_intro _ data (conj H1 H2))).
Defined.
