(* ===== verification/Maintainer.v ===== *)
(** * The maintainer's pages

    [useMaintainerPanel.ts] and [MaintainerPanel.tsx] ([Panel]): optimistic changes of the
    two lists, undone when the call fails; [useMaintainerAuth.ts] and [useMaintainerCheck.ts]
    ([Role]): who may see them; [MaintainerPage.tsx] over [useContract.ts] ([Page]): act,
    then load again; [MaintainerDashboard.tsx] ([Board]): the same over the transaction
    routes. *)

From Stdlib Require Import String Ascii Sorted.
From S2P Require Import Prelude Js Url Http Paging Browser.
From S2P Require Import Client Validation Db Soroban Xdr Transactions.

#[local] Open Scope string_scope.
#[local] Open Scope list_scope.
#[local] Open Scope Z_scope.

(** ** Who may see the pages *)

Module Role.

Inductive MaintainerStatus := loading | authorized | forbidden | no_wallet.

#[export] Instance status_eq_dec : EqDecision MaintainerStatus.
Proof. solve_decision. Defined.

Definition connected (address : option string) : bool :=
  match filled address with Some _ => true | None => false end.

(** The role check of [useMaintainerPanel]: the parameters are the wallet, the
    organisations, and whether there is a contract client; a request settles to the answers
    of [is_maintainer], one per organisation, or to the first that throws. *)
Record params := mkParams { maintainerAddress : option string; orgIds : list string; client : bool }.

Definition receive (p : params) (r : outcome (list bool)) (_ : MaintainerStatus) :
    MaintainerStatus :=
  if client p then
    match r with
    | Ret checks => if existsb (λ b, b) checks then authorized else forbidden
    | Throw _ => forbidden
    end
  else forbidden.

Definition checkRole : hook params (outcome (list bool)) MaintainerStatus :=
  Hook true (λ p, connected (maintainerAddress p)) (λ _, no_wallet) (λ _ _, loading) receive id.

(** [useMaintainerAuth]: the role is what [localStorage] says when the effect runs. *)
Definition checkMaintainerRole (publicKey orgId : string) (s : storage) : bool :=
  match getItem ("wg_maintainer_" +:+ orgId) s with
  | Some mocked => String.eqb mocked publicKey
  | None => false
  end.

Definition useMaintainerAuth : hook (option string * string) bool MaintainerStatus :=
  Hook true (λ p, connected p.1) (λ _, no_wallet) (λ _ _, loading)
    (λ _ (ok : bool) _, if ok then authorized else forbidden) id.

(** [useMaintainerCheck]: [checked], and how often it went to [/403]. *)
Record check := mkCheck { checked : bool; redirects : Z }.

Definition navigate_403 (s : check) : check := mkCheck (checked s) (redirects s + 1).

Definition useMaintainerCheck : hook (string * option string) (outcome bool) check :=
  Hook false (λ p, connected p.2) navigate_403 (λ _, id)
    (λ _ r s, match r with
              | Ret true => mkCheck true (redirects s)
              | Ret false | Throw _ => navigate_403 s
              end) id.

End Role.

(** ** The panel *)

Module Panel.

Record RawApplicationRow := mkRawApplication {
  ra_contributor : string; ra_issue_id : string; ra_date : string;
  ra_global_count : option Z; ra_org_count : option Z;
}.
Record RawAssignmentRow := mkRawAssignment {
  rs_contributor : string; rs_issue_id : string;
  rs_global_count : option Z; rs_org_count : option Z;
}.

Record Application := mkApplication {
  ap_id : string; ap_contributor : string; ap_org : string; ap_issueTitle : string;
  ap_appliedDate : string; ap_globalCount : option Z; ap_orgCount : option Z;
}.
Record Assignment := mkAssignment {
  as_id : string; as_contributor : string; as_org : string; as_issueTitle : string;
  as_globalCount : option Z; as_orgCount : option Z;
}.

Definition row_id (org contributor issue_id : string) : string :=
  org +:+ "-" +:+ contributor +:+ "-" +:+ issue_id.
Definition issue_title (issue_id : string) : string := "Issue #" +:+ issue_id.

Definition mapApplication (r : RawApplicationRow) (org : string) : Application :=
  mkApplication (row_id org (ra_contributor r) (ra_issue_id r)) (ra_contributor r) org
    (issue_title (ra_issue_id r)) (ra_date r) (ra_global_count r) (ra_org_count r).

Definition mapAssignment (r : RawAssignmentRow) (org : string) : Assignment :=
  mkAssignment (row_id org (rs_contributor r) (rs_issue_id r)) (rs_contributor r) org
    (issue_title (rs_issue_id r)) (rs_global_count r) (rs_org_count r).

(** The assignment an application becomes. *)
Definition newAsgn (a : Application) : Assignment :=
  mkAssignment (ap_id a) (ap_contributor a) (ap_org a) (ap_issueTitle a) (ap_globalCount a)
    (ap_orgCount a).

(** [title.replace(/^Issue #/, "")]. *)
Definition issue_of_title (t : string) : string :=
  if startsWith "Issue #" t then slice_from 7 t else t.

Inductive action := Assign (a : Application) | Complete (x : Assignment) | Revoke (x : Assignment).

(** What is sent to the contract: function, contributor, organisation, issue. *)
Definition call_of (x : action) : string * (string * string * string) :=
  match x with
  | Assign a => ("assign_issue", (ap_contributor a, ap_org a, issue_of_title (ap_issueTitle a)))
  | Complete x => ("complete_assignment", (as_contributor x, as_org x, issue_of_title (as_issueTitle x)))
  | Revoke x => ("revoke_assignment", (as_contributor x, as_org x, issue_of_title (as_issueTitle x)))
  end.

Record lists := mkLists { applications : list Application; assignments : list Assignment }.

Definition drop_application (i : string) (l : list Application) : list Application :=
  filter (λ a, ap_id a ≠ i) l.
Definition drop_assignment (i : string) (l : list Assignment) : list Assignment :=
  filter (λ a, as_id a ≠ i) l.

(** The first half of a handler, before the call. *)
Definition optimistic (x : action) (s : lists) : lists :=
  match x with
  | Assign a => mkLists (drop_application (ap_id a) (applications s)) (assignments s ++ [newAsgn a])
  | Complete x | Revoke x => mkLists (applications s) (drop_assignment (as_id x) (assignments s))
  end.

(** Its [catch]. *)
Definition rollback (x : action) (s : lists) : lists :=
  match x with
  | Assign a => mkLists (applications s ++ [a]) (drop_assignment (ap_id a) (assignments s))
  | Complete x | Revoke x => mkLists (applications s) (assignments s ++ [x])
  end.

(** The calls that were made, and what became of them: [None] while one is on its way. *)
Record panel := mkPanel {
  shown : lists;
  calls : list (action * option bool);
  loading : bool;
  error : option string;
}.

Inductive event :=
  | Click (x : action)
  | Settle (i : nat) (success : bool)
  | StartLoad
  | Load (r : outcome (list (list Application) * list (list Assignment))).

(** [ready]: there is a client and a wallet. *)
Definition step (ready : bool) (s : panel) (e : event) : panel :=
  match e with
  | Click x =>
      if ready
      then mkPanel (optimistic x (shown s)) (calls s ++ [(x, None)]) (loading s) (error s)
      else s
  | Settle i success =>
      match calls s !! i with
      | Some (x, None) =>
          mkPanel (if success then shown s else rollback x (shown s))
            (<[i := (x, Some success)]> (calls s)) (loading s) (error s)
      | _ => s
      end
  | StartLoad => mkPanel (shown s) (calls s) true None
  | Load (Ret (apps, asgns)) =>
      mkPanel (mkLists (concat apps) (concat asgns)) (calls s) false (error s)
  | Load (Throw e) =>
      mkPanel (shown s) (calls s) false (Some (error_message "Failed to load data" e))
  end.

Definition run (s : panel) (es : list event) : panel := fold_left (step true) es s.

(** [sortedApps]: the oldest application first. *)
Definition by_date (a b : Application) : jsnum :=
  js_sub (getTime (ap_appliedDate a)) (getTime (ap_appliedDate b)).
Definition sortedApps (l : list Application) : list Application := sort_by by_date l.

Inductive cap_class := full | high | normal.

(** [CapBadge]: [pct] is [min(count / max, 1)]. *)
Definition CapBadge (count max : Z) : cap_class :=
  if max <=? count then full else if 3 * max <=? 4 * count then high else normal.

(** The shell: open, pinned; closing by Escape or the backdrop only works unpinned. *)
Inductive shell_event := Open | Close | Escape | Backdrop | TogglePin.

Definition shell_step (s : bool * bool) (e : shell_event) : bool * bool :=
  let '(is_open, pinned) := s in
  match e with
  | Open => (true, pinned)
  | Close => (if is_open then false else is_open, pinned)
  | Escape => (if pinned then is_open else false, pinned)
  | Backdrop => (if is_open && negb pinned then false else is_open, pinned)
  | TogglePin => (is_open, if is_open then negb pinned else pinned)
  end.

End Panel.

(** ** The page that loads again *)

Module Page.

Record ContractRow := mkRow { contributor : string; issue_id : string; date : string }.

(** The contract client, as [useContract] calls it. *)
Class Client (C : Type) := {
  assign_issue : string → string → string → string → C → outcome unit * C;
  complete_assignment : string → string → string → string → C → outcome unit * C;
  revoke_assignment : string → string → string → string → C → outcome unit * C;
  list_applications : string → C → outcome (list ContractRow) * C;
  list_assignments : string → C → outcome (list ContractRow) * C;
}.

Record page := mkPage {
  applications : list ContractRow;
  assignments : list ContractRow;
  loading : bool;
  error : option string;
  busy : option string;
  appPage : Z;
  asnPage : Z;
  revokeTarget : option ContractRow;
}.

Definition set_lists (a b : list ContractRow) (s : page) : page :=
  mkPage a b (loading s) (error s) (busy s) (appPage s) (asnPage s) (revokeTarget s).
Definition set_loading (b : bool) (s : page) : page :=
  mkPage (applications s) (assignments s) b (error s) (busy s) (appPage s) (asnPage s)
    (revokeTarget s).
Definition set_error (e : option string) (s : page) : page :=
  mkPage (applications s) (assignments s) (loading s) e (busy s) (appPage s) (asnPage s)
    (revokeTarget s).
Definition set_busy (b : option string) (s : page) : page :=
  mkPage (applications s) (assignments s) (loading s) (error s) b (appPage s) (asnPage s)
    (revokeTarget s).
Definition set_target (t : option ContractRow) (s : page) : page :=
  mkPage (applications s) (assignments s) (loading s) (error s) (busy s) (appPage s) (asnPage s) t.

Record site (C : Type) := Site { view : page; contract : option C }.
Arguments Site {C} view contract.
Arguments view {C} s.
Arguments contract {C} s.

Section page.
Context {C : Type} `{Client C}.
Variables (org_id : string) (publicKey : option string) (authorized : bool).

Definition render (f : page → page) : M (site C) unit :=
  modify (λ s, Site (f (view s)) (contract s)).

(** [client().f(...)]: without a client it throws before the call. *)
Definition with_client {A} (f : C → outcome A * C) : M (site C) A :=
  call (λ s, match contract s with
             | None => (Throw (Error "Contract client not available"), s)
             | Some c => let '(o, c') := f c in (o, Site (view s) (Some c'))
             end).

Definition attempt {A} (m : M (site C) A) : M (site C) (outcome A) :=
  try_catch (a ← m; mret (Ret a)) (λ e, mret (Throw e)).

(** [Promise.all] of the two lists: both are asked for; the first failure is thrown. *)
Definition both : M (site C) (list ContractRow * list ContractRow) :=
  apps ← attempt (with_client (list_applications org_id));
  asgns ← attempt (with_client (list_assignments org_id));
  match apps, asgns with
  | Ret a, Ret b => mret (a, b)
  | Throw e, _ | _, Throw e => throw e
  end.

Definition load : M (site C) unit :=
  if authorized then
    render (set_loading true) ≫= λ _,
    render (set_error None) ≫= λ _,
    try_catch (r ← both; render (set_lists r.1 r.2))
      (λ e, render (set_error (Some (error_message "Failed to load data" e)))) ≫= λ _,
    render (set_loading false)
  else mret tt.

(** The common body of the three handlers. *)
Definition act (what : string) (f : string → C → outcome unit * C) (row : ContractRow)
    (after_busy : page → page) (key : string) : M (site C) unit :=
  render (set_busy (Some (issue_id row))) ≫= λ _,
  render after_busy ≫= λ _,
  try_catch (with_client (f key) ≫= λ _, load)
    (λ e, render (set_error (Some (error_message what e)))) ≫= λ _,
  render (set_busy None).

Definition with_key (k : string → M (site C) unit) : M (site C) unit :=
  match filled publicKey with None => mret tt | Some key => k key end.

Definition handleAssign (row : ContractRow) : M (site C) unit :=
  with_key (act "Assign failed"
    (λ key, assign_issue key (contributor row) org_id (issue_id row)) row id).

Definition handleComplete (row : ContractRow) : M (site C) unit :=
  with_key (act "Complete failed"
    (λ key, complete_assignment key (contributor row) org_id (issue_id row)) row id).

Definition handleRevokeConfirm : M (site C) unit :=
  t ← gets (λ s, revokeTarget (view s));
  match t with
  | None => mret tt
  | Some row =>
      with_key (act "Revoke failed"
        (λ key, revoke_assignment key (contributor row) org_id (issue_id row)) row
        (set_target None))
  end.

End page.

Definition PAGE_SIZE : Z := 20.

(** The rows on screen and the pager under them. *)
Definition appSlice (s : page) : list ContractRow := window (appPage s) PAGE_SIZE (applications s).
Definition asnSlice (s : page) : list ContractRow := window (asnPage s) PAGE_SIZE (assignments s).
Definition Pagination (page total : Z) : option pager :=
  draw_pager page (pages total PAGE_SIZE).

Definition truncAddr (addr : string) : string := shorten 16 8 6 addr.

End Page.

(** ** The dashboard over the transaction routes *)

Module Board.

Inductive item_type := application | assignment.
Inductive ActionType := assign | complete | revoke.

#[export] Instance item_type_eq_dec : EqDecision item_type.
Proof. solve_decision. Defined.

Record WorkItem := mkItem {
  wi_id : string; wi_contributor : string; wi_issueId : string; wi_date : string;
  wi_type : item_type; wi_globalCapUsage : option Z; wi_globalCapLimit : option Z;
}.

Record board := mkBoard {
  items : list WorkItem;
  loading : bool;
  fetchError : option string;
  page : Z;
  busyId : option string;
  actionError : option string;
  pendingAction : option (WorkItem * ActionType);
  confirmBusy : bool;
  (** [prev] of the [executeAction] that is running *)
  prev : option (list WorkItem);
}.

Definition to_assignment (i : WorkItem) : WorkItem :=
  mkItem (wi_id i) (wi_contributor i) (wi_issueId i) (wi_date i) assignment
    (wi_globalCapUsage i) (wi_globalCapLimit i).

(** The optimistic update of [executeAction]. *)
Definition optimistic (item : WorkItem) (action : ActionType) (l : list WorkItem) :
    list WorkItem :=
  match action with
  | assign => (λ i, if String.eqb (wi_id i) (wi_id item) then to_assignment i else i) <$> l
  | complete | revoke => filter (λ i, wi_id i ≠ wi_id item) l
  end.

Definition action_body (publicKey : option string) (orgId : string) (item : WorkItem) : json :=
  obj [("maintainer", Some (from_option JStr JNull publicKey));
       ("contributor", Some (JStr (wi_contributor item))); ("org_id", Some (JStr orgId));
       ("issue_id", Some (JStr (wi_issueId item))); ("sequence", Some (JStr "0"))].

(** What the [try] of [executeAction] throws. *)
Definition refusal (r : reply) : option exn :=
  match r with
  | Rejected e => Some e
  | Answered code body => if ok code then None else Some (error_of_body (http_error code) body)
  end.

(** [(await res.json()).items ?? []]; [cast] reads the value as the list it is declared to
    be. *)
Definition fetched (cast : json → list WorkItem) (r : reply) : outcome (list WorkItem) :=
  match r with
  | Rejected e => Throw e
  | Answered code body =>
      if negb (ok code) then Throw (Error (http_error code))
      else match body with
           | None => Throw bad_json
           | Some JNull => Throw (null_property "items")
           | Some d => Ret (cast (nullish_or (prop "items" d) (JArr [])))
           end
  end.

Inductive event :=
  | RequestAction (item : WorkItem) (action : ActionType)
  | Cancel
  | Confirm
  | Answer (r : reply)
  | Dismiss
  | GoTo (p : Z)
  | FetchItems
  | Fetched (r : outcome (list WorkItem))
  | NewProps (l : list WorkItem).

(** The buttons are disabled while an action runs. *)
Definition step (s : board) (e : event) : board :=
  match e with
  | RequestAction item action =>
      match busyId s with
      | None => mkBoard (items s) (loading s) (fetchError s) (page s) (busyId s) None
                  (Some (item, action)) (confirmBusy s) (prev s)
      | Some _ => s
      end
  | Cancel =>
      if confirmBusy s then s
      else mkBoard (items s) (loading s) (fetchError s) (page s) (busyId s) (actionError s) None
             (confirmBusy s) (prev s)
  | Confirm =>
      match pendingAction s, confirmBusy s with
      | Some (item, action), false =>
          mkBoard (optimistic item action (items s)) (loading s) (fetchError s) (page s)
            (Some (wi_id item)) (actionError s) (pendingAction s) true (Some (items s))
      | _, _ => s
      end
  | Answer r =>
      match prev s with
      | None => s
      | Some p =>
          match refusal r with
          | None => mkBoard (items s) (loading s) (fetchError s) (page s) None (actionError s)
                      None false None
          | Some e => mkBoard p (loading s) (fetchError s) (page s) None
                        (Some (error_message "Action failed. Please try again." e)) None false None
          end
      end
  | Dismiss => mkBoard (items s) (loading s) (fetchError s) (page s) (busyId s) None
                 (pendingAction s) (confirmBusy s) (prev s)
  | GoTo p => mkBoard (items s) (loading s) (fetchError s) p (busyId s) (actionError s)
                (pendingAction s) (confirmBusy s) (prev s)
  | FetchItems => mkBoard (items s) true None (page s) (busyId s) (actionError s)
                    (pendingAction s) (confirmBusy s) (prev s)
  | Fetched (Ret l) => mkBoard l false (fetchError s) (page s) (busyId s) (actionError s)
                         (pendingAction s) (confirmBusy s) (prev s)
  | Fetched (Throw e) =>
      mkBoard (items s) false (Some (error_message "Failed to load work items" e)) (page s)
        (busyId s) (actionError s) (pendingAction s) (confirmBusy s) (prev s)
  | NewProps l => mkBoard l (loading s) (fetchError s) (page s) (busyId s) (actionError s)
                    (pendingAction s) (confirmBusy s) (prev s)
  end.

Definition PAGE_SIZE : Z := 25.
Definition pageItems (s : board) : list WorkItem := window (page s) PAGE_SIZE (items s).
Definition Pagination (page total : Z) : option pager :=
  draw_pager page (last_page total PAGE_SIZE).
Definition truncate (addr : string) : string := shorten 14 6 6 addr.

Definition pending_count (s : board) : nat :=
  length (filter (λ i, wi_type i = application) (items s)).
Definition active_count (s : board) : nat :=
  length (filter (λ i, wi_type i = assignment) (items s)).

(** The cap column: the usage over its limit, and whether it is full. *)
Definition cap_column (i : WorkItem) : option (Z * Z * bool) :=
  match wi_globalCapUsage i with
  | None => None
  | Some u => let l := default 15 (wi_globalCapLimit i) in Some (u, l, l <=? u)
  end.

(** The route an action is posted to. *)
Definition route_of {N} `{Rpc N} `{Zod} (a : ActionType) : request → M (tx_state N) verdict :=
  match a with assign => post_assign | complete => post_complete | revoke => post_revoke end.

End Board.

(** ** The panel shows the lists with every call that has not failed applied *)

Module Optimism.
Import Panel.

(** The calls that are on their way or went through. *)
Definition standing (cs : list (action * option bool)) : list action :=
  fst <$> filter (λ c, c.2 ≠ Some false) cs.

Definition target (x : action) : string :=
  match x with Assign a => ap_id a | Complete x | Revoke x => as_id x end.

Definition assigned (xs : list action) : list Application :=
  omap (λ x, match x with Assign a => Some a | _ => None end) xs.
Definition removed (xs : list action) : list Assignment :=
  omap (λ x, match x with Assign _ => None | Complete x | Revoke x => Some x end) xs.

(** The lists with the actions of [xs] applied to them. *)
Definition applied (xs : list action) (l : lists) : lists :=
  mkLists (filter (λ a, ap_id a ∉ ap_id <$> assigned xs) (applications l))
    (filter (λ a, as_id a ∉ as_id <$> removed xs) (assignments l) ++ (newAsgn <$> assigned xs)).

#[export] Instance lists_equiv : Equiv lists :=
  λ s t, applications s ≡ₚ applications t ∧ assignments s ≡ₚ assignments t.

(** The actions a user can take on the lists [l], each row at most once. *)
Definition from_rows (l : lists) (xs : list action) : Prop :=
  (∀ a, a ∈ assigned xs → a ∈ applications l) ∧ (∀ x, x ∈ removed xs → x ∈ assignments l) ∧
  NoDup (target <$> xs).

Definition clicks (es : list event) : list action :=
  omap (λ e, match e with Click x => Some x | _ => None end) es.

Definition only_calls (e : event) : Prop :=
  match e with Click _ | Settle _ _ => True | _ => False end.

(** *** Lemmas *)

#[export] Instance lists_equivalence : Equivalence (≡@{lists}).
Proof.
  split; [by intros s|by intros s t [H1 H2]; split|].
  intros s t u [H1 H2] [H3 H4]. split; by etrans.
Qed.

#[export] Instance optimistic_proper x : Proper ((≡) ==> (≡)) (optimistic x).
Proof.
  intros s t [H1 H2]. destruct x; split; cbn [optimistic applications assignments];
    unfold drop_application, drop_assignment; try done; by rewrite ?H1, ?H2.
Qed.

#[export] Instance rollback_proper x : Proper ((≡) ==> (≡)) (rollback x).
Proof.
  intros s t [H1 H2]. destruct x; split; cbn [rollback applications assignments];
    unfold drop_application, drop_assignment; try done; by rewrite ?H1, ?H2.
Qed.

Lemma filter_not_in {A} (f : A → string) (i : string) (S : list string) (l : list A) :
  filter (λ a, f a ≠ i) (filter (λ a, f a ∉ S) l) = filter (λ a, f a ∉ i :: S) l.
Proof. rewrite list_filter_filter. apply list_filter_iff. intros a. rewrite not_elem_of_cons. tauto. Qed.

Lemma filter_take_out {A} (f : A → string) (a : A) (S : list string) (l : list A) :
  a ∈ l → NoDup (f <$> l) → f a ∉ S →
  filter (λ b, f b ∉ S) l ≡ₚ a :: filter (λ b, f b ∉ f a :: S) l.
Proof.
  intros Ha Hn HS. apply elem_of_Permutation in Ha as [l' Hl'].
  assert (f a ∉ f <$> l' ∧ NoDup (f <$> l')) as [Hnot _].
  { rewrite Hl', fmap_cons, NoDup_cons in Hn. done. }
  rewrite Hl', filter_cons_True by done. rewrite filter_cons_False by set_solver.
  constructor. erewrite filter_iff_on; [done|]. intros b Hb. cbn.
  rewrite not_elem_of_cons. split; [|tauto]. intros ?. split; [|done].
  intros Hab. apply Hnot. rewrite <- Hab. by apply list_elem_of_fmap_2.
Qed.

Lemma assigned_perm xs ys : xs ≡ₚ ys → assigned xs ≡ₚ assigned ys.
Proof. apply omap_Permutation. Qed.
Lemma removed_perm xs ys : xs ≡ₚ ys → removed xs ≡ₚ removed ys.
Proof. apply omap_Permutation. Qed.

Lemma applied_perm xs ys l : xs ≡ₚ ys → applied xs l ≡ applied ys l.
Proof.
  intros H. split; cbn [applied applications assignments].
  - rewrite (list_filter_iff (λ a, ap_id a ∉ ap_id <$> assigned xs)
      (λ a, ap_id a ∉ ap_id <$> assigned ys)); [done|]. intros a. by rewrite (assigned_perm _ _ H).
  - rewrite (assigned_perm _ _ H). apply Permutation_app_tail.
    rewrite (list_filter_iff (λ a, as_id a ∉ as_id <$> removed xs)
      (λ a, as_id a ∉ as_id <$> removed ys)); [done|]. intros a. by rewrite (removed_perm _ _ H).
Qed.

Section rows.
Variable l : lists.
Hypothesis Hids : NoDup ((ap_id <$> applications l) ++ (as_id <$> assignments l)).

Lemma apart a x : a ∈ applications l → x ∈ assignments l → ap_id a ≠ as_id x.
Proof.
  intros Ha Hx He. apply NoDup_app in Hids as (_ & Hd & _).
  apply (Hd (ap_id a)); [by apply list_elem_of_fmap_2|]. rewrite He. by apply list_elem_of_fmap_2.
Qed.

Lemma assigned_target a xs : a ∈ assigned xs → ap_id a ∈ target <$> xs.
Proof.
  intros (x & Hx & Ha)%list_elem_of_omap. destruct x as [b| |]; simplify_eq.
  exact (list_elem_of_fmap_2 target _ _ Hx).
Qed.
Lemma removed_target x xs : x ∈ removed xs → as_id x ∈ target <$> xs.
Proof.
  intros (y & Hy & Ha)%list_elem_of_omap. destruct y; simplify_eq;
    exact (list_elem_of_fmap_2 target _ _ Hy).
Qed.

(** The ids of the rows that moved are not the one of [i], by their targets. *)
Lemma new_rows_apart i xs : (∀ a, a ∈ assigned xs → ap_id a ≠ i) →
  filter (λ y, as_id y ≠ i) (newAsgn <$> assigned xs) = newAsgn <$> assigned xs.
Proof.
  intros H. apply filter_all, Forall_forall. intros y (a & -> & Ha)%list_elem_of_fmap. by apply H.
Qed.

Lemma optimistic_applied x xs : from_rows l (x :: xs) →
  optimistic x (applied xs l) ≡ applied (x :: xs) l.
Proof.
  intros (Ha & Hr & Hn). destruct x as [a|x|x]; split;
    cbn [optimistic applied applications assignments assigned removed omap list_omap fmap list_fmap];
    unfold drop_application, drop_assignment; rewrite ?filter_not_in; try done.
  - by rewrite <- app_assoc, (Permutation_app_comm _ [newAsgn a]).
  - rewrite filter_app, filter_not_in, new_rows_apart; [done|].
    intros a' Ha'. apply apart; [by apply Ha|apply Hr; by left].
  - rewrite filter_app, filter_not_in, new_rows_apart; [done|].
    intros a' Ha'. apply apart; [by apply Ha|apply Hr; by left].
Qed.

Lemma rollback_remove x xs (Hx : x ∈ assignments l) (Hnot : as_id x ∉ as_id <$> removed xs) :
  (filter (λ y, as_id y ∉ as_id x :: (as_id <$> removed xs)) (assignments l) ++
     (newAsgn <$> assigned xs)) ++ [x] ≡ₚ
  filter (λ y, as_id y ∉ as_id <$> removed xs) (assignments l) ++ (newAsgn <$> assigned xs).
Proof.
  rewrite (filter_take_out as_id x (as_id <$> removed xs) _ Hx); [|by apply NoDup_app in Hids as (_ & _ & ?)|done].
  by rewrite (Permutation_app_comm _ [x]).
Qed.

Lemma rollback_applied x xs : from_rows l (x :: xs) →
  rollback x (applied (x :: xs) l) ≡ applied xs l.
Proof.
  intros (Ha & Hr & Hn). rewrite fmap_cons, NoDup_cons in Hn. destruct Hn as [Hx Hn].
  destruct x as [a|x|x]; split;
    cbn [rollback applied applications assignments assigned removed omap list_omap fmap list_fmap];
    unfold drop_application, drop_assignment; try done.
  - rewrite (filter_take_out ap_id a (ap_id <$> assigned xs) (applications l));
      [|apply Ha; by left|by apply NoDup_app in Hids as (? & _)|].
    + by rewrite (Permutation_app_comm _ [a]).
    + intros (b & Hb & Hin)%list_elem_of_fmap. apply Hx. cbn. rewrite Hb. by apply assigned_target.
  - rewrite filter_app, filter_cons_False by (cbn; tauto). rewrite new_rows_apart.
    + apply Permutation_app_tail. rewrite filter_all; [done|]. apply Forall_forall.
      intros y [_ Hy]%list_elem_of_filter He.
      apply (apart a y); [apply Ha; by left|done|by symmetry].
    + intros b Hb He. apply Hx. cbn. rewrite <- He. by apply assigned_target.
  - apply rollback_remove; [apply Hr; by left|].
    intros (b & Hb & Hin)%list_elem_of_fmap. apply Hx. cbn. rewrite Hb. by apply removed_target.
  - apply rollback_remove; [apply Hr; by left|].
    intros (b & Hb & Hin)%list_elem_of_fmap. apply Hx. cbn. rewrite Hb. by apply removed_target.
Qed.

(** *** Histories *)

Lemma from_rows_mono xs ys : xs ⊆+ ys → from_rows l ys → from_rows l xs.
Proof.
  intros Hs (Ha & Hr & Hn). split_and!.
  - intros a (x & Hx & He)%list_elem_of_omap. apply Ha, list_elem_of_omap.
    exists x. split; [by eapply elem_of_submseteq|done].
  - intros a (x & Hx & He)%list_elem_of_omap. apply Hr, list_elem_of_omap.
    exists x. split; [by eapply elem_of_submseteq|done].
  - apply submseteq_Permutation in Hs as [k Hk]. rewrite Hk, fmap_app in Hn.
    by apply NoDup_app in Hn as (? & _).
Qed.

Lemma standing_sub cs : standing cs ⊆+ cs.*1.
Proof. apply fmap_submseteq, sublist_submseteq, sublist_filter. Qed.

Lemma standing_none cs : Forall (λ c, c.2 = Some false) cs → standing cs = [].
Proof.
  unfold standing. induction 1 as [|c cs Hc _ IH]; [done|]. rewrite filter_cons_False; [exact IH|].
  rewrite Hc. tauto.
Qed.

Lemma standing_settle cs i x b : cs !! i = Some (x, None) →
  standing cs ≡ₚ (if b : bool then [] else [x]) ++ standing (<[i := (x, Some b)]> cs) ∧
  (<[i := (x, Some b)]> cs).*1 = cs.*1.
Proof.
  intros Hi. pose proof (take_drop_middle _ _ _ Hi) as <-.
  assert (length (take i cs) = i) as Hl.
  { rewrite length_take. apply lookup_lt_Some in Hi. lia. }
  rewrite insert_app_r_alt, Hl, Nat.sub_diag by lia. cbn [insert list_insert].
  unfold standing. rewrite !filter_app, !filter_cons. split; [|by rewrite !fmap_app, !fmap_cons].
  destruct b; cbn; rewrite !fmap_app; [done|]. cbn. by rewrite Permutation_middle.
Qed.

Lemma clicks_snoc es e : clicks (es ++ [e]) = clicks es ++ clicks [e].
Proof. apply omap_app. Qed.

Lemma panel_inv ld er es :
  Forall only_calls es → from_rows l (clicks es) →
  let s := run (mkPanel l [] ld er) es in
  (calls s).*1 = clicks es ∧ shown s ≡ applied (standing (calls s)) l.
Proof.
  induction es as [|e es IH] using rev_ind; intros Hf Hc.
  - split; [done|]. split; cbn; by rewrite ?app_nil_r, filter_all by (apply Forall_true; set_solver).
  - apply Forall_app in Hf as [Hf He]. rewrite Forall_singleton in He.
    rewrite clicks_snoc in Hc.
    assert (from_rows l (clicks es)) as Hc' by (eapply from_rows_mono; [|done]; by apply submseteq_inserts_r).
    specialize (IH Hf Hc'). unfold run in *. rewrite fold_left_app. cbn [fold_left].
    set (s := fold_left _ es _) in *. destruct IH as [Hcalls Hs]. rewrite clicks_snoc.
    destruct e as [x|i b| |]; try done; cbn [step].
    + cbn [calls shown]. rewrite fmap_app, Hcalls. split; [done|].
      assert (from_rows l (x :: standing (calls s))) as Hx.
      { eapply from_rows_mono; [|exact Hc]. rewrite <- Hcalls.
        change (clicks [Click x]) with [x]. rewrite (Permutation_app_comm _ [x]).
        apply submseteq_skip, standing_sub. }
      rewrite Hs, (optimistic_applied _ _ Hx). apply applied_perm.
      unfold standing. by rewrite filter_app, fmap_app, (Permutation_app_comm _ [x]).
    + cbn [clicks omap list_omap]. rewrite app_nil_r.
      destruct (calls s !! i) as [[x [?|]]|] eqn:Hi; [done| |done]. cbn [calls shown].
      destruct (standing_settle _ _ _ b Hi) as [Hst Hfst]. split; [by rewrite Hfst|].
      destruct b; cbn [app] in Hst; rewrite Hs, (applied_perm _ _ l Hst); [done|].
      apply rollback_applied. eapply from_rows_mono; [|exact Hc'].
      rewrite <- Hst, <- Hcalls. apply standing_sub.
Qed.

End rows.

End Optimism.

(** ** Theorems *)

Import Optimism.

(** the panel while its calls are on their way: however the calls of different rows
    overlap and in whatever order they come back, the lists hold exactly the loaded rows
    with the calls that have not failed applied to them: an assigned application is an
    assignment, a completed or revoked assignment is gone, and a call that failed has left
    no trace but the order of the rows. *)
Theorem panel_shows_standing_calls l es ld er :
  NoDup ((Panel.ap_id <$> Panel.applications l) ++ (Panel.as_id <$> Panel.assignments l)) →
  Forall only_calls es → from_rows l (clicks es) →
  let s := Panel.run (Panel.mkPanel l [] ld er) es in
  let xs := standing (Panel.calls s) in
  Panel.applications (Panel.shown s) ≡ₚ
    filter (λ a, Panel.ap_id a ∉ Panel.ap_id <$> assigned xs) (Panel.applications l) ∧
  Panel.assignments (Panel.shown s) ≡ₚ
    filter (λ x, Panel.as_id x ∉ Panel.as_id <$> removed xs) (Panel.assignments l) ++
    (Panel.newAsgn <$> assigned xs) ∧
  (Forall (λ c, c.2 = Some false) (Panel.calls s) →
   Panel.applications (Panel.shown s) ≡ₚ Panel.applications l ∧
   Panel.assignments (Panel.shown s) ≡ₚ Panel.assignments l).
Proof.
  intros Hids Hf Hc s xs. destruct (panel_inv l Hids ld er es Hf Hc) as [_ [H1 H2]].
  fold s in H1, H2. fold xs in H1, H2. split; [exact H1|]. split; [exact H2|].
  intros Hall. assert (xs = []) as Hnil by (by apply standing_none).
  rewrite H1, H2, Hnil. cbn. by rewrite app_nil_r, !filter_all by (apply Forall_true; set_solver).
Qed.

(** The rows of a call that is not settled can be acted on: an assignment that is completed
    while it is being made stays in the panel when both calls fail. *)
Lemma phantom_assignment a l ld er :
  a ∈ Panel.applications l →
  let s := Panel.run (Panel.mkPanel l [] ld er)
    [Panel.Click (Panel.Assign a); Panel.Click (Panel.Complete (Panel.newAsgn a));
     Panel.Settle 0 false; Panel.Settle 1 false] in
  a ∈ Panel.applications (Panel.shown s) ∧ Panel.newAsgn a ∈ Panel.assignments (Panel.shown s).
Proof. intros Ha. cbn. set_solver. Qed.

(** The issue sent to the contract is the one of the row. *)
Lemma issue_of_title_round_trip i : Panel.issue_of_title (Panel.issue_title i) = i.
Proof.
  unfold Panel.issue_of_title, Panel.issue_title. rewrite startsWith_app.
  unfold slice_from. rewrite lst_app, drop_app_length' by done. apply str_lst.
Qed.

Lemma sortedApps_spec l : (∀ a, a ∈ l → ∃ t, getTime (Panel.ap_appliedDate a) = Fin t) →
  Panel.sortedApps l ≡ₚ l ∧
  StronglySorted (λ a b, goes_before (Panel.by_date b a) = false) (Panel.sortedApps l).
Proof.
  intros Ht. split; [apply sort_by_perm|].
  set (key a := match getTime (Panel.ap_appliedDate a) with Fin z => z | NaN => 0 end).
  apply (sort_by_order _ key). intros a b Ha Hb. destruct (Ht a Ha) as [ta Ea], (Ht b Hb) as [tb Eb].
  unfold Panel.by_date, key. by rewrite Ea, Eb.
Qed.

(** *** Roles *)

Lemma receive_authorized p r s :
  Role.receive p r s = Role.authorized ↔
  Role.client p = true ∧ ∃ checks, r = Ret checks ∧ true ∈ checks.
Proof.
  unfold Role.receive. destruct (Role.client p); [|naive_solver].
  destruct r as [checks|e]; [|naive_solver].
  destruct (existsb (λ b : bool, b) checks) eqn:E; (split; [|]); intros H; try done.
  - apply existsb_exists in E as (b & Hb & ->). split; [done|]. exists checks.
    split; [done|]. by apply list_elem_of_In.
  - destruct H as (_ & cs & Hcs & Hin). simplify_eq.
    enough (existsb (λ b : bool, b) cs = true) by congruence.
    apply existsb_exists. exists true. split; [by apply list_elem_of_In|done].
Qed.

(** the panel is shown only on the answer to the latest question: whatever the wallet and
    the organisations were before, and in whatever order the answers come in, its status is
    [authorized] exactly when the contract client has answered, for the wallet and the
    organisations on screen, that it maintains one of them. *)
Theorem panel_authorized_by_latest es p :
  rendered Role.checkRole es = Some p →
  let c := history Role.checkRole Role.loading es in
  (∃ a, filled (Role.maintainerAddress p) = Some a) ∧
  (Client.shown c = Role.authorized ↔
   Role.client p = true ∧ ∃ ph checks, last (runs c) = Some (Client.Run p true ph) ∧
     (ph = Replied (Ret checks) ∨ ph = Done (Ret checks)) ∧ true ∈ checks).
Proof.
  intros Hp c. split.
  - pose proof (rendered_wanted _ _ _ Hp) as Hw. cbn in Hw. unfold Role.connected in Hw.
    destruct (filled (Role.maintainerAddress p)); [by eexists|done].
  - destruct (latest_wins Role.checkRole eq_refl Role.loading es p Hp) as (ph & s0 & Hl & Hs).
    fold c in Hl, Hs. rewrite Hs, Hl. split.
    + destruct ph as [|r|r]; [done| |]; intros (Hc & checks & -> & Hin)%receive_authorized; eauto 10.
    + intros (Hc & ph' & checks & Hph & Hr & Hin). injection Hph as ->.
      destruct Hr as [-> | ->]; apply receive_authorized; eauto.
Qed.

(** Once [useMaintainerCheck] let a wallet in, it lets every later one see the page until
    its own check comes back negative, which only redirects. *)
Lemma maintainer_check_sticky s es :
  Role.checked s = true →
  Role.checked (Client.shown (history Role.useMaintainerCheck s es)) = true.
Proof.
  intros Hs. unfold history. assert (Role.checked (Client.shown (mount (P := string * option string)
    (R := outcome bool) s)) = true) as H0 by done.
  revert H0. generalize (mount (P := string * option string) (R := outcome bool) s) as c.
  induction es as [|e es IH]; intros c Hc; [done|]. cbn [fold_left]. apply IH.
  destruct e as [q|i r|i|]; cbn [Client.step]; try done.
  - destruct (wanted Role.useMaintainerCheck q); done.
  - destruct (runs c !! i) as [[p [] []]|]; try done. destruct r as [[]|]; done.
  - destruct (runs c !! i) as [[p [] []]|]; done.
Qed.

(** *** The page *)

Section page_lemmas.
Context {C : Type} `{Page.Client C}.
Import Page.
Implicit Types w : world (site C).

Lemma render_eq (f : page → page) w :
  render f w = (Ret tt, World (Site (f (Page.view (st w))) (contract (st w))) (sched w)).
Proof. done. Qed.

Lemma with_client_view {A} (f : C → outcome A * C) w o w' :
  with_client f w = (o, w') → Page.view (st w') = Page.view (st w) ∧
    (∀ a, o = Ret a → ∃ c c', contract (st w) = Some c ∧ f c = (Ret a, c') ∧
      contract (st w') = Some c').
Proof.
  unfold with_client, call. destruct w as [[pg [c|]] [|[|e|e] fs]]; cbn; try destruct (f c) as [o1 c'] eqn:E;
    intros ?; simplify_eq/=; (split; [done|]); intros a Ha; simplify_eq; eauto 10.
Qed.

Lemma attempt_eq {A} (m : M (site C) A) w : attempt m w = (Ret (m w).1, (m w).2).
Proof. unfold attempt. unfold_m. by destruct (m w) as [[a|e] w']. Qed.

Variables (org_id : string) (publicKey : option string).

(** [load] never throws; without an error it shows what the contract lists. *)
Lemma load_spec w :
  ∃ w', load org_id true w = (Ret tt, w') ∧
    loading (Page.view (st w')) = false ∧ busy (Page.view (st w')) = busy (Page.view (st w)) ∧
    match error (Page.view (st w')) with
    | Some _ => applications (Page.view (st w')) = applications (Page.view (st w)) ∧
                assignments (Page.view (st w')) = assignments (Page.view (st w))
    | None => ∃ c c1 c2, contract (st w) = Some c ∧
        list_applications org_id c = (Ret (applications (Page.view (st w'))), c1) ∧
        list_assignments org_id c1 = (Ret (assignments (Page.view (st w'))), c2) ∧
        contract (st w') = Some c2
    end.
Proof.
  unfold load, both. unfold mbind, M_bind. rewrite !render_eq. cbn [st sched Page.view contract].
  set (w1 := World _ (sched w)). unfold try_catch. cbv beta. rewrite !attempt_eq.
  destruct (with_client (list_applications org_id) w1) as [o1 w2] eqn:E1. cbn [fst snd].
  destruct (with_client (list_assignments org_id) w2) as [o2 w3] eqn:E2. cbn [fst snd].
  destruct (with_client_view _ _ _ _ E1) as [V1 R1], (with_client_view _ _ _ _ E2) as [V2 R2].
  destruct o1 as [apps|e1]; [destruct o2 as [asgns|e2]|].
  - destruct (R1 _ eq_refl) as (c & c1 & Hc & Hl1 & Hc1), (R2 _ eq_refl) as (c1' & c2 & Hc1' & Hl2 & Hc2).
    rewrite Hc1 in Hc1'. simplify_eq. eexists. split; [reflexivity|]. cbn. rewrite V2, V1. cbn.
    split_and!; try done. by exists c, c1', c2.
  - eexists. split; [reflexivity|]. cbn. by rewrite V2, V1.
  - eexists. split; [by destruct o2|]. destruct o2; cbn; by rewrite V2, V1.
Qed.

(** The same of a whole action. *)
Lemma act_spec what f row after key w :
  (∀ s, busy (after s) = busy s ∧ applications (after s) = applications s ∧
        assignments (after s) = assignments s) →
  ∃ w', act org_id true what f row after key w = (Ret tt, w') ∧
    busy (Page.view (st w')) = None ∧
    match error (Page.view (st w')) with
    | Some _ => applications (Page.view (st w')) = applications (Page.view (st w)) ∧
                assignments (Page.view (st w')) = assignments (Page.view (st w))
    | None => ∃ c0 c c1 c2, contract (st w) = Some c0 ∧ f key c0 = (Ret tt, c) ∧
        list_applications org_id c = (Ret (applications (Page.view (st w'))), c1) ∧
        list_assignments org_id c1 = (Ret (assignments (Page.view (st w'))), c2) ∧
        contract (st w') = Some c2
    end.
Proof.
  intros Hafter. unfold act. unfold mbind, M_bind. rewrite !render_eq.
  cbn [st sched Page.view contract]. set (w1 := World _ (sched w)).
  destruct (Hafter (set_busy (Some (issue_id row)) (Page.view (st w)))) as (_ & Ha1 & Ha2).
  unfold try_catch. destruct (with_client (f key) w1) as [[[]|e] w2] eqn:E;
    destruct (with_client_view _ _ _ _ E) as [V R].
  - destruct (R _ eq_refl) as (c0 & c & Hc0 & Hf & Hc). destruct (load_spec w2) as (w3 & -> & _ & _ & H3).
    eexists. split; [reflexivity|]. split; [done|]. cbn. destruct (error (Page.view (st w3))).
    + rewrite V in H3. cbn in H3. by rewrite Ha1, Ha2 in H3.
    + destruct H3 as (c' & c1 & c2 & Hc' & H1 & H2 & H4). rewrite Hc in Hc'. simplify_eq.
      by exists c0, c', c1, c2.
  - eexists. split; [reflexivity|]. cbn. rewrite V. cbn. by rewrite Ha1, Ha2.
Qed.

End page_lemmas.

(** What an action of the page asks of the contract. *)
Inductive page_action := PAssign (row : Page.ContractRow) | PComplete (row : Page.ContractRow) | PRevoke.

Definition page_handler {C} `{Page.Client C} (org : string) (key : option string)
    (a : page_action) : M (Page.site C) unit :=
  match a with
  | PAssign row => Page.handleAssign org key true row
  | PComplete row => Page.handleComplete org key true row
  | PRevoke => Page.handleRevokeConfirm org key true
  end.

Definition page_call {C} `{Page.Client C} (org : string) (a : page_action) (s : Page.page)
    (key : string) (c : C) : option (outcome unit * C) :=
  let on f row := Some (f key (Page.contributor row) org (Page.issue_id row) c) in
  match a with
  | PAssign row => on Page.assign_issue row
  | PComplete row => on Page.complete_assignment row
  | PRevoke => Page.revokeTarget s ≫= on Page.revoke_assignment
  end.

(** an action on the maintainer page never throws and never leaves its row busy, whatever
    fails on the way; when it ends without an error on screen, the contract accepted the call
    and the two lists are what the contract lists after it; when it ends with one, the lists
    are as they were. *)
Theorem page_action_outcome {C} `{Page.Client C} org key a (w : world (Page.site C)) :
  key ≠ "" → (a = PRevoke → Page.revokeTarget (Page.view (st w)) ≠ None) →
  ∃ w', page_handler org (Some key) a w = (Ret tt, w') ∧
    let s := Page.view (st w) in let s' := Page.view (st w') in
    Page.busy s' = None ∧
    match Page.error s' with
    | Some _ => Page.applications s' = Page.applications s ∧ Page.assignments s' = Page.assignments s
    | None => ∃ c0 c c1 c2, Page.contract (st w) = Some c0 ∧
        page_call org a s key c0 = Some (Ret tt, c) ∧
        Page.list_applications org c = (Ret (Page.applications s'), c1) ∧
        Page.list_assignments org c1 = (Ret (Page.assignments s'), c2)
    end.
Proof.
  intros Hk Ht. assert (filled (Some key) = Some key) as Hfill by (by destruct key).
  assert (∀ what f row after, (∀ s, Page.busy (after s) = Page.busy s ∧
      Page.applications (after s) = Page.applications s ∧ Page.assignments (after s) = Page.assignments s) →
    ∃ w', Page.with_key (Some key) (Page.act org true what f row after) w = (Ret tt, w') ∧
      Page.busy (Page.view (st w')) = None ∧
      match Page.error (Page.view (st w')) with
      | Some _ => Page.applications (Page.view (st w')) = Page.applications (Page.view (st w)) ∧
          Page.assignments (Page.view (st w')) = Page.assignments (Page.view (st w))
      | None => ∃ c0 c c1 c2, Page.contract (st w) = Some c0 ∧ f key c0 = (Ret tt, c) ∧
          Page.list_applications org c = (Ret (Page.applications (Page.view (st w'))), c1) ∧
          Page.list_assignments org c1 = (Ret (Page.assignments (Page.view (st w'))), c2)
      end) as Hact.
  { intros what f row after Hafter. unfold Page.with_key. rewrite Hfill.
    destruct (act_spec org what f row after key w Hafter) as (w' & He & Hb & Hm).
    exists w'. split; [done|]. split; [done|]. destruct (Page.error _); [done|].
    destruct Hm as (c0 & c & c1 & c2 & ? & ? & ? & ? & _). by exists c0, c, c1, c2. }
  destruct a as [row|row|]; cbn [page_handler page_call].
  - destruct (Hact "Assign failed" (λ k, Page.assign_issue k (Page.contributor row) org
      (Page.issue_id row)) row id) as (w' & He & Hb & Hm); [done|].
    exists w'. split; [exact He|]. split; [done|]. destruct (Page.error _); [done|].
    destruct Hm as (c0 & c & c1 & c2 & ? & Hf & ? & ?). exists c0, c, c1, c2. by rewrite Hf.
  - destruct (Hact "Complete failed" (λ k, Page.complete_assignment k (Page.contributor row) org
      (Page.issue_id row)) row id) as (w' & He & Hb & Hm); [done|].
    exists w'. split; [exact He|]. split; [done|]. destruct (Page.error _); [done|].
    destruct Hm as (c0 & c & c1 & c2 & ? & Hf & ? & ?). exists c0, c, c1, c2. by rewrite Hf.
  - destruct (Page.revokeTarget (Page.view (st w))) as [row|] eqn:Et; [|by specialize (Ht eq_refl)].
    destruct (Hact "Revoke failed" (λ k, Page.revoke_assignment k (Page.contributor row) org
      (Page.issue_id row)) row (Page.set_target None)) as (w' & He & Hb & Hm); [done|].
    exists w'. split.
    + unfold Page.handleRevokeConfirm. erewrite bind_intro by reflexivity.
      rewrite Et. destruct w. exact He.
    + split; [done|]. destruct (Page.error _); [done|].
      destruct Hm as (c0 & c & c1 & c2 & ? & Hf & ? & ?). exists c0, c, c1, c2. cbn. by rewrite Hf.
Qed.

(** The page number outlives the rows: when the last row of page 2 goes, the page is empty
    and no pager is drawn to leave it. *)
Lemma page_stranded s : Page.appPage s = 2 → 0 < Z.of_nat (length (Page.applications s)) ≤ 20 →
  Page.appSlice s = [] ∧ Page.Pagination (Page.appPage s) (Z.of_nat (length (Page.applications s))) = None.
Proof.
  intros Hp Hl. unfold Page.appSlice, Page.Pagination, draw_pager, pages, Page.PAGE_SIZE. rewrite Hp.
  split; [apply window_past; lia|].
  pose proof (ceil_div_spec (Z.of_nat (length (Page.applications s))) 20 ltac:(lia)).
  destruct (Z.leb_spec (ceil_div (Z.of_nat (length (Page.applications s))) 20) 1); [done|nia].
Qed.

(** *** The dashboard *)

(** an action of the dashboard runs its course: while it waits, only its row has changed;
    when the request is refused, the rows are the ones from before, in their order, with the
    error on screen; when it is accepted, an assigned application is an assignment and a
    completed or revoked one is gone.  The dialog is closed either way. *)
Theorem board_action s item action r :
  Board.pendingAction s = Some (item, action) → Board.confirmBusy s = false →
  let s1 := Board.step s Board.Confirm in
  let s2 := Board.step s1 (Board.Answer r) in
  Board.busyId s1 = Some (Board.wi_id item) ∧
  (∀ i, i ∈ Board.items s → Board.wi_id i ≠ Board.wi_id item → i ∈ Board.items s1) ∧
  (∀ i, i ∈ Board.items s1 → Board.wi_id i = Board.wi_id item →
     action = Board.assign ∧ Board.wi_type i = Board.assignment) ∧
  Board.items s2 = (match Board.refusal r with
                    | None => Board.optimistic item action (Board.items s)
                    | Some _ => Board.items s
                    end) ∧
  Board.actionError s2 = (match Board.refusal r with
                          | None => Board.actionError s
                          | Some e => Some (error_message "Action failed. Please try again." e)
                          end) ∧
  Board.busyId s2 = None ∧ Board.pendingAction s2 = None ∧ Board.confirmBusy s2 = false.
Proof.
  intros Hp Hb. cbn [Board.step]. rewrite Hp, Hb. cbn [Board.busyId Board.items Board.prev].
  split; [done|]. split; [|split].
  - intros i Hi Hne. destruct action; cbn [Board.optimistic]; try by apply list_elem_of_filter.
    apply list_elem_of_fmap. exists i. by destruct (String.eqb_spec (Board.wi_id i) (Board.wi_id item)).
  - intros i Hi He. destruct action; cbn [Board.optimistic] in Hi;
      try by (apply list_elem_of_filter in Hi as [? _]).
    apply list_elem_of_fmap in Hi as (j & -> & Hj).
    destruct (String.eqb_spec (Board.wi_id j) (Board.wi_id item)); [done|]. done.
  - by destruct (Board.refusal r).
Qed.

(** What [executeAction] restores is its own snapshot: rows loaded while it ran are lost when
    it is refused. *)
Lemma board_refetch_lost s item action l e :
  Board.pendingAction s = Some (item, action) → Board.confirmBusy s = false →
  Board.items (Board.step (Board.step (Board.step s Board.Confirm) (Board.Fetched (Ret l)))
    (Board.Answer (Rejected e))) = Board.items s.
Proof. intros Hp Hb. cbn. by rewrite Hp, Hb. Qed.

(** the dashboard over the routes it posts to: it sends the issue as text, and the schemas
    want a number, so every action of it is refused: whatever the wallet, the organisation,
    the row and the action, the rows are restored and the error is [validation failed]. *)
Theorem board_actions_refused {N} `{Rpc N} `{Zod} s item action key org r w :
  Board.pendingAction s = Some (item, action) → Board.confirmBusy s = false →
  req_body r = Some (Board.action_body key org item) →
  ∃ res, Board.route_of (N := N) action r w = (Ret (Respond res), w) ∧ Http.status res = 400 ∧
    let s' := Board.step (Board.step s Board.Confirm) (Board.Answer (reply_of res)) in
    Board.items s' = Board.items s ∧ Board.actionError s' = Some "validation failed".
Proof.
  intros Hp Hb Hr.
  assert (∀ fields, ("issue_id", Validation.issueId) ∈ fields →
    ∃ errs, validateBody (ZObject fields) r = Respond (validation_failed errs)) as Hv.
  { intros fields Hin. unfold validateBody. rewrite Hr.
    destruct (safeParse_failure (ZObject fields) (Some (Board.action_body key org item))) as [iss ->];
      [by eapply parse_bad_field|]. by eexists. }
  assert (∃ errs, validateBody assignSchema r = Respond (validation_failed errs)) as [errs Herr]
    by (apply Hv; set_solver).
  assert (Board.route_of (N := N) action r w = (Ret (Respond (validation_failed errs)), w)) as He
    by (destruct action; apply dispatch_shadow; exact (f_equal (λ v, (Ret v, w)) Herr)).
  eexists. split; [exact He|]. split; [done|]. cbn [Board.step]. rewrite Hp, Hb. done.
Qed.

(** ** Concrete runs *)

Definition demo_row (c i : string) : Panel.Application :=
  Panel.mapApplication (Panel.mkRawApplication c i "2026-07-20" (Some 3) None) "org".
Definition demo_held (c i : string) : Panel.Assignment :=
  Panel.mapAssignment (Panel.mkRawAssignment c i None (Some 4)) "org".
Definition demo_lists : Panel.lists :=
  Panel.mkLists [demo_row "GA" "1"; demo_row "GB" "2"] [demo_held "GC" "3"].

(** Two calls overlap; the first fails. *)
Definition demo_calls : list Panel.event :=
  [Panel.Click (Panel.Assign (demo_row "GA" "1")); Panel.Click (Panel.Complete (demo_held "GC" "3"));
   Panel.Settle 1 true; Panel.Settle 0 false].

Lemma panel_shows_standing_calls_witness :
  let s := Panel.run (Panel.mkPanel demo_lists [] false None) demo_calls in
  standing (Panel.calls s) = [Panel.Complete (demo_held "GC" "3")] ∧
  Panel.applications (Panel.shown s) ≡ₚ [demo_row "GA" "1"; demo_row "GB" "2"].
Proof.
  assert (NoDup ((Panel.ap_id <$> Panel.applications demo_lists) ++
    (Panel.as_id <$> Panel.assignments demo_lists))) as H1.
  { apply (bool_decide_unpack _). vm_compute. exact I. }
  assert (Forall only_calls demo_calls) as H2 by (repeat constructor).
  assert (from_rows demo_lists (clicks demo_calls)) as H3.
  { split_and!.
    - intros a Ha. cbn in *. set_solver.
    - intros a Ha. cbn in *. set_solver.
    - apply (bool_decide_unpack _). vm_compute. exact I. }
  split; [reflexivity|].
  destruct (panel_shows_standing_calls demo_lists demo_calls false None H1 H2 H3) as (H & _).
  exact H.
Defined.

Lemma panel_authorized_by_latest_witness :
  let p := Role.mkParams (Some "GB") ["org"] true in
  let es := [Render (Role.mkParams (Some "GA") ["org"] true); Render p;
             Reply 1 (Ret [false]); Reply 0 (Ret [true])] in
  rendered Role.checkRole es = Some p ∧ (∃ a, filled (Role.maintainerAddress p) = Some a) ∧
  Client.shown (history Role.checkRole Role.loading es) = Role.forbidden.
Proof.
  split; [reflexivity|]. split; [|reflexivity].
  destruct (panel_authorized_by_latest
    [Render (Role.mkParams (Some "GA") ["org"] true); Render (Role.mkParams (Some "GB") ["org"] true);
     Reply 1 (Ret [false]); Reply 0 (Ret [true])] (Role.mkParams (Some "GB") ["org"] true) eq_refl)
    as [H _]. exact H.
Defined.

(** A contract that is its two lists. *)
#[export] Instance list_client : Page.Client (list Page.ContractRow * list Page.ContractRow) := {|
  Page.assign_issue _ c _ i s :=
    (Ret tt, (filter (λ r, Page.issue_id r ≠ i) s.1, s.2 ++ [Page.mkRow c i ""]));
  Page.complete_assignment _ _ _ i s := (Ret tt, (s.1, filter (λ r, Page.issue_id r ≠ i) s.2));
  Page.revoke_assignment _ _ _ i s := (Ret tt, (s.1, filter (λ r, Page.issue_id r ≠ i) s.2));
  Page.list_applications _ s := (Ret s.1, s);
  Page.list_assignments _ s := (Ret s.2, s);
|}.

Definition demo_site : Page.site (list Page.ContractRow * list Page.ContractRow) :=
  Page.Site (Page.mkPage [Page.mkRow "GA" "1" ""] [] false None None 1 1 None)
    (Some ([Page.mkRow "GA" "1" ""], [])).

Lemma page_action_outcome_witness :
  ∃ w', page_handler "org" (Some "GM") (PAssign (Page.mkRow "GA" "1" "")) (World demo_site []) =
    (Ret tt, w') ∧ Page.busy (Page.view (st w')) = None.
Proof.
  assert ("GM" ≠ "") as Hk by discriminate.
  assert (PAssign (Page.mkRow "GA" "1" "") = PRevoke → Page.revokeTarget (Page.view demo_site) ≠ None)
    as Ht by discriminate.
  destruct (page_action_outcome "org" "GM" (PAssign (Page.mkRow "GA" "1" "")) (World demo_site []) Hk Ht)
    as (w' & H1 & H2 & _). exact (ex_intro _ w' (conj H1 H2)).
Defined.

Definition demo_item : Board.WorkItem :=
  Board.mkItem "i1" "GA" "7" "2026-07-20" Board.application (Some 15) None.
Definition demo_board : Board.board :=
  Board.step (Board.mkBoard [demo_item] false None 1 None None None false None)
    (Board.RequestAction demo_item Board.assign).

Lemma board_action_witness :
  let s2 := Board.step (Board.step demo_board Board.Confirm) (Board.Answer (Answered 200 None)) in
  Board.items s2 = [Board.to_assignment demo_item] ∧ Board.busyId s2 = None.
Proof.
  destruct (board_action demo_board demo_item Board.assign (Answered 200 None) eq_refl eq_refl)
    as (_ & _ & _ & H1 & _ & H2 & _). exact (conj H1 H2).
Defined.

Lemma board_actions_refused_witness :
  ∃ res, Board.route_of (N := unit) (H := open_rpc) Board.assign
           (Request [] [] [] (Some (Board.action_body (Some "GM") "org" demo_item)) None)
           (World demo_tx_state []) = (Ret (Respond res), World demo_tx_state []) ∧
    Http.status res = 400.
Proof.
  destruct (board_actions_refused (H := open_rpc) demo_board demo_item Board.assign (Some "GM") "org"
    (Request [] [] [] (Some (Board.action_body (Some "GM") "org" demo_item)) None)
    (World demo_tx_state []) eq_refl eq_refl eq_refl) as (res & H1 & H2 & _).
  exact (ex_intro _ res (conj H1 H2)).
Defined.
