(* ===== verification/Orgs.v ===== *)
(** * The organisation routes ([src/routes/orgs.ts])

    The stub data of the routes, their pagination and filters, and the cached page of
    applications.  The routes are plain functions of the request, except the page of
    applications, which goes through the cache. *)

From Stdlib Require Import String Ascii.
From S2P Require Import Prelude Js Http Decimal Paging Cache Validation.

#[local] Open Scope string_scope.
#[local] Open Scope list_scope.
#[local] Open Scope Z_scope.

Definition KNOWN_ORGS : list string := ["stellar-oss"; "org_stellar_001"].

Definition isKnownOrg (orgId : string) : bool := bool_decide (orgId ∈ KNOWN_ORGS).

Definition org_not_found (orgId : string) : response :=
  send_json 404 (obj [("error", Some (JStr "not_found"));
                      ("message", Some (JStr ("Org '" +:+ orgId +:+ "' not found")));
                      ("code", Some (JStr "NOT_FOUND"))]).

Definition bad_request (message : string) : response :=
  send_json 400 (obj [("error", Some (JStr "bad_request")); ("message", Some (JStr message));
                      ("code", Some (JStr "INVALID_REQUEST"))]).

Definition orgId (r : request) : string := param "orgId" r.

(** The check every route below starts with. *)
Definition for_known_org {A} (r : request) (refuse : response → A) (k : A) : A :=
  if isKnownOrg (orgId r) then k else refuse (org_not_found (orgId r)).

(** [GET /orgs]. *)
Definition list_orgs : response :=
  send_json 200 (JArr
    [obj [("org_id", Some (JStr "org_stellar_001"));
          ("contract_address",
            Some (JStr "CAAAAAAAAAAAAAAAAAAAAAAAAAAAAAAAAAAAAAAAAAAAAAAAAAAAD2KM"));
          ("created_at", Some (JStr "2026-01-15T00:00:00.000Z"))];
     obj [("org_id", Some (JStr "stellar-oss"));
          ("contract_address",
            Some (JStr "CAAAAAAAAAAAAAAAAAAAAAAAAAAAAAAAAAAAAAAAAAAAAAAAAAAB2KM2"));
          ("created_at", Some (JStr "2026-02-01T00:00:00.000Z"))]]).

(** ** Issues and assignments of an organisation *)

Definition org_issues (orgId : string) : list json :=
  [obj [("issue_id", Some (JStr "issue_42")); ("org_id", Some (JStr orgId));
        ("title", Some (JStr "Fix memory leak in sync service"));
        ("description", Some (JStr "The sync service accumulates memory over long runtimes."));
        ("status", Some (JStr "open")); ("reward_xlm", Some (jint 50));
        ("created_at", Some (JStr "2026-07-01T12:00:00.000Z"))];
   obj [("issue_id", Some (JStr "github/stellar/js-stellar-sdk/1234"));
        ("org_id", Some (JStr orgId)); ("title", Some (JStr "Add multi-org support"));
        ("description", Some JNull); ("status", Some (JStr "open"));
        ("reward_xlm", Some (jint 80)); ("created_at", Some (JStr "2026-07-05T10:00:00.000Z"))]].

(** [GET /orgs/:orgId/issues]. *)
Definition get_org_issues (r : request) : response :=
  for_known_org r id
    (let limit := js_min (query_int "limit" "20" r) (Fin 100) in
     let offset := query_int "offset" "0" r in
     send_json 200 (JArr (js_slice offset (js_add offset limit) (org_issues (orgId r))))).

Definition GAAZ : string := "GAAZI4TCR3TY5OJHCTJC2A4QSY6CJWJH5IAJTGKIN2ER7LBNVKOCCWN".

Definition org_assignments (orgId : string) : list (string * json) :=
  [(GAAZ, obj [("assignment_id", Some (JStr "asgn_001")); ("org_id", Some (JStr orgId));
               ("issue_id", Some (JStr "issue_42")); ("contributor", Some (JStr GAAZ));
               ("assigned_at", Some (JStr "2026-07-10T09:00:00.000Z"))])].

(** [contributor ? l.filter((a) => a.contributor === contributor) : l] on rows tagged with
    their contributor. *)
Definition by_contributor (r : request) (l : list (string * json)) : list json :=
  snd <$> (match query "contributor" r with
           | Some v => if truthy v then filter (λ a, as_string v = Some a.1) l else l
           | None => l
           end).

(** [GET /orgs/:orgId/assignments]. *)
Definition get_org_assignments (r : request) : response :=
  for_known_org r id (send_json 200 (JArr (by_contributor r (org_assignments (orgId r))))).

(** ** Applications *)

Definition APPLICATIONS_CACHE_TTL : Z := 30.

Record ApplicationEntry := mkEntry {
  contributor : string;
  issue_id : Z;
  applied_at_ledger : Z;
}.

Definition entry_json (e : ApplicationEntry) : json :=
  obj [("contributor", Some (JStr (contributor e))); ("issue_id", Some (jint (issue_id e)));
       ("applied_at_ledger", Some (jint (applied_at_ledger e)))].

Definition STUB_APPLICATIONS : list (string * list ApplicationEntry) :=
  [("stellar-oss",
    [mkEntry GAAZ 42 1234567;
     mkEntry "GBXXX1ABCDEFGHIJKLMNOAAAAAAAAAAAAAAAAAAAAAAAAAAAAAAAAAAA1" 99 1234600]);
   ("org_stellar_001", [mkEntry GAAZ 1 1230000])].

Definition all_applications (orgId : string) : list ApplicationEntry :=
  default [] (assoc orgId STUB_APPLICATIONS).

(** The page and the limit a request asks for. *)
Definition page_of (r : request) : jsnum := js_max (query_int "page" "1" r) (Fin 1).
Definition limit_of (r : request) : jsnum :=
  js_max (js_min (query_int "limit" "20" r) (Fin 50)) (Fin 1).

Definition cacheKey (orgId : string) (page limit : jsnum) : string :=
  "applications:" +:+ orgId +:+ ":page=" +:+ show_num page +:+ ":limit=" +:+ show_num limit.

Definition applications_page (orgId : string) (page limit : jsnum) : list ApplicationEntry :=
  let offset := js_mul (js_sub page (Fin 1)) limit in
  js_slice offset (js_add offset limit) (all_applications orgId).

Definition ApplicationsResponse (orgId : string) (page limit : jsnum) : json :=
  obj [("org_id", Some (JStr orgId));
       ("total", Some (jint (Z.of_nat (length (all_applications orgId)))));
       ("page", Some (num_json page)); ("limit", Some (num_json limit));
       ("applications", Some (JArr (entry_json <$> applications_page orgId page limit)))].

Section applications.
Context {S R : Type} `{HasCache S R} `{RedisStore R}.
Variable JSON_parse : string → option json.
Variable JSON_stringify : json → string.

(** [GET /orgs/:orgId/applications]. *)
Definition get_org_applications (r : request) : M S response :=
  for_known_org r mret
    (let page := page_of r in
     let limit := limit_of r in
     cached ← getCache JSON_parse (cacheKey (orgId r) page limit);
     if truthy cached then
       mret (with_headers [("X-Cache", "HIT")] (send_json 200 cached))
     else
       let payload := ApplicationsResponse (orgId r) page limit in
       _ ← setCache JSON_stringify (cacheKey (orgId r) page limit) payload APPLICATIONS_CACHE_TTL;
       mret (with_headers [("X-Cache", "MISS")] (send_json 200 payload))).

End applications.

(** ** Applying and withdrawing *)

Section apply.
Context `{Zod}.

(** The first handler of the route: the organisation is checked before the body. *)
Definition known_org_or_404 (r : request) : verdict :=
  for_known_org r Respond (Next r []).

Definition repeat (n : nat) (c : ascii) : string := str (replicate n c).

Definition apply_success (_ : request) : verdict :=
  Respond (send_json 200 (obj
    [("success", Some (JBool true)); ("tx_hash", Some (JStr (repeat 64 "a")));
     ("message", Some (JStr "Application submitted successfully"))])).

(** [POST /orgs/:orgId/issues/:issueId/apply]. *)
Definition post_org_apply {S} : request → M S verdict :=
  dispatch [λ r, mret (known_org_or_404 r);
            λ r, mret (validateBody orgApplyBodySchema r);
            λ r, mret (apply_success r)].

End apply.

(** [DELETE /orgs/:orgId/issues/:issueId/apply]. *)
Definition delete_org_apply (r : request) : response :=
  for_known_org r id
    (if truthy_opt (query "contributor" r) then send_empty 204
     else bad_request "contributor query param is required").

(** ** Events *)

Definition org_event (id orgId event_type tx_hash occurred_at : string) : string * json :=
  (GAAZ, obj [("event_id", Some (JStr id)); ("org_id", Some (JStr orgId));
              ("event_type", Some (JStr event_type)); ("issue_id", Some (JStr "issue_42"));
              ("contributor", Some (JStr GAAZ)); ("tx_hash", Some (JStr tx_hash));
              ("occurred_at", Some (JStr occurred_at))]).

Definition org_events (orgId : string) : list (string * json) :=
  [org_event "evt_001" orgId "applied" (repeat 64 "a") "2026-07-01T12:30:00.000Z";
   org_event "evt_002" orgId "assigned" (repeat 64 "b") "2026-07-10T09:00:00.000Z"].

(** [GET /orgs/:orgId/events]. *)
Definition get_org_events (r : request) : response :=
  for_known_org r id
    (let rawLimit := query_int "limit" "20" r in
     if js_gt rawLimit (Fin 100) then bad_request "limit must be ≤ 100" else
     let limit := js_max (Fin 1) (js_min rawLimit (Fin 100)) in
     let offset := js_max (Fin 0) (query_int "offset" "0" r) in
     let filtered := by_contributor r (org_events (orgId r)) in
     send_json 200 (obj
       [("events", Some (JArr (js_slice offset (js_add offset limit) filtered)));
        ("total", Some (jint (Z.of_nat (length filtered))));
        ("limit", Some (num_json limit)); ("offset", Some (num_json offset))])).

(** ** Lemmas *)

Lemma page_of_nonneg r z : page_of r = Fin z → 1 ≤ z.
Proof. unfold page_of, js_max. destruct (query_int _ _ _); cbn; [done|]. intros [= <-]. lia. Qed.

Lemma limit_of_range r z : limit_of r = Fin z → 1 ≤ z ≤ 50.
Proof.
  unfold limit_of, js_max, js_min. destruct (query_int _ _ _); cbn; [done|]. intros [= <-]. lia.
Qed.

(** The pages and limits a request can lead to. *)
Definition in_range (page limit : jsnum) : Prop :=
  (∀ z, page = Fin z → 0 ≤ z) ∧ (∀ z, limit = Fin z → 0 ≤ z).

Lemma request_in_range r : in_range (page_of r) (limit_of r).
Proof.
  split; intros z Hz; [apply page_of_nonneg in Hz; lia|apply limit_of_range in Hz; lia].
Qed.

Lemma known_org_plain o : isKnownOrg o = true → plain o.
Proof.
  unfold isKnownOrg. rewrite bool_decide_eq_true. unfold KNOWN_ORGS, plain.
  rewrite !elem_of_cons. intros [->|[->|H]]; [vm_compute; set_solver..|set_solver].
Qed.

Lemma cacheKey_inj o p l o' p' l' :
  isKnownOrg o = true → isKnownOrg o' = true → in_range p l → in_range p' l' →
  cacheKey o p l = cacheKey o' p' l' → o = o' ∧ p = p' ∧ l = l'.
Proof.
  intros Ho Ho' [Hp Hl] [Hp' Hl'] He. unfold cacheKey in He.
  apply (inj (String.append "applications:")) in He.
  apply colon_inj in He as [-> He]; [|by apply known_org_plain..].
  apply (inj (String.append "page=")) in He.
  apply colon_inj in He as [He1 He2]; [|by apply show_num_plain..].
  apply (inj (String.append "limit=")) in He2.
  split_and!; [done|by apply show_num_inj|by apply show_num_inj].
Qed.

(** ** Theorems *)

Section theorems.
Context {S R : Type} `{HasCache S R} `{RedisStore R}.
Variable JSON_parse : string → option json.
Variable JSON_stringify : json → string.

(** Whatever the cache holds under the key of a page is that page. *)
Definition coherent (s : S) : Prop :=
  ∀ o p l v, isKnownOrg o = true → in_range p l →
    r_get (cacheKey o p l) (redis (get_cache s)) = Some v →
    v = JSON_stringify (ApplicationsResponse o p l).

(** C35: whatever the cache has served before and whatever fails in Redis, the page of a
    known organisation is answered 200 with exactly the page computed from the source of
    the applications: no stale page, no page of another organisation or of other paging
    parameters; and the cache stays coherent.  The page only has to survive
    serialisation. *)
Theorem applications_coherent r (w : world S) :
  let page := ApplicationsResponse (orgId r) (page_of r) (limit_of r) in
  JSON_parse (JSON_stringify page) = Some page →
  isKnownOrg (orgId r) = true → coherent (st w) →
  ∃ x w',
    get_org_applications JSON_parse JSON_stringify r w =
      (Ret (Response 200 [("X-Cache", x)] (Some page)), w') ∧
    x ∈ ["HIT"; "MISS"] ∧ coherent (st w').
Proof.
  intros page JSON_roundtrip Ho Hc. unfold get_org_applications, for_known_org. rewrite Ho.
  fold page. set (key := cacheKey _ _ _).
  destruct (getCache_spec JSON_parse key w) as (v & w1 & Hg & Hr1 & Hv).
  erewrite bind_intro by exact Hg.
  assert (v = JNull ∨ v = page) as [->| ->].
  { destruct Hv as [->|(c & Hk & Hp)]; [by left|right].
    rewrite (Hc _ _ _ _ Ho (request_in_range r) Hk) in Hp.
    unfold page in JSON_roundtrip. rewrite JSON_roundtrip in Hp. by injection Hp as <-. }
  - cbn [truthy].
    destruct (setCache_spec JSON_stringify key page APPLICATIONS_CACHE_TTL w1)
      as (w2 & Hs & Hr2).
    erewrite bind_intro by exact Hs. exists "MISS", w2.
    split_and!; [reflexivity|set_solver|].
    intros o p l c Hk Hin. destruct Hr2 as [->| ->]; rewrite Hr1; [by apply Hc|].
    destruct (decide (key = cacheKey o p l)) as [He|Hne].
    + apply cacheKey_inj in He as (<- & <- & <-); [|done|done|apply request_in_range|done].
      rewrite r_get_setex by done. by intros [= <-].
    + rewrite r_get_setex_ne by done. by apply Hc.
  - exists "HIT", w1. split_and!; [reflexivity|set_solver|].
    intros o p l c. rewrite Hr1. apply Hc.
Qed.

(** An unknown organisation is refused without touching the cache. *)
Lemma unknown_org_404 r (w : world S) :
  isKnownOrg (orgId r) = false →
  get_org_applications JSON_parse JSON_stringify r w = (Ret (org_not_found (orgId r)), w).
Proof. intros Ho. unfold get_org_applications, for_known_org. by rewrite Ho. Qed.

End theorems.

(** A request for page [page] of [limit] applications. *)
Definition page_request (org : string) (page limit : Z) : request :=
  Request [] [("page", JStr (pretty page)); ("limit", JStr (pretty limit))]
    [("orgId", JStr org)] None None.

Lemma page_request_window org page limit : 1 ≤ page → 1 ≤ limit ≤ 50 →
  applications_page org (page_of (page_request org page limit))
    (limit_of (page_request org page limit)) =
  window page limit (all_applications org).
Proof.
  intros Hp Hl. unfold page_of, limit_of.
  rewrite (query_int_pretty "page" _ _ page), (query_int_pretty "limit" _ _ limit) by (done || lia).
  cbn. rewrite Z.max_l, (Z.min_l limit), Z.max_l by lia. unfold applications_page. cbn.
  by apply window_slice; lia.
Qed.

(** asking for the pages one after the other, with any limit from 1 to 50, returns
    every application of the organisation exactly once and in order. *)
Theorem application_pages_cover org limit :
  1 ≤ limit ≤ 50 →
  concat ((λ i, let r := page_request org (Z.of_nat i + 1) limit in
                applications_page org (page_of r) (limit_of r)) <$>
            seq 0 (page_count (Z.of_nat (length (all_applications org))) limit)) =
  all_applications org.
Proof.
  intros Hl. etrans; [|apply (windows_cover (all_applications org) limit); lia].
  f_equal. apply list_fmap_ext. intros _ i _. apply page_request_window; lia.
Qed.

Section apply_theorems.
Context `{Zod}.

(** The organisation is checked before the body, and nothing is answered 200 without a
    body the schema accepts. *)
Lemma org_apply_order {S} r (w : world S) :
  ∃ res, post_org_apply r w = (Ret (Respond res), w) ∧
    (isKnownOrg (orgId r) = false → res = org_not_found (orgId r)) ∧
    (status res = 200 → isKnownOrg (orgId r) = true ∧
       ∃ d, safeParse orgApplyBodySchema (req_body r) = Success d).
Proof.
  unfold post_org_apply, known_org_or_404, for_known_org, validateBody. simpl.
  unfold_m. simpl. destruct (isKnownOrg (orgId r)) eqn:Ho; simpl; [|eexists; split_and!; [done..|done]].
  rewrite ?Ho. destruct (safeParse orgApplyBodySchema (req_body r)) as [d|iss] eqn:E; simpl;
    eexists; split_and!; try done; eauto.
Qed.

End apply_theorems.

(** ** Concrete runs *)

Definition first_page : request := page_request "stellar-oss" 1 20.
Definition first_page_json : json := ApplicationsResponse "stellar-oss" (Fin 1) (Fin 20).

(** A limit that is not a number empties the list: the default only replaces a missing
    one. *)
Example nan_limit :
  get_org_issues (Request [] [("limit", JStr "abc")] [("orgId", JStr "stellar-oss")] None None) =
  send_json 200 (JArr []).
Proof. reflexivity. Qed.

(** A negative offset counts from the end. *)
Example negative_offset :
  get_org_issues (Request [] [("offset", JStr "-1"); ("limit", JStr "5")]
                    [("orgId", JStr "stellar-oss")] None None) =
  send_json 200 (JArr (drop 1 (org_issues "stellar-oss"))).
Proof. reflexivity. Qed.

Lemma application_pages_cover_witness :
  1 ≤ 1 ≤ 50 ∧
  concat ((λ i, let r := page_request "stellar-oss" (Z.of_nat i + 1) 1 in
                applications_page "stellar-oss" (page_of r) (limit_of r)) <$>
            seq 0 2) = all_applications "stellar-oss".
Proof.
  split; [lia|]. apply (application_pages_cover "stellar-oss" 1). lia.
Defined.

(** A miss on an empty cache whose write is applied although the reply is lost. *)
Lemma applications_coherent_witness :
  ∃ x w',
    @get_org_applications _ _ HasCache_self map_redis (λ _, Some first_page_json) (λ _, "page")
      first_page (World (Cache ∅ (mkMetrics 0 0)) [Fine; FailAfter (Error "timeout")]) =
      (Ret (Response 200 [("X-Cache", x)] (Some first_page_json)), w') ∧
    x ∈ ["HIT"; "MISS"].
Proof.
  destruct (@applications_coherent _ _ HasCache_self map_redis (λ _, Some first_page_json)
    (λ _, "page") first_page
    (World (Cache ∅ (mkMetrics 0 0)) [Fine; FailAfter (Error "timeout")]))
    as (x & w' & H1 & H2 & _).
  - reflexivity.
  - reflexivity.
  - intros o p l v _ _ H. exfalso. revert H. apply eq_None_ne_Some_1. apply lookup_empty.
  - exists x, w'. split; [exact H1|exact H2].
Defined.
