(* ===== verification/IssueLists.v ===== *)
(** * The issue lists of the frontend

    [useOrgIssues.ts] and [useInfiniteOrgIssues.ts]: the issues of an organisation with what
    the connected contributor has applied for, in one go ([One]) and page by page
    ([Infinite]); the filters, the order and the apply and withdraw buttons of
    [OrgIssuesPage.tsx] ([Listing]). *)

From Stdlib Require Import String Ascii Sorted.
From S2P Require Import Prelude Js Url Http Decimal Paging Browser.
From S2P Require Import Client Validation Db Contributors Orgs Soroban Xdr Transactions.

#[local] Open Scope string_scope.
#[local] Open Scope list_scope.
#[local] Open Scope Z_scope.

(** ** What both hooks share *)

Inductive IssueStatus := open | applied | assigned.

#[export] Instance issue_status_eq_dec : EqDecision IssueStatus.
Proof. solve_decision. Defined.

Record OrgIssue := mkOrgIssue {
  oi_issue_id : option json; oi_org_id : option json; oi_title : option json;
  oi_status : IssueStatus; oi_reward_xlm : option json; oi_created_at : option json;
  oi_labels : option json; oi_difficulty : option json; oi_applicant_count : option json;
}.

(** [new Set(...)] of the ids and [has]: [undefined] is a member like any other. *)
Definition same (a b : option json) : bool :=
  match a, b with
  | None, None => true
  | Some x, Some y => strict_eq x y
  | _, _ => false
  end.
Definition has (x : option json) (s : list (option json)) : bool := existsb (same x) s.

Definition not_a_function (f : string) : exn := ErrorObj "TypeError" (f +:+ " is not a function").

(** [l.map(f)] on a parsed value. *)
Definition map_array {A} (f : json → outcome A) (v : json) : outcome (list A) :=
  match v with
  | JArr l => map_outcome f l
  | JNull => Throw (null_property "map")
  | _ => Throw (not_a_function "map")
  end.

(** [(a) => a.issue_id]. *)
Definition issue_id_of (a : json) : outcome (option json) := Url.get "issue_id" a.

(** The row of a raw issue. *)
Definition issue_row (applied_ids assigned_ids : list (option json)) (raw : json) : OrgIssue :=
  let id := prop "issue_id" raw in
  mkOrgIssue id (prop "org_id" raw) (prop "title" raw)
    (if has id assigned_ids then assigned else if has id applied_ids then applied else open)
    (prop "reward_xlm" raw) (prop "created_at" raw) (prop "labels" raw) (prop "difficulty" raw)
    (prop "applicant_count" raw).

Definition merge_issue (applied_ids assigned_ids : list (option json)) (raw : json) :
    outcome OrgIssue :=
  match raw with
  | JNull => Throw (null_property "issue_id")
  | _ => Ret (issue_row applied_ids assigned_ids raw)
  end.

(** A response that is [fulfilled] and [ok], with its body. *)
Definition ok_body (r : reply) : option (option json) :=
  match r with
  | Answered code body => if ok code then Some body else None
  | Rejected _ => None
  end.

(** The ids in a list of applications or assignments, [None] when the list is not used. *)
Definition ids_of (r : reply) : outcome (option (list (option json))) :=
  match ok_body r with
  | None => Ret None
  | Some None => Throw bad_json
  | Some (Some v) =>
      match map_array issue_id_of v with Ret l => Ret (Some l) | Throw e => Throw e end
  end.

(** [stats.byOrganization?.find((r) => r.org_id === orgId)]. *)
Fixpoint find_org (orgId : string) (l : list json) : outcome (option json) :=
  match l with
  | [] => Ret None
  | JNull :: _ => Throw (null_property "org_id")
  | r :: l' => if same (prop "org_id" r) (Some (JStr orgId)) then Ret (Some r) else find_org orgId l'
  end.

(** The two counts of the contributor. *)
Definition counts_of (orgId : string) (r : reply) : outcome (option (json * json)) :=
  match ok_body r with
  | None => Ret None
  | Some None => Throw bad_json
  | Some (Some JNull) => Throw (null_property "totalApplications")
  | Some (Some stats) =>
      let total := nullish_or (prop "totalApplications" stats) (jint 0) in
      match nullish_or (prop "byOrganization" stats) JNull with
      | JNull => Ret (Some (total, jint 0))
      | JArr l =>
          match find_org orgId l with
          | Throw e => Throw e
          | Ret row => Ret (Some (total, nullish_or (row ≫= prop "assignments") (jint 0)))
          end
      | _ => Throw (not_a_function "find")
      end
  end.

(** [setIssueStatus]. *)
Definition set_issue_status (id : option json) (st : IssueStatus) (l : list OrgIssue) :
    list OrgIssue :=
  (λ i, if same (oi_issue_id i) id
        then mkOrgIssue (oi_issue_id i) (oi_org_id i) (oi_title i) st (oi_reward_xlm i)
               (oi_created_at i) (oi_labels i) (oi_difficulty i) (oi_applicant_count i)
        else i) <$> l.

Record settled := mkSettled { appsRes : reply; asgnRes : reply; statsRes : reply }.

Definition issues_failed (code : Z) : exn := Error ("Issues fetch failed: " +:+ pretty code).

(** The body of a list of issues. *)
Definition raw_issues (r : reply) : outcome json :=
  match r with
  | Rejected e => Throw e
  | Answered code body =>
      if ok code then match body with Some v => Ret v | None => Throw bad_json end
      else Throw (issues_failed code)
  end.

(** ** All issues at once *)

Module One.

Record params := mkParams { orgId : string; contributor : option string }.

Record state := mkState {
  issues : list OrgIssue; loading : bool; error : option string;
  globalAppCount : json; orgAssignCount : json;
}.

(** The body of the [try]: the issues, then, for a connected contributor, the rest. *)
Definition decode (p : params) (r : reply * settled) : outcome (list OrgIssue * (json * json)) :=
  match raw_issues r.1 with
  | Throw e => Throw e
  | Ret raw =>
      let merged apps asgns counts :=
        match map_array (merge_issue (default [] apps) (default [] asgns)) raw with
        | Throw e => Throw e
        | Ret l => Ret (l, default (jint 0, jint 0) counts)
        end in
      match filled (contributor p) with
      | None => merged None None None
      | Some _ =>
          match ids_of (appsRes r.2) with
          | Throw e => Throw e
          | Ret apps =>
              match ids_of (asgnRes r.2) with
              | Throw e => Throw e
              | Ret asgns =>
                  match counts_of (orgId p) (statsRes r.2) with
                  | Throw e => Throw e
                  | Ret counts => merged apps asgns counts
                  end
              end
          end
      end
  end.

Definition receive (p : params) (r : reply * settled) (s : state) : state :=
  match decode p r with
  | Ret (l, (g, o)) => mkState l (loading s) (error s) g o
  | Throw e => mkState (issues s) (loading s) (Some (error_message "Unknown error" e))
                 (globalAppCount s) (orgAssignCount s)
  end.

Definition useOrgIssues : hook params (reply * settled) state :=
  Hook false (λ _, true) id
    (λ _ s, mkState (issues s) true None (globalAppCount s) (orgAssignCount s)) receive
    (λ s, mkState (issues s) false (error s) (globalAppCount s) (orgAssignCount s)).

End One.

(** ** Page by page *)

Module Infinite.

Definition PAGE_SIZE : Z := 20.

Record params := mkParams { orgId : string; contributor : option string }.

(** What the one fetch that may run is waiting for. *)
Inductive waiting := AwaitState | AwaitPage.

Record fetching := mkFetching { f_params : params; f_offset : Z; f_waits : waiting }.

Record state := mkState {
  current : params;                      (** the parameters on screen *)
  issues : list OrgIssue;
  loading : bool;
  hasMore : bool;
  error : option string;
  globalAppCount : json;
  orgAssignCount : json;
  offsetRef : Z;
  fetchingRef : option fetching;
  appliedRef : list (option json);
  assignedRef : list (option json);
}.

Definition page_query (offset : Z) : list (string * json) :=
  [("limit", JStr (pretty PAGE_SIZE)); ("offset", JStr (pretty offset))].

(** The references and the list are cleared, for a change of parameters or a refresh. *)
Definition clear (s : state) : state :=
  mkState (current s) [] (loading s) true (error s) (globalAppCount s) (orgAssignCount s) 0
    (fetchingRef s) [] [].

(** [fetchPage(offset)], up to its first [await]. *)
Definition fetchPage (p : params) (offset : Z) (s : state) : state :=
  match fetchingRef s with
  | Some _ => s
  | None =>
      let waits := if (offset =? 0) && (match filled (contributor p) with Some _ => true | _ => false end)
                   then AwaitState else AwaitPage in
      mkState (current s) (issues s) true (hasMore s) None (globalAppCount s) (orgAssignCount s)
        (offsetRef s) (Some (mkFetching p offset waits)) (appliedRef s) (assignedRef s)
  end.

(** Its [catch] and its [finally]. *)
Definition failed (e : exn) (s : state) : state :=
  mkState (current s) (issues s) false (hasMore s) (Some (error_message "Unknown error" e))
    (globalAppCount s) (orgAssignCount s) (offsetRef s) None (appliedRef s) (assignedRef s).

(** [fetchContributorState], from its [await]: what is read before something throws stays. *)
Definition contributor_state (f : fetching) (r : settled) (s : state) : state :=
  let set app asg g o w :=
    mkState (current s) (issues s) (loading s) (hasMore s) (error s) g o (offsetRef s) w app asg in
  let app0 := appliedRef s in
  let asg0 := assignedRef s in
  let g0 := globalAppCount s in
  let o0 := orgAssignCount s in
  match ids_of (appsRes r) with
  | Throw e => failed e s
  | Ret apps =>
      let app := default app0 apps in
      match ids_of (asgnRes r) with
      | Throw e => failed e (set app asg0 g0 o0 None)
      | Ret asgns =>
          let asg := default asg0 asgns in
          match counts_of (orgId (f_params f)) (statsRes r) with
          | Throw e => failed e (set app asg g0 o0 None)
          | Ret counts =>
              let '(g, o) := default (g0, o0) counts in
              set app asg g o (Some (mkFetching (f_params f) (f_offset f) AwaitPage))
          end
      end
  end.

(** The rest of [fetchPage], once the page is there. *)
Definition page_arrived (f : fetching) (r : reply) (s : state) : state :=
  match raw_issues r with
  | Throw e => failed e s
  | Ret raw =>
      match map_array (merge_issue (appliedRef s) (assignedRef s)) raw with
      | Throw e => failed e s
      | Ret merged =>
          let n := zlen merged in
          mkState (current s) (if f_offset f =? 0 then merged else issues s ++ merged) false
            (n =? PAGE_SIZE) (error s) (globalAppCount s) (orgAssignCount s) (f_offset f + n) None
            (appliedRef s) (assignedRef s)
      end
  end.

Inductive event :=
  | Render (p : params)
  | LoadMore
  | Refresh
  | StateArrived (r : settled)
  | PageArrived (r : reply)
  | SetStatus (id : option json) (st : IssueStatus).

Definition set_current (p : params) (s : state) : state :=
  mkState p (issues s) (loading s) (hasMore s) (error s) (globalAppCount s) (orgAssignCount s)
    (offsetRef s) (fetchingRef s) (appliedRef s) (assignedRef s).

Definition set_issues (l : list OrgIssue) (s : state) : state :=
  mkState (current s) l (loading s) (hasMore s) (error s) (globalAppCount s) (orgAssignCount s)
    (offsetRef s) (fetchingRef s) (appliedRef s) (assignedRef s).

Definition step (s : state) (e : event) : state :=
  match e with
  | Render p => fetchPage p 0 (clear (set_current p s))
  | LoadMore =>
      if loading s || negb (hasMore s) then s else fetchPage (current s) (offsetRef s) s
  | Refresh => fetchPage (current s) 0 (clear s)
  | StateArrived r =>
      match fetchingRef s with
      | Some ({| f_waits := AwaitState |} as f) => contributor_state f r s
      | _ => s
      end
  | PageArrived r =>
      match fetchingRef s with
      | Some ({| f_waits := AwaitPage |} as f) => page_arrived f r s
      | _ => s
      end
  | SetStatus id st => set_issues (set_issue_status id st (issues s)) s
  end.

Definition run (s : state) (es : list event) : state := fold_left step es s.

Definition initial (p : params) : state :=
  mkState p [] false true None (jint 0) (jint 0) 0 None [] [].

End Infinite.

(** ** The page *)

Module Listing.

Definition GLOBAL_CAP : Z := 15.
Definition ORG_CAP : Z := 4.

(** An issue of the type the page declares. *)
Record Issue := mkIssue {
  issue_id : string; title : string; status : IssueStatus; created_at : string;
  labels : option (list string); difficulty : option string; applicant_count : option Z;
}.

Inductive SortOption := newest | oldest | most_applicants | fewest_applicants.

Record filters := mkFilters {
  searchText : string; selectedLabels : list string; selectedDifficulties : list string;
  sort : SortOption;
}.

Definition mem (x : string) (l : list string) : bool := existsb (String.eqb x) l.

Definition matches (f : filters) (i : Issue) : bool :=
  includes (toLowerCase (searchText f)) (toLowerCase (title i)) &&
  (match selectedLabels f with
   | [] => true
   | ls => existsb (λ l, mem l ls) (default [] (labels i))
   end) &&
  (match selectedDifficulties f with
   | [] => true
   | ds => match filled (difficulty i) with Some d => mem d ds | None => false end
   end).

Definition applicants (i : Issue) : jsnum := Fin (default 0 (applicant_count i)).

Definition compare (o : SortOption) (l r : Issue) : jsnum :=
  match o with
  | oldest => js_sub (getTime (created_at l)) (getTime (created_at r))
  | most_applicants => js_sub (applicants r) (applicants l)
  | fewest_applicants => js_sub (applicants l) (applicants r)
  | newest => js_sub (getTime (created_at r)) (getTime (created_at l))
  end.

Definition filteredIssues (f : filters) (l : list Issue) : list Issue :=
  sort_by (compare (sort f)) (filter (λ i, matches f i = true) l).

Definition activeFilterCount (f : filters) : Z :=
  (if String.eqb (searchText f) "" then 0 else 1) + zlen (selectedLabels f) +
  zlen (selectedDifficulties f) + (match sort f with newest => 0 | _ => 1 end).

(** [canApply] and [capReachedReason]. *)
Definition canApply (wallet : option string) (g o : Z) : bool :=
  match wallet with Some _ => true | None => false end && (g <? GLOBAL_CAP) && (o <? ORG_CAP).

Definition capReachedReason (wallet : option string) (g o : Z) : option string :=
  match filled wallet with
  | None => Some "Connect your wallet to apply."
  | Some _ =>
      if GLOBAL_CAP <=? g then
        Some ("Global limit reached: " +:+ pretty g +:+ "/" +:+ pretty GLOBAL_CAP +:+ " applications.")
      else if ORG_CAP <=? o then
        Some ("Org limit reached: " +:+ pretty o +:+ "/" +:+ pretty ORG_CAP +:+ " assignments.")
      else None
  end.

(** The buttons of a row: apply and its state, withdraw and its state. *)
Definition apply_button (canApply busy : bool) (i : Issue) : option bool :=
  if bool_decide (status i = open) then Some (negb canApply || busy) else None.
Definition withdraw_button (busy : bool) (i : Issue) : option bool :=
  if bool_decide (status i = applied) then Some busy else None.

Definition set_status (id : string) (st : IssueStatus) (l : list Issue) : list Issue :=
  (λ i, if String.eqb (issue_id i) id
        then mkIssue (issue_id i) (title i) st (created_at i) (labels i) (difficulty i)
               (applicant_count i)
        else i) <$> l.

Record page := mkPage {
  rows : list Issue; busyIssue : option string; txHash : option string;
  toasts : list (string * string);
}.

Inductive job := Apply (id : string) | Withdraw (id : string).
Definition job_id (j : job) : string := match j with Apply id | Withdraw id => id end.

(** The route a handler posts to, and its body. *)
Definition job_url (apiBase org : string) (j : job) : string :=
  match j with
  | Apply id => apiBase +:+ "/orgs/" +:+ encodeURIComponent org +:+ "/issues/" +:+
                encodeURIComponent id +:+ "/apply"
  | Withdraw _ => apiBase +:+ "/transactions/withdraw"
  end.

Definition job_body (wallet org : string) (j : job) : json :=
  match j with
  | Apply _ => obj [("contributor", Some (JStr wallet))]
  | Withdraw id => obj [("contributor", Some (JStr wallet)); ("org_id", Some (JStr org));
                        ("issue_id", Some (number_json (js_Number id)));
                        ("sequence", Some (JStr "0"))]
  end.

(** What a handler does before its request; the withdrawal was confirmed. *)
Definition begin (j : job) (s : page) : page :=
  mkPage (set_status (job_id j) (match j with Apply _ => applied | Withdraw _ => open end) (rows s))
    (Some (job_id j)) None (toasts s).

Definition title_of (id : string) (l : list Issue) : option string :=
  title <$> head (filter (λ i, issue_id i = id) l).

(** The transaction hash of a successful application, or what is thrown. *)
Definition job_result (j : job) (r : reply) : outcome (option string) :=
  let what := match j with Apply _ => "Apply" | Withdraw _ => "Withdraw" end in
  match r with
  | Rejected e => Throw e
  | Answered code body =>
      if negb (ok code) then Throw (Error (what +:+ " failed: " +:+ pretty code))
      else match j with
           | Withdraw _ => Ret None
           | Apply _ =>
               match body with
               | None => Throw bad_json
               | Some JNull => Throw (null_property "tx_hash")
               | Some d => Ret (filled (prop "tx_hash" d ≫= as_string))
               end
           end
  end.

(** The rest of the handler; [seen] are the rows of the render it was made in. *)
Definition settle (seen : list Issue) (j : job) (r : reply) (s : page) : page :=
  match job_result j r with
  | Ret hash =>
      let msg := match j, title_of (job_id j) seen with
                 | Apply _, Some t => "Applied for " +:+ quoted t
                 | Apply _, None => "Applied for issue"
                 | Withdraw _, Some t => "Withdrawn from " +:+ quoted t
                 | Withdraw _, None => "Withdrawn from issue"
                 end in
      mkPage (rows s) None (match hash with Some h => Some h | None => txHash s end)
        (toasts s ++ [(msg, match j with Apply _ => "success" | Withdraw _ => "info" end)])
  | Throw e =>
      let '(undo, what) := match j with
                           | Apply _ => (open, "Apply failed")
                           | Withdraw _ => (applied, "Withdraw failed")
                           end in
      mkPage (set_status (job_id j) undo (rows s)) None (txHash s)
        (toasts s ++ [(error_message what e, "error")])
  end.

End Listing.

(** ** Scrolling to the end *)

Module Scroll.
Import Infinite.

(** A server that pages over [l]. *)
Definition serve (l : list json) (offset : Z) : reply :=
  Answered 200 (Some (JArr (take 20 (drop (Z.to_nat offset) l)))).

(** The page that is waited for arrives; then the end of the list comes into view. *)
Definition answer (l : list json) (s : state) : state :=
  match fetchingRef s with
  | Some f => step s (PageArrived (serve l (f_offset f)))
  | None => s
  end.
Definition scroll (l : list json) (s : state) : state := step (answer l s) LoadMore.

(** [j] pages are there and the next one was asked for. *)
Definition loaded (l : list json) (p : params) (app asg : list (option json)) (j : nat) (s : state)
    : Prop :=
  fetchingRef s = Some (mkFetching p (20 * Z.of_nat j) AwaitPage) ∧
  issues s = issue_row app asg <$> take (20 * j) l ∧ (20 * j <= length l)%nat ∧
  appliedRef s = app ∧ assignedRef s = asg ∧ error s = None.

Definition complete (l : list json) (app asg : list (option json)) (s : state) : Prop :=
  issues s = issue_row app asg <$> l ∧ hasMore s = false ∧ loading s = false ∧ error s = None ∧
  fetchingRef s = None.

Section scroll.
Context (l : list json) (p : params) (app asg : list (option json)).
Hypothesis Hl : JNull ∉ l.

Lemma page_rows off :
  map_array (merge_issue app asg) (JArr (take 20 (drop off l))) =
    Ret (issue_row app asg <$> take 20 (drop off l)).
Proof.
  cbn [map_array]. apply map_outcome_all. intros x Hx.
  assert (x ∈ l) as Hin by (by eapply elem_of_sublist; [|etrans; [apply sublist_take|apply sublist_drop]]).
  by destruct x.
Qed.

Lemma answer_loaded j s : loaded l p app asg j s →
  let s' := answer l s in
  issues s' = issue_row app asg <$> take (20 * S j) l ∧ loading s' = false ∧
  hasMore s' = bool_decide (20 * S j <= length l)%nat ∧ fetchingRef s' = None ∧
  offsetRef s' = 20 * Z.of_nat j + zlen (take 20 (drop (20 * j) l)) ∧
  appliedRef s' = app ∧ assignedRef s' = asg ∧ error s' = None.
Proof.
  intros (Hf & Hi & Hj & Ha & Hg & He). cbn zeta. unfold answer. rewrite Hf. cbn [step f_offset].
  rewrite Hf. unfold page_arrived, serve. change (raw_issues _) with (Ret (JArr (take 20 (drop
    (Z.to_nat (20 * Z.of_nat j)) l)))). cbv iota.
  replace (Z.to_nat (20 * Z.of_nat j)) with (20 * j)%nat by lia. rewrite Ha, Hg, page_rows.
  cbn [issues loading hasMore fetchingRef offsetRef appliedRef assignedRef error f_offset f_params].
  rewrite zlen_fmap. split_and!; try done.
  - destruct (Z.eqb_spec (20 * Z.of_nat j) 0) as [Hz|Hz].
    + by replace j with 0%nat by lia.
    + rewrite Hi, <- fmap_app, take_drop_more. do 2 f_equal. lia.
  - unfold zlen. rewrite length_take, length_drop. unfold PAGE_SIZE.
    case_bool_decide; [apply Z.eqb_eq; lia|apply Z.eqb_neq; lia].
Qed.

Lemma scroll_loaded j s : loaded l p app asg j s → current s = p →
  if decide (20 * S j <= length l)%nat then loaded l p app asg (S j) (scroll l s) ∧ current (scroll l s) = p
  else complete l app asg (scroll l s).
Proof.
  intros Hs Hc. destruct (answer_loaded j s Hs) as (Hi & Hlo & Hm & Hf & Ho & Ha & Hg & He).
  assert (current (answer l s) = p) as Hc'.
  { unfold answer. destruct Hs as (Hf0 & _). rewrite Hf0. cbn [step]. rewrite Hf0. unfold page_arrived.
    destruct (raw_issues _) as [raw|]; [|done]. destruct (map_array _ _); done. }
  unfold scroll. set (s1 := answer l s) in *. cbn [step]. rewrite Hlo, Hm. case_decide as Hd.
  - rewrite bool_decide_eq_true_2 by done. cbn [negb orb]. unfold fetchPage. rewrite Hf, Hc'.
    assert (offsetRef s1 = 20 * Z.of_nat (S j)) as ->.
    { rewrite Ho. unfold zlen. rewrite length_take, length_drop. lia. }
    assert ((20 * Z.of_nat (S j) =? 0) = false) as -> by (apply Z.eqb_neq; lia).
    split; [|done]. by split_and!.
  - rewrite bool_decide_eq_false_2 by done. cbn [negb orb]. split_and!; try done.
    by rewrite Hi, take_ge by lia.
Qed.

Lemma complete_stays s : complete l app asg s → scroll l s = s.
Proof.
  intros (Hi & Hm & Hlo & He & Hf). unfold scroll, answer. rewrite Hf. cbn [step].
  by rewrite Hlo, Hm.
Qed.

Lemma scroll_complete n : ∀ j s, loaded l p app asg j s → current s = p →
  (length l < 20 * (j + n))%nat → complete l app asg (Nat.iter n (scroll l) s).
Proof.
  induction n as [|n IH]; intros j s Hs Hc Hn.
  - destruct Hs as (_ & _ & Hj & _). lia.
  - rewrite Nat.iter_succ_r. pose proof (scroll_loaded j s Hs Hc) as H. case_decide.
    + destruct H as [H1 H2]. apply (IH (S j)); [done|done|lia].
    + clear IH Hn. induction n as [|n IHn]; [done|]. rewrite Nat.iter_succ_r, complete_stays; [exact IHn|done].
Qed.

End scroll.

(** The route is such a server. *)
Lemma route_serves o off : isKnownOrg o = true → 0 ≤ off →
  reply_of (get_org_issues (Request [] (page_query off) [("orgId", JStr o)] None None)) =
    serve (org_issues o) off.
Proof.
  intros Ho Hoff. unfold get_org_issues, for_known_org.
  set (r := Request _ _ _ _ _). assert (Orgs.orgId r = o) as -> by done. rewrite Ho.
  assert (query_int "limit" "20" r = Fin 20) as -> by done.
  assert (query_int "offset" "0" r = Fin off) as -> by (by apply query_int_pretty).
  unfold reply_of, serve. cbn [js_min lift2 js_add]. rewrite js_slice_fin by lia.
  unfold send_json. cbn. do 4 f_equal. f_equal; lia.
Qed.

End Scroll.

(** ** The statuses over the routes *)

Definition numeric (a : json) : Prop := ∃ z, prop "issue_id" a = Some (jint z).

(** The answer of a route whose rows have numbers for ids. *)
Definition numeric_rows (res : response) : Prop :=
  ok (Http.status res) = true → ∃ l, rbody res = Some (JArr l) ∧ Forall numeric l.

Section numeric.
Context {S : Type} `{HasDb S}.
Variables (sc : schema) (date_string : Z → string).

Lemma enriched_numeric c o i t :
  yields (S := S) numeric (enriched sc date_string c o i t).
Proof.
  unfold enriched. apply yields_bind. intros m. apply yields_ret. by exists i.
Qed.

Lemma enrich_all_numeric {A} (f : A → M S json) rows :
  (∀ a, yields numeric (f a)) → yields (Forall numeric) (enrich_all f rows).
Proof.
  intros Hf. unfold enrich_all. set (body := λ (acc : list json) (r : A), _).
  enough (∀ acc, Forall numeric acc → yields (Forall numeric) (for_fold body acc rows)) as H'
    by (apply H'; constructor).
  induction rows as [|r rows IH]; intros acc Hacc; cbn [for_fold].
  - by apply yields_ret.
  - eapply (yields_bind_post (Forall numeric)); [|intros acc'; apply IH].
    eapply (yields_bind_post numeric); [by apply Hf|]. intros j Hj. apply yields_ret.
    apply Forall_app. by split; [|apply Forall_singleton].
Qed.

Lemma guarded_numeric address (m : M S response) :
  yields numeric_rows m → yields numeric_rows (guarded address m).
Proof.
  intros Hm. unfold guarded. destruct (isValidStellarAddress address).
  - apply yields_try; [exact Hm|]. intros e. by apply yields_ret.
  - by apply yields_ret.
Qed.

Lemma get_applications_numeric address : yields numeric_rows (get_applications (S := S) sc date_string address).
Proof.
  apply guarded_numeric. apply yields_bind. intros apps.
  eapply yields_bind_post; [apply enrich_all_numeric; intros a; apply enriched_numeric|].
  intros rows Hrows. apply yields_ret. intros _. by exists rows.
Qed.

Lemma get_assignments_numeric address : yields numeric_rows (get_assignments (S := S) sc date_string address).
Proof.
  apply guarded_numeric. apply yields_bind. intros apps.
  eapply yields_bind_post; [apply enrich_all_numeric; intros a; apply enriched_numeric|].
  intros rows Hrows. apply yields_ret. intros _. by exists rows.
Qed.

End numeric.

Lemma ids_numeric res : numeric_rows res →
  ∃ ids, ids_of (reply_of res) = Ret ids ∧ Forall (λ x, ∃ z, x = Some (jint z)) (default [] ids).
Proof.
  intros Hn. unfold ids_of, reply_of. cbn [ok_body]. destruct (ok (Http.status res)) eqn:E.
  - destruct (Hn E) as (l & -> & Hl). cbn [map_array].
    rewrite (map_outcome_all _ (prop "issue_id")).
    + eexists. split; [done|]. cbn. apply Forall_fmap. eapply Forall_impl; [exact Hl|]. done.
    + intros x Hx. rewrite Forall_forall in Hl. destruct (Hl x Hx) as [z Hz]. by destruct x.
  - by exists None.
Qed.

Lemma text_id_not_among s ids : Forall (λ x, ∃ z, x = Some (jint z)) ids → has (Some (JStr s)) ids = false.
Proof. induction 1 as [|x ids [z ->] _ IH]; [done|]. exact IH. Qed.

Lemma org_issue_ids o raw : raw ∈ org_issues o → ∃ s, prop "issue_id" raw = Some (JStr s) ∧
  number_json (js_Number s) = JNull.
Proof.
  unfold org_issues. rewrite !elem_of_cons, elem_of_nil. intros [-> | [-> | []]];
    eexists; (split; [reflexivity|]); vm_compute; reflexivity.
Qed.

(** ** Theorems *)


(** the issue list over the routes it reads: the contributor routes name an issue by its
    number and the organisation route by a text, so whatever the contributor applied for or
    was assigned, and whatever fails, every issue the organisation route serves is shown as
    open, with an apply button and no way to withdraw. *)
Theorem applied_never_shown {S} `{HasDb S} sc date_string address o off s st apps asgns w1 w2 w3 w4 :
  get_applications (S := S) sc date_string address w1 = (Ret apps, w2) →
  get_assignments (S := S) sc date_string address w3 = (Ret asgns, w4) →
  appsRes st = reply_of apps → asgnRes st = reply_of asgns →
  isKnownOrg o = true → 0 ≤ off → Infinite.fetchingRef s = None →
  let p := Infinite.mkParams o (Some address) in
  let r := Request [] (Infinite.page_query off) [("orgId", JStr o)] None None in
  let s' := Infinite.run s [Infinite.Render p; Infinite.StateArrived st;
                            Infinite.PageArrived (reply_of (get_org_issues r))] in
  Forall (λ i, oi_status i = open) (Infinite.issues s').
Proof.
  intros Ha Hs Eapps Easg Ho Hoff Hf p r s'.
  destruct (ids_numeric apps (get_applications_numeric _ _ _ _ _ _ Ha)) as (ids1 & E1 & F1).
  destruct (ids_numeric asgns (get_assignments_numeric _ _ _ _ _ _ Hs)) as (ids2 & E2 & F2).
  unfold s', Infinite.run. cbn [fold_left]. set (s1 := Infinite.step s (Infinite.Render p)).
  assert (Infinite.issues s1 = [] ∧ Infinite.appliedRef s1 = [] ∧ Infinite.assignedRef s1 = [] ∧
    (Infinite.fetchingRef s1 = Some (Infinite.mkFetching p 0 Infinite.AwaitState) ∨
     Infinite.fetchingRef s1 = Some (Infinite.mkFetching p 0 Infinite.AwaitPage)))
    as (I1 & A1 & G1 & W1).
  { unfold s1. cbn [Infinite.step]. unfold Infinite.fetchPage. cbn [Infinite.clear Infinite.set_current
      Infinite.fetchingRef]. rewrite Hf. destruct (filled _); cbn; auto 10. }
  set (s2 := Infinite.step s1 (Infinite.StateArrived st)).
  assert (Infinite.issues s2 = [] ∧ Forall (λ x, ∃ z, x = Some (jint z)) (Infinite.appliedRef s2) ∧
    Forall (λ x, ∃ z, x = Some (jint z)) (Infinite.assignedRef s2) ∧
    (Infinite.fetchingRef s2 = Some (Infinite.mkFetching p 0 Infinite.AwaitPage) ∨
     Infinite.fetchingRef s2 = None)) as (I2 & A2 & G2 & W2).
  { destruct W1 as [W1 | W1].
    - unfold s2. cbn [Infinite.step]. rewrite W1. cbn [Infinite.f_waits]. unfold Infinite.contributor_state. rewrite Eapps, Easg, E1, E2, A1, G1.
      destruct (counts_of _ _) as [[[g c]|]|]; cbn; auto.
    - assert (s2 = s1) as -> by (unfold s2; cbn [Infinite.step]; by rewrite W1).
      rewrite I1, A1, G1. auto. }
  cbn [Infinite.step]. destruct W2 as [-> | ->]; [|by rewrite I2].
  cbn [Infinite.f_waits]. unfold Infinite.page_arrived.
  unfold r. rewrite Scroll.route_serves by done. unfold Scroll.serve.
  change (raw_issues _) with (Ret (JArr (take 20 (drop (Z.to_nat off) (org_issues o))))). cbv iota.
  rewrite Scroll.page_rows.
  - cbn. apply Forall_fmap, Forall_forall. intros raw Hraw. unfold issue_row. cbn.
    assert (raw ∈ org_issues o) as Hin
      by (by eapply elem_of_sublist; [|etrans; [apply sublist_take|apply sublist_drop]]).
    destruct (org_issue_ids o raw Hin) as (t & -> & _). by rewrite !text_id_not_among.
  - unfold org_issues. by repeat (apply not_elem_of_cons; split; [done|]); apply not_elem_of_nil.
Qed.

(** A change of organisation while a page is on its way starts no request of its own: the
    list of the new one is what the request of the old one answers. *)
Lemma org_switch_lost s a b r :
  filled (Infinite.contributor a) = None → Infinite.fetchingRef s = None →
  let s1 := Infinite.run s [Infinite.Render a; Infinite.Render b] in
  let s2 := Infinite.run s1 [Infinite.PageArrived r] in
  Infinite.current s1 = b ∧
  Infinite.fetchingRef s1 = Some (Infinite.mkFetching a 0 Infinite.AwaitPage) ∧
  (∀ l, raw_issues r = Ret (JArr l) → JNull ∉ l → Infinite.issues s2 = issue_row [] [] <$> l) ∧
  Infinite.fetchingRef s2 = None.
Proof.
  intros Ha Hf. unfold Infinite.run. cbn [fold_left Infinite.step]. unfold Infinite.fetchPage.
  cbn [Infinite.clear Infinite.set_current Infinite.fetchingRef]. rewrite Hf, Ha. cbn -[raw_issues map_array].
  split; [done|]. split; [done|]. unfold Infinite.page_arrived. split.
  - intros l -> Hl. cbn [Infinite.appliedRef Infinite.assignedRef map_array].
    rewrite (map_outcome_all _ (issue_row [] [])); [done|]. intros x Hx. by destruct x.
  - destruct (raw_issues r) as [v|e]; [|done]. by destruct (map_array _ v).
Qed.

Lemma mem_spec x l : Listing.mem x l = true ↔ x ∈ l.
Proof.
  unfold Listing.mem. rewrite existsb_exists. split.
  - intros (y & Hy & Heq). apply String.eqb_eq in Heq as ->. by apply list_elem_of_In.
  - intros H. exists x. split; [by apply list_elem_of_In|apply String.eqb_refl].
Qed.

Lemma matches_spec f i :
  Listing.matches f i = true ↔
  includes (toLowerCase (Listing.searchText f)) (toLowerCase (Listing.title i)) = true ∧
  (Listing.selectedLabels f = [] ∨
   ∃ x, x ∈ default [] (Listing.labels i) ∧ x ∈ Listing.selectedLabels f) ∧
  (Listing.selectedDifficulties f = [] ∨
   ∃ d, filled (Listing.difficulty i) = Some d ∧ d ∈ Listing.selectedDifficulties f).
Proof.
  unfold Listing.matches. rewrite !andb_true_iff. split.
  - intros [[H0 H1] H2]. split; [done|]. split.
    + destruct (Listing.selectedLabels f) as [|y ls]; [by left|right].
      apply existsb_exists in H1 as (x & Hx & Hm). exists x. split; [by apply list_elem_of_In|].
      by apply mem_spec.
    + destruct (Listing.selectedDifficulties f) as [|y ds]; [by left|right].
      destruct (filled (Listing.difficulty i)) as [d|]; [|done]. exists d. by rewrite <- mem_spec.
  - intros (H0 & H1 & H2). split; [split; [done|]|].
    + destruct (Listing.selectedLabels f) as [|y ls]; [done|].
      destruct H1 as [?|(x & Hx & Hm)]; [done|]. apply existsb_exists. exists x.
      split; [by apply list_elem_of_In|by apply mem_spec].
    + destruct (Listing.selectedDifficulties f) as [|y ds]; [done|].
      destruct H2 as [?|(d & -> & Hd)]; [done|by apply mem_spec].
Qed.

(** The number an order sorts by, ascending. *)
Definition time_value (i : Listing.Issue) : Z :=
  match getTime (Listing.created_at i) with Fin t => t | NaN => 0 end.
Definition sort_key (o : Listing.SortOption) (i : Listing.Issue) : Z :=
  match o with
  | Listing.oldest => time_value i
  | Listing.newest => - time_value i
  | Listing.most_applicants => - default 0 (Listing.applicant_count i)
  | Listing.fewest_applicants => default 0 (Listing.applicant_count i)
  end.

(** the list on screen: exactly the loaded issues whose title contains the search text
    (whatever the case), that have one of the selected labels and one of the selected
    difficulties if any are selected, each as often as it was loaded, in the order asked for:
    by creation date or by the number of applicants. *)
Theorem filtered_issues_correct f l :
  Forall (λ i, ∃ t, getTime (Listing.created_at i) = Fin t) l →
  let shown := Listing.filteredIssues f l in
  shown ≡ₚ filter (λ i, Listing.matches f i = true) l ∧
  (∀ i, i ∈ shown ↔ i ∈ l ∧
    includes (toLowerCase (Listing.searchText f)) (toLowerCase (Listing.title i)) = true ∧
    (Listing.selectedLabels f = [] ∨
     ∃ x, x ∈ default [] (Listing.labels i) ∧ x ∈ Listing.selectedLabels f) ∧
    (Listing.selectedDifficulties f = [] ∨
     ∃ d, filled (Listing.difficulty i) = Some d ∧ d ∈ Listing.selectedDifficulties f)) ∧
  StronglySorted (λ a b, sort_key (Listing.sort f) a ≤ sort_key (Listing.sort f) b) shown.
Proof.
  intros Hl shown. assert (shown ≡ₚ filter (λ i, Listing.matches f i = true) l) as Hp
    by apply sort_by_perm.
  split; [exact Hp|]. split.
  - intros i. rewrite Hp, list_elem_of_filter, matches_spec. tauto.
  - apply sort_by_sorted. intros a b [_ Ha]%list_elem_of_filter [_ Hb]%list_elem_of_filter.
    rewrite Forall_forall in Hl. destruct (Hl a Ha) as [ta Ea], (Hl b Hb) as [tb Eb].
    unfold Listing.compare, sort_key, time_value, Listing.applicants. rewrite Ea, Eb.
    destruct (Listing.sort f); cbn; f_equal; lia.
Qed.

Lemma set_status_back id st st' l :
  Forall (λ i, Listing.issue_id i = id → Listing.status i = st) l →
  Listing.set_status id st (Listing.set_status id st' l) = l.
Proof.
  induction 1 as [|i l Hi _ IH]; [done|]. unfold Listing.set_status in *. rewrite !fmap_cons, IH.
  f_equal. destruct (String.eqb_spec (Listing.issue_id i) id) as [He|He]; cbn.
  - rewrite (proj2 (String.eqb_eq _ _) He). destruct i; cbn in *. by rewrite Hi.
  - by rewrite (proj2 (String.eqb_neq _ _) He).
Qed.

(** an apply or withdraw button whose request fails, whatever the failure: the row is as
    it was, no row is busy, and the message is on screen. *)
Theorem failed_job_restores seen j r e s :
  Listing.job_result j r = Throw e →
  Forall (λ i, Listing.issue_id i = Listing.job_id j →
    Listing.status i = match j with Listing.Apply _ => open | Listing.Withdraw _ => applied end)
    (Listing.rows s) →
  let s' := Listing.settle seen j r (Listing.begin j s) in
  Listing.rows s' = Listing.rows s ∧ Listing.busyIssue s' = None ∧
  ∃ msg, Listing.toasts s' = Listing.toasts s ++ [(msg, "error")].
Proof.
  intros Hr Hst. unfold Listing.settle. rewrite Hr.
  destruct j as [id|id]; cbn in *; (split; [by apply set_status_back|]); by eauto.
Qed.

(** withdrawing over the routes: the page sends [Number] of the issue's id, and the ids
    the organisation route serves are not numbers, so the withdrawal of any of them is
    refused by the validation and the row goes back to [applied]. *)
Theorem withdrawal_always_refused {N} `{Soroban.Rpc N} `{Zod} o raw id wallet seen s r w :
  raw ∈ org_issues o → prop "issue_id" raw = Some (JStr id) →
  req_body r = Some (Listing.job_body wallet o (Listing.Withdraw id)) →
  Forall (λ i, Listing.issue_id i = id → Listing.status i = applied) (Listing.rows s) →
  ∃ res, post_withdraw (N := N) r w = (Ret (Respond res), w) ∧ Http.status res = 400 ∧
    let s' := Listing.settle seen (Listing.Withdraw id) (reply_of res)
                (Listing.begin (Listing.Withdraw id) s) in
    Listing.rows s' = Listing.rows s ∧ Listing.busyIssue s' = None ∧
    Listing.toasts s' = Listing.toasts s ++ [("Withdraw failed: 400", "error")].
Proof.
  intros Hin Hid Hr Hst. destruct (org_issue_ids o raw Hin) as (t & Ht & Hn).
  rewrite Hid in Ht. simplify_eq.
  assert (∃ errs, validateBody withdrawSchema r = Respond (validation_failed errs)) as [errs Herr].
  { unfold validateBody. rewrite Hr.
    destruct (safeParse_failure withdrawSchema (Some (Listing.job_body wallet o (Listing.Withdraw t))))
      as [iss ->]; [|by eexists].
    apply (parse_bad_field _ "issue_id" Validation.issueId); [set_solver|]. cbn. by rewrite Hn. }
  exists (validation_failed errs).
  split; [apply dispatch_shadow; exact (f_equal (λ v, (Ret v, w)) Herr)|]. split; [done|].
  cbn. split; [by apply set_status_back|]. done.
Qed.

(** ** Concrete runs *)

Definition two_pages : list json := (λ i, obj [("issue_id", Some (jint (Z.of_nat i)))]) <$> seq 0 21.


Definition answer_of (m : M db response) : response :=
  match (m (World sample_db [])).1 with Ret r => r | Throw _ => invalid_address end.
Definition demo_apps : response := answer_of (get_applications migrate_schema (λ _, "") alice).
Definition demo_asgns : response := answer_of (get_assignments migrate_schema (λ _, "") alice).

Lemma applied_never_shown_witness :
  let p := Infinite.mkParams "stellar-oss" (Some alice) in
  let r := Request [] (Infinite.page_query 0) [("orgId", JStr "stellar-oss")] None None in
  let st := mkSettled (reply_of demo_apps) (reply_of demo_asgns) (Rejected (Error "")) in
  let s' := Infinite.run (Infinite.initial p)
    [Infinite.Render p; Infinite.StateArrived st; Infinite.PageArrived (reply_of (get_org_issues r))] in
  Http.status demo_apps = 200 ∧ Http.status demo_asgns = 200 ∧
  length (Infinite.issues s') = 2%nat ∧ Forall (λ i, oi_status i = open) (Infinite.issues s').
Proof.
  split; [vm_compute; reflexivity|]. split; [vm_compute; reflexivity|].
  split; [vm_compute; reflexivity|].
  assert (0 ≤ 0) as H0 by reflexivity.
  assert (get_applications migrate_schema (λ _, "") alice (World sample_db []) =
    (Ret demo_apps, World sample_db [])) as Ha by (vm_compute; reflexivity).
  assert (get_assignments migrate_schema (λ _, "") alice (World sample_db []) =
    (Ret demo_asgns, World sample_db [])) as Hs by (vm_compute; reflexivity).
  exact (applied_never_shown (S := db) migrate_schema (λ _, "") alice "stellar-oss" 0
    (Infinite.initial (Infinite.mkParams "stellar-oss" (Some alice)))
    (mkSettled (reply_of demo_apps) (reply_of demo_asgns) (Rejected (Error "")))
    demo_apps demo_asgns (World sample_db []) (World sample_db []) (World sample_db [])
    (World sample_db []) Ha Hs eq_refl eq_refl eq_refl H0 eq_refl).
Defined.

Definition demo_issue (id title date : string) (n : Z) : Listing.Issue :=
  Listing.mkIssue id title open date (Some ["bug"]) None (Some n).
Definition demo_filters : Listing.filters := Listing.mkFilters "FIX" ["bug"] [] Listing.newest.

Lemma filtered_issues_correct_witness :
  let l := [demo_issue "1" "Fix a" "2026-07-01" 3; demo_issue "2" "Other" "2026-07-02" 1;
            demo_issue "3" "fix b" "2026-07-03" 2] in
  Listing.issue_id <$> Listing.filteredIssues demo_filters l = ["3"; "1"] ∧
  Listing.filteredIssues demo_filters l ≡ₚ filter (λ i, Listing.matches demo_filters i = true) l.
Proof.
  split; [vm_compute; reflexivity|].
  assert (Forall (λ i, ∃ t, getTime (Listing.created_at i) = Fin t)
    [demo_issue "1" "Fix a" "2026-07-01" 3; demo_issue "2" "Other" "2026-07-02" 1;
     demo_issue "3" "fix b" "2026-07-03" 2]) as Hl
    by (repeat constructor; eexists; reflexivity).
  destruct (filtered_issues_correct demo_filters _ Hl) as [H _]. exact H.
Defined.

Definition demo_page (st : IssueStatus) : Listing.page :=
  Listing.mkPage [Listing.mkIssue "issue_42" "Fix" st "2026-07-01" None None None] None None [].

Lemma failed_job_restores_witness :
  let s' := Listing.settle [] (Listing.Apply "issue_42") (Answered 429 None)
              (Listing.begin (Listing.Apply "issue_42") (demo_page open)) in
  Listing.rows s' = Listing.rows (demo_page open).
Proof.
  assert (Forall (λ i, Listing.issue_id i = Listing.job_id (Listing.Apply "issue_42") →
    Listing.status i = open) (Listing.rows (demo_page open))) as Hf by (repeat constructor).
  destruct (failed_job_restores [] (Listing.Apply "issue_42") (Answered 429 None)
    (Error "Apply failed: 429") (demo_page open) eq_refl Hf) as [H _]. exact H.
Defined.

Lemma withdrawal_always_refused_witness :
  ∃ res, post_withdraw (N := unit) (H := open_rpc)
    (Request [] [] [] (Some (Listing.job_body alice "stellar-oss" (Listing.Withdraw "issue_42"))) None)
    (World demo_tx_state []) = (Ret (Respond res), World demo_tx_state []) ∧ Http.status res = 400.
Proof.
  assert (Forall (λ i, Listing.issue_id i = "issue_42" → Listing.status i = applied)
    (Listing.rows (demo_page applied))) as Hf by (repeat constructor).
  assert (nth 0 (org_issues "stellar-oss") JNull ∈ org_issues "stellar-oss") as Hin by (left).
  destruct (withdrawal_always_refused (H := open_rpc) "stellar-oss"
    (nth 0 (org_issues "stellar-oss") JNull) "issue_42" alice [] (demo_page applied)
    (Request [] [] [] (Some (Listing.job_body alice "stellar-oss" (Listing.Withdraw "issue_42"))) None)
    (World demo_tx_state []) Hin eq_refl eq_refl Hf) as (res & H1 & H2 & _).
  exact (ex_intro _ res (conj H1 H2)).
Defined.
