(* ===== verification/Wiring.v ===== *)
(** * How the application is put together ([src/app.ts])

    The layers [createApp] installs, in order, and the routes of the routers it mounts: what
    answers a request, and through what it went before.  The URLs the frontend asks for are
    looked up in it. *)

From Stdlib Require Import String Ascii.
From S2P Require Import Prelude Js Decimal Url Http Db Contributors Client IssueLists.

#[local] Open Scope string_scope.
#[local] Open Scope list_scope.
#[local] Open Scope Z_scope.

(** ** Paths *)

Inductive method := GET | POST | DELETE.

#[export] Instance method_eq_dec : EqDecision method.
Proof. solve_decision. Defined.

(** A segment of a route: a word, whatever its case, or a parameter. *)
Inductive pat := Lit (s : string) | Param (name : string).

#[export] Instance pat_eq_dec : EqDecision pat.
Proof. solve_decision. Defined.

(** The segments of the path of a URL, after the first slash. *)
Definition segments (url : string) : list string :=
  drop 1 (split "/" (default "" (head (split "?" url)))).

Definition same_word (a b : string) : bool := String.eqb (toLowerCase a) (toLowerCase b).

(** A route and the values of its parameters, decoded; a slash at the end does not matter. *)
Fixpoint match_route (ps : list pat) (segs : list string) : option (list (string * string)) :=
  match ps, segs with
  | [], [] | [], [""] => Some []
  | Lit w :: ps', s :: segs' => if same_word w s then match_route ps' segs' else None
  | Param n :: ps', s :: segs' =>
      if String.eqb s "" then None else
      v ← decodeURIComponent s; rest ← match_route ps' segs'; Some ((n, v) :: rest)
  | _, _ => None
  end.

(** [app.use(path, router)]: what is left of the path. *)
Fixpoint strip_mount (mount segs : list string) : option (list string) :=
  match mount, segs with
  | [], _ => Some segs
  | w :: mount', s :: segs' => if same_word w s then strip_mount mount' segs' else None
  | _, [] => None
  end.

(** ** The routers *)

Inductive endpoint :=
  | Health
  | ListIssues | IssueDetail
  | ContributorProfile | ContributorStats | ContributorApplications | ContributorAssignments
  | ContributorCounts | ContributorActivity
  | RegisterMaintainer | DeregisterMaintainer | RegisterOrg
  | CreateKey | RevokeKey
  | Apply | Withdraw | Assign | Complete | Revoke | Submit
  | EventStream | EventList
  | ListOrgs | OrgIssues | OrgAssignments | OrgApplications | ApplyToIssue | WithdrawFromIssue | OrgEvents
  | GithubHook | RegisterHook | DeleteHook.

#[export] Instance endpoint_eq_dec : EqDecision endpoint.
Proof. solve_decision. Defined.

Record route := mkRoute { verb : method; path : list pat; target : endpoint }.
Definition router := list route.

#[export] Instance route_eq_dec : EqDecision route.
Proof. solve_decision. Defined.

Definition issuesRouter : router :=
  [mkRoute GET [] ListIssues; mkRoute GET [Param "org_id"; Param "issue_id"] IssueDetail].

Definition contributorsRouter : router :=
  let at_address p e := mkRoute GET (Param "address" :: p) e in
  [at_address [] ContributorProfile; at_address [Lit "stats"] ContributorStats;
   at_address [Lit "applications"] ContributorApplications;
   at_address [Lit "assignments"] ContributorAssignments;
   at_address [Lit "counts"] ContributorCounts; at_address [Lit "activity"] ContributorActivity].

Definition adminRouter : router :=
  [mkRoute POST [Lit "maintainers"] RegisterMaintainer;
   mkRoute DELETE [Lit "maintainers"] DeregisterMaintainer; mkRoute POST [Lit "orgs"] RegisterOrg].

Definition apiKeysRouter : router := [mkRoute POST [] CreateKey; mkRoute DELETE [Param "id"] RevokeKey].

Definition transactionsRouter : router :=
  [mkRoute POST [Lit "apply"] Apply; mkRoute POST [Lit "withdraw"] Withdraw;
   mkRoute POST [Lit "assign"] Assign; mkRoute POST [Lit "complete"] Complete;
   mkRoute POST [Lit "revoke"] Revoke; mkRoute POST [Lit "submit"] Submit].

Definition eventsRouter : router := [mkRoute GET [Lit "stream"] EventStream; mkRoute GET [] EventList].

Definition orgsRouter : router :=
  let of_org p := Lit "orgs" :: Param "orgId" :: p in
  [mkRoute GET [Lit "orgs"] ListOrgs; mkRoute GET (of_org [Lit "issues"]) OrgIssues;
   mkRoute GET (of_org [Lit "assignments"]) OrgAssignments;
   mkRoute GET (of_org [Lit "applications"]) OrgApplications;
   mkRoute POST (of_org [Lit "issues"; Param "issueId"; Lit "apply"]) ApplyToIssue;
   mkRoute DELETE (of_org [Lit "issues"; Param "issueId"; Lit "apply"]) WithdrawFromIssue;
   mkRoute GET (of_org [Lit "events"]) OrgEvents].

(** Both generations of the organisation hooks are registered; the second never runs. *)
Definition webhooksRouter : router :=
  [mkRoute POST [Lit "github"] GithubHook; mkRoute POST [Lit "org"] RegisterHook;
   mkRoute DELETE [Lit "org"; Param "id"] DeleteHook; mkRoute POST [Lit "org"] RegisterHook;
   mkRoute DELETE [Lit "org"; Param "id"] DeleteHook].

(** ** The application *)

Inductive middleware := helmet | cors | morgan | json_parser | static | correlationId
  | globalLimiter | apiKeyAuth | swagger | walletLimiter | malformedJson | errorHandler.

#[export] Instance middleware_eq_dec : EqDecision middleware.
Proof. solve_decision. Defined.

(** A layer: a middleware, a router under a path, behind middlewares of its own, or a
    middleware with four arguments, that only errors reach. *)
Inductive layer :=
  | Use (m : middleware)
  | Rescue (m : middleware)
  | Mount (at_path : list string) (before : list middleware) (r : router).

Definition createApp : list layer :=
  (Use <$> [helmet; cors; morgan; json_parser; static; correlationId; globalLimiter; apiKeyAuth; swagger]) ++
  [Mount [] [] [mkRoute GET [Lit "health"] Health];
   Mount ["api"; "issues"] [] issuesRouter;
   Mount ["api"; "contributors"] [] contributorsRouter;
   Mount ["api"; "admin"] [] adminRouter;
   Mount ["api"; "api-keys"] [] apiKeysRouter;
   Mount ["api"; "transactions"] [walletLimiter] transactionsRouter;
   Mount ["api"; "events"] [] eventsRouter;
   Mount ["api"] [] orgsRouter;
   Mount ["webhooks"] [] webhooksRouter] ++
  (Rescue <$> [malformedJson; errorHandler]).

Fixpoint in_router (r : router) (m : method) (segs : list string) : option (endpoint * list (string * string)) :=
  match r with
  | [] => None
  | t :: r' =>
      if decide (verb t = m) then
        match match_route (path t) segs with
        | Some ps => Some (target t, ps)
        | None => in_router r' m segs
        end
      else in_router r' m segs
  end.

(** A request goes through the layers in order, as long as each passes it on: the middlewares
    it went through and what answers it. *)
Fixpoint walk (ls : list layer) (m : method) (segs : list string) (seen : list middleware) :
    list middleware * option (endpoint * list (string * string)) :=
  match ls with
  | [] => (seen, None)
  | Use w :: ls' => walk ls' m segs (seen ++ [w])
  | Rescue _ :: ls' => walk ls' m segs seen
  | Mount p before r :: ls' =>
      match strip_mount p segs with
      | None => walk ls' m segs seen
      | Some rest =>
          match in_router r m rest with
          | Some e => (seen ++ before, Some e)
          | None => walk ls' m segs (seen ++ before)
          end
      end
  end.

Definition handled_by (m : method) (url : string) : option (endpoint * list (string * string)) :=
  (walk createApp m (segments url) []).2.
Definition gone_through (m : method) (url : string) : list middleware :=
  (walk createApp m (segments url) []).1.

(** ** The application that is started ([src/index.ts])

    [npm start] runs another [createApp], without the prefix of the API. *)
Definition healthRouter : router := [mkRoute GET [Lit "health"] Health].

Definition started : list layer :=
  (Use <$> [helmet; cors; json_parser]) ++
  [Mount [] [] healthRouter; Mount [] [] orgsRouter; Mount [] [] contributorsRouter] ++
  (Rescue <$> [errorHandler]).

Definition started_handles (m : method) (url : string) : option (endpoint * list (string * string)) :=
  (walk started m (segments url) []).2.

(** Its answer to the rest. *)
Definition route_not_found : response :=
  send_json 404 (obj [("error", Some (JStr "not_found")); ("message", Some (JStr "Route not found"))]).

(** What Express answers when nothing else does: a page, not a document. *)
Definition not_found : reply := Answered 404 None.

(** ** What the frontend asks for *)

Definition apiBase : string := "/api".
Definition url_of (segs : list string) : string := join "/" ("" :: segs).

(** The requests of the components that no route answers. *)
Definition transactions_of (org : string) : string := apiBase +:+ "/transactions?org_id=" +:+ encodeURIComponent org.
Definition withdraw_url (address org : string) (issueId : Z) : string :=
  apiBase +:+ "/contributors/" +:+ encodeURIComponent address +:+ "/applications/" +:+
  encodeURIComponent org +:+ "/" +:+ pretty issueId.
Definition errors_url : string := apiBase +:+ "/errors".
Definition network_url : string := apiBase +:+ "/health/network".

(** The requests of the components, for a contributor, an organisation and an issue, and the
    route each is meant for; [None] where there is no such route. *)
Definition requests (address org issue : string) (n : Z) :
    list (method * string * option (endpoint * list (string * string))) :=
  let at_address e := Some (e, [("address", address)]) in
  [(GET, Client.IssueDetail.url (Client.IssueDetail.mkParams apiBase org issue 0),
      Some (IssueDetail, [("org_id", org); ("issue_id", issue)]));
   (GET, Client.ActivityStats.url (Client.ActivityStats.mkParams apiBase address 0),
      at_address ContributorActivity);
   (GET, Client.Profile.url (Client.Profile.mkParams apiBase (Some address)), at_address ContributorProfile);
   (GET, apiBase +:+ "/contributors/" +:+ encodeURIComponent address +:+ "/counts",
      at_address ContributorCounts);
   (GET, apiBase +:+ "/contributors/" +:+ encodeURIComponent address +:+ "/applications",
      at_address ContributorApplications);
   (GET, apiBase +:+ "/contributors/" +:+ encodeURIComponent address +:+ "/assignments",
      at_address ContributorAssignments);
   (GET, apiBase +:+ "/orgs", Some (ListOrgs, []));
   (GET, apiBase +:+ "/orgs/" +:+ encodeURIComponent org +:+ "/issues", Some (OrgIssues, [("orgId", org)]));
   (POST, Listing.job_url apiBase org (Listing.Apply issue),
      Some (ApplyToIssue, [("orgId", org); ("issueId", issue)]));
   (POST, Listing.job_url apiBase org (Listing.Withdraw issue), Some (Withdraw, []));
   (POST, apiBase +:+ "/transactions/submit", Some (Submit, []));
   (POST, apiBase +:+ "/transactions/assign", Some (Assign, []));
   (POST, apiBase +:+ "/admin/orgs", Some (RegisterOrg, []));
   (GET, apiBase +:+ "/events?limit=1000", Some (EventList, []));
   (GET, apiBase +:+ "/events/stream", Some (EventStream, []));
   (GET, transactions_of org, None);
   (DELETE, withdraw_url address org n, None);
   (POST, errors_url, None);
   (GET, network_url, None)].

(** ** Lemmas *)

#[local] Arguments decodeURIComponent : simpl never.
#[local] Arguments encodeURIComponent : simpl never.

Lemma segments_url segs : Forall (λ s, "/"%char ∉ lst s ∧ "?"%char ∉ lst s) segs → segments (url_of segs) = segs.
Proof.
  intros Hf. unfold segments, url_of.
  assert ("?"%char ∉ lst (join "/" ("" :: segs))) as Hq.
  { assert (Forall (λ s, "?"%char ∉ lst s) ("" :: segs)) as H
      by (constructor; [apply not_elem_of_nil|]; eapply Forall_impl; [exact Hf|]; naive_solver).
    clear Hf. induction ("" :: segs) as [|s [|s2 l] IH]; [apply not_elem_of_nil|by inv H|].
    change (join "/" (s :: s2 :: l)) with (s +:+ "/" +:+ join "/" (s2 :: l)).
    inv H. rewrite !lst_app. specialize (IH H3). set_solver. }
  unfold split at 2. rewrite split_list_plain by done. cbn [rev app head default].
  rewrite str_lst. cbn [Datatypes.id].
  rewrite (split_join "/"%char); [done|done|]. constructor; [apply not_elem_of_nil|].
  eapply Forall_impl; [exact Hf|]. naive_solver.
Qed.

(** An encoded component is one segment, and is read back. *)
Lemma encoded_segment s : "/"%char ∉ lst (encodeURIComponent s) ∧ "?"%char ∉ lst (encodeURIComponent s).
Proof. split; intros Hin; by apply encode_chars in Hin. Qed.

Lemma encoded_filled s : s ≠ "" → String.eqb (encodeURIComponent s) "" = false.
Proof. intros Hs. by apply String.eqb_neq, encode_nonempty. Qed.

Lemma plain_segment n : 0 ≤ n → "/"%char ∉ lst (pretty n) ∧ "?"%char ∉ lst (pretty n).
Proof.
  intros Hn. destruct (pretty_digits n Hn) as (Hd & _). unfold digits in Hd. rewrite Forall_forall in Hd.
  split; intros Hin; by apply Hd in Hin.
Qed.

(** Every route with its full path. *)
Definition under (at_path : list string) (t : route) : route :=
  mkRoute (verb t) ((Lit <$> at_path) ++ path t) (target t).
Definition routes (ls : list layer) : list route :=
  l ← ls; match l with Use _ | Rescue _ => [] | Mount p _ r => under p <$> r end.

Lemma match_under p ps segs :
  match_route ((Lit <$> p) ++ ps) segs = (rest ← strip_mount p segs; match_route ps rest).
Proof.
  revert segs. induction p as [|w p IH]; intros segs; [done|]. cbn [fmap list_fmap app].
  destruct segs as [|s segs]; [done|]. cbn [match_route strip_mount].
  by destruct (same_word w s).
Qed.

(** A route that matches a request. *)
Definition fits (m : method) (segs : list string) (e : endpoint) (ps : list (string * string)) (t : route) : Prop :=
  verb t = m ∧ match_route (path t) segs = Some ps ∧ target t = e.

Lemma in_router_some r m segs e ps : in_router r m segs = Some (e, ps) → ∃ t, t ∈ r ∧ fits m segs e ps t.
Proof.
  induction r as [|t r IH]; [done|]. cbn [in_router]. destruct (decide (verb t = m)) as [Hv|].
  - destruct (match_route (path t) segs) as [ps'|] eqn:E.
    + intros [= <- <-]. exists t. split; [left|done].
    + intros H. destruct (IH H) as (t' & ? & ?). exists t'. split; [by right|done].
  - intros H. destruct (IH H) as (t' & ? & ?). exists t'. split; [by right|done].
Qed.

Lemma in_router_none r m segs : in_router r m segs = None →
  ∀ t, t ∈ r → verb t = m → match_route (path t) segs = None.
Proof.
  induction r as [|t r IH]; intros H t' Ht Hv; [by apply elem_of_nil in Ht|]. cbn [in_router] in H.
  apply elem_of_cons in Ht as [->|Ht].
  - rewrite decide_True in H by done. by destruct (match_route (path t) segs).
  - apply IH; [|done|done]. by destruct (decide _); [destruct (match_route (path t) segs)|].
Qed.

Lemma walk_some ls m segs seen e ps : (walk ls m segs seen).2 = Some (e, ps) →
  ∃ t, t ∈ routes ls ∧ fits m segs e ps t.
Proof.
  revert seen. induction ls as [|[w|w|p b r] ls IH]; intros seen; [done|apply IH|apply IH|]. cbn [walk].
  assert ((∃ t, t ∈ routes ls ∧ fits m segs e ps t) →
          ∃ t, t ∈ routes (Mount p b r :: ls) ∧ fits m segs e ps t) as Hrest.
  { intros (t & Ht & Hf). exists t. split; [|done]. unfold routes. cbn. set_solver. }
  destruct (strip_mount p segs) as [rest|] eqn:Ep; [|by intros H%IH; auto].
  destruct (in_router r m rest) as [[e' ps']|] eqn:Er; [|by intros H%IH; auto].
  intros [= -> ->]. apply in_router_some in Er as (t & Ht & Hv & Hm & Hg).
  exists (under p t). split; [unfold routes; cbn; set_solver|].
  split_and!; [done| |done]. cbn [path under]. by rewrite match_under, Ep.
Qed.

Lemma walk_none ls m segs seen : (walk ls m segs seen).2 = None ↔
  ∀ t, t ∈ routes ls → verb t = m → match_route (path t) segs = None.
Proof.
  revert seen. induction ls as [|[w|w|p b r] ls IH]; intros seen; [|apply IH|apply IH|].
  { split; [|done]. intros _ t Ht. by apply elem_of_nil in Ht. }
  assert (∀ t, t ∈ routes (Mount p b r :: ls) ↔ (∃ t', t = under p t' ∧ t' ∈ r) ∨ t ∈ routes ls) as Hr
    by (intros t; unfold routes; cbn; set_solver).
  cbn [walk]. destruct (strip_mount p segs) as [rest|] eqn:Ep.
  - destruct (in_router r m rest) as [[e ps]|] eqn:Er.
    + split; [done|]. intros H. apply in_router_some in Er as (t & Ht & Hv & Hm & _).
      assert (match_route (path (under p t)) segs = None) as H' by (apply H; [apply Hr; eauto|done]).
      cbn [path under] in H'. rewrite match_under, Ep in H'. cbn [mbind option_bind] in H'. congruence.
    + rewrite IH. split; [|intros H t Ht; apply H, Hr; auto].
      intros H t [(t' & -> & Ht)|Ht]%Hr Hv; [|by apply H]. cbn [path under]. rewrite match_under, Ep.
      by apply (in_router_none _ _ _ Er).
  - rewrite IH. split; [|intros H t Ht; apply H, Hr; auto].
    intros H t [(t' & -> & Ht)|Ht]%Hr Hv; [|by apply H]. cbn [path under]. by rewrite match_under, Ep.
Qed.

(** Can two routes match the same path? *)
Fixpoint compatible (p q : list pat) : bool :=
  match p, q with
  | [], [] => true
  | [], Lit w :: _ | Lit w :: _, [] => same_word w ""
  | Lit a :: p', Lit b :: q' => same_word a b && compatible p' q'
  | Param _ :: p', Lit _ :: q' | Lit _ :: p', Param _ :: q' | Param _ :: p', Param _ :: q' => compatible p' q'
  | _, _ => false
  end.

Lemma compatible_sound p q segs ps qs :
  match_route p segs = Some ps → match_route q segs = Some qs → compatible p q = true.
Proof.
  revert q segs ps qs. induction p as [|[a|a] p IH]; intros [|[b|b] q] segs ps qs; destruct segs as [|s segs];
    cbn [match_route compatible]; intros Hp Hq; try done.
  - destruct s; [|done]. destruct segs; [|done]. by destruct (same_word b "").
  - destruct s; [|done]. destruct segs; done.
  - destruct s; [|done]. destruct segs; [|done]. by destruct (same_word a "").
  - destruct (same_word a s) eqn:Ea; [|done]. destruct (same_word b s) eqn:Eb; [|done].
    unfold same_word in *. apply String.eqb_eq in Ea, Eb. rewrite Ea, Eb, String.eqb_refl.
    by eapply IH.
  - destruct (same_word a s); [|done]. destruct (String.eqb s ""); [done|].
    destruct (decodeURIComponent s); [|done]. cbn in Hq.
    destruct (match_route q segs) eqn:E; [|done]. by eapply IH.
  - destruct s; [|done]. destruct segs; done.
  - destruct (same_word b s); [|done]. destruct (String.eqb s ""); [done|].
    destruct (decodeURIComponent s); [|done]. cbn in Hp.
    destruct (match_route p segs) eqn:E; [|done]. by eapply IH.
  - destruct (String.eqb s ""); [done|]. destruct (decodeURIComponent s); [|done]. cbn in Hp, Hq.
    destruct (match_route p segs) eqn:E1; [|done]. destruct (match_route q segs) eqn:E2; [|done].
    by eapply IH.
Qed.

Definition unambiguous (rs : list route) : bool :=
  forallb (λ t, forallb (λ u,
    implb (bool_decide (verb t = verb u) && compatible (path t) (path u))
          (bool_decide (target t = target u ∧ path t = path u))) rs) rs.

Lemma app_unambiguous : unambiguous (routes createApp) = true.
Proof. vm_compute. reflexivity. Qed.

Lemma fits_unique t u m segs e e' ps ps' : t ∈ routes createApp → u ∈ routes createApp →
  fits m segs e ps t → fits m segs e' ps' u → e = e' ∧ ps = ps'.
Proof.
  intros Ht Hu (<- & Hm & <-) (Hv & Hm' & <-).
  pose proof app_unambiguous as H. unfold unambiguous in H.
  rewrite forallb_forall in H. specialize (H t ltac:(by apply list_elem_of_In)).
  rewrite forallb_forall in H. specialize (H u ltac:(by apply list_elem_of_In)).
  rewrite bool_decide_true, (compatible_sound _ _ _ _ _ Hm Hm') in H by done. cbn [andb implb] in H.
  apply bool_decide_eq_true in H as [-> H]. rewrite H in Hm. by simplify_eq.
Qed.

Lemma handled_iff m url e ps :
  handled_by m url = Some (e, ps) ↔ ∃ t, t ∈ routes createApp ∧ fits m (segments url) e ps t.
Proof.
  unfold handled_by. split; [apply walk_some|]. intros (t & Ht & Hf).
  destruct (walk createApp m (segments url) []).2 as [[e' ps']|] eqn:E.
  - apply walk_some in E as (u & Hu & Hf'). by destruct (fits_unique t u m _ _ _ _ _ Ht Hu Hf Hf') as [-> ->].
  - destruct Hf as (Hv & Hm & _). rewrite walk_none in E. by rewrite (E t Ht Hv) in Hm.
Qed.

(** A request that a given route answers, or that none does. *)
Lemma served m url segs t e ps : segments url = segs → t ∈ routes createApp → fits m segs e ps t →
  handled_by m url = Some (e, ps).
Proof. intros <- Ht Hf. apply handled_iff. eauto. Qed.

Lemma unserved ls m url segs : segments url = segs →
  Forall (λ t, verb t = m → match_route (path t) segs = None) (routes ls) →
  (walk ls m (segments url) []).2 = None.
Proof. intros <- Hf. apply walk_none. intros t Ht. rewrite Forall_forall in Hf. by apply Hf. Qed.

(** The parameters of a path, one after the other. *)
Lemma match_param n s ps segs rest : s ≠ "" → match_route ps segs = Some rest →
  match_route (Param n :: ps) (encodeURIComponent s :: segs) = Some ((n, s) :: rest).
Proof.
  intros Hs Hm. cbn [match_route].
  rewrite (encoded_filled s Hs), decode_encode. cbn. by rewrite Hm.
Qed.

Lemma match_lit w ps segs : match_route (Lit w :: ps) (w :: segs) = match_route ps segs.
Proof. cbn [match_route]. unfold same_word. by rewrite String.eqb_refl. Qed.

(** ** Theorems *)

(** The order of the routers does not matter: whatever the request, the route that answers it
    is the one route whose method and path match it, with the parameters read from the path;
    no two different routes match the same request, and a request without a match is answered
    by none. *)
Theorem routing_by_match m url e ps :
  handled_by m url = Some (e, ps) ↔
  ∃ t, t ∈ routes createApp ∧ verb t = m ∧ match_route (path t) (segments url) = Some ps ∧ target t = e.
Proof. apply handled_iff. Qed.

Section lookup.
Context (a o i : string) (n : Z).
Hypothesis (Ha : a ≠ "") (Ho : o ≠ "") (Hi : i ≠ "") (Hn : 0 ≤ n).

Lemma word_segment w : existsb (λ c, Ascii.eqb c "/" || Ascii.eqb c "?") (lst w) = false →
  "/"%char ∉ lst w ∧ "?"%char ∉ lst w.
Proof.
  intros H. split; intros Hin; apply not_true_iff_false in H; apply H, existsb_exists;
    eexists; (split; [by apply list_elem_of_In|done]).
Qed.

#[local] Ltac cut_path l :=
  apply (segments_url l); repeat (apply Forall_cons; split); try apply Forall_nil_2;
  first [apply encoded_segment | by apply plain_segment | by apply word_segment].

#[local] Ltac forget_encoded :=
  repeat match goal with |- context [encodeURIComponent ?x] => generalize (encodeURIComponent x); intros ? end;
  repeat match goal with |- context [pretty ?x] => generalize (pretty x); intros ? end.

#[local] Ltac answered l t :=
  split; [eapply (served _ _ l t);
    [cut_path l|apply (bool_decide_unpack _); vm_compute; exact I|split; [reflexivity|split; [|reflexivity]];
     cbn [path]; repeat first [rewrite match_lit | apply match_param; [done|] | reflexivity]]
  |eapply (unserved _ _ _ l); [cut_path l|by forget_encoded; repeat constructor]].

Definition answered_as (x : method * string * option (endpoint * list (string * string))) : Prop :=
  let '(m, url, e) := x in handled_by m url = e ∧ started_handles m url = None.

Lemma contributor_requests : Forall answered_as (take 6 (requests a o i n)).
Proof.
  assert (∀ w e, mkRoute GET [Lit "api"; Lit "contributors"; Param "address"; Lit w] e ∈ routes createApp →
    existsb (λ c, Ascii.eqb c "/" || Ascii.eqb c "?") (lst w) = false →
    answered_as (GET, "/api/contributors/" +:+ encodeURIComponent a +:+ "/" +:+ w, Some (e, [("address", a)]))) as Hc.
  { intros w e Ht Hw. split.
    - eapply (served _ _ ["api"; "contributors"; encodeURIComponent a; w]); [|exact Ht|].
      + cut_path ["api"; "contributors"; encodeURIComponent a; w].
      + split; [reflexivity|split; [|reflexivity]]. cbn [path]. rewrite !match_lit. by apply match_param; [|rewrite match_lit].
    - eapply (unserved _ _ _ ["api"; "contributors"; encodeURIComponent a; w]);
        [cut_path ["api"; "contributors"; encodeURIComponent a; w]|].
      forget_encoded. repeat constructor. }
  cbn [requests take]. repeat (apply Forall_cons; split).
  - answered ["api"; "issues"; encodeURIComponent o; encodeURIComponent i]
      (mkRoute GET [Lit "api"; Lit "issues"; Param "org_id"; Param "issue_id"] IssueDetail).
  - apply (Hc "activity"); [apply (bool_decide_unpack _); vm_compute; exact I|done].
  - answered ["api"; "contributors"; encodeURIComponent a]
      (mkRoute GET [Lit "api"; Lit "contributors"; Param "address"] ContributorProfile).
  - apply (Hc "counts"); [apply (bool_decide_unpack _); vm_compute; exact I|done].
  - apply (Hc "applications"); [apply (bool_decide_unpack _); vm_compute; exact I|done].
  - apply (Hc "assignments"); [apply (bool_decide_unpack _); vm_compute; exact I|done].
  - apply Forall_nil_2.
Qed.

Lemma organisation_requests : Forall answered_as (take 4 (drop 6 (requests a o i n))).
Proof.
  cbn [requests take drop]. repeat (apply Forall_cons; split).
  - answered ["api"; "orgs"] (mkRoute GET [Lit "api"; Lit "orgs"] ListOrgs).
  - answered ["api"; "orgs"; encodeURIComponent o; "issues"]
      (mkRoute GET [Lit "api"; Lit "orgs"; Param "orgId"; Lit "issues"] OrgIssues).
  - answered ["api"; "orgs"; encodeURIComponent o; "issues"; encodeURIComponent i; "apply"]
      (mkRoute POST [Lit "api"; Lit "orgs"; Param "orgId"; Lit "issues"; Param "issueId"; Lit "apply"] ApplyToIssue).
  - split; vm_compute; reflexivity.
  - apply Forall_nil_2.
Qed.

Lemma fixed_requests : Forall answered_as (take 5 (drop 10 (requests a o i n))).
Proof. cbn [requests take drop]. repeat (apply Forall_cons; split); try apply Forall_nil_2; split; vm_compute; reflexivity. Qed.

Lemma lost_requests : Forall answered_as (drop 15 (requests a o i n)).
Proof.
  assert (segments (transactions_of o) = ["api"; "transactions"]) as E by reflexivity.
  cbn [requests drop]. repeat (apply Forall_cons; split); try apply Forall_nil_2.
  - split; (eapply (unserved _ _ _ ["api"; "transactions"]); [exact E|repeat constructor]).
  - split; (eapply (unserved _ _ _ ["api"; "contributors"; encodeURIComponent a; "applications";
                                    encodeURIComponent o; pretty n]);
      [cut_path ["api"; "contributors"; encodeURIComponent a; "applications"; encodeURIComponent o; pretty n]
      |forget_encoded; repeat constructor; intros Hv; discriminate Hv]).
  - split; vm_compute; reflexivity.
  - split; vm_compute; reflexivity.
Qed.
End lookup.



(** ** What guards an endpoint *)

(** The endpoints behind the rate limit of each wallet. *)
Definition wallet_limited (e : endpoint) : bool :=
  match e with Apply | Withdraw | Assign | Complete | Revoke | Submit => true | _ => false end.

Definition common : list middleware :=
  [helmet; cors; morgan; json_parser; static; correlationId; globalLimiter; apiKeyAuth; swagger].

Lemma other_word a b s : same_word a s = true → toLowerCase a ≠ toLowerCase b → same_word b s = false.
Proof.
  unfold same_word. intros H Hn. apply String.eqb_eq in H. apply String.eqb_neq. congruence.
Qed.

(** Which endpoints a router has. *)
Lemma in_router_target r m segs e ps P :
  forallb (λ t, P (target t)) r = true → in_router r m segs = Some (e, ps) → P e = true.
Proof.
  intros HP Hin. destruct (in_router_some _ _ _ _ _ Hin) as (t & Ht & _ & _ & <-).
  rewrite forallb_forall in HP. by apply HP, list_elem_of_In.
Qed.

(** Nothing but its own router answers below [/api/transactions]. *)
Lemma only_transactions m segs rest :
  strip_mount ["api"; "transactions"] segs = Some rest →
  strip_mount ["api"; "events"] segs = None ∧ strip_mount ["webhooks"] segs = None ∧
  ∃ s, strip_mount ["api"] segs = Some (s :: rest) ∧ in_router orgsRouter m (s :: rest) = None.
Proof.
  destruct segs as [|a [|t segs]]; cbn [strip_mount]; [done|by destruct (same_word "api" a)|].
  destruct (same_word "api" a) eqn:Ea; [|done]. destruct (same_word "transactions" t) eqn:Et; [|done].
  intros [= <-]. rewrite (other_word _ "events" _ Et), (other_word _ "webhooks" _ Ea) by done.
  split; [done|]. split; [done|]. exists t. split; [done|].
  unfold orgsRouter. cbn [in_router path match_route target verb].
  rewrite (other_word _ "orgs" _ Et) by done. by repeat case_decide.
Qed.

(** A router that nothing guards, and that has no endpoint of the transactions. *)
Definition unguarded (l : layer) : bool :=
  match l with Mount _ [] r => forallb (λ t, negb (wallet_limited (target t))) r | _ => false end.

Lemma walk_unguarded ls ls' m segs seen : forallb unguarded ls = true →
  walk (ls ++ ls') m segs seen = walk ls' m segs seen ∨
  ∃ e ps, walk (ls ++ ls') m segs seen = (seen, Some (e, ps)) ∧ wallet_limited e = false.
Proof.
  induction ls as [|[w|w|p [|w before] r] ls IH]; cbn [forallb unguarded]; intros H; [by left|done|done| |done].
  apply andb_prop in H as [Hr Hls]. cbn [app walk].
  destruct (strip_mount p segs) as [rest|]; [|by apply IH]. rewrite app_nil_r.
  destruct (in_router r m rest) as [[e ps]|] eqn:E; [|by apply IH].
  right. exists e, ps. split; [done|].
  apply (in_router_target _ _ _ _ _ (λ e, negb (wallet_limited e)) Hr) in E. by apply negb_true_iff.
Qed.

Lemma walk_uses ws ls m segs seen : walk ((Use <$> ws) ++ ls) m segs seen = walk ls m segs (seen ++ ws).
Proof.
  revert seen. induction ws as [|w ws IH]; intros seen; [by rewrite app_nil_r|].
  cbn [fmap list_fmap app walk]. by rewrite IH, <- (assoc_L (++)).
Qed.


