(* ===== verification/TxFlows.v ===== *)
(** * The transaction flows of the frontend

    The four requests of a withdrawal from the dashboard ([useWithdraw.ts]) with the list of
    applications it updates ([DashboardPage.tsx]), the confirmation dialog
    ([useTxModal.ts], [TxConfirmModal.tsx]), the two hooks that call the contract
    ([useApplyForIssue.ts], [useWithdrawApplication.ts]) with their buttons, and the
    countdown of [TTLExtensionButton.tsx]. *)

From Stdlib Require Import String.
From S2P Require Import Prelude Js Decimal Url Http Db.
From S2P Require Import Validation Soroban Transactions Browser ContractErrors Contributors Client.

#[local] Open Scope string_scope.
#[local] Open Scope list_scope.
#[local] Open Scope Z_scope.

Module Withdraw.

Record target := mkTarget { issueId : string; issueTitle : string; orgId : string }.

(** What a run does that can be seen from outside, in order. *)
Inductive call :=
  | GetAccount (key : string)
  | Build (body : json)
  | Sign (xdr : option json) (key : string)
  | Submit (body : json)
  | OnSuccess (issueId : string)
  | OnError (msg : string).

(** What a run waits for. *)
Inductive stage := AtAccount | AtBuild | AtSign | AtSubmit.

(** What it settles to: a [fetch], or the wallet. *)
Inductive settled := Fetched (r : reply) | Signed (o : outcome json).

Definition expected (st : stage) (x : settled) : bool :=
  match st, x with AtSign, Signed _ => true | AtSign, _ => false | _, Fetched _ => true | _, _ => false end.

(** [const { k } = v]. *)
Definition destructure (k : string) (v : json) : outcome (option json) :=
  match v with
  | JNull => Throw (ErrorObj "TypeError" ("Cannot destructure property '" +:+ k +:+ "' as it is null."))
  | _ => Ret (prop k v)
  end.

(** The body of a successful reply. *)
Definition parsed (body : option json) : outcome json :=
  match body with Some v => Ret v | None => Throw bad_json end.

Definition and_then {A B} (o : outcome A) (f : A → outcome B) : outcome B :=
  match o with Ret a => f a | Throw e => Throw e end.

Definition build_body (key : string) (t : target) (sequence : option json) : json :=
  obj [("contributor", Some (JStr key)); ("org_id", Some (JStr (orgId t)));
       ("issue_id", Some (number_json (js_Number (issueId t)))); ("sequence", sequence)].

(** [errBody.reason ?? errBody.error ?? `Submit failed: ${status}`]. *)
Definition submit_error (code : Z) (body : option json) : exn :=
  let dflt := "Submit failed: " +:+ pretty code in
  match body with
  | None => Error dflt
  | Some JNull => null_property "reason"
  | Some b => Error (js_String (nullish_or (prop "reason" b)
                                  (nullish_or (prop "error" b) (JStr dflt))))
  end.

(** The call after a stage has settled and what it then waits for, the end of the [try], or
    what is thrown.  [freighter]: the extension is there. *)
Definition advance (freighter : bool) (key : string) (t : target) (st : stage) (x : settled) :
    outcome (option (call * stage)) :=
  match st, x with
  | AtAccount, Fetched (Answered code body) =>
      if ok code then
        and_then (parsed body) (λ v, and_then (get "sequence" v) (λ sequence,
          Ret (Some (Build (build_body key t sequence), AtBuild))))
      else Throw (Error ("Failed to fetch account sequence: " +:+ pretty code))
  | AtBuild, Fetched (Answered code body) =>
      if ok code then
        and_then (parsed body) (λ v, and_then (destructure "xdr" v) (λ xdr,
          if freighter then Ret (Some (Sign xdr key, AtSign))
          else Throw (Error "Freighter extension not found.")))
      else Throw (error_of_body ("Build TX failed: " +:+ pretty code) body)
  | AtSign, Signed o =>
      and_then o (λ v, and_then (destructure "signedTxXdr" v) (λ signed,
        if truthy_opt (prop "error" v)
        then Throw (Error ("Signing failed: " +:+ js_String (default JNull (prop "error" v))))
        else Ret (Some (Submit (obj [("signed_xdr", signed)]), AtSubmit))))
  | AtSubmit, Fetched (Answered code body) =>
      if ok code then Ret None else Throw (submit_error code body)
  | _, Fetched (Rejected e) => Throw e
  | _, _ => Ret None
  end.

(** A confirmed withdrawal: for what, and what it waits for. *)
Record run := mkRun { r_target : target; r_at : option stage }.

Record state := mkState {
  pendingTarget : option target; loading : bool; runs : list run; calls : list call;
}.
Definition initial : state := mkState None false [] [].

(** The buttons of the page and of the dialog, the latter disabled while [loading], and
    what settles. *)
Inductive event := Initiate (t : target) | Cancel | Confirm | Settle (i : nat) (x : settled).

Section hook.
Variable publicKey : option string.
Variable freighter : bool.

Definition initiateWithdraw (t : target) (s : state) : state :=
  mkState (Some t) (loading s) (runs s) (calls s).

Definition handleCancel (s : state) : state :=
  if loading s then s else mkState None (loading s) (runs s) (calls s).

Definition handleConfirm (s : state) : state :=
  match pendingTarget s, filled publicKey with
  | Some t, Some key =>
      mkState (Some t) true (runs s ++ [mkRun t (Some AtAccount)]) (calls s ++ [GetAccount key])
  | _, _ => s
  end.

(** The rest of [handleConfirm], from one [await] to the next. *)
Definition resume (i : nat) (x : settled) (s : state) : state :=
  match runs s !! i, filled publicKey with
  | Some (mkRun t (Some st)), Some key =>
      if expected st x then
        match advance freighter key t st x with
        | Ret (Some (c, st')) =>
            mkState (pendingTarget s) (loading s) (<[i := mkRun t (Some st')]> (runs s)) (calls s ++ [c])
        | Ret None =>
            mkState None false (<[i := mkRun t None]> (runs s)) (calls s ++ [OnSuccess (issueId t)])
        | Throw e =>
            mkState None false (<[i := mkRun t None]> (runs s))
              (calls s ++ [OnError (error_message "Unknown error during withdrawal" e)])
        end
      else s
  | _, _ => s
  end.

Definition step (s : state) (e : event) : state :=
  match e with
  | Initiate t => initiateWithdraw t s
  | Cancel => handleCancel s
  | Confirm => if loading s then s else handleConfirm s
  | Settle i x => resume i x s
  end.

Definition history (es : list event) : state := fold_left step es initial.

End hook.

(** The call that follows a stage. *)
Inductive follows (key : string) (t : target) : stage → call → stage → Prop :=
  | build_follows sequence : follows key t AtAccount (Build (build_body key t sequence)) AtBuild
  | sign_follows xdr : follows key t AtBuild (Sign xdr key) AtSign
  | submit_follows signed : follows key t AtSign (Submit (obj [("signed_xdr", signed)])) AtSubmit.

(** What a run may have done, and what it waits for after that. *)
Inductive progress (key : string) (t : target) : list call → option stage → Prop :=
  | p_account : progress key t [GetAccount key] (Some AtAccount)
  | p_next cs st c st' : progress key t cs (Some st) → follows key t st c st' →
      progress key t (cs ++ [c]) (Some st')
  | p_success cs : progress key t cs (Some AtSubmit) →
      progress key t (cs ++ [OnSuccess (issueId t)]) None
  | p_error cs st msg : progress key t cs (Some st) → progress key t (cs ++ [OnError msg]) None.

(** The list of the dashboard: [removeApplication(Number(issueId))]. *)
Definition number_is (n : numval) (v : option json) : bool :=
  match n, v with
  | NumDec m e, Some w => strict_eq (number_json (NumDec m e)) w
  | _, _ => false
  end.

Definition removeApplication (issueId : string) (applications : list json) : list json :=
  filter (λ a, number_is (js_Number issueId) (prop "issue_id" a) = false) applications.

(** The row of the list an application is shown in. *)
Definition row_target (a : json) : target :=
  let text k := js_String (default JNull (prop k a)) in
  mkTarget (text "issue_id") (text "title") (text "org_id").

Definition row_disabled (s : state) (a : json) : bool :=
  (loading s && match pendingTarget s with
                | Some t => String.eqb (issueId t) (issueId (row_target a)) &&
                            String.eqb (orgId t) (orgId (row_target a))
                | None => false
                end)
  || match prop "status" a with Some (JStr st) => String.eqb st "assigned" | _ => false end.

(** What the page says at the end. *)
Definition toast (c : call) : option (string * string) :=
  match c with
  | OnSuccess _ => Some ("Application withdrawn successfully. Your cap count has been decremented.", "success")
  | OnError msg => Some ("Withdraw failed: " +:+ msg, "error")
  | _ => None
  end.

End Withdraw.

Module TxModal.

Record details := mkDetails {
  action : string; txTarget : string; fee : string; network : string;
  destructive : bool; confirmLabel : option string;
}.

Inductive status := idle | confirming (d : details) | loading (d : details)
  | error (d : details) (message : string).

(** A promise [confirm] returned. *)
Inductive promise := Pending | Resolved | Cancelled.

(** [resolver] is the index of the promise it settles. *)
Record state := mkState { modal : status; resolver : option nat; promises : list promise }.
Definition initial : state := mkState idle None [].

Definition confirm (d : details) (s : state) : state :=
  mkState (confirming d) (Some (length (promises s))) (promises s ++ [Pending]).

Definition setLoading (s : state) : state :=
  match modal s with
  | confirming d | error d _ => mkState (loading d) (resolver s) (promises s)
  | _ => s
  end.

Definition setError (message : string) (s : state) : state :=
  match modal s with
  | loading d => mkState (error d message) (resolver s) (promises s)
  | _ => s
  end.

Definition close (s : state) : state := mkState idle None (promises s).

(** A promise is settled once; settling it again does nothing. *)
Definition settle (p : promise) (s : state) : list promise :=
  match resolver s with
  | Some i => match promises s !! i with
              | Some Pending => <[i := p]> (promises s)
              | _ => promises s
              end
  | None => promises s
  end.

Definition _resolve (s : state) : state := mkState (modal s) (resolver s) (settle Resolved s).
Definition _reject (s : state) : state :=
  close (mkState (modal s) (resolver s) (settle Cancelled s)).

(** The caller whose confirmation is shown asks for it, goes on after its [await] with
    [setLoading], fails, is done; the buttons, Escape and the
    backdrop of [TxConfirmModal]. *)
Inductive event := Ask (d : details) | Proceed | Fail (msg : string) | Finish
  | ClickConfirm | ClickCancel | ClickDismiss | ClickRetry | Escape.

Definition isOpen (s : state) : bool := match modal s with idle => false | _ => true end.
Definition isLoading (s : state) : bool := match modal s with loading _ => true | _ => false end.
Definition isError (s : state) : bool := match modal s with error _ _ => true | _ => false end.

Definition step (s : state) (e : event) : state :=
  match e with
  | Ask d => confirm d s
  | Proceed => match resolver s ≫= λ i, promises s !! i with Some Resolved => setLoading s | _ => s end
  | Fail msg => setError msg s
  | Finish => if isLoading s then close s else s
  | ClickConfirm => if isOpen s && negb (isError s) && negb (isLoading s) then _resolve s else s
  | ClickCancel => if isOpen s && negb (isError s) && negb (isLoading s) then _reject s else s
  | ClickDismiss => if isError s then close s else s
  | ClickRetry => if isError s then _resolve s else s
  | Escape => if isOpen s && negb (isLoading s) then _reject s else s
  end.

Definition history (es : list event) : state := fold_left step es initial.

(** A confirmation is only asked for while none is shown. *)
Fixpoint orderly (s : state) (es : list event) : bool :=
  match es with
  | [] => true
  | e :: es' => match e with Ask _ => negb (isOpen s) | _ => true end && orderly (step s e) es'
  end.

(** The icon of an action. *)
Definition actionIcon (action : string) (destructive : bool) : string :=
  let lower := toLowerCase action in
  if destructive then "⚠️" else
  if includes "apply" lower then "📝" else
  if includes "assign" lower then "✅" else
  if includes "complete" lower then "🎉" else
  if includes "withdraw" lower then "↩️" else
  if includes "revoke" lower then "🚫" else "🔏".

End TxModal.

Module Calls.

(** The states of both hooks; [confirming] is only one of [useWithdrawApplication]. *)
Inductive status := idle | confirming | submitting | succeeded | error.

(** [sent]: the calls made to the contract, [None] while one is not settled. *)
Record state := mkState {
  status_of : status; errorMessage : option string; sent : list (option (outcome unit));
}.
Definition initial : state := mkState idle None [].

Definition no_client : string := "Contract client not available. Make sure your wallet is connected.".

Inductive event := Click | Request | Dismiss | Settle (i : nat) (o : outcome unit).

Section hooks.
(** Is there a contract client? *)
Variable client : bool.

Definition call (s : state) : state :=
  if client then mkState submitting None (sent s ++ [None])
  else mkState error (Some no_client) (sent s).

Definition settle (i : nat) (o : outcome unit) (s : state) : state :=
  match sent s !! i with
  | Some None =>
      let sent' := <[i := Some o]> (sent s) in
      match o with
      | Ret _ => mkState succeeded (errorMessage s) sent'
      | Throw e => mkState error (Some (apply_error e)) sent'
      end
  | _ => s
  end.

(** [useApplyForIssue] behind [ApplyButton]: the button is disabled while a call is under
    way or for [applyDisabledReason], and becomes another one after a success. *)
Definition apply (s : state) : state :=
  match status_of s with submitting => s | _ => call s end.

Definition apply_step (disabledReason : bool) (s : state) (e : event) : state :=
  match e with
  | Click =>
      match status_of s with
      | succeeded | submitting => s
      | _ => if disabledReason then s else apply s
      end
  | Settle i o => settle i o s
  | Request | Dismiss => s
  end.

(** [useWithdrawApplication] behind [WithdrawButton]: a dialog first, and nothing is drawn
    after a success. *)
Definition requestWithdraw (s : state) : state := mkState confirming None (sent s).
Definition cancelWithdraw (s : state) : state := mkState idle None (sent s).
Definition confirmWithdraw (s : state) : state :=
  match status_of s with confirming => call s | _ => s end.

Definition withdraw_step (s : state) (e : event) : state :=
  match e with
  | Request => match status_of s with submitting | succeeded => s | _ => requestWithdraw s end
  | Click => confirmWithdraw s
  | Dismiss => match status_of s with confirming => cancelWithdraw s | _ => s end
  | Settle i o => settle i o s
  end.

End hooks.

End Calls.

Module Card.

(** Why the button of a card is disabled. *)
Definition applyDisabledReason (globalAppCount orgAppCount globalAppMax orgAppMax : Z) : option string :=
  if globalAppMax <=? globalAppCount then
    Some ("Global application limit reached (" +:+ pretty globalAppCount +:+ "/" +:+
          pretty globalAppMax +:+ "). Withdraw an application first.")
  else if orgAppMax <=? orgAppCount then
    Some ("Org assignment limit reached (" +:+ pretty orgAppCount +:+ "/" +:+
          pretty orgAppMax +:+ "). Complete an assignment first.")
  else None.

(** What a handler of the card waits for. *)
Inductive waiting := ForModal | ForApply | ForWithdraw.
Record state := mkState {
  busy : bool; applied : bool; error : option string; waits : option waiting;
}.
Inductive event := Apply | Withdraw | Settle (o : outcome unit).

(** [reason]: the text above; [modal]: is there a confirmation dialog?  The button to apply
    is also disabled once [applied]. *)
Definition step (reason : option string) (modal : bool) (s : state) (e : event) : state :=
  match e with
  | Apply =>
      if busy s || applied s || match reason with Some _ => true | None => false end then s
      else mkState true (applied s) None (Some (if modal then ForModal else ForApply))
  | Withdraw => if busy s then s else mkState true (applied s) None (Some ForWithdraw)
  | Settle o =>
      match waits s, o with
      | None, _ => s
      | Some ForModal, Ret _ => mkState true (applied s) (error s) (Some ForApply)
      | Some ForModal, Throw _ => mkState false (applied s) (error s) None
      | Some ForApply, Ret _ => mkState false true (error s) None
      | Some ForApply, Throw e =>
          mkState false (applied s) (Some (error_message "An error occurred while applying." e)) None
      | Some ForWithdraw, Ret _ => mkState false (applied s) (error s) None
      | Some ForWithdraw, Throw e =>
          mkState false (applied s) (Some (error_message "An error occurred while withdrawing." e)) None
      end
  end.

(** [formatRelativeTime]. *)
Definition ago (n : Z) (unit : string) : string :=
  pretty n +:+ " " +:+ (if n =? 1 then unit else unit +:+ "s") +:+ " ago".

Definition formatRelativeTime (now : Z) (isoDate : string) : string :=
  match getTime isoDate with
  | NaN => "NaN months ago"
  | Fin t =>
      let diffMs := now - t in
      if diffMs <? 0 then "just now" else
      let seconds := diffMs / 1000 in
      if seconds <? 60 then "just now" else
      let minutes := seconds / 60 in
      if minutes <? 60 then ago minutes "minute" else
      let hours := minutes / 60 in
      if hours <? 24 then ago hours "hour" else
      let days := hours / 24 in
      if days <? 30 then ago days "day" else ago (days / 30) "month"
  end.

End Card.

Module Ttl.

Definition remainingSeconds (expiryTimestamp nowSeconds : Z) : Z := Z.max 0 (expiryTimestamp - nowSeconds).
Definition isNearExpiry (threshold remaining : Z) : bool := remaining <=? threshold.

Definition padStart2 (n : Z) : string := (if n <? 10 then "0" else "") +:+ pretty n.

Definition formatCountdown (totalSeconds : Z) : string :=
  if totalSeconds <=? 0 then "Expired" else
  let days := totalSeconds / 86400 in
  let hours := totalSeconds mod 86400 / 3600 in
  let minutes := totalSeconds mod 3600 / 60 in
  let seconds := totalSeconds mod 60 in
  if 0 <? days then pretty days +:+ "d " +:+ pretty hours +:+ "h " +:+ pretty minutes +:+ "m"
  else padStart2 hours +:+ "h " +:+ padStart2 minutes +:+ "m " +:+ padStart2 seconds +:+ "s".

(** The two buttons that call the contract once per click: is a call under way, and what is
    said. *)
Record state := mkState { isSubmitting : bool; statusMessage : option string }.

Definition handleExtend (near : bool) (s : state) : state :=
  if negb near || isSubmitting s then s else mkState true None.
Definition extended (o : outcome bool) : state :=
  mkState false (Some match o with
                      | Ret true => "TTL extended successfully!"
                      | Ret false => "Failed to extend TTL."
                      | Throw _ => "Error submitting TTL extension transaction."
                      end).
Definition extend_disabled (threshold remaining : Z) (s : state) : bool :=
  negb (isNearExpiry threshold remaining) || isSubmitting s || (remaining <=? 0).

(** [ApplyForIssueButton]. *)
Definition isLimitReached (globalAppCount maxGlobalLimit : Z) : bool := maxGlobalLimit <=? globalAppCount.
Definition handleApply (limit : bool) (s : state) : state :=
  if limit || isSubmitting s then s else mkState true None.
Definition applied (o : outcome bool) : state :=
  mkState false match o with
                | Ret true => None
                | Ret false => Some "Failed to submit application."
                | Throw _ => Some "Contract error submitting application."
                end.

End Ttl.

(** ** Lemmas on withdrawals *)

Section withdraw.
Import Withdraw.
Context (publicKey : option string) (freighter : bool) (key : string).
Hypothesis Hkey : filled publicKey = Some key.

(** Which runs are still on their way: none, or the last one. *)
Inductive standing : bool → option target → list run → Prop :=
  | at_rest t rs : Forall (λ r, r_at r = None) rs → standing false t rs
  | on_the_way t t' st rs : Forall (λ r, r_at r = None) rs →
      standing true (Some t) (rs ++ [mkRun t' (Some st)]).

Definition sound (s : state) : Prop :=
  standing (loading s) (pendingTarget s) (runs s) ∧
  ∃ gs, calls s = concat gs ∧ Forall2 (λ g r, progress key (r_target r) g (r_at r)) gs (runs s).

(** The run that can still settle is the last one. *)
Lemma standing_lookup b t rs i t' st : standing b t rs → rs !! i = Some (mkRun t' (Some st)) →
  b = true ∧ ∃ rs', rs = rs' ++ [mkRun t' (Some st)] ∧ i = length rs' ∧
  Forall (λ r, r_at r = None) rs'.
Proof.
  intros [? rs' Hf|? ? ? rs' Hf] Hi.
  - rewrite Forall_forall in Hf. by apply list_elem_of_lookup_2, Hf in Hi.
  - apply lookup_snoc_Some in Hi as [[_ Hi]|[-> Hi]].
    + rewrite Forall_forall in Hf. by apply list_elem_of_lookup_2, Hf in Hi.
    + simplify_eq. eauto 6.
Qed.

(** What [advance] can come to. *)
Lemma advance_next t st x : expected st x = true →
  match advance freighter key t st x with
  | Ret (Some (c, st')) => follows key t st c st'
  | Ret None => st = AtSubmit
  | Throw _ => True
  end.
Proof.
  intros He. destruct st, x as [[code body|e]|o]; try discriminate He; try exact I; cbn [advance].
  - destruct (ok code); [|exact I]. destruct body as [v|]; [|exact I]. cbn [parsed and_then].
    destruct (get _ v); [constructor|exact I].
  - destruct (ok code); [|exact I]. destruct body as [v|]; [|exact I]. cbn [parsed and_then].
    destruct (destructure _ v); [|exact I]. cbn [and_then]. destruct freighter; [constructor|exact I].
  - destruct o as [v|]; [|exact I]. cbn [and_then]. destruct (destructure _ v); [|exact I].
    cbn [and_then]. destruct (truthy_opt _); [exact I|constructor].
  - by destruct (ok code).
Qed.

Lemma sound_move s rs t st g gs c b p at' :
  runs s = rs ++ [mkRun t (Some st)] → Forall (λ r, r_at r = None) rs →
  calls s = concat gs → Forall2 (λ g r, progress key (r_target r) g (r_at r)) gs (runs s) →
  last gs = Some g → progress key t (g ++ [c]) at' →
  standing b p (rs ++ [mkRun t at']) →
  sound (mkState p b (<[length rs := mkRun t at']> (runs s)) (calls s ++ [c])).
Proof.
  intros Hr Hf Hc H2 Hl Hp Hs. rewrite Hr, insert_app_r_alt, Nat.sub_diag by lia. split; [done|].
  apply last_Some in Hl as [gs' ->]. rewrite Hr in H2.
  assert (length gs' = length rs) as Hlen
    by (apply Forall2_length in H2; rewrite !length_app in H2; cbn in H2; lia).
  apply Forall2_app_inv in H2 as [H2 _]; [|done].
  exists (gs' ++ [g ++ [c]]). cbn [calls runs]. rewrite Hc, !concat_app. cbn [concat].
  rewrite !app_nil_r, app_assoc. split; [done|]. apply Forall2_app; [done|]. by constructor.
Qed.

Lemma sound_step s e : sound s → sound (step publicKey freighter s e).
Proof.
  intros [Hs (gs & Hc & H2)]. destruct e as [t| | |i x]; cbn [step].
  - split; [|by exists gs]. cbn. inv Hs; by constructor.
  - unfold handleCancel. destruct (loading s) eqn:E; [by split; [rewrite E|exists gs]|].
    split; [|by exists gs]. cbn [loading pendingTarget runs]. inv Hs. by constructor.
  - destruct (loading s) eqn:E; [by split; [rewrite E|exists gs]|]. unfold handleConfirm. rewrite Hkey.
    destruct (pendingTarget s) as [t|] eqn:Et; [|by split; [rewrite E, Et|exists gs]].
    split; [cbn; inv Hs; by constructor|]. exists (gs ++ [[GetAccount key]]). cbn.
    rewrite Hc, concat_app. split; [done|]. apply Forall2_app; [done|]. repeat constructor.
  - unfold resume. rewrite Hkey. destruct (runs s !! i) as [[t [st|]]|] eqn:Ei; [|by split; [|exists gs]..].
    destruct (expected st x) eqn:Ex; [|by split; [|exists gs]].
    destruct (standing_lookup _ _ _ _ _ _ Hs Ei) as (Hb & rs & Hr & -> & Hf).
    assert (∃ g, last gs = Some g ∧ progress key t g (Some st)) as (g & Hl & Hp).
    { rewrite Hr in H2. apply Forall2_app_inv_r in H2 as (g1 & g2 & _ & H2 & ->).
      apply Forall2_cons_inv_r in H2 as (g & g3 & Hp & H2 & ->). apply Forall2_nil_inv_r in H2 as ->.
      exists g. by rewrite last_snoc. }
    assert (∃ p, pendingTarget s = Some p) as [p Hp'].
    { rewrite Hb in Hs. inv Hs. eauto. }
    pose proof (advance_next t st x Ex) as Hn.
    destruct (advance freighter key t st x) as [[[c st']|]|e];
      (eapply sound_move; [exact Hr|exact Hf|exact Hc|exact H2|exact Hl| |]).
    + by econstructor.
    + rewrite Hb, Hp'. by constructor.
    + subst st. by constructor.
    + constructor. rewrite Forall_app. by repeat constructor.
    + by econstructor.
    + constructor. rewrite Forall_app. by repeat constructor.
Qed.

Lemma sound_history es : sound (history publicKey freighter es).
Proof.
  unfold history. induction es as [|e es IH] using rev_ind.
  - split; [by constructor|]. by exists [].
  - rewrite fold_left_app. by apply sound_step.
Qed.

End withdraw.

Definition callback (c : Withdraw.call) : bool :=
  match Withdraw.toast c with Some _ => true | None => false end.

(** A run on its way ends with its fourth answer at the latest, with one callback. *)
Section ends.
Import Withdraw.
Context (publicKey : option string) (freighter : bool) (key : string).
Hypothesis Hkey : filled publicKey = Some key.

(** Has the run ended, with one callback, since [s]? *)
Definition ended_since (s s' : state) : Prop :=
  loading s' = false ∧ pendingTarget s' = None ∧ length (runs s') = length (runs s) ∧
  ∃ more c, calls s' = calls s ++ more ++ [c] ∧ callback c = true ∧
            Forall (λ c, callback c = false) more.

Definition on_its_way (s : state) (t : target) (st : stage) : Prop :=
  loading s = true ∧ ∃ rs, runs s = rs ++ [mkRun t (Some st)] ∧ Forall (λ r, r_at r = None) rs.

(** How many answers a stage is from the end. *)
Definition remaining (st : stage) : nat :=
  match st with AtAccount => 4 | AtBuild => 3 | AtSign => 2 | AtSubmit => 1 end.

Lemma settle_last s t st x : on_its_way s t st → expected st x = true →
  let s' := step publicKey freighter s (Settle (pred (length (runs s))) x) in
  (ended_since s s' ∧ runs s' !! pred (length (runs s)) = Some (mkRun t None)) ∨
  ∃ st' c, follows key t st c st' ∧ on_its_way s' t st' ∧ calls s' = calls s ++ [c] ∧
           length (runs s') = length (runs s).
Proof.
  intros (Hl & rs & Hr & Hf) He. cbn [step]. unfold resume. rewrite Hkey.
  assert (pred (length (runs s)) = length rs) as -> by (rewrite Hr, length_app; cbn; lia).
  rewrite Hr, lookup_app_r, Nat.sub_diag by lia. cbn [lookup list_lookup]. rewrite He.
  pose proof (advance_next freighter key t st x He) as Hn.
  destruct (advance freighter key t st x) as [[[c st']|]|e].
  - right. exists st', c. split_and!; try done.
    + split; [done|]. exists rs. cbn [runs]. by rewrite insert_app_r_alt, Nat.sub_diag by lia.
    + cbn [runs]. by rewrite length_insert.
  - left. cbn [runs]. split; [|apply list_lookup_insert_eq; rewrite length_app; cbn; lia].
    split_and!; [done..|cbn [runs]; by rewrite length_insert, Hr|]. by eexists [], _.
  - left. cbn [runs]. split; [|apply list_lookup_insert_eq; rewrite length_app; cbn; lia].
    split_and!; [done..|cbn [runs]; by rewrite length_insert, Hr|]. by eexists [], _.
Qed.

(** Since [s], the run of index [i] has ended, or it stands at one of these stages. *)
Definition come_to (s : state) (i : nat) (sts : list stage) (s' : state) : Prop :=
  (ended_since s s' ∧ ∃ t, runs s' !! i = Some (mkRun t None)) ∨
  ∃ t st more, st ∈ sts ∧ on_its_way s' t st ∧ i = pred (length (runs s')) ∧
    length (runs s') = length (runs s) ∧ calls s' = calls s ++ more ∧
    Forall (λ c, callback c = false) more.

(** One more answer, and the stages that may come next. *)
Lemma come_to_step s i sts s' x sts' : come_to s i sts s' →
  (∀ st, st ∈ sts → if expected st x then ∀ t c st', follows key t st c st' → st' ∈ sts'
                    else st ∈ sts') →
  come_to s i sts' (step publicKey freighter s' (Settle i x)).
Proof.
  intros [[He (t & Hi)]|(t & st & more & Hst & Hw & -> & Hn & Hc & Hm)] Hnext.
  { left. cbn [step]. unfold resume. rewrite Hi. eauto. }
  specialize (Hnext st Hst). destruct (expected st x) eqn:Ex.
  - destruct (settle_last s' t st x Hw Ex) as [[He Hi]|(st' & c & Hf & Hw' & Hc' & Hn')].
    + left. split; [|by eexists]. destruct He as (H1 & H2 & H3 & m & c & H4 & H5 & H6).
      split_and!; [done|done|by rewrite H3, Hn|]. exists (more ++ m), c.
      rewrite H4, Hc, <- !app_assoc. split_and!; [done|done|]. by apply Forall_app.
    + right. exists t, st', (more ++ [c]). split_and!; [by eapply Hnext|done|by rewrite Hn'|by rewrite Hn'|by rewrite Hc', Hc, <- app_assoc|].
      apply Forall_app. split; [done|]. constructor; [|done]. by inv Hf.
  - right. exists t, st, more. destruct Hw as (Hl & rs & Hr & Hf). cbn [step]. unfold resume.
    rewrite Hkey. assert (pred (length (runs s')) = length rs) as Hp by (rewrite Hr, length_app; cbn; lia).
    rewrite Hp, Hr, lookup_app_r, Nat.sub_diag by lia. cbn [lookup list_lookup]. rewrite Ex.
    split_and!; [done| |by rewrite <- Hp|done..]. split; [done|]. by exists rs.
Qed.

Lemma four_answers s a b o c : sound key s → loading s = true →
  let i := pred (length (runs s)) in
  ended_since s (fold_left (step publicKey freighter)
    [Settle i (Fetched a); Settle i (Fetched b); Settle i (Signed o); Settle i (Fetched c)] s).
Proof.
  intros [Hs _] Hl i. cbn [fold_left].
  assert (come_to s i [AtAccount; AtBuild; AtSign; AtSubmit] s) as H.
  { destruct s as [pt l rs cs]. cbn in *. subst l. inversion Hs as [|? t st rs' Hf].
    subst. right. exists t, st, []. rewrite app_nil_r.
    split_and!; [destruct st; set_solver|split; [done|by exists rs']|done..|constructor]. }
  apply (come_to_step _ _ _ _ (Fetched a) [AtBuild; AtSign]) in H;
    [|intros [] _; cbn; try (intros t c' st' Hf; inv Hf); set_solver].
  apply (come_to_step _ _ _ _ (Fetched b) [AtSign]) in H;
    [|intros [] Hin; cbn; try (intros t c' st' Hf; inv Hf); set_solver].
  apply (come_to_step _ _ _ _ (Signed o) [AtSubmit]) in H;
    [|intros [] Hin; cbn; try (intros t c' st' Hf; inv Hf); set_solver].
  apply (come_to_step _ _ _ _ (Fetched c) []) in H;
    [|intros [] Hin; cbn; try (intros t c' st' Hf; inv Hf); set_solver].
  destruct H as [[H _]|(t & st & more & Hin & _)]; [exact H|set_solver].
Qed.
End ends.

(** ** Theorems on withdrawals *)


(** A withdrawal always comes to an end: once the account, the transaction, the wallet and
    the submission have answered, whatever they answered, the dialog is closed and not busy,
    and the page was told exactly once. *)
Theorem withdrawal_ends publicKey freighter key es a b o c :
  filled publicKey = Some key →
  let s := Withdraw.history publicKey freighter es in
  Withdraw.loading s = true →
  let i := pred (length (Withdraw.runs s)) in
  ended_since s (fold_left (Withdraw.step publicKey freighter)
    [Withdraw.Settle i (Withdraw.Fetched a); Withdraw.Settle i (Withdraw.Fetched b);
     Withdraw.Settle i (Withdraw.Signed o); Withdraw.Settle i (Withdraw.Fetched c)] s).
Proof.
  intros Hkey s Hl i. apply (four_answers publicKey freighter key Hkey); [|done].
  by apply sound_history.
Qed.

(** ** Lemmas and theorems on the confirmation dialog *)

Section modal.
Import TxModal.

(** The promise the buttons settle, and whether it is still open. *)
Definition tidy_modal (s : state) : Prop :=
  match modal s with
  | idle => Forall (λ p, p ≠ Pending) (promises s)
  | confirming _ => ∃ ps p, promises s = ps ++ [p] ∧ resolver s = Some (length ps) ∧
                            Forall (λ p, p ≠ Pending) ps ∧ p ≠ Cancelled
  | loading _ | error _ _ =>
      ∃ ps, promises s = ps ++ [Resolved] ∧ resolver s = Some (length ps) ∧
            Forall (λ p, p ≠ Pending) ps
  end.

Lemma settle_last_promise p s ps q : promises s = ps ++ [q] → resolver s = Some (length ps) →
  settle p s = ps ++ [match q with Pending => p | _ => q end].
Proof.
  intros Hp Hr. unfold settle. rewrite Hr, Hp, lookup_app_r, Nat.sub_diag by lia. cbn.
  destruct q; [|done..]. by rewrite insert_app_r_alt, Nat.sub_diag by lia.
Qed.

Lemma lookup_last {A} (l : list A) x : (l ++ [x]) !! length l = Some x.
Proof. by rewrite lookup_app_r, Nat.sub_diag by lia. Qed.

Definition settled_as (q p : promise) : promise := match p with Pending => q | _ => p end.

Lemma settled_not_pending q ps p : q ≠ Pending → Forall (λ p, p ≠ Pending) ps →
  Forall (λ p, p ≠ Pending) (ps ++ [settled_as q p]).
Proof. intros Hq Hf. apply Forall_app. split; [done|]. constructor; [by destruct p|done]. Qed.

#[local] Ltac press :=
  cbn [step isOpen isError isLoading modal resolver promises andb negb setLoading setError close
       mbind option_bind].

Lemma tidy_modal_step s e : tidy_modal s → match e with Ask _ => negb (isOpen s) | _ => true end = true →
  tidy_modal (step s e).
Proof.
  intros Ht He. destruct s as [[|d|d|d msg] r ps]; unfold tidy_modal in Ht; cbn [modal promises resolver] in Ht.
  - destruct e; try done; cbn.
    + by exists ps, Pending.
    + by repeat case_match.
  - destruct Ht as (ps' & p & -> & -> & Hf & Hp).
    assert (settle Resolved (mkState (confirming d) (Some (length ps')) (ps' ++ [p])) = ps' ++ [settled_as Resolved p]) as Hs1
      by by apply settle_last_promise.
    assert (settle Cancelled (mkState (confirming d) (Some (length ps')) (ps' ++ [p])) = ps' ++ [settled_as Cancelled p]) as Hs2
      by by apply settle_last_promise.
    destruct e; try done; unfold tidy_modal, _resolve, _reject; press; rewrite ?lookup_last; unfold tidy_modal, _resolve, _reject; cbn [modal promises resolver close];
      rewrite ?Hs1, ?Hs2; try (by apply settled_not_pending); try solve [exists ps', p; by split_and!].
    + destruct p; cbn; try done; eauto 8.
    + exists ps', (settled_as Resolved p). destruct p; by split_and!.
  - destruct Ht as (ps' & -> & -> & Hf).
    destruct e; try done; unfold tidy_modal; press; rewrite ?lookup_last; try by exists ps'.
    apply Forall_app. split; [done|by repeat constructor].
  - destruct Ht as (ps' & -> & -> & Hf).
    assert (∀ q, settle q (mkState (error d msg) (Some (length ps')) (ps' ++ [Resolved])) = ps' ++ [Resolved]) as Hs
      by (intros q; by apply (settle_last_promise q _ ps' Resolved)).
    destruct e; try done; unfold tidy_modal; press; rewrite ?lookup_last; unfold _resolve, _reject; rewrite ?Hs; cbn [close modal promises resolver]; try by exists ps'.
    all: apply Forall_app; split; [done|by repeat constructor].
Qed.

Lemma tidy_modal_history es s : tidy_modal s → orderly s es = true → tidy_modal (fold_left step es s).
Proof.
  revert s. induction es as [|e es IH]; intros s Hs Ho; [done|]. cbn [orderly] in Ho.
  apply andb_true_iff in Ho as [H1 H2]. apply IH; [|done]. apply tidy_modal_step; [done|by destruct e].
Qed.

Lemma tidy_pending s i : tidy_modal s → promises s !! i = Some Pending →
  ∃ d ps, s = mkState (confirming d) (Some i) (ps ++ [Pending]) ∧ i = length ps.
Proof.
  intros Ht Hi.
  assert (∀ ps, Forall (λ p, p ≠ Pending) ps → ps !! i ≠ Some Pending) as Hf.
  { intros ps Hf Hp. rewrite Forall_forall in Hf. by apply list_elem_of_lookup_2, Hf in Hp. }
  destruct s as [[|d|d|d msg] r ps]; unfold tidy_modal in Ht; cbn [modal promises resolver] in *;
    [by apply Hf in Hi| |..];
    [destruct Ht as (ps' & p & -> & -> & Hps & _)|destruct Ht as (ps' & -> & -> & Hps)..];
    apply lookup_snoc_Some in Hi as [[_ Hi]|[-> Hi]]; try (by apply Hf in Hi); try discriminate Hi.
  subst p. eauto.
Qed.

Lemma tidy_retry s : tidy_modal s → isError s = true → step s ClickRetry = s.
Proof.
  intros Ht He. cbn [step]. rewrite He. destruct s as [[|d|d|d msg] r ps]; try discriminate He.
  destruct Ht as (ps' & Hp & Hr & _). cbn [promises resolver] in *. subst. unfold _resolve. f_equal.
  by apply (settle_last_promise Resolved _ ps' Resolved).
Qed.
End modal.

(** The confirmation dialog, as long as a confirmation is only asked for while none is
    shown: every promise but the one on screen is settled, that one is open at most until the
    visitor confirms, and once the transaction has failed the Retry button changes nothing:
    the promise it settles was settled before, and nobody waits for it. *)
Theorem modal_settles_promises es :
  TxModal.orderly TxModal.initial es = true →
  let s := TxModal.history es in
  (∀ i, TxModal.promises s !! i = Some TxModal.Pending →
     S i = length (TxModal.promises s) ∧ TxModal.resolver s = Some i ∧
     ∃ d, TxModal.modal s = TxModal.confirming d) ∧
  (∀ i, TxModal.resolver s = Some i → TxModal.promises s !! i = Some TxModal.Pending →
     TxModal.promises (TxModal.step s TxModal.ClickConfirm) !! i = Some TxModal.Resolved ∧
     TxModal.promises (TxModal.step s TxModal.Escape) !! i = Some TxModal.Cancelled) ∧
  (TxModal.isError s = true → TxModal.step s TxModal.ClickRetry = s).
Proof.
  intros Ho s. assert (tidy_modal s) as Ht by (apply tidy_modal_history; [by constructor|done]).
  split_and!.
  - intros i Hi. destruct (tidy_pending s i Ht Hi) as (d & ps & -> & ->). cbn. rewrite length_app.
    split_and!; [cbn; lia|done|by exists d].
  - intros i _ Hi. destruct (tidy_pending s i Ht Hi) as (d & ps & -> & ->). cbn.
    rewrite lookup_last. split; apply list_lookup_insert_eq; rewrite length_app; cbn; lia.
  - by apply tidy_retry.
Qed.

(** ** Lemmas and theorems on the contract calls *)

Section calls.
Import Calls.

Definition won (o : option (outcome unit)) : bool := match o with Some (Ret _) => true | _ => false end.

(** All calls but the last have failed; the last one is what the status says. *)
Definition tidy_calls (s : state) : Prop :=
  match status_of s with
  | submitting => ∃ cs, sent s = cs ++ [None] ∧ Forall (λ o, ∃ e, o = Some (Throw e)) cs
  | succeeded => ∃ cs u, sent s = cs ++ [Some (Ret u)] ∧ Forall (λ o, ∃ e, o = Some (Throw e)) cs
  | _ => Forall (λ o, ∃ e, o = Some (Throw e)) (sent s)
  end.

Lemma tidy_call client s : tidy_calls s → status_of s ≠ submitting → status_of s ≠ succeeded →
  tidy_calls (call client s).
Proof.
  unfold tidy_calls, call. destruct (status_of s); intros Ht H1 H2; try done; destruct client; cbn; eauto.
Qed.

Lemma failed_settled (cs : list (option (outcome unit))) i :
  Forall (λ o, ∃ e, o = Some (Throw e)) cs → cs !! i ≠ Some None.
Proof.
  intros Hf Hi. rewrite Forall_forall in Hf. apply list_elem_of_lookup_2, Hf in Hi as [e He]. done.
Qed.

Lemma tidy_settle i o s : tidy_calls s → tidy_calls (settle i o s).
Proof.
  intros Ht. unfold settle. destruct (sent s !! i) as [[r|]|] eqn:Ei; [done| |done].
  unfold tidy_calls in Ht. destruct (status_of s);
    try (by apply failed_settled in Ei);
    [destruct Ht as (cs & Hc & Hf)|destruct Ht as (cs & u & Hc & Hf)];
    rewrite Hc in Ei |- *; apply lookup_snoc_Some in Ei as [[_ Ei]|[-> Ei]]; try (by apply failed_settled in Ei);
    try discriminate Ei.
  rewrite insert_app_r_alt, Nat.sub_diag by lia. destruct o as [u|e]; cbn.
  - by exists cs, u.
  - apply Forall_app. split; [done|]. constructor; [by exists e|done].
Qed.

Lemma tidy_withdraw client s e : tidy_calls s → tidy_calls (withdraw_step client s e).
Proof.
  intros Ht. destruct e; cbn [withdraw_step].
  - unfold confirmWithdraw. destruct (status_of s) eqn:E; try done. by apply tidy_call; [|rewrite E..].
  - unfold tidy_calls in *. destruct (status_of s) eqn:E; cbn; rewrite ?E; done.
  - unfold tidy_calls in *. destruct (status_of s) eqn:E; cbn; rewrite ?E; done.
  - by apply tidy_settle.
Qed.

Lemma tidy_apply client reason s e : tidy_calls s → tidy_calls (apply_step client reason s e).
Proof.
  intros Ht. destruct e; cbn [apply_step]; [|done|done|by apply tidy_settle].
  unfold apply. destruct (status_of s) eqn:E; try done; destruct reason; try done; by apply tidy_call; [|rewrite E..].
Qed.

Definition failed (o : option (outcome unit)) : Prop := ∃ e, o = Some (Throw e).

Lemma failed_not_won (cs : list (option (outcome unit))) : Forall failed cs →
  filter (λ o, won o = true) cs = [] ∧ (∀ o, o ∈ cs → won o = false ∧ o ≠ None).
Proof.
  induction 1 as [|o cs [e ->] Hf [IH1 IH2]]; [by split; [|set_solver]|]. split.
  - by rewrite filter_cons_False by done.
  - intros o [->|Ho]%elem_of_cons; [done|by apply IH2].
Qed.

Lemma tidy_once s : tidy_calls s →
  (∀ i, sent s !! i = Some None → S i = length (sent s)) ∧
  (length (filter (λ o, won o = true) (sent s)) ≤ 1)%nat ∧
  (status_of s = succeeded ↔ ∃ o, o ∈ sent s ∧ won o = true) ∧
  (status_of s = submitting ↔ None ∈ sent s).
Proof.
  intros Ht.
  assert (∃ cs last, sent s = cs ++ last ∧ Forall failed cs ∧
    ((last = [] ∧ status_of s ≠ succeeded ∧ status_of s ≠ submitting) ∨
     (last = [None] ∧ status_of s = submitting) ∨
     ∃ u, last = [Some (Ret u)] ∧ status_of s = succeeded)) as (cs & last & -> & Hf & Hl).
  { unfold tidy_calls in Ht. destruct (status_of s);
      [exists (sent s), []|exists (sent s), []|destruct Ht as (cs & -> & Hf); exists cs, [None]
      |destruct Ht as (cs & u & -> & Hf); exists cs, [Some (Ret u)]|exists (sent s), []];
      rewrite ?app_nil_r; split_and!; eauto 6. }
  destruct (failed_not_won cs Hf) as [Hn Ho]. rewrite filter_app, Hn. cbn [app].
  split_and!.
  - intros i [Hi|[Hi1 Hi2]]%lookup_app_Some.
    + by apply list_elem_of_lookup_2, Ho in Hi as [_ ?].
    + destruct Hl as [(-> & _)|[(-> & _)|(u & -> & _)]]; [done| |by destruct (i - length cs)%nat].
      rewrite length_app. cbn. apply lookup_lt_Some in Hi2. cbn in Hi2. lia.
  - destruct Hl as [(-> & _)|[(-> & _)|(u & -> & _)]]; by apply Nat.leb_le.
  - split.
    + intros E. destruct Hl as [(-> & ? & _)|[(-> & ?)|(u & -> & _)]]; [congruence..|].
      exists (Some (Ret u)). set_solver.
    + intros (o & Hin & Hw). apply elem_of_app in Hin as [Hin|Hin].
      { apply Ho in Hin as [? _]. congruence. }
      destruct Hl as [(-> & _)|[(-> & _)|(u & -> & E)]]; [set_solver| |done].
      apply list_elem_of_singleton in Hin. by subst.
  - split.
    + intros E. destruct Hl as [(-> & _ & ?)|[(-> & ?)|(u & -> & ?)]]; [congruence|set_solver|congruence].
    + intros [Hin|Hin]%elem_of_app; [by apply Ho in Hin as [_ ?]|].
      destruct Hl as [(-> & _)|[(-> & E)|(u & -> & E)]]; [set_solver|done|].
      by apply list_elem_of_singleton in Hin.
Qed.
End calls.

(** A button that applies, and one that withdraws, sends at most one call to the contract at
    a time and stops after the first that succeeds, whatever is clicked and whatever comes
    back: a call that is not settled is the last one, the busy state is exactly that, and the
    button says it is done exactly when a call has succeeded. *)
Theorem buttons_call_once (client reason : bool) (es : list Calls.event) s :
  s = fold_left (Calls.apply_step client reason) es Calls.initial ∨
  s = fold_left (Calls.withdraw_step client) es Calls.initial →
  (∀ i, Calls.sent s !! i = Some None → S i = length (Calls.sent s)) ∧
  (length (filter (λ o, won o = true) (Calls.sent s)) ≤ 1)%nat ∧
  (Calls.status_of s = Calls.succeeded ↔ ∃ o, o ∈ Calls.sent s ∧ won o = true) ∧
  (Calls.status_of s = Calls.submitting ↔ None ∈ Calls.sent s).
Proof.
  intros Hs. apply tidy_once. assert (tidy_calls Calls.initial) as H0 by constructor.
  destruct Hs as [-> | ->]; revert H0; generalize Calls.initial;
    induction es as [|e es IH]; intros s H0; [done| |done|]; apply IH;
    [by apply tidy_apply|by apply tidy_withdraw].
Qed.

(** ** The dashboard and the transaction routes *)

(** What the dashboard knows of a withdrawal is what the schema of the route asks for. *)
Record presentable (key org seq : string) (n : Z) : Prop := {
  pr_key : 50 ≤ strlen key ≤ 56; pr_base32 : matches_G_base32 key = true;
  pr_org : 1 ≤ strlen org ≤ 256; pr_issue : 0 < n; pr_seq : sequence_ok seq = true;
}.

Definition withdraw_body (key org seq : string) (n : Z) : json :=
  obj [("contributor", Some (JStr key)); ("org_id", Some (JStr org));
       ("issue_id", Some (jint n)); ("sequence", Some (JStr seq))].

Lemma build_body_row row key org seq n : 0 ≤ n →
  prop "issue_id" row = Some (jint n) → prop "org_id" row = Some (JStr org) →
  Withdraw.build_body key (Withdraw.row_target row) (Some (JStr seq)) = withdraw_body key org seq n.
Proof.
  intros Hn Hi Ho. unfold Withdraw.build_body, Withdraw.row_target. rewrite Hi, Ho.
  cbn [Withdraw.orgId Withdraw.issueId default id js_String]. 
  by rewrite js_String_jint, number_json_pretty.
Qed.

Lemma withdraw_body_valid key org seq n : presentable key org seq n →
  parse withdrawSchema (Some (withdraw_body key org seq n)) = Some (Some (withdraw_body key org seq n)).
Proof.
  intros [[H1 H2] H3 [H4 H5] H6 H7]. unfold withdrawSchema. cbn.
  apply Z.leb_le in H1, H2, H4, H5. apply Z.ltb_lt in H6. rewrite H1, H2, H3, H4, H5, H6, H7.
  unfold jnum_is_int. change (pow10 0) with 1. by rewrite Z.mod_1_r.
Qed.

(** What the build routes answer, and what the page makes of it. *)
Lemma build_asks_signature {N} `{Rpc N} key t (b : outcome Tx) (w : world (tx_state N)) :
  ∃ res w', buildAndSimulate b w = (Ret res, w') ∧
    Withdraw.advance true key t Withdraw.AtBuild (Withdraw.Fetched (reply_of res)) =
    match b with
    | Throw e => Throw (Error (error_message "transaction simulation failed" e))
    | Ret tx =>
        match fst (on_chain (simulate tx) w) with
        | Throw e => Throw (Error (error_message "transaction simulation failed" e))
        | Ret _ => Ret (Some (Withdraw.Sign (Some (JStr (toXDR tx))) key, Withdraw.AtSign))
        end
    end.
Proof.
  unfold buildAndSimulate. destruct b as [tx|e]; cbn [lift].
  - unfold try_catch. destruct (on_chain (simulate tx) w) as [[est|e] w'] eqn:E; cbn [fst].
    + erewrite bind_intro by done. erewrite bind_intro by exact E. by eexists _, _.
    + erewrite bind_intro by done. erewrite bind_throw by exact E. by eexists _, _.
  - unfold try_catch. erewrite bind_throw by done. by eexists _, _.
Qed.

(** C24: A withdrawal confirmed on the dashboard reaches the backend as the withdrawal of exactly
    the application of that row: the body the page sends passes validation, the route builds
    [withdraw_application] for this contributor, organisation and issue with the sequence
    number of the account, and what the wallet is then asked to sign is that transaction; if
    building or simulating it fails, the page says why. *)
Theorem dashboard_withdrawal {N} `{Rpc N} `{Zod} row key org seq n r w :
  presentable key org seq n →
  prop "issue_id" row = Some (jint n) → prop "org_id" row = Some (JStr org) →
  req_body r = Some (Withdraw.build_body key (Withdraw.row_target row) (Some (JStr seq))) →
  ∃ res w', post_withdraw (N := N) r w = (Ret (Respond res), w') ∧
    Withdraw.advance true key (Withdraw.row_target row) Withdraw.AtBuild
      (Withdraw.Fetched (reply_of res)) =
    match buildWithdrawTx key org (Fin n) seq with
    | Throw e => Throw (Error (error_message "transaction simulation failed" e))
    | Ret tx =>
        match fst (on_chain (simulate tx) w) with
        | Throw e => Throw (Error (error_message "transaction simulation failed" e))
        | Ret _ => Ret (Some (Withdraw.Sign (Some (JStr (toXDR tx))) key, Withdraw.AtSign))
        end
    end.
Proof.
  intros Hp Hi Ho Hr. pose proof (pr_issue _ _ _ _ Hp) as Hn.
  rewrite (build_body_row _ _ org _ n) in Hr by (done || lia).
  assert (validateBody withdrawSchema r = Next (set_body (withdraw_body key org seq n) r) []) as Hv.
  { unfold validateBody. rewrite Hr. by rewrite (safeParse_success _ _ _ (withdraw_body_valid _ _ _ _ Hp)). }
  destruct (build_asks_signature key (Withdraw.row_target row) (buildWithdrawTx key org (Fin n) seq) w)
    as (res & w' & Hb & Ha).
  exists res, w'. split; [|exact Ha]. unfold post_withdraw, route. cbn [dispatch].
  erewrite bind_intro by exact (f_equal (λ v, (Ret v, w)) Hv). cbv beta iota.
  assert (withdraw_handler (N := N) (set_body (withdraw_body key org seq n) r) w = (Ret res, w')) as Hh.
  { rewrite <- Hb. unfold withdraw_handler. f_equal. f_equal. unfold number_prop, body_prop. cbn.
    unfold jnum_is_int, jnum_int. change (pow10 0) with 1. by rewrite Z.mod_1_r, Z.div_1_r. }
  erewrite bind_intro; [|erewrite bind_intro; [|by erewrite bind_intro by exact Hh]; reflexivity].
  by destruct res.
Qed.

(** ** Smaller facts *)

(** Removing a row by its issue number also hides the same number of other organisations. *)
Lemma removal_by_number n l a m : 0 ≤ n → prop "issue_id" a = Some (jint m) →
  a ∈ Withdraw.removeApplication (js_String (jint n)) l ↔ a ∈ l ∧ m ≠ n.
Proof.
  intros Hn Hm. unfold Withdraw.removeApplication. rewrite js_String_jint by done.
  destruct (pretty_digits n Hn) as (Hd & Hv & Hne & _). rewrite js_Number_digits, Hv by done.
  rewrite list_elem_of_filter, Hm. cbn. change (pow10 0) with 1. rewrite !Z.mul_1_r, Z.eqb_neq.
  naive_solver lia.
Qed.

(** The countdown of less than a day reads back as the seconds that are left. *)
Lemma countdown_parts t : 0 < t < 86400 →
  ∃ h m s, Ttl.formatCountdown t =
    Ttl.padStart2 h +:+ "h " +:+ Ttl.padStart2 m +:+ "m " +:+ Ttl.padStart2 s +:+ "s" ∧
    t = 3600 * h + 60 * m + s ∧ 0 ≤ h < 24 ∧ 0 ≤ m < 60 ∧ 0 ≤ s < 60.
Proof.
  intros [H1 H2]. unfold Ttl.formatCountdown. replace (t <=? 0) with false by lia.
  rewrite (Z.div_small t 86400), (Z.mod_small t 86400) by lia. cbn [Z.ltb Z.compare].
  eexists _, _, _. split; [done|]. pose proof (Z.div_mod t 3600 ltac:(lia)).
  pose proof (Z.div_mod (t mod 3600) 60 ltac:(lia)). pose proof (Z.mod_pos_bound t 3600 ltac:(lia)).
  pose proof (Z.mod_pos_bound t 60 ltac:(lia)). pose proof (Z.mod_pos_bound (t mod 3600) 60 ltac:(lia)).
  assert (t mod 60 = (t mod 3600) mod 60) as E.
  { rewrite (Z.div_mod t 3600) at 1 by lia. replace (3600 * (t / 3600)) with (t / 3600 * 60 * 60) by lia.
    by rewrite Z.add_comm, Z.mod_add by lia. }
  repeat split; lia || (apply Z.div_pos; lia) || (apply Z.div_lt_upper_bound; lia) || (rewrite E; lia).
Qed.

(** ** Concrete runs *)

Definition demo_target : Withdraw.target := Withdraw.mkTarget "42" "Fix it" "org".
Definition demo_answers : list Withdraw.settled :=
  [Withdraw.Fetched (Answered 200 (Some (obj [("sequence", Some (JStr "7"))])));
   Withdraw.Fetched (Answered 200 (Some (obj [("xdr", Some (JStr "AAAA"))])));
   Withdraw.Signed (Ret (obj [("signedTxXdr", Some (JStr "BBBB"))]));
   Withdraw.Fetched (Answered 200 (Some (obj [("hash", Some (JStr "00"))])))].
Definition demo_clicks : list Withdraw.event := [Withdraw.Initiate demo_target; Withdraw.Confirm].

Example demo_withdrawal :
  Withdraw.calls (Withdraw.history (Some "GA") true
    (demo_clicks ++ (Withdraw.Settle 0 <$> demo_answers))) =
  [Withdraw.GetAccount "GA";
   Withdraw.Build (obj [("contributor", Some (JStr "GA")); ("org_id", Some (JStr "org"));
                        ("issue_id", Some (jint 42)); ("sequence", Some (JStr "7"))]);
   Withdraw.Sign (Some (JStr "AAAA")) "GA"; Withdraw.Submit (obj [("signed_xdr", Some (JStr "BBBB"))]);
   Withdraw.OnSuccess "42"].
Proof. reflexivity. Qed.


Lemma withdrawal_ends_witness :
  ended_since (Withdraw.history (Some "GA") true demo_clicks)
    (fold_left (Withdraw.step (Some "GA") true) (Withdraw.Settle 0 <$> demo_answers)
       (Withdraw.history (Some "GA") true demo_clicks)).
Proof.
  exact (withdrawal_ends (Some "GA") true "GA" demo_clicks
    (Answered 200 (Some (obj [("sequence", Some (JStr "7"))])))
    (Answered 200 (Some (obj [("xdr", Some (JStr "AAAA"))])))
    (Ret (obj [("signedTxXdr", Some (JStr "BBBB"))]))
    (Answered 200 (Some (obj [("hash", Some (JStr "00"))]))) eq_refl eq_refl).
Defined.

Definition demo_application : json :=
  obj [("org_id", Some (JStr "org")); ("issue_id", Some (jint 42)); ("title", Some (JStr "Fix it"))].

Lemma dashboard_withdrawal_witness :
  ∃ res w', post_withdraw (N := unit) (H := open_rpc)
    (Request [] [] [] (Some (withdraw_body alice "org" "7" 42)) None) (World demo_tx_state []) =
      (Ret (Respond res), w').
Proof.
  assert (presentable alice "org" "7" 42) as Hp by (constructor; vm_compute; try done; by split).
  destruct (dashboard_withdrawal (H := open_rpc) demo_application alice "org" "7" 42
    (Request [] [] [] (Some (withdraw_body alice "org" "7" 42)) None)
    (World demo_tx_state []) Hp eq_refl eq_refl eq_refl) as (res & w' & H & _).
  exact (ex_intro _ res (ex_intro _ w' H)).
Defined.

Definition demo_details : TxModal.details := TxModal.mkDetails "Apply" "org" "100" "testnet" false None.

Lemma modal_settles_promises_witness :
  let s := TxModal.history [TxModal.Ask demo_details; TxModal.ClickConfirm; TxModal.Proceed;
                            TxModal.Fail "rejected"] in
  TxModal.isError s = true ∧ TxModal.step s TxModal.ClickRetry = s.
Proof.
  destruct (modal_settles_promises [TxModal.Ask demo_details; TxModal.ClickConfirm; TxModal.Proceed;
    TxModal.Fail "rejected"] eq_refl) as (_ & _ & H).
  split; [reflexivity|exact (H eq_refl)].
Defined.

(** A second confirmation asked for too early leaves the first one open for ever. *)
Example overlapping_confirmations :
  TxModal.promises (TxModal.history [TxModal.Ask demo_details; TxModal.Ask demo_details;
    TxModal.ClickConfirm; TxModal.Proceed; TxModal.Finish]) = [TxModal.Pending; TxModal.Resolved].
Proof. reflexivity. Qed.

Lemma buttons_call_once_witness :
  let s := fold_left (Calls.apply_step true false)
             [Calls.Click; Calls.Click; Calls.Settle 0 (Ret ()); Calls.Click] Calls.initial in
  Calls.sent s = [Some (Ret ())] ∧ Calls.status_of s = Calls.succeeded.
Proof.
  destruct (buttons_call_once true false [Calls.Click; Calls.Click; Calls.Settle 0 (Ret ()); Calls.Click]
    _ (or_introl eq_refl)) as (_ & _ & [_ H] & _).
  split; [reflexivity|]. apply H. exists (Some (Ret ())). split; [left|reflexivity].
Defined.

(** A card that applied and withdrew keeps its button to apply disabled. *)
Example card_applied_sticky :
  let s := fold_left (Card.step None false)
             [Card.Apply; Card.Settle (Ret ()); Card.Withdraw; Card.Settle (Ret ())]
             (Card.mkState false false None None) in
  Card.busy s = false ∧ Card.step None false s Card.Apply = s.
Proof. split; reflexivity. Qed.

Example relative_time :
  Card.formatRelativeTime 1784548800123 "2026-07-20T10:58:00Z" = "1 hour ago" ∧
  Card.formatRelativeTime 1784548800123 "soon" = "NaN months ago".
Proof. split; reflexivity. Qed.
