(* ===== verification/Forms.v ===== *)
(** * The forms of the frontend

    The validators of [formValidation.ts] with the three forms of [TransactionForms.tsx], the
    wizard of [RegisterOrgPage.tsx] composed with [POST /api/admin/orgs], and the form of
    [OrgManagementPage.tsx]. *)

From Stdlib Require Import String Ascii.
From S2P Require Import Prelude Js Decimal Url Http Validation Db Soroban Xdr Admin Browser Client.

#[local] Open Scope string_scope.
#[local] Open Scope list_scope.
#[local] Open Scope Z_scope.

(** [/^G[A-Z2-7]{lo,hi}$/]. *)
Definition G_base32 (lo hi : nat) (s : string) : bool :=
  match lst s with
  | "G"%char :: l => forallb is_base32 l && (lo <=? length l)%nat && (length l <=? hi)%nat
  | _ => false
  end.

Module Fields.

(** A validator returns the message of what is wrong. *)
Definition validator := string → option string.

Definition STELLAR_PK_RE : string → bool := G_base32 55 55.

Definition validateStellarAddress : validator := λ value,
  let v := trim value in
  if String.eqb v "" then Some "Contributor address is required." else
  if STELLAR_PK_RE v then None
  else Some "Address must be a valid Stellar public key (starts with G, 56 characters).".

Definition validateIssueId : validator := λ value,
  let v := trim value in
  if String.eqb v "" then Some "Issue ID is required." else
  let n := js_Number v in
  if numval_is_int n && numval_pos n then None else Some "Issue ID must be a positive integer.".

Definition validateIssueIdNotApplied (appliedIds : list string) : validator := λ value,
  match validateIssueId value with
  | Some base => Some base
  | None => if existsb (String.eqb (trim value)) appliedIds
            then Some "You have already applied for this issue." else None
  end.

Definition validateOrgId : validator := λ value,
  if String.eqb (trim value) "" then Some "Organisation ID is required." else None.

Definition validateOrgIdRegistered (registeredOrgs : list string) : validator := λ value,
  match validateOrgId value with
  | Some base => Some base
  | None =>
      match registeredOrgs with
      | [] => None
      | _ => if existsb (String.eqb (trim value)) registeredOrgs then None
             else Some "This organisation is not registered in WorkloadGovernor."
      end
  end.

Record CapStatus := mkCap { globalSlotsRemaining : Z; orgSlotsRemaining : Z }.

Definition validateCapStatus (cap : CapStatus) : option string :=
  if globalSlotsRemaining cap <=? 0 then
    Some "You have reached the global application limit (15 pending applications). Withdraw an existing application before applying for a new one."
  else if orgSlotsRemaining cap <=? 0 then
    Some "You have reached the organisation assignment limit (4 active assignments). Complete or revoke an assignment before applying in this org."
  else None.

End Fields.

Module TxForm.

(** A form is its validators, in the order of its fields, and what blocks it as a whole. *)
Record form := mkForm { validators : list Fields.validator; blocked : option string }.

Definition ApplyForm (appliedIssueIds registeredOrgs : list string)
    (capStatus : option Fields.CapStatus) : form :=
  mkForm [Fields.validateOrgIdRegistered registeredOrgs;
          Fields.validateIssueIdNotApplied appliedIssueIds]
    (capStatus ≫= Fields.validateCapStatus).

Definition AssignForm (registeredOrgs : list string) : form :=
  mkForm [Fields.validateStellarAddress; Fields.validateOrgIdRegistered registeredOrgs;
          Fields.validateIssueIdNotApplied []] None.

Definition CompleteForm (registeredOrgs : list string) : form :=
  mkForm [Fields.validateStellarAddress; Fields.validateOrgIdRegistered registeredOrgs;
          Fields.validateIssueIdNotApplied []] None.

(** [sent]: what [onSubmit] was called with. *)
Record state := mkState {
  values : list string; touched : list bool; busy : bool; submitted : bool;
  sent : list (list string);
}.

Definition initial (f : form) : state :=
  mkState ((λ _, "") <$> validators f) ((λ _, false) <$> validators f) false false [].

Definition problems (f : form) (values : list string) : list (option string) :=
  zip_with (λ (v : Fields.validator) x, v x) (validators f) values.

Definition isValid (f : form) (s : state) : bool :=
  forallb (λ e, match e with None => true | Some _ => false end) (problems f (values s)) &&
  match blocked f with None => true | Some _ => false end.

(** The error under each field. *)
Definition shown_errors (f : form) (s : state) : list (option string) :=
  zip_with (λ (t : bool) e, if t || submitted s then e else None) (touched s)
    (problems f (values s)).

Inductive event := Change (i : nat) (v : string) | Blur (i : nat) | Submit | Settle.

(** The button is disabled, and with it the form, while [busy] or blocked. *)
Definition step (f : form) (s : state) (e : event) : state :=
  match e with
  | Change i v => mkState (<[i := v]> (values s)) (touched s) (busy s) (submitted s) (sent s)
  | Blur i => mkState (values s) (<[i := true]> (touched s)) (busy s) (submitted s) (sent s)
  | Submit =>
      if busy s || match blocked f with Some _ => true | None => false end then s else
      if isValid f s
      then mkState (values s) (touched s) true true (sent s ++ [trim <$> values s])
      else mkState (values s) (touched s) (busy s) true (sent s)
  | Settle => mkState (values s) (touched s) false (submitted s) (sent s)
  end.

End TxForm.

Module Wizard.

Inductive GithubCheckStatus := idle | checking | found | not_found | failed.

Definition STELLAR_RE : string → bool := G_base32 54 55.
Definition isValidStellarAddress (addr : string) : bool := STELLAR_RE (trim addr).

Definition stepLabel (step : Z) : string :=
  if step =? 1 then "GitHub Org" else if step =? 2 then "Maintainers"
  else if step =? 3 then "Cap" else "Review".

Definition capDescription (cap : Z) : string :=
  let n := pretty cap in
  if cap <=? 3 then "Very strict — contributors can only hold up to " +:+ n +:+ " active assignment(s) per org. Ideal for tightly-scoped sprints."
  else if cap <=? 7 then "Balanced — contributors hold up to " +:+ n +:+ " assignments. Good for medium-sized orgs with steady issue flow."
  else if cap <=? 12 then "Generous — contributors can juggle " +:+ n +:+ " tasks simultaneously. Best for large orgs with many parallel work streams."
  else "Maximum — " +:+ n +:+ " concurrent assignments. Reserve for high-trust contributors or orgs with exceptional throughput.".

(** How the review shows the key. *)
Definition bullets (n : nat) : string := String.concat "" (replicate n "•").
Definition masked (apiKey : string) : string :=
  if 8 <? strlen apiKey
  then slice_to 4 apiKey +:+ bullets (length (lst apiKey) - 8) +:+ slice_last 4 apiKey
  else bullets (length (lst apiKey)).

(** [fetch] of the organisation at GitHub. *)
Definition defaultCheckGitHubOrg (r : reply) : GithubCheckStatus :=
  match r with
  | Answered code _ => if code =? 200 then found else if code =? 404 then not_found else failed
  | Rejected _ => failed
  end.

Definition admin_key : string := "wg_admin_api_key".

(** [timer]: the name the debounce waits to check; [checks]: the names being checked. *)
Record wizard := mkWizard {
  apiKey : string; keyError : string; storage : Browser.storage;
  step_no : Z; orgId : string; githubStatus : GithubCheckStatus;
  timer : option string; checks : list (option string);
  input : string; addError : string; maintainers : list string;
  cap : Z; capError : string;
  submitting : bool; submitError : option string; location : option string;
}.

Definition initial (st : Browser.storage) : wizard :=
  mkWizard (default "" (getItem admin_key st)) "" st 1 "" idle None [] "" "" [] 4 "" false None None.

(** Changing one part of the state. *)
Definition with_key (k e : string) (st : Browser.storage) (s : wizard) : wizard :=
  mkWizard k e st (step_no s) (orgId s) (githubStatus s) (timer s) (checks s) (input s) (addError s)
    (maintainers s) (cap s) (capError s) (submitting s) (submitError s) (location s).
Definition with_org (o : string) (g : GithubCheckStatus) (t : option string)
    (cs : list (option string)) (s : wizard) : wizard :=
  mkWizard (apiKey s) (keyError s) (storage s) (step_no s) o g t cs (input s) (addError s)
    (maintainers s) (cap s) (capError s) (submitting s) (submitError s) (location s).
(** Another step: the input, the errors of the steps are new. *)
Definition at_step (n : Z) (s : wizard) : wizard :=
  mkWizard (apiKey s) (keyError s) (storage s) n (orgId s) (githubStatus s) (timer s) (checks s) "" ""
    (maintainers s) (cap s) "" (submitting s) (submitError s) (location s).
Definition with_maintainers (i e : string) (l : list string) (s : wizard) : wizard :=
  mkWizard (apiKey s) (keyError s) (storage s) (step_no s) (orgId s) (githubStatus s) (timer s)
    (checks s) i e l (cap s) (capError s) (submitting s) (submitError s) (location s).
Definition with_cap (n : Z) (e : string) (s : wizard) : wizard :=
  mkWizard (apiKey s) (keyError s) (storage s) (step_no s) (orgId s) (githubStatus s) (timer s)
    (checks s) (input s) (addError s) (maintainers s) n e (submitting s) (submitError s) (location s).
Definition with_submission (b : bool) (e : option string) (l : option string) (s : wizard) : wizard :=
  mkWizard (apiKey s) (keyError s) (storage s) (step_no s) (orgId s) (githubStatus s) (timer s)
    (checks s) (input s) (addError s) (maintainers s) (cap s) (capError s) b e l.

Definition handleSaveKey (keyInput : string) (s : wizard) : wizard :=
  let k := trim keyInput in
  if String.eqb k "" then with_key (apiKey s) "API key cannot be empty" (storage s) s
  else with_key k "" (setItem admin_key k (storage s)) s.

(** Without a key the step is unmounted: its input and its errors are new when it comes back. *)
Definition clearKey (s : wizard) : wizard :=
  at_step (step_no s) (with_key "" (keyError s) (removeItem admin_key (storage s)) s).

Definition handleOrgIdChange (value : string) (s : wizard) : wizard :=
  let trimmed := trim value in
  if String.eqb trimmed "" then with_org value idle None (checks s) s
  else with_org value checking (Some trimmed) (checks s) s.

Definition handleAdd (s : wizard) : wizard :=
  let addr := trim (input s) in
  if String.eqb addr "" then with_maintainers (input s) "Address cannot be empty" (maintainers s) s else
  if negb (isValidStellarAddress addr) then
    with_maintainers (input s) "Invalid Stellar address — must start with G and be 56 characters"
      (maintainers s) s
  else if existsb (String.eqb addr) (maintainers s) then
    with_maintainers (input s) "This address has already been added" (maintainers s) s
  else with_maintainers "" "" (maintainers s ++ [addr]) s.

Definition handleCap (raw : string) (s : wizard) : wizard :=
  match parseInt raw with
  | NaN => with_cap (cap s) "Cap must be a number" s
  | Fin n =>
      if (n <? 1) || (20 <? n)
      then with_cap (Z.max 1 (Z.min 20 n)) "Cap must be between 1 and 20" s
      else with_cap n "" s
  end.

Definition body (s : wizard) : json :=
  obj [("org_id", Some (JStr (orgId s))); ("maintainers", Some (JArr (JStr <$> maintainers s)));
       ("cap", Some (jint (cap s)))].
Definition authorization (s : wizard) : string := "Bearer " +:+ apiKey s.

(** [handleSubmit], after its request. *)
Definition settle (r : reply) (s : wizard) : wizard :=
  match r with
  | Rejected e => with_submission false (Some (error_message "Network error" e)) (location s) s
  | Answered code b =>
      if (code =? 401) || (code =? 403) then
        clearKey (with_submission false
          (Some "Invalid or expired API key. Please update your key.") (location s) s)
      else if negb (ok code) then
        with_submission false
          (Some (error_message "Network error"
                   (error_of_body ("Server error (" +:+ pretty code +:+ ")") b))) (location s) s
      else with_submission false (submitError s) (Some ("/orgs/" +:+ encodeURIComponent (orgId s))) s
  end.

Inductive event :=
  | TypeKey | SaveKey (keyInput : string) | ClearKey
  | TypeOrg (v : string) | TimerFires | CheckSettles (i : nat) (g : GithubCheckStatus)
  | TypeAddress (v : string) | Add | Remove (addr : string)
  | TypeCap (raw : string) | Next | Back | Submit | Answer (r : reply).

Definition authenticated (s : wizard) : bool := 0 <? strlen (apiKey s).

(** Only the step on screen takes input, and none does without a key. *)
Definition on (n : Z) (s : wizard) : bool := authenticated s && (step_no s =? n).

Definition can_go_on (s : wizard) : bool :=
  if step_no s =? 1 then match githubStatus s with found => true | _ => false end
  else if step_no s =? 2 then match maintainers s with [] => false | _ => true end
  else if step_no s =? 3 then String.eqb (capError s) ""
  else false.

Definition step (s : wizard) (e : event) : wizard :=
  match e with
  | TypeKey => if authenticated s then s else with_key (apiKey s) "" (storage s) s
  | SaveKey k => if authenticated s then s else handleSaveKey k s
  | ClearKey => if authenticated s then clearKey s else s
  | TypeOrg v => if on 1 s then handleOrgIdChange v s else s
  | TimerFires =>
      match timer s with
      | Some name => with_org (orgId s) (githubStatus s) None (checks s ++ [Some name]) s
      | None => s
      end
  | CheckSettles i g =>
      match checks s !! i with
      | Some (Some _) => with_org (orgId s) g (timer s) (<[i := None]> (checks s)) s
      | _ => s
      end
  | TypeAddress v => if on 2 s then with_maintainers v "" (maintainers s) s else s
  | Add => if on 2 s then handleAdd s else s
  | Remove a => if on 2 s then with_maintainers (input s) (addError s) (filter (λ b, b ≠ a) (maintainers s)) s else s
  | TypeCap raw => if on 3 s then handleCap raw s else s
  | Next => if authenticated s && can_go_on s then at_step (step_no s + 1) s else s
  | Back => if authenticated s && (1 <? step_no s) && negb ((step_no s =? 4) && submitting s)
            then at_step (step_no s - 1) s else s
  | Submit => if on 4 s && negb (submitting s) then with_submission true None (location s) s else s
  | Answer r => if submitting s then settle r s else s
  end.

Definition history (st : Browser.storage) (es : list event) : wizard := fold_left step es (initial st).

End Wizard.

Module OrgManagement.

Record state := mkState {
  maintainerAddress : string; orgId : string;
  addressError : option string; orgError : option string;
  isSubmitting : bool; statusMessage : option (string * string);
  maintainers : list json; isLoadingList : bool;
  registrations : list (string * string);  (** the calls of [onRegisterMaintainer] *)
}.

Definition initial : state := mkState "" "" None None false None [] true [].

Definition isAdmin (connectedWalletAddress adminAddress : string) : bool :=
  String.eqb (toUpperCase connectedWalletAddress) (toUpperCase adminAddress).

(** The pattern ignores case. *)
Definition validateStellarAddress (address : string) : bool := G_base32 54 55 (toUpperCase address).

Definition invalid_message : string :=
  "Invalid Stellar address. Must start with " +:+ quoted "G" +:+ " and be 56 characters long.".
Definition org_message : string := "Organization ID is required.".

Definition canSubmit (s : state) : bool :=
  negb (isSubmitting s) && match addressError s with None => true | _ => false end &&
  match orgError s with None => true | _ => false end &&
  negb (String.eqb (maintainerAddress s) "") && negb (String.eqb (orgId s) "") &&
  validateStellarAddress (maintainerAddress s).

Definition handleMaintainerAddressChange (value : string) (s : state) : state :=
  let val := trim value in
  mkState val (orgId s)
    (if negb (String.eqb val "") && negb (validateStellarAddress val) then Some invalid_message else None)
    (orgError s) (isSubmitting s) (statusMessage s) (maintainers s) (isLoadingList s) (registrations s).

Definition handleOrgIdChange (value : string) (s : state) : state :=
  let val := trim value in
  mkState (maintainerAddress s) val (addressError s)
    (if String.eqb val "" then Some org_message else None)
    (isSubmitting s) (statusMessage s) (maintainers s) (isLoadingList s) (registrations s).

(** [handleSubmit] up to its first [await]. *)
Definition handleSubmit (s : state) : state :=
  let bad_address := negb (validateStellarAddress (maintainerAddress s)) in
  let bad_org := String.eqb (orgId s) "" in
  let s' ok := mkState (maintainerAddress s) (orgId s)
    (if bad_address then Some invalid_message else addressError s)
    (if bad_org then Some org_message else orgError s)
    ok None (maintainers s) (isLoadingList s)
    (if ok then registrations s ++ [(maintainerAddress s, orgId s)] else registrations s) in
  s' (negb bad_address && negb bad_org).

(** After the call has settled; the list is asked for again after a success, and the form
    stays disabled until it is there. *)
Definition settle (address org : string) (o : outcome bool) (s : state) : state :=
  match o with
  | Ret true =>
      mkState "" "" (addressError s) (orgError s) true
        (Some ("success", "Successfully registered maintainer " +:+ slice_to 6 address +:+ "..." +:+
                          slice_last 4 address +:+ " for organization " +:+ quoted org +:+ "."))
        (maintainers s) true (registrations s)
  | Ret false =>
      mkState (maintainerAddress s) (orgId s) (addressError s) (orgError s) false
        (Some ("error", "Registration failed on contract. Verify admin authority."))
        (maintainers s) (isLoadingList s) (registrations s)
  | Throw _ =>
      mkState (maintainerAddress s) (orgId s) (addressError s) (orgError s) false
        (Some ("error", "Transaction error during maintainer registration."))
        (maintainers s) (isLoadingList s) (registrations s)
  end.

(** [loadMaintainers], once the list is there or failed. *)
Definition listed (o : outcome (list json)) (s : state) : state :=
  mkState (maintainerAddress s) (orgId s) (addressError s) (orgError s) (isSubmitting s)
    (statusMessage s) (match o with Ret l => l | Throw _ => maintainers s end) false (registrations s).

(** The same, awaited at the end of a successful registration. *)
Definition relisted (o : outcome (list json)) (s : state) : state :=
  let s' := listed o s in
  mkState (maintainerAddress s') (orgId s') (addressError s') (orgError s') false
    (statusMessage s') (maintainers s') (isLoadingList s') (registrations s').

End OrgManagement.

(** ** Lemmas *)

Lemma drop_ws_idem l : drop_ws (drop_ws l) = drop_ws l.
Proof. induction l as [|c l IH]; [done|]. cbn. destruct (is_ws c) eqn:E; [done|]. cbn. by rewrite E. Qed.

Lemma drop_ws_fixed c l : is_ws c = false → drop_ws (c :: l) = c :: l.
Proof. intros E. cbn. by rewrite E. Qed.

Lemma drop_ws_head l : drop_ws l = [] ∨ ∃ c l', drop_ws l = c :: l' ∧ is_ws c = false.
Proof. induction l as [|c l IH]; [by left|]. cbn. destruct (is_ws c) eqn:E; [done|]. right. eauto. Qed.

Lemma trim_idem s : trim (trim s) = trim s.
Proof.
  unfold trim. rewrite lst_str. f_equal. unfold trim_list. set (m := drop_ws (lst s)).
  destruct (drop_ws_head (lst s)) as [E|(c & m' & E & Hc)]; fold m in E; rewrite E; [done|].
  destruct (drop_ws_suffix (rev (c :: m'))) as [k Hk].
  assert (c :: m' = rev (drop_ws (rev (c :: m'))) ++ rev k) as Ht
    by (rewrite <- rev_app_distr, <- Hk; by rewrite rev_involutive).
  assert (drop_ws (rev (drop_ws (rev (c :: m')))) = rev (drop_ws (rev (c :: m')))) as ->.
  { destruct (rev (drop_ws (rev (c :: m')))) as [|d t]; [done|]. cbn [app] in Ht. simplify_eq.
    by apply drop_ws_fixed. }
  by rewrite rev_involutive, drop_ws_idem.
Qed.

(** What both patterns accept passes the pattern and the lengths of the backend. *)
Lemma G_base32_valid lo hi s : (54 ≤ lo)%nat → (hi ≤ 55)%nat → G_base32 lo hi s = true →
  50 ≤ strlen s ≤ 56 ∧ matches_G_base32 s = true.
Proof.
  intros Hlo Hhi H. unfold G_base32 in H.
  assert (∃ l, lst s = "G"%char :: l ∧ forallb is_base32 l && (lo <=? length l)%nat && (length l <=? hi)%nat = true)
    as (l & E & H').
  { destruct (lst s) as [|c l]; [done|]. destruct c as [[] [] [] [] [] [] [] []]; try done. by exists l. }
  apply andb_true_iff in H' as [H' H3]. apply andb_true_iff in H' as [H1 H2].
  apply Nat.leb_le in H2, H3. unfold strlen. rewrite E. cbn [length]. split; [lia|].
  apply matches_G_base32_spec. exists l. split; [done|]. split; [by intros ->; cbn in H2; lia|].
  apply Forall_forall. intros x Hx. eapply forallb_forall in H1; [done|by apply list_elem_of_In].
Qed.

Lemma address_schema s : 50 ≤ strlen s ≤ 56 → matches_G_base32 s = true →
  parse stellarAddress (Some (JStr s)) = Some (Some (JStr s)) ∧
  parse orgs_stellarAddress (Some (JStr s)) = Some (Some (JStr s)).
Proof.
  intros [H1 H2] H3. apply Z.leb_le in H1, H2. cbn. by rewrite H1, H2, H3.
Qed.

(** An accepted issue id is sent as a positive integer. *)
Lemma issue_id_schema v : Fields.validateIssueId v = None →
  ∃ j, parse Validation.issueId (Some (number_json (js_Number (trim v)))) = Some (Some j) ∧
       j = number_json (js_Number (trim v)).
Proof.
  unfold Fields.validateIssueId. destruct (String.eqb _ _); [done|].
  destruct (numval_is_int _ && numval_pos _) eqn:E; [|done]. intros _.
  apply andb_true_iff in E as [E1 E2]. eexists. split; [|done].
  destruct (js_Number (trim v)) as [|neg|m e]; try done. cbn [numval_is_int numval_pos] in *.
  cbn [number_json]. destruct (0 <=? e) eqn:He.
  - cbn. unfold jnum_is_int. change (pow10 0) with 1. rewrite Z.mod_1_r. cbn.
    replace (0 <? m * 10 ^ e) with true; [done|]. symmetry. apply Z.ltb_lt.
    apply Z.mul_pos_pos; [lia|]. apply Z.pow_pos_nonneg; lia.
  - cbn. unfold jnum_is_int, pow10. rewrite Z2Nat.id by lia. cbn in E1. by rewrite E1, E2.
Qed.

Lemma valid_address c : Fields.validateStellarAddress c = None →
  50 ≤ strlen (trim c) ≤ 56 ∧ matches_G_base32 (trim c) = true.
Proof.
  unfold Fields.validateStellarAddress. destruct (String.eqb _ _); [done|].
  destruct (Fields.STELLAR_PK_RE _) eqn:E; [|done]. intros _. by eapply G_base32_valid; [| |exact E]; lia.
Qed.

Lemma valid_org regs o : Fields.validateOrgIdRegistered regs o = None → 1 ≤ strlen (trim o).
Proof.
  unfold Fields.validateOrgIdRegistered, Fields.validateOrgId.
  destruct (String.eqb _ _) eqn:E; [done|]. intros _. apply String.eqb_neq in E.
  unfold strlen. destruct (trim o); [done|]. cbn. lia.
Qed.

(** ** Theorems *)

(** The body of an assignment or a completion made of what the form passes on. *)
Definition form_body (maintainer contributor org issueId sequence : string) : json :=
  obj [("maintainer", Some (JStr maintainer)); ("contributor", Some (JStr contributor));
       ("org_id", Some (JStr org)); ("issue_id", Some (number_json (js_Number issueId)));
       ("sequence", Some (JStr sequence))].


(** C34: The registration wizard never registers an organisation: its body has no [github_org],
    which [POST /api/admin/orgs] requires, and its key is not a signed message. Whatever is in
    the form and whatever key is used, the route answers 401 or 400 and leaves the database,
    the chain and GitHub alone; the wizard stays where it is with an error; and after a 401,
    the answer to any key that is not a signed message, the stored key is gone and the wizard
    locked. *)
Theorem registration_always_refused {C G} `{Zod} sc parseAuth verifySig
    (validateOrg : string → M G bool) registerMaintainer flatten s r (w : world (admin_state C G)) :
  Wizard.submitting s = true → req_body r = Some (Wizard.body s) →
  ∃ res, post_orgs sc parseAuth verifySig validateOrg registerMaintainer flatten r w = (Ret res, w) ∧
    (Http.status res = 401 ∨ Http.status res = 400) ∧
    (parseAuth (header "authorization" r) = None → Http.status res = 401) ∧
    let s' := Wizard.step s (Wizard.Answer (reply_of res)) in
    Wizard.location s' = Wizard.location s ∧ Wizard.step_no s' = Wizard.step_no s ∧
    Wizard.submitting s' = false ∧ is_Some (Wizard.submitError s') ∧
    (Http.status res = 401 →
       getItem Wizard.admin_key (Wizard.storage s') = None ∧ Wizard.authenticated s' = false).
Proof.
  intros Hs Hr.
  assert (∃ iss, safeParse registerOrgSchema (Some (Wizard.body s)) = Failure iss) as [iss Hp].
  { apply safeParse_failure. by apply (parse_bad_field _ "github_org"
      (ZString [min_len 1 "github_org is required"; max_len 100 "github_org must be ≤ 100 characters"]));
      [left|]. }
  unfold post_orgs, admin_route, signatureAuthMiddleware, register_org. rewrite Hr, Hp.
  cbn [Wizard.step]. rewrite Hs.
  destruct (parseAuth (header "authorization" r)) as [signed|]; [destruct (verifySig _ _ _)|];
    eexists; (split; [done|]); cbn; split_and!; try done; auto; try (by intros); try (by eexists); intros _; split; try done; apply lookup_delete_eq.
Qed.

(** ** The wizard *)

Section wizard.
Import Wizard.

(** What every step relies on. *)
Record well_formed (s : wizard) : Prop := {
  wf_step : 1 ≤ step_no s ≤ 4;
  wf_cap : 1 ≤ cap s ≤ 20;
  wf_nodup : NoDup (maintainers s);
  wf_valid : Forall (λ a, isValidStellarAddress a = true ∧ trim a = a) (maintainers s);
  wf_filled : 3 ≤ step_no s → maintainers s ≠ [];
}.

(** The parts the invariant is about. *)
Lemma well_formed_same s s' : well_formed s → step_no s' = step_no s → cap s' = cap s →
  maintainers s' = maintainers s → well_formed s'.
Proof. intros [] E1 E2 E3. constructor; by rewrite ?E1, ?E2, ?E3. Qed.

Lemma handleAdd_cases s : 
  (∃ e, handleAdd s = with_maintainers (input s) e (maintainers s) s) ∨
  (let a := trim (input s) in handleAdd s = with_maintainers "" "" (maintainers s ++ [a]) s ∧
   isValidStellarAddress a = true ∧ a ∉ maintainers s).
Proof.
  unfold handleAdd. destruct (String.eqb _ _); [by left; eexists|].
  destruct (isValidStellarAddress _) eqn:E; [|by left; eexists]. cbn [negb].
  destruct (existsb _ _) eqn:Ee; [by left; eexists|]. right. split_and!; [done..|].
  intros Hin%list_elem_of_In. apply not_true_iff_false in Ee. apply Ee, existsb_exists.
  eexists. split; [exact Hin|]. by apply String.eqb_eq.
Qed.

Lemma handleCap_bounds raw s : 1 ≤ cap s ≤ 20 → 1 ≤ cap (handleCap raw s) ≤ 20.
Proof.
  intros Hc. unfold handleCap. destruct (parseInt raw) as [|n]; [done|].
  destruct ((n <? 1) || (20 <? n)) eqn:E; cbn; lia.
Qed.

Lemma well_formed_step s e : well_formed s → well_formed (step s e).
Proof.
  intros Hw. pose proof Hw as [H1 H2 H3 H4 H5].
  destruct e as [|k| |v| |i g|v| |a|raw| | | |r]; cbn [step];
    try (repeat case_match; eapply well_formed_same; done).
  - destruct (authenticated s); [done|]. unfold handleSaveKey.
    by destruct (String.eqb _ _); eapply well_formed_same.
  - destruct (on 1 s); [|done]. unfold handleOrgIdChange.
    by destruct (String.eqb _ _); eapply well_formed_same.
  - destruct (on 2 s); [|done]. destruct (handleAdd_cases s) as [[er ->]|(-> & Hv & Hn)];
      [by eapply well_formed_same|].
    constructor; cbn; [done|done| | |intros _; by destruct (maintainers s)].
    + apply NoDup_app. split_and!; [done| |by apply NoDup_singleton]. set_solver.
    + apply Forall_app. split; [done|]. constructor; [|done]. split; [done|apply trim_idem].
  - destruct (on 2 s) eqn:E; [|done]. apply andb_true_iff in E as [_ E].
    constructor; cbn; [done|done|by apply NoDup_filter| |lia].
    apply Forall_forall. intros b [_ Hin]%list_elem_of_filter. rewrite Forall_forall in H4. by apply H4.
  - destruct (on 3 s); [|done]. pose proof (handleCap_bounds raw s H2) as Hc.
    unfold handleCap in *. constructor; repeat case_match; done.
  - destruct (authenticated s && can_go_on s) eqn:E; [|done]. apply andb_true_iff in E as [_ E].
    unfold can_go_on in E. constructor; cbn; try done.
    + repeat case_match; try done; lia.
    + intros H. repeat case_match; try done; try lia. apply H5. lia.
  - destruct (_ && _) eqn:E; [|done]. constructor; cbn; try done; [lia|]. intros. apply H5. lia.
  - destruct (submitting s); [|done]. unfold settle. repeat case_match; by eapply well_formed_same.
Qed.
End wizard.

(** Whatever is typed and clicked in the registration wizard, in any order: the step is one of
    the four, the cap is between 1 and 20, no maintainer is listed twice, each of them is an
    address the schema of the backend accepts, and the steps after the second are only reached
    with at least one of them. *)
Theorem wizard_data_valid st es :
  let s := Wizard.history st es in
  1 ≤ Wizard.step_no s ≤ 4 ∧ 1 ≤ Wizard.cap s ≤ 20 ∧ NoDup (Wizard.maintainers s) ∧
  Forall (λ a, parse orgs_stellarAddress (Some (JStr a)) = Some (Some (JStr a))) (Wizard.maintainers s) ∧
  (3 ≤ Wizard.step_no s → Wizard.maintainers s ≠ []).
Proof.
  intros s. assert (well_formed s) as [H1 H2 H3 H4 H5].
  { unfold s, Wizard.history. assert (well_formed (Wizard.initial st)) as H
      by (constructor; cbn; [lia|lia|constructor|constructor|lia]).
    revert H. generalize (Wizard.initial st). induction es as [|e es IH]; intros s0 H; [done|].
    by apply IH, well_formed_step. }
  split; [exact H1|]. split; [exact H2|]. split; [exact H3|]. split; [|exact H5].
  eapply Forall_impl; [exact H4|]. intros a [Hv Ht].
  unfold Wizard.isValidStellarAddress in Hv. rewrite Ht in Hv.
  assert (50 ≤ strlen a ≤ 56 ∧ matches_G_base32 a = true) as [Ha Hb]
    by (by eapply G_base32_valid; [| |exact Hv]; lia).
  by apply address_schema.
Qed.

(** ** The forms and the organisation page *)

(** A form only passes on values its validators accept, and one set of them at a time. *)
Lemma form_sends_valid f es s : s = fold_left (TxForm.step f) es (TxForm.initial f) →
  Forall (λ l, ∃ vs, l = trim <$> vs ∧ Forall (λ e, e = None) (TxForm.problems f vs)) (TxForm.sent s).
Proof.
  intros ->. assert (Forall (λ l, ∃ vs, l = trim <$> vs ∧ Forall (λ e, e = None) (TxForm.problems f vs))
    (TxForm.sent (TxForm.initial f))) as H by constructor.
  revert H. generalize (TxForm.initial f). induction es as [|e es IH]; intros s H; [done|].
  apply IH. destruct e; cbn [TxForm.step]; try done. destruct (_ || _); [done|].
  destruct (TxForm.isValid f s) eqn:E; [|done]. apply Forall_app. split; [done|]. constructor; [|done].
  eexists. split; [done|]. unfold TxForm.isValid in E. apply andb_true_iff in E as [E _].
  apply Forall_forall. intros x Hx. eapply forallb_forall in E; [|by apply list_elem_of_In].
  by destruct x.
Qed.

(** The check for an issue already applied for compares the text. *)
Example duplicate_check_by_text :
  Fields.validateIssueIdNotApplied ["42"] " 42 " = Some "You have already applied for this issue." ∧
  Fields.validateIssueIdNotApplied ["42"] "042" = None ∧
  number_json (js_Number "042") = jint 42.
Proof. split_and!; reflexivity. Qed.

(** A check that comes back late says [found] for another name, and the wizard goes on. *)
Example stale_check :
  let s := Wizard.history (setItem Wizard.admin_key "k" ∅)
             [Wizard.TypeOrg "stellar"; Wizard.TimerFires; Wizard.TypeOrg "stellarx";
              Wizard.CheckSettles 0 Wizard.found; Wizard.Next] in
  Wizard.orgId s = "stellarx" ∧ Wizard.step_no s = 2 ∧ Wizard.timer s = Some "stellarx".
Proof. split_and!; reflexivity. Qed.

(** The wizard and the page accept an address of 55 characters, the transaction forms do not. *)
Definition short_address : string := str ("G"%char :: replicate 54 "A"%char).
Example three_address_rules :
  Wizard.isValidStellarAddress short_address = true ∧
  OrgManagement.validateStellarAddress (toLowerCase short_address) = true ∧
  is_Some (Fields.validateStellarAddress short_address).
Proof. split_and!; [reflexivity|reflexivity|by eexists]. Qed.

(** What the page registers was accepted by its check, under a name that is not empty. *)
Lemma registrations_checked s :
  OrgManagement.isSubmitting (OrgManagement.handleSubmit s) = true →
  OrgManagement.validateStellarAddress (OrgManagement.maintainerAddress s) = true ∧
  OrgManagement.orgId s ≠ "" ∧
  OrgManagement.registrations (OrgManagement.handleSubmit s) =
    OrgManagement.registrations s ++ [(OrgManagement.maintainerAddress s, OrgManagement.orgId s)].
Proof.
  unfold OrgManagement.handleSubmit. cbn. intros E. rewrite E. apply andb_true_iff in E as [E1 E2].
  apply negb_true_iff in E1, E2. apply negb_false_iff in E1. apply String.eqb_neq in E2. done.
Qed.

(** ** Concrete runs *)

Definition long_address : string := str ("G"%char :: replicate 55 "A"%char).


Definition demo_wizard : Wizard.wizard :=
  Wizard.history (setItem Wizard.admin_key "k" ∅)
    [Wizard.TypeOrg "stellar"; Wizard.TimerFires; Wizard.CheckSettles 0 Wizard.found; Wizard.Next;
     Wizard.TypeAddress long_address; Wizard.Add; Wizard.Next; Wizard.TypeCap "25"; Wizard.TypeCap "5";
     Wizard.Next; Wizard.Submit].

Definition demo_registration : request := Request [] [] [] (Some (Wizard.body demo_wizard)) None.

Lemma registration_always_refused_witness :
  ∃ res, post_orgs (C := unit) (G := unit) full_schema (λ _, None) (λ _ _ _, false)
    (λ _, mret true) missing_method (λ _, JNull) demo_registration
    (World (AdminState empty_db (RpcState tt []) tt) []) =
    (Ret res, World (AdminState empty_db (RpcState tt []) tt) []) ∧ Http.status res = 401.
Proof.
  destruct (registration_always_refused full_schema (λ _, None) (λ _ _ _, false)
    (λ _, mret true) missing_method (λ _, JNull) demo_wizard demo_registration
    (World (AdminState empty_db (RpcState tt []) tt) []) eq_refl eq_refl) as (res & H1 & _ & H2 & _).
  exact (ex_intro _ res (conj H1 (H2 eq_refl))).
Defined.
