(* ===== verification/Issues.v ===== *)
(** * The issue routes ([src/routes/issues.ts]) and the event list ([src/routes/events.ts])

    The paginated list of issues behind its query validation, the detail route, and the
    paginated list of events. *)

From Stdlib Require Import String Ascii.
From S2P Require Import Prelude Js Http Decimal Paging Validation Db Cache.

#[local] Open Scope string_scope.
#[local] Open Scope list_scope.
#[local] Open Scope Z_scope.

(** A condition that is only added when the parameter is truthy. *)
Definition when_given {A} (v : option json) (P : string → A → bool) (a : A) : bool :=
  match v with
  | Some v => if truthy v then P (js_String v) a else true
  | None => true
  end.

(** ** [GET /api/issues] *)

Section list.
Context {S : Type} `{HasDb S} `{Zod}.
Variable sc : schema.
(** [title ILIKE pattern]. *)
Variable ilike : string → string → bool.
(** [row.created_at] of an issue, which the model does not store. *)
Variable created_at : issue_row → string.

(** The conditions of the WHERE clause. *)
Definition issue_matches (r : request) (i : issue_row) : bool :=
  when_given (Http.query "org_id" r) (λ o i, String.eqb (i_org_id i) o) i &&
  when_given (Http.query "status" r) (λ s i, String.eqb (i_status i) s) i &&
  when_given (Http.query "search" r) (λ s i, ilike (i_title i) ("%" +:+ s +:+ "%")) i.

Definition issue_json (i : issue_row) : json :=
  obj [("id", Some (jint (i_id i))); ("org_id", Some (JStr (i_org_id i)));
       ("title", Some (JStr (i_title i))); ("status", Some (JStr (i_status i)));
       ("created_at", Some (JStr (created_at i)))].

(** [parseInt(req.query[k], 10) || dflt] where a missing [k] has been replaced by [dflt]. *)
Definition page_param (k : string) (dflt : Z) (r : request) : Z :=
  js_or (parseInt (match Http.query k r with Some v => js_String v | None => pretty dflt end)) dflt.

Definition pageNum (r : request) : Z := Z.max 1 (page_param "page" 1 r).
Definition limitNum (r : request) : Z := Z.min 100 (Z.max 1 (page_param "limit" 10 r)).

Definition issues_columns : requirement :=
  Columns "issues" ["id"; "org_id"; "title"; "status"; "created_at"].

Definition count_issues (r : request) : M S string :=
  select sc [issues_columns] (λ d, count_rows (λ i, issue_matches r i = true) (issues d)).

Definition select_issues (r : request) (limit offset : Z) : M S (list issue_row) :=
  select sc [issues_columns]
    (λ d, take (Z.to_nat limit) (drop (Z.to_nat offset)
            (order_desc i_id (filter (λ i, issue_matches r i = true) (issues d))))).

(** [IssuesResponse]; a total that is not a number has no page count. *)
Definition issues_response (rows : list issue_row) (total : jsnum) (page limit : Z) : json :=
  obj [("issues", Some (JArr (issue_json <$> rows))); ("total", Some (num_json total));
       ("page", Some (jint page)); ("limit", Some (jint limit));
       ("totalPages", Some (match total with Fin t => jint (ceil_div t limit) | NaN => JNull end))].

Definition list_issues (r : request) : M S response :=
  try_catch
    (c ← count_issues r;
     let total := parseInt c in
     let offset := (pageNum r - 1) * limitNum r in
     rows ← select_issues r (limitNum r) offset;
     mret (send_json 200 (issues_response rows total (pageNum r) (limitNum r))))
    (λ err, mret (error_response 500 (error_message "internal server error" err))).

Definition get_issues : request → M S verdict :=
  dispatch [λ r, mret (validateQuery issueQuerySchema r);
            λ r, res ← list_issues r; mret (Respond res)].

End list.

(** ** [GET /api/issues/:org_id/:issue_id] *)

Section detail.
Context {S R : Type} `{HasDb S} `{HasCache S R} `{RedisStore R}.
Variable sc : schema.
Variable JSON_parse : string → option json.
Variable JSON_stringify : json → string.
(** The rows of the detail, with the columns the model does not store. *)
Variable detail_json : issue_row → json.
Variable detail_event_json : contract_event_row → json.

Definition CACHE_TTL_SECONDS : Z := 30.

Definition detail_key (org_id issue_id : string) : string :=
  "issue_detail:" +:+ org_id +:+ ":" +:+ issue_id.

(** A promise as the code below uses it: truthy, and [{}] when it is serialised. *)
Definition promise : json := JObj [].

(** What would follow a miss: the issue, its applicants, its assignee and its events. *)
Definition fetch_detail (org_id issue_id : string) (id : Z) : M S response :=
  try_catch
    (rows ← select sc [Columns "issues" ["id"; "org_id"; "title"; "body"; "labels"; "github_url";
                         "status"; "created_at"]; Int4 (Fin id)]
              (λ d, filter (λ i, i_org_id i = org_id ∧ i_id i = id) (issues d));
     match rows with
     | [] => mret (error_response 404 "Issue not found")
     | issue :: _ =>
         c ← select sc [Columns "applications" ["org_id"; "issue_id"]; Int4 (Fin id)]
               (λ d, count_rows (λ a, ap_org_id a = org_id ∧ ap_issue_id a = id) (applications d));
         asg ← select sc [Columns "assignments" ["contributor"; "org_id"; "issue_id"];
                          Int4 (Fin id)]
                 (λ d, filter (λ a, as_org_id a = org_id ∧ as_issue_id a = id) (assignments d));
         evs ← select sc [Columns "contract_events" ["id"; "event_type"; "contributor"; "actor";
                            "timestamp"; "data"; "org_id"; "issue_id"]; Int4 (Fin id)]
                 (λ d, order_asc ce_timestamp
                         (filter (λ e, ce_org_id e = Some org_id ∧ ce_issue_id e = Some id)
                            (contract_events d)));
         let response := obj
           [("issue", Some (detail_json issue)); ("applicant_count", Some (num_json (parseInt c)));
            ("assigned_to", Some (match asg with a :: _ => JStr (as_contributor a)
                                            | [] => JNull end));
            ("events", Some (JArr (detail_event_json <$> evs)))] in
         _ ← setCache JSON_stringify (detail_key org_id issue_id) response CACHE_TTL_SECONDS;
         mret (send_json 200 response)
     end)
    (λ err, mret (error_response 500 (error_message "internal server error" err))).

(** The cache is read without [await]: [cached] is the promise, and the read goes on in the
    background. *)
Definition get_issue_detail (r : request) : M S response :=
  let org_id := param "org_id" r in
  let issue_id := param "issue_id" r in
  match parseInt issue_id with
  | Fin id =>
      if String.eqb org_id "" || (id <? 1) then
        mret (error_response 400 "Invalid org_id or issue_id")
      else
        _ ← getCache JSON_parse (detail_key org_id issue_id);
        let cached := promise in
        if truthy cached then mret (send_json 200 cached) else fetch_detail org_id issue_id id
  | NaN => mret (error_response 400 "Invalid org_id or issue_id")
  end.

End detail.

(** ** [GET /api/events] *)

(** A row of the [events] table as the query selects it. *)
Record feed_row := mkFeed {
  f_id : Z;
  f_ledger : Z;
  f_tx_hash : string;
  f_topic : string;
  f_org_id : string;
  f_issue_id : string;
  f_contributor : string;
  f_created_at : Z;
}.

Definition feed_json (e : feed_row) : json :=
  obj [("id", Some (jint (f_id e))); ("ledger", Some (jint (f_ledger e)));
       ("tx_hash", Some (JStr (f_tx_hash e))); ("topic", Some (JStr (f_topic e)));
       ("org_id", Some (JStr (f_org_id e))); ("issue_id", Some (JStr (f_issue_id e)));
       ("contributor", Some (JStr (f_contributor e)));
       ("created_at", Some (JStr (toISOString (f_created_at e))))].

Section feed.
Context {S : Type} `{HasDb S}.
Variable sc : schema.
Variable feed : db → list feed_row.
(** [new Date(s)]. *)
Variable parse_date : string → jsnum.

Definition feed_page (r : request) : jsnum := js_max (query_int "page" "1" r) (Fin 1).
Definition feed_limit (r : request) : jsnum :=
  js_min (js_max (query_int "limit" "20" r) (Fin 1)) (Fin 100).

Definition at_least (s : string) (e : feed_row) : bool :=
  match parse_date s with Fin t => t <=? f_created_at e | NaN => false end.
Definition at_most (s : string) (e : feed_row) : bool :=
  match parse_date s with Fin t => f_created_at e <=? t | NaN => false end.

Definition feed_matches (r : request) (e : feed_row) : bool :=
  when_given (Http.query "org_id" r) (λ o e, String.eqb (f_org_id e) o) e &&
  when_given (Http.query "contributor" r) (λ c e, String.eqb (f_contributor e) c) e &&
  when_given (Http.query "event_type" r) (λ t e, String.eqb (f_topic e) t) e &&
  when_given (Http.query "start_date" r) at_least e &&
  when_given (Http.query "end_date" r) at_most e.

(** A date that does not parse is a parameter the server refuses. *)
Definition bad_date (k : string) (r : request) : bool :=
  match Http.query k r with
  | Some v => truthy v && is_NaN (parse_date (js_String v))
  | None => false
  end.

(** The columns the conditions name. *)
Definition feed_filters (r : request) : requirement :=
  Columns "events"
    ((if truthy_opt (Http.query "org_id" r) then ["org_id"] else []) ++
     (if truthy_opt (Http.query "contributor" r) then ["contributor"] else []) ++
     (if truthy_opt (Http.query "event_type" r) then ["topic"] else []) ++
     (if truthy_opt (Http.query "start_date" r) then ["created_at"] else []) ++
     (if truthy_opt (Http.query "end_date" r) then ["created_at"] else [])).

Definition feed_columns : requirement :=
  Columns "events" ["id"; "ledger"; "tx_hash"; "topic"; "org_id"; "issue_id"; "contributor";
                    "created_at"].

Definition feed_query {A} (r : request) (reqs : list requirement) (f : db → A) : M S A :=
  if bad_date "start_date" r || bad_date "end_date" r
  then call (λ s, (Throw (Error "invalid input syntax for type timestamp"), s))
  else select sc reqs f.

Definition count_feed (r : request) : M S string :=
  feed_query r [feed_filters r] (λ d, count_rows (λ e, feed_matches r e = true) (feed d)).

(** [ORDER BY ledger DESC, id DESC]: sorted by id, then stably by ledger. *)
Definition newest_first (l : list feed_row) : list feed_row :=
  order_desc f_ledger (order_desc f_id l).

Definition select_feed (r : request) (limit offset : jsnum) : M S (list feed_row) :=
  match limit, offset with
  | Fin limit, Fin offset =>
      feed_query r [feed_filters r; feed_columns]
        (λ d, take (Z.to_nat limit) (drop (Z.to_nat offset)
                (newest_first (filter (λ e, feed_matches r e = true) (feed d)))))
  | _, _ => call (λ s, (Throw (Error "invalid input syntax for type bigint"), s))
  end.

Definition pagination_json (total page limit offset : jsnum) : json :=
  obj [("total", Some (num_json total)); ("page", Some (num_json page));
       ("limit", Some (num_json limit)); ("offset", Some (num_json offset));
       ("total_pages", Some (match total, limit with
                             | Fin t, Fin l => jint (ceil_div t l)
                             | _, _ => JNull end));
       ("has_more", Some (JBool (js_lt (js_add offset limit) total)))].

Definition get_events (r : request) : M S response :=
  let page := feed_page r in
  let limit := feed_limit r in
  let offset := js_mul (js_sub page (Fin 1)) limit in
  try_catch
    (c ← count_feed r;
     let total := parseInt c in
     rows ← select_feed r limit offset;
     mret (send_json 200 (obj
       [("events", Some (JArr (feed_json <$> rows)));
        ("pagination", Some (pagination_json total page limit offset))])))
    (λ err, mret (error_response 500 (error_message "internal server error" err))).

End feed.

(** ** Theorems *)

Section theorems.
Context {S : Type} `{HasDb S} `{Zod}.
Variable ilike : string → string → bool.
Variable created_at : issue_row → string.

(** The query of a request after validation: the two declared parameters. *)
Lemma validated_query r r' :
  validateQuery issueQuerySchema r = Next r' [] →
  req_query r' = omap (λ k, pair k <$> Http.query k r) ["org_id"; "status"].
Proof.
  unfold validateQuery. destruct (safeParse issueQuerySchema _) as [d|] eqn:E; [|done].
  intros [= <-]. cbn [req_query set_query].
  destruct (parse issueQuerySchema (Some (JObj (req_query r)))) as [v|] eqn:Ep;
    [|by destruct (safeParse_failure _ _ Ep) as [iss Hi]; rewrite Hi in E].
  destruct (parse_object_inv _ _ _ Ep) as (o & o' & Ho & -> & Hf). simplify_eq.
  rewrite (safeParse_success _ _ _ Ep) in E. simplify_eq. cbn in *.
  unfold Http.query.
  destruct (assoc "org_id" _) as [[]|], (assoc "status" _) as [[]|]; cbn in *; 
    try case_match; simplify_eq/=; done.
Qed.

(** an accepted request for issues is answered, over the schema [migrate] creates and
    without faults, with the ten newest of the issues that match its organisation and
    status and their exact number: validation has removed [page], [limit] and [search]
    from the query, so they have no influence and no later page can be reached. *)
Theorem issues_first_page r r' (s : S) :
  validateQuery issueQuerySchema r = Next r' [] →
  let matching i :=
    when_given (Http.query "org_id" r) (λ o i, String.eqb (i_org_id i) o) i &&
    when_given (Http.query "status" r) (λ x i, String.eqb (i_status i) x) i in
  let found := filter (λ i, matching i = true) (issues (get_db s)) in
  ∃ rows, rows ≡ₚ found ∧ descending i_id rows ∧
    get_issues migrate_schema ilike created_at r (World s []) =
      (Ret (Respond (send_json 200
         (issues_response created_at (take 10 rows) (Fin (Z.of_nat (length found))) 1 10))),
       World s []).
Proof.
  intros Hv matching found. exists (order_desc i_id found).
  destruct (order_desc_spec i_id found) as [Hp Hd]. split_and!; [done|done|].
  pose proof (validated_query r r' Hv) as Hq.
  assert (Http.query "org_id" r' = Http.query "org_id" r ∧
          Http.query "status" r' = Http.query "status" r ∧ Http.query "search" r' = None ∧
          Http.query "page" r' = None ∧ Http.query "limit" r' = None) as (H1 & H2 & H3 & H4 & H5).
  { unfold Http.query in *. rewrite Hq. cbn.
    by destruct (assoc "org_id" (req_query r)), (assoc "status" (req_query r)). }
  assert (∀ i, issue_matches ilike r' i = matching i) as Hm.
  { intros i. unfold issue_matches. rewrite H1, H2, H3. apply andb_true_r. }
  assert (filter (λ i, issue_matches ilike r' i = true) (issues (get_db s)) = found) as Hf
    by (apply list_filter_iff; intros i; by rewrite Hm).
  assert (pageNum r' = 1 ∧ limitNum r' = 10) as [Hpn Hln].
  { unfold pageNum, limitNum, page_param. by rewrite H4, H5. }
  assert (list_issues migrate_schema ilike created_at r' (World s []) =
    (Ret (send_json 200 (issues_response created_at (take 10 (order_desc i_id found))
            (Fin (Z.of_nat (length found))) 1 10)), World s [])) as HL.
  { unfold list_issues. apply try_Ret.
    erewrite bind_intro by (by apply select_ok). rewrite parse_count, Hf, Hpn, Hln.
    erewrite bind_intro by (by apply select_ok). by rewrite Hf. }
  unfold get_issues, dispatch. unfold_m. rewrite Hv. by rewrite HL.
Qed.

End theorems.

Section detail_theorems.
Context {S R : Type} `{HasDb S} `{HasCache S R} `{RedisStore R}.
Variable sc : schema.
Variable JSON_parse : string → option json.
Variable JSON_stringify : json → string.
Variable detail_json : issue_row → json.
Variable detail_event_json : contract_event_row → json.

Lemma detail_empty r id (w : world S) :
  param "org_id" r ≠ "" → parseInt (param "issue_id" r) = Fin id → 1 ≤ id →
  ∃ w', get_issue_detail sc JSON_parse JSON_stringify detail_json detail_event_json r w =
          (Ret (send_json 200 (JObj [])), w') ∧
        redis (get_cache (st w')) = redis (get_cache (st w)).
Proof.
  intros Ho Hi Hid. unfold get_issue_detail. rewrite Hi.
  destruct (String.eqb_spec (param "org_id" r) ""); [done|].
  replace (id <? 1) with false by lia. cbn [orb].
  destruct (getCache_spec JSON_parse (detail_key (param "org_id" r) (param "issue_id" r)) w)
    as (v & w' & Hg & Hr & _).
  exists w'. split; [|done]. by erewrite bind_intro by exact Hg.
Qed.

(** because the cache lookup is not awaited, the detail of any well-formed issue
    reference is the empty object with status 200, whatever the database and the cache
    hold and whatever fails: an issue that exists is never shown, one that does not exist
    is never reported. *)
Theorem issue_detail_always_empty r id (w : world S) :
  param "org_id" r ≠ "" → parseInt (param "issue_id" r) = Fin id → 1 ≤ id →
  ∃ w', get_issue_detail sc JSON_parse JSON_stringify detail_json detail_event_json r w =
          (Ret (send_json 200 (JObj [])), w') ∧
        redis (get_cache (st w')) = redis (get_cache (st w)).
Proof. apply detail_empty. Qed.

End detail_theorems.

Section feed_theorems.
Context {S : Type} `{HasDb S}.
Variable feed : db → list feed_row.
Variable parse_date : string → jsnum.

(** The list of events needs columns the schema does not have. *)
Definition feed_runs (sc : schema) : Prop := ∀ r, unmet sc [feed_filters r; feed_columns] = None.

Lemma unmet_cons sc x xs : unmet sc (x :: xs) = None → meets sc x = true ∧ unmet sc xs = None.
Proof.
  unfold unmet. cbn. case_decide as Hx; [done|].
  intros Hn. split; [by destruct (meets sc x)|]. by destruct (list_find _ xs) as [[]|].
Qed.

Lemma unmet_one sc x : meets sc x = true → unmet sc [x] = None.
Proof. intros Hx. unfold unmet. cbn. rewrite decide_False; [done|]. by rewrite Hx. Qed.

(** on a schema where the queries run and without faults, page [p] of [l] events is
    answered with the [p]-th window of the matching events, newest first; [total] is their
    number, and [has_more] is set exactly when a later page is not empty. *)
Theorem events_page sc r p l (s : S) :
  feed_runs sc → feed_page r = Fin p → feed_limit r = Fin l →
  bad_date parse_date "start_date" r = false → bad_date parse_date "end_date" r = false →
  let rows := newest_first
                (filter (λ e, feed_matches parse_date r e = true) (feed (get_db s))) in
  get_events sc feed parse_date r (World s []) =
    (Ret (send_json 200 (obj
       [("events", Some (JArr (feed_json <$> window p l rows)));
        ("pagination", Some (pagination_json (Fin (Z.of_nat (length rows))) (Fin p) (Fin l)
                               (Fin ((p - 1) * l))))])), World s []) ∧
  (js_lt (Fin ((p - 1) * l + l)) (Fin (Z.of_nat (length rows))) = true ↔
   window (p + 1) l rows ≠ []).
Proof.
  intros Hsc Hp Hl Hs He rows.
  assert (1 ≤ p) as Hp1.
  { revert Hp. unfold feed_page, js_max. destruct (query_int _ _ _); cbn; [done|].
    intros [= <-]. lia. }
  assert (1 ≤ l ≤ 100) as Hl1.
  { revert Hl. unfold feed_limit, js_max, js_min. destruct (query_int _ _ _); cbn; [done|].
    intros [= <-]. lia. }
  assert (length rows = length (filter (λ e, feed_matches parse_date r e = true)
                                  (feed (get_db s)))) as Hlen.
  { unfold rows, newest_first. rewrite !(proj1 (order_desc_spec _ _)). done. }
  split.
  - unfold get_events. apply try_Ret. rewrite Hp, Hl. cbn [js_sub js_mul lift2].
    unfold count_feed, select_feed, feed_query. rewrite Hs, He. cbn [orb].
    pose proof (Hsc r) as Hu. pose proof (unmet_cons _ _ _ Hu) as [Hu1 _].
    apply unmet_one in Hu1.
    erewrite bind_intro by (by apply select_ok). rewrite parse_count.
    erewrite bind_intro by (by apply select_ok). rewrite <- Hlen. reflexivity.
  - cbn. rewrite Z.ltb_lt. unfold window. split.
    + intros Hlt Hn. apply (f_equal length) in Hn. rewrite length_take, length_drop in Hn.
      cbn in Hn. nia.
    + intros Hn. destruct (decide ((p - 1) * l + l < Z.of_nat (length rows))); [done|].
      exfalso. apply Hn. rewrite drop_ge by nia. by rewrite take_nil.
Qed.

(** A statement the server refuses never returns. *)
Lemma select_unmet sc {A} reqs (f : db → A) :
  unmet sc reqs ≠ None → yields (S := S) (λ _, False) (select sc reqs f).
Proof.
  intros Hu w a w' Hr. unfold select, Db.query, call in Hr.
  destruct (unmet sc reqs) as [q|]; [|done]. by destruct (sched w) as [|[]].
Qed.

Lemma call_throw {A} e : yields (S := S) (A := A) (λ _, False) (call (λ s, (Throw e, s))).
Proof. intros w a w' Hr. unfold call in Hr. by destruct (sched w) as [|[]]. Qed.

(** the list of events selects [ledger] and [topic], which the schema [migrate] creates
    does not have: every request is answered 500, with or without faults. *)
Theorem events_over_migrate_schema r (w : world S) :
  ∃ res w', get_events migrate_schema feed parse_date r w = (Ret res, w') ∧ status res = 500.
Proof.
  enough (ensures (λ res, status res = 500) (get_events migrate_schema feed parse_date r)) as He
    by (destruct (He w) as (res & w' & H1 & H2); eauto).
  unfold get_events. apply ensures_try; [|intros e; by apply ensures_ret].
  apply yields_bind. intros c. eapply (yields_bind_post (λ _, False)); [|done].
  unfold select_feed. repeat case_match; try apply call_throw.
  unfold feed_query. case_match; [apply call_throw|]. apply select_unmet.
  intros Hu. apply unmet_cons in Hu as [_ Hu]. apply unmet_cons in Hu as [Hu _].
  by vm_compute in Hu.
Qed.

End feed_theorems.

(** ** Concrete runs *)

Definition issues_db : db :=
  set_issues [mkIssue 1 "a" "first" "open"; mkIssue 2 "b" "second" "open";
              mkIssue 3 "a" "third" "open"; mkIssue 4 "a" "fourth" "closed"] 5 empty_db.

(** The query asks for the second page of one issue about "third". *)
Definition issues_request : request :=
  Request [] [("org_id", JStr "a"); ("status", JStr "open"); ("page", JStr "2");
              ("limit", JStr "1"); ("search", JStr "third")] [] None None.

Definition issues_request_validated : request :=
  set_query [("org_id", JStr "a"); ("status", JStr "open")] issues_request.

Lemma issues_first_page_witness :
  ∃ rows, rows ≡ₚ [mkIssue 1 "a" "first" "open"; mkIssue 3 "a" "third" "open"] ∧
    descending i_id rows ∧
    get_issues migrate_schema (λ _ _, false) (λ _, "") issues_request (World issues_db []) =
      (Ret (Respond (send_json 200
         (issues_response (λ _, "") (take 10 rows) (Fin 2) 1 10))), World issues_db []).
Proof.
  destruct (issues_first_page (λ _ _, false) (λ _, "") issues_request issues_request_validated
    issues_db) as (rows & H1 & H2 & H3); [reflexivity|].
  exists rows. split; [exact H1|]. split; [exact H2|exact H3].
Defined.

Record detail_state := mkDetailState {
  det_db : db;
  det_cache : cache (gmap string string);
}.

#[export, program] Instance HasDb_detail : HasDb detail_state :=
  {| get_db := det_db; set_db d s := mkDetailState d (det_cache s) |}.
Solve Obligations with by try intros []; intros.

#[export, program] Instance HasCache_detail : HasCache detail_state (gmap string string) :=
  {| get_cache := det_cache; set_cache c s := mkDetailState (det_db s) c |}.
Solve Obligations with by try intros []; intros.

(** Issue 1 of organisation "a" exists. *)
Lemma issue_detail_always_empty_witness :
  ∃ w', @get_issue_detail _ _ HasDb_detail HasCache_detail map_redis full_schema (λ _, None)
          (λ _, "") (λ _, JNull) (λ _, JNull)
          (Request [] [] [("org_id", JStr "a"); ("issue_id", JStr "1")] None None)
          (World (mkDetailState issues_db (Cache ∅ (mkMetrics 0 0))) []) =
        (Ret (send_json 200 (JObj [])), w').
Proof.
  destruct (@issue_detail_always_empty _ _ HasDb_detail HasCache_detail map_redis full_schema
    (λ _, None) (λ _, "") (λ _, JNull) (λ _, JNull)
    (Request [] [] [("org_id", JStr "a"); ("issue_id", JStr "1")] None None) 1
    (World (mkDetailState issues_db (Cache ∅ (mkMetrics 0 0))) [])) as (w' & H & _);
    [discriminate|reflexivity|lia|].
  exists w'. exact H.
Defined.

(** An [events] table with the columns the list selects. *)
Definition feed_schema : schema :=
  [("events", mkTable ["id"; "ledger"; "tx_hash"; "topic"; "org_id"; "issue_id";
                       "contributor"; "created_at"] [["id"]])].

Definition demo_feed (_ : db) : list feed_row :=
  [mkFeed 1 10 "t1" "applied" "a" "1" "c" 0; mkFeed 2 11 "t2" "applied" "b" "1" "c" 0;
   mkFeed 3 11 "t3" "assigned" "a" "1" "c" 0; mkFeed 4 11 "t4" "revoked" "a" "1" "c" 0].

Definition feed_request : request :=
  Request [] [("org_id", JStr "a"); ("page", JStr "1"); ("limit", JStr "2")] [] None None.

Example feed_order :
  f_id <$> newest_first (demo_feed empty_db) = [4; 3; 2; 1].
Proof. reflexivity. Qed.

Lemma feed_schema_runs : feed_runs feed_schema.
Proof.
  intros r. unfold feed_filters.
  do 5 (match goal with |- context [if truthy_opt ?x then _ else _] =>
    destruct (truthy_opt x) end); vm_compute; reflexivity.
Qed.

Lemma events_page_witness :
  js_lt (Fin 2) (Fin 3) = true ↔
  window 2 2 (newest_first (filter (λ e, feed_matches (λ _, NaN) feed_request e = true)
                              (demo_feed empty_db))) ≠ [].
Proof.
  apply (events_page demo_feed (λ _, NaN) feed_schema feed_request 1 2 empty_db
    feed_schema_runs); reflexivity.
Defined.
