(* ===== verification/Regex.v ===== *)
(** * Regular expressions of the language, and [String.prototype.replace]

    The expressions the program writes, with the backtracking matcher of the language
    specification in continuation style, and the relation it decides: the matcher finds a match
    exactly when there is one, and its order of preference decides which.  Strings are lists of
    8-bit characters; the flags are always [g] and [m], never [u]. *)

From Stdlib Require Import String Ascii Arith.
From S2P Require Import Prelude Js.

#[local] Open Scope string_scope.
#[local] Open Scope list_scope.
#[local] Open Scope nat_scope.

(** ** Expressions *)

Inductive regex :=
  | Eps
  | Chr (p : ascii → bool)
  | Seq (a b : regex)
  | Alt (a b : regex)
  | Star (greedy : bool) (a : regex)
  | Group (n : nat) (a : regex)
  | Back (n : nat)
  | Bol | Eol
  | NotAhead (a : regex).

Definition newline : ascii := "010".
Definition is_terminator (c : ascii) : bool := Ascii.eqb c newline || Ascii.eqb c "013".

(** [c], [.], [\s], [\d], [[...]]; [r+], [r?], [r{n,}], [r{1,n}]. *)
Definition Is (c : ascii) : regex := Chr (Ascii.eqb c).
Definition Any : regex := Chr (λ c, negb (is_terminator c)).
Definition Space : regex := Chr is_ws.
Definition Digit : regex := Chr is_digit.
Definition one_of (s : string) (c : ascii) : bool := existsb (Ascii.eqb c) (lst s).
Definition OneOf (s : string) : regex := Chr (one_of s).
Definition NoneOf (s : string) : regex := Chr (λ c, negb (one_of s c)).
Definition Plus (greedy : bool) (a : regex) : regex := Seq a (Star greedy a).
Definition Opt (a : regex) : regex := Alt a Eps.
Fixpoint Word (l : list ascii) : regex :=
  match l with [] => Eps | c :: l' => Seq (Is c) (Word l') end.
Fixpoint AtLeast (n : nat) (a : regex) : regex :=
  match n with O => Star true a | S n' => Seq a (AtLeast n' a) end.
Fixpoint AtMost (n : nat) (a : regex) : regex :=
  match n with O => Eps | S n' => Opt (Seq a (AtMost n' a)) end.

Fixpoint groups (r : regex) : list nat :=
  match r with
  | Seq a b | Alt a b => groups a ++ groups b
  | Star _ a | NotAhead a => groups a
  | Group n a => n :: groups a
  | _ => []
  end.

(** ** The matcher *)

(** A position: the character before it, what is ahead, and the groups captured so far. *)
Record pos := mkPos { before : option ascii; ahead : list ascii; caps : list (nat * list ascii) }.

Definition left_of (x : pos) : nat := length (ahead x).

(** What was read between two positions. *)
Definition read (x y : pos) : list ascii := take (left_of x - left_of y) (ahead x).

Definition advance (n : nat) (x : pos) : pos :=
  mkPos (match n with O => before x | S n' => ahead x !! n' end) (drop n (ahead x)) (caps x).

Fixpoint captured (n : nat) (cs : list (nat * list ascii)) : option (list ascii) :=
  match cs with
  | [] => None
  | (k, l) :: cs' => if Nat.eqb k n then Some l else captured n cs'
  end.

Definition forget (gs : list nat) (x : pos) : pos :=
  mkPos (before x) (ahead x) (filter (λ c, c.1 ∉ gs) (caps x)).

Definition capture (n : nat) (x y : pos) : pos :=
  mkPos (before y) (ahead y) ((n, read x y) :: caps y).

Definition cont := pos → option pos.

(** A quantifier, over at most [fuel] repetitions; a repetition that reads nothing fails. *)
Fixpoint repeatM (greedy : bool) (gs : list nat) (body : pos → cont → option pos) (fuel : nat)
    (x : pos) (k : cont) : option pos :=
  let more :=
    match fuel with
    | O => None
    | S f => body (forget gs x)
               (λ y, if left_of y =? left_of x then None else repeatM greedy gs body f y k)
    end in
  if greedy then match more with Some z => Some z | None => k x end
  else match k x with Some z => Some z | None => more end.

Fixpoint m (r : regex) (x : pos) (k : cont) : option pos :=
  match r with
  | Eps => k x
  | Chr p =>
      match ahead x with
      | c :: l => if p c then k (mkPos (Some c) l (caps x)) else None
      | [] => None
      end
  | Seq a b => m a x (λ y, m b y k)
  | Alt a b => match m a x k with Some z => Some z | None => m b x k end
  | Star greedy a => repeatM greedy (groups a) (m a) (left_of x) x k
  | Group n a => m a x (λ y, k (capture n x y))
  | Back n =>
      let l := default [] (captured n (caps x)) in
      if bool_decide (take (length l) (ahead x) = l) then k (advance (length l) x) else None
  | Bol => match before x with
           | None => k x
           | Some c => if is_terminator c then k x else None
           end
  | Eol => match ahead x with
           | [] => k x
           | c :: _ => if is_terminator c then k x else None
           end
  | NotAhead a => match m a x Some with Some _ => None | None => k x end
  end.

(** A match that begins exactly at a position. *)
Definition exec (r : regex) (prev : option ascii) (l : list ascii) : option pos := m r (mkPos prev l []) Some.

(** ** [replace] with the flag [g]

    The text matched and the groups are given to the replacement; after a match of nothing one
    character is copied. *)
Fixpoint replace_loop (fuel : nat) (r : regex) (f : list ascii → (nat → list ascii) → list ascii)
    (prev : option ascii) (l : list ascii) : list ascii :=
  match fuel with
  | O => []
  | S n =>
      let skip := match l with [] => [] | c :: l' => c :: replace_loop n r f (Some c) l' end in
      match exec r prev l with
      | None => skip
      | Some y =>
          f (read (mkPos prev l []) y) (λ i, default [] (captured i (caps y))) ++
          (if left_of y =? length l then skip else replace_loop n r f (before y) (ahead y))
      end
  end.

Definition replace (r : regex) (f : list ascii → (nat → list ascii) → list ascii) (l : list ascii) : list ascii :=
  replace_loop (S (length l)) r f None l.

(** [test], not anchored. *)
Fixpoint test_from (r : regex) (prev : option ascii) (l : list ascii) : bool :=
  match exec r prev l with
  | Some _ => true
  | None => match l with [] => false | c :: l' => test_from r (Some c) l' end
  end.
Definition test (r : regex) (s : string) : bool := test_from r None (lst s).

(** ** What an expression means *)

(** The matches of an expression, in no order. *)
Fixpoint matches (r : regex) (x y : pos) : Prop :=
  match r with
  | Eps => y = x
  | Chr p => ∃ c l, ahead x = c :: l ∧ p c = true ∧ y = mkPos (Some c) l (caps x)
  | Seq a b => ∃ z, matches a x z ∧ matches b z y
  | Alt a b => matches a x y ∨ matches b x y
  | Star _ a => rtc (λ u v, matches a (forget (groups a) u) v ∧ left_of v ≠ left_of u) x y
  | Group n a => ∃ z, matches a x z ∧ y = capture n x z
  | Back n => let l := default [] (captured n (caps x)) in
              take (length l) (ahead x) = l ∧ y = advance (length l) x
  | Bol => y = x ∧ ∀ c, before x = Some c → is_terminator c = true
  | Eol => y = x ∧ ∀ c, head (ahead x) = Some c → is_terminator c = true
  | NotAhead a => y = x ∧ ∀ z, ¬ matches a x z
  end.

(** ** Lemmas *)

(** A match reads a part of what is ahead. *)
Definition follows (x y : pos) : Prop :=
  ∃ l, ahead x = l ++ ahead y ∧ before y = match last l with Some c => Some c | None => before x end.

Lemma follows_refl x : follows x x.
Proof. by exists []. Qed.

Lemma follows_trans x y z : follows x y → follows y z → follows x z.
Proof.
  intros (l & Hl & Hb) (l' & Hl' & Hb'). exists (l ++ l'). rewrite Hl, Hl', (assoc_L (++)). split; [done|].
  rewrite last_app, Hb', Hb. by destruct (last l').
Qed.

Lemma follows_left x y : follows x y → left_of y ≤ left_of x.
Proof. intros (l & Hl & _). unfold left_of. rewrite Hl, length_app. lia. Qed.

Lemma follows_read x y : follows x y → ahead x = read x y ++ ahead y.
Proof.
  intros (l & Hl & _). unfold read, left_of. rewrite Hl, length_app.
  replace (length l + length (ahead y) - length (ahead y)) with (length l) by lia. by rewrite take_app_length.
Qed.

Lemma follows_advance n x : n ≤ length (ahead x) → follows x (advance n x).
Proof.
  intros Hn. exists (take n (ahead x)). cbn [advance before ahead].
  rewrite take_drop. split; [done|].
  destruct n as [|n]; [by rewrite take_0|].
  destruct (lookup_lt_is_Some_2 (ahead x) n ltac:(lia)) as [c Hc].
  by rewrite (take_S_r _ _ _ Hc), last_snoc.
Qed.

Lemma matches_follows r : ∀ x y, matches r x y → follows x y.
Proof.
  induction r as [|p|a IHa b IHb|a IHa b IHb|g a IHa|n a IHa|n| | |a IHa]; intros x y; cbn [matches].
  - intros ->. apply follows_refl.
  - intros (c & l & Hl & _ & ->). by exists [c].
  - intros (z & Ha & Hb). eauto using follows_trans.
  - intros [H|H]; eauto.
  - induction 1 as [|u v w [Huv _] _ IH]; [apply follows_refl|].
    eapply follows_trans; [|done]. by apply IHa in Huv.
  - intros (z & Ha & ->). by apply IHa in Ha.
  - intros [Hl ->]. apply follows_advance.
    apply (f_equal length) in Hl. rewrite length_take in Hl. lia.
  - intros [-> _]. apply follows_refl.
  - intros [-> _]. apply follows_refl.
  - intros [-> _]. apply follows_refl.
Qed.

(** What the matcher gives for a set of positions and a continuation: an end that the
    continuation accepts, or the certainty that there is none. *)
Definition decides (o : option pos) (R : pos → Prop) (k : cont) : Prop :=
  match o with Some z => ∃ y, R y ∧ k y = Some z | None => ∀ y, R y → k y = None end.

Lemma repeatM_decides g gs body (R : pos → pos → Prop) :
  (∀ x y, R x y → follows x y) →
  (∀ x k, decides (body x k) (R x) k) →
  ∀ fuel x k, left_of x ≤ fuel →
  decides (repeatM g gs body fuel x k) (rtc (λ u v, R (forget gs u) v ∧ left_of v ≠ left_of u) x) k.
Proof.
  intros HR Hbody fuel. set (step := λ u v, _). induction fuel as [|f IH]; intros x k Hx.
  - assert (∀ y, rtc step x y → y = x) as Hno.
    { intros y Hy. inversion Hy as [|? v ? [Hv Hne] Hrest]; [done|]. apply HR, follows_left in Hv.
      unfold left_of in *. cbn [forget ahead] in Hv. lia. }
    cbn [repeatM]. destruct (k x) as [z|] eqn:E.
    + assert (decides (Some z) (rtc step x) k) by (exists x; split; [apply rtc_refl|done]). by destruct g.
    + assert (decides None (rtc step x) k) by (intros y Hy; rewrite (Hno y Hy); done). by destruct g.
  - cbn [repeatM]. set (k' := λ y, if left_of y =? left_of x then None else repeatM g gs body f y k).
    specialize (Hbody (forget gs x) k').
    assert (∀ v, R (forget gs x) v → left_of v ≠ left_of x → step x v ∧ left_of v ≤ f) as Hstep.
    { intros v Hv Hne. split; [done|]. apply HR, follows_left in Hv.
      change (left_of (forget gs x)) with (left_of x) in Hv. lia. }
    assert (∀ z, body (forget gs x) k' = Some z → decides (Some z) (rtc step x) k) as Hmore.
    { intros z Hz. rewrite Hz in Hbody. destruct Hbody as (v & Hv & Hk'). unfold k' in Hk'.
      destruct (Nat.eqb_spec (left_of v) (left_of x)) as [|Hne]; [done|]. destruct (Hstep v Hv Hne) as [Hs Hf].
      specialize (IH v k Hf). rewrite Hk' in IH. destruct IH as (y & Hy & Hky).
      exists y. split; [by eapply rtc_l|done]. }
    assert (body (forget gs x) k' = None → k x = None → decides None (rtc step x) k) as Hnone.
    { intros Hb Hk y Hy. rewrite Hb in Hbody. inversion Hy as [|? v ? [Hv Hne] Hvy]; subst; [done|].
      specialize (Hbody v Hv). unfold k' in Hbody.
      destruct (Nat.eqb_spec (left_of v) (left_of x)) as [|_]; [done|]. destruct (Hstep v Hv Hne) as [_ Hf].
      specialize (IH v k Hf). rewrite Hbody in IH. by apply IH. }
    assert (∀ z, k x = Some z → decides (Some z) (rtc step x) k) as Hhere
      by (intros z Hz; exists x; split; [apply rtc_refl|done]).
    destruct g, (body (forget gs x) k'), (k x); eauto.
Qed.

(** The matcher decides whether there is a match that the continuation accepts. *)
Lemma m_decides r : ∀ x k, decides (m r x k) (matches r x) k.
Proof.
  induction r as [|p|a IHa b IHb|a IHa b IHb|g a IHa|n a IHa|n| | |a IHa]; intros x k; cbn [m matches].
  - destruct (k x) eqn:E; [by exists x|]. by intros y ->.
  - destruct (ahead x) as [|c l] eqn:E; [by intros y (? & ? & ? & _)|]. destruct (p c) eqn:Ep.
    + destruct (k _) eqn:Ek; [eexists; split; [by exists c, l|done]|]. by intros y (? & ? & [= <- <-] & _ & ->).
    + intros y (? & ? & [= <- <-] & Hp & _). congruence.
  - specialize (IHa x (λ y, m b y k)). destruct (m a x _) as [z|].
    + destruct IHa as (y & Hy & Hb). specialize (IHb y k). rewrite Hb in IHb.
      destruct IHb as (w & Hw & Hk). exists w. split; [by exists y|done].
    + intros w (y & Hy & Hw). specialize (IHb y k). rewrite (IHa y Hy) in IHb. by apply IHb.
  - specialize (IHa x k). specialize (IHb x k). destruct (m a x k) as [z|].
    + destruct IHa as (y & Hy & Hk). exists y. split; [by left|done].
    + destruct (m b x k) as [z|].
      * destruct IHb as (y & Hy & Hk). exists y. split; [by right|done].
      * intros y [Hy|Hy]; auto.
  - apply repeatM_decides; [apply matches_follows|done|done].
  - specialize (IHa x (λ y, k (capture n x y))). destruct (m a x _) as [z|].
    + destruct IHa as (y & Hy & Hk). exists (capture n x y). split; [by exists y|done].
    + intros w (y & Hy & ->). by apply IHa.
  - case_bool_decide as Hl.
    + destruct (k _) eqn:E; [by eexists|]. by intros y [_ ->].
    + intros y [? _]. done.
  - destruct (before x) as [c|] eqn:E; [destruct (is_terminator c) eqn:Et|].
    + destruct (k x) eqn:Ek; [|by intros y [-> _]]. exists x. split; [split; [done|]|done]. by intros ? [= <-].
    + intros y [_ H]. specialize (H c eq_refl). congruence.
    + destruct (k x) eqn:Ek; [|by intros y [-> _]]. by exists x.
  - destruct (ahead x) as [|c l] eqn:E; [|destruct (is_terminator c) eqn:Et].
    + destruct (k x) eqn:Ek; [|by intros y [-> _]]. by exists x.
    + destruct (k x) eqn:Ek; [|by intros y [-> _]]. exists x. split; [split; [done|]|done]. by intros ? [= <-].
    + intros y [_ H]. specialize (H c eq_refl). congruence.
  - specialize (IHa x Some). destruct (m a x Some) as [z|].
    + destruct IHa as (y & Hy & _). intros w [_ Hn]. by destruct (Hn y).
    + assert (∀ z, ¬ matches a x z) as Hn by (intros z Hz; by specialize (IHa z Hz)).
      destruct (k x) eqn:Ek; [by exists x|]. by intros y [-> _].
Qed.

(** Equal on what a match can reach, continuations give the same. *)
Lemma repeatM_ext g gs body (R : pos → pos → Prop) :
  (∀ x k k', (∀ y, R x y → k y = k' y) → body x k = body x k') →
  ∀ fuel x k k',
  (∀ y, rtc (λ u v, R (forget gs u) v ∧ left_of v ≠ left_of u) x y → k y = k' y) →
  repeatM g gs body fuel x k = repeatM g gs body fuel x k'.
Proof.
  intros Hbody fuel. induction fuel as [|f IH]; intros x k k' Hk; cbn [repeatM];
    rewrite (Hk x (rtc_refl _ _)); [done|].
  rewrite (Hbody (forget gs x) _
    (λ y, if left_of y =? left_of x then None else repeatM g gs body f y k')); [done|].
  intros y Hy. destruct (Nat.eqb_spec (left_of y) (left_of x)); [done|].
  apply IH. intros z Hz. apply Hk. by eapply rtc_l.
Qed.

Lemma m_ext r : ∀ x k k', (∀ y, matches r x y → k y = k' y) → m r x k = m r x k'.
Proof.
  induction r as [|p|a IHa b IHb|a IHa b IHb|g a IHa|n a IHa|n| | |a IHa]; intros x k k' Hk; cbn [m].
  - by apply Hk.
  - destruct (ahead x) as [|c l] eqn:E; [done|]. destruct (p c) eqn:Ep; [|done].
    apply Hk. by exists c, l.
  - apply IHa. intros y Hy. apply IHb. intros z Hz. apply Hk. by exists y.
  - rewrite (IHa x k k'), (IHb x k k'); [done| |]; intros y Hy; apply Hk; [by right|by left].
  - by apply (repeatM_ext g (groups a) (m a) (matches a)).
  - apply IHa. intros y Hy. apply Hk. by exists y.
  - case_bool_decide; [|done]. by apply Hk.
  - destruct (before x) as [c|] eqn:E; [|apply Hk; split; [done|by rewrite E]].
    destruct (is_terminator c) eqn:Et; [|done]. apply Hk. split; [done|]. rewrite E. by intros ? [= <-].
  - destruct (ahead x) as [|c l] eqn:E; [apply Hk; split; [done|by rewrite E]|].
    destruct (is_terminator c) eqn:Et; [|done]. apply Hk. split; [done|]. rewrite E. by intros ? [= <-].
  - pose proof (m_decides a x Some) as Hd. destruct (m a x Some) as [z|]; [done|].
    apply Hk. split; [done|]. intros z Hz. by specialize (Hd z Hz).
Qed.

(** An expression without groups keeps the groups captured so far. *)
Lemma matches_caps r : groups r = [] → ∀ x y, matches r x y → caps y = caps x.
Proof.
  induction r as [|p|a IHa b IHb|a IHa b IHb|g a IHa|n a IHa|n| | |a IHa]; cbn [groups matches]; intros Hg x y.
  - by intros ->.
  - by intros (c & l & _ & _ & ->).
  - apply app_nil in Hg as [Ha Hb]. intros (z & Hz & Hy). rewrite (IHb Hb _ _ Hy). eauto.
  - apply app_nil in Hg as [Ha Hb]. intros [H|H]; eauto.
  - rewrite Hg. induction 1 as [|u v w [Huv _] _ IH]; [done|]. rewrite IH, (IHa Hg _ _ Huv).
    cbn [forget caps]. apply filter_all, Forall_forall. intros c _. apply not_elem_of_nil.
  - done.
  - by intros [_ ->].
  - by intros [-> _].
  - by intros [-> _].
  - by intros [-> _].
Qed.

(** A greedy run of characters, when whatever follows succeeds, is as long as it can be. *)
Lemma greedy_run p x k : (∀ y, k y ≠ None) →
  ∃ y, m (Star true (Chr p)) x k = k y ∧ matches (Star true (Chr p)) x y ∧
    ∀ c, head (ahead y) = Some c → p c = false.
Proof.
  intros Hk. cbn [m groups]. remember (left_of x) as n eqn:Hn. revert x Hn.
  induction n as [|n IH]; intros [b [|c l] cs] Hn; try done; cbn [repeatM].
  - exists (mkPos b [] cs). split; [done|]. split; [apply rtc_refl|done].
  - cbn [m forget ahead caps]. destruct (p c) eqn:Ep.
    + destruct (IH (mkPos (Some c) l (filter (λ c0, c0.1 ∉ []) cs))) as (y & Hy & Hm & Hh); [by injection Hn|].
      exists y. cbn [left_of ahead length caps].
      destruct (Nat.eqb_spec (length l) (S (length l))) as [|_]; [lia|]. rewrite Hy.
      split; [by destruct (k y) eqn:E; [|destruct (Hk y)]|]. split; [|done].
      eapply rtc_l; [|exact Hm]. split; [by exists c, l|]. unfold left_of. cbn [ahead length]. lia.
    + exists (mkPos b (c :: l) cs). split; [done|]. split; [apply rtc_refl|]. by intros ? [= <-].
Qed.

Lemma exec_matches r b l y : exec r b l = Some y → matches r (mkPos b l []) y.
Proof.
  intros H. pose proof (m_decides r (mkPos b l []) Some) as Hd. unfold exec in H. rewrite H in Hd.
  by destruct Hd as (z & Hz & [= ->]).
Qed.

Lemma exec_none r b l : (∀ y, ¬ matches r (mkPos b l []) y) → exec r b l = None.
Proof. intros H. destruct (exec r b l) as [y|] eqn:E; [|done]. by apply exec_matches, H in E. Qed.

(** One step of the loop, when nothing matches. *)
Lemma replace_skip n r f b c l : exec r b (c :: l) = None →
  replace_loop (S n) r f b (c :: l) = c :: replace_loop n r f (Some c) l.
Proof. intros H. cbn [replace_loop]. by rewrite H. Qed.

(** More fuel than characters changes nothing. *)
Lemma replace_fuel r f : ∀ n n' b l, length l < n → length l < n' →
  replace_loop n r f b l = replace_loop n' r f b l.
Proof.
  induction n as [|n IH]; intros [|n'] b l Hn Hn'; try lia. cbn [replace_loop].
  assert (match l with [] => [] | c :: l' => c :: replace_loop n r f (Some c) l' end =
          match l with [] => [] | c :: l' => c :: replace_loop n' r f (Some c) l' end) as Hs
    by (destruct l as [|c l]; [done|]; cbn [length] in *; f_equal; apply IH; lia).
  destruct (exec r b l) as [y|] eqn:E; [|done]. f_equal.
  destruct (Nat.eqb_spec (left_of y) (length l)) as [|Hne]; [done|].
  apply exec_matches, matches_follows, follows_left in E. unfold left_of in *. cbn [ahead] in E.
  apply IH; lia.
Qed.

(** Characters replaced wherever they stand. *)
Lemma replace_chars p f l : replace (Chr p) (λ t _, f t) l = x ← l; if p x then f [x] else [x].
Proof.
  unfold replace. assert (∀ n b l, length l < n →
    replace_loop n (Chr p) (λ t _, f t) b l = x ← l; if p x then f [x] else [x]) as H; [|apply H; lia].
  clear l. intros n. induction n as [|n IH]; intros b l Hn; [lia|].
  destruct l as [|x l]; [done|]. cbn [length] in Hn. cbn [mbind list_bind]. rewrite <- (IH (Some x) l) by lia.
  cbn [replace_loop]. unfold exec. cbn [m ahead caps]. destruct (p x); [|done].
  unfold read, left_of. cbn [ahead before length]. destruct (Nat.eqb_spec (length l) (S (length l))); [lia|].
  by replace (S (length l) - length l) with 1 by lia.
Qed.

(** ** Parts of a match *)

(** An expression without groups. *)
Lemma match_plain r x y : matches r x y → groups r = [] → follows x y ∧ caps y = caps x.
Proof. intros H Hg. split; [by eapply matches_follows|by eapply matches_caps]. Qed.

Lemma match_group n r x y : groups r = [] → matches (Group n r) x y →
  ∃ z, matches r x z ∧ follows x z ∧ ahead y = ahead z ∧ before y = before z ∧
    captured n (caps y) = Some (read x y) ∧ ∀ i, i ≠ n → captured i (caps y) = captured i (caps x).
Proof.
  intros Hg (z & Hz & ->). exists z. split; [done|]. split; [by eapply matches_follows|].
  split; [done|]. split; [done|]. cbn [capture caps captured]. rewrite Nat.eqb_refl. split; [done|].
  intros i Hi. destruct (Nat.eqb_spec n i); [done|]. by rewrite (matches_caps _ Hg _ _ Hz).
Qed.

(** A line begins, or ends, or a character stands there. *)
Lemma match_bol r x y : matches (Seq Bol r) x y →
  matches r x y ∧ ∀ c, before x = Some c → is_terminator c = true.
Proof. by intros (z & [-> H] & Hy). Qed.

Lemma match_eol x y : matches Eol x y → y = x ∧ ∀ c, head (ahead x) = Some c → is_terminator c = true.
Proof. done. Qed.

Lemma match_char p x y : matches (Chr p) x y →
  ∃ c, head (ahead x) = Some c ∧ p c = true ∧ left_of y < left_of x.
Proof.
  intros (c & l & Hl & Hp & ->). exists c. unfold left_of. rewrite Hl. cbn [ahead length head]. split; [done|].
  split; [done|lia].
Qed.

Lemma match_is c x y : matches (Is c) x y → head (ahead x) = Some c.
Proof. intros H. destruct (match_char _ _ _ H) as (c' & Hc & He & _). apply Ascii.eqb_eq in He. congruence. Qed.

(** A quantifier that takes what follows as it is never fails. *)
Lemma repeatM_total gs body fuel x k : (∀ y, k y ≠ None) → repeatM true gs body fuel x k ≠ None.
Proof. intros Hk. destruct fuel; cbn [repeatM]; [apply Hk|]. by destruct (body _ _). Qed.
