(* ===== verification/Markdown.v ===== *)
(** * The body of an issue, from Markdown to HTML ([src/frontend/src/pages/IssueDetailPage.tsx])

    [renderMarkdown] step by step, on the matcher of [Regex]: which tags its output can have and
    where its links can lead, whatever the body; what the comment promises and the steps do not
    keep. *)

From Stdlib Require Import String Ascii Arith.
From S2P Require Import Prelude Js Regex.

#[local] Open Scope string_scope.
#[local] Open Scope list_scope.
#[local] Open Scope nat_scope.

(** ** The steps *)

Definition quote : ascii := "034".
Definition tab : ascii := "009".
Definition quoted (s : string) : string := String quote (s +:+ String quote "").
Definition html (l : list string) : list ascii := l ≫= lst.

(** 1. The five characters of HTML. *)
Definition escape_html (raw : list ascii) : list ascii :=
  let sub c w l := replace (Is c) (λ _ _, lst w) l in
  sub "'"%char "&#39;" (sub quote "&quot;" (sub ">"%char "&gt;" (sub "<"%char "&lt;" (sub "&"%char "&amp;" raw)))).

(** An attribute value: one pass. *)
Definition esc_char (c : ascii) : list ascii :=
  lst (if Ascii.eqb c "&" then "&amp;" else if Ascii.eqb c "<" then "&lt;" else if Ascii.eqb c ">" then "&gt;"
       else if Ascii.eqb c quote then "&quot;" else if Ascii.eqb c "'" then "&#39;" else String c "").
Definition esc (s : list ascii) : list ascii :=
  replace (Chr (one_of ("&<>'" +:+ String quote ""))) (λ t _, t ≫= esc_char) s.

(** 2. Fenced code. *)
Definition fence_re : regex :=
  Seq (Word (lst "```")) (Seq (Group 1 (Star true (Chr (λ c, negb (Ascii.eqb c newline)))))
    (Seq (Is newline) (Seq (Group 2 (Star false (Chr (λ _, true)))) (Word (lst "```"))))).
Definition language_class (lang : list ascii) : list ascii :=
  match trim_list lang with
  | [] => []
  | l => html [" class="; String quote "language-"] ++ esc l ++ [quote]
  end.
Definition fenced (_ : list ascii) (g : nat → list ascii) : list ascii :=
  lst "<pre><code" ++ language_class (g 1) ++ lst ">" ++ g 2 ++ lst "</code></pre>".

(** 3. Headings. *)
Definition heading_re : regex :=
  Seq Bol (Seq (Group 1 (Seq (Is "#") (AtMost 5 (Is "#"))))
    (Seq (Plus true Space) (Seq (Group 2 (Plus true Any)) Eol))).
Definition heading (_ : list ascii) (g : nat → list ascii) : list ascii :=
  let level := lst (pretty (length (g 1))) in
  lst "<h" ++ level ++ lst ">" ++ g 2 ++ lst "</h" ++ level ++ lst ">".

(** 4. Rules. *)
Definition rule_re : regex := Seq Bol (Seq (AtLeast 3 (OneOf "-*_")) (Seq (Star true Space) Eol)).

(** 5. and 6. Lists. *)
Definition blank (c : ascii) : bool := Ascii.eqb c " " || Ascii.eqb c tab.
Definition bullet : regex := OneOf "-*".
Definition number : regex := Seq (Plus true Digit) (Is ".").
Definition item_start (mark : regex) : regex :=
  Seq Bol (Seq (Star true (Chr blank)) (Seq mark (Plus true Space))).
Definition line_re (mark : regex) : regex :=
  Seq (item_start mark) (Seq (Plus true Any) (Opt (Is newline))).
Definition block_re (mark : regex) : regex := Group 1 (Plus true (line_re mark)).
Definition item_re (mark : regex) : regex :=
  Seq (item_start mark) (Seq (Group 1 (Plus true Any)) Eol).
Definition list_of (tag : string) (mark : regex) (block : list ascii) (_ : nat → list ascii) : list ascii :=
  html ["<"; tag; ">"] ++
  replace (item_re mark) (λ _ g, lst "<li>" ++ g 1 ++ lst "</li>") block ++
  html ["</"; tag; ">"].

(** 7. Inside a line. *)
Definition inline_code_re : regex := Seq (Is "`") (Seq (Group 1 (Plus true (NoneOf "`"))) (Is "`")).
Definition bold_re : regex :=
  Seq (Group 1 (Alt (Word (lst "**")) (Word (lst "__")))) (Seq (Group 2 (Plus false Any)) (Back 1)).
Definition italic_re : regex := Seq (Group 1 (OneOf "*_")) (Seq (Group 2 (Plus false Any)) (Back 1)).
Definition strike_re : regex := Seq (Word (lst "~~")) (Seq (Group 1 (Plus false Any)) (Word (lst "~~"))).
Definition link_re : regex :=
  Seq (Is "[") (Seq (Group 1 (Plus true (NoneOf "]"))) (Seq (Is "]") (Seq (Is "(")
    (Seq (Group 2 (Plus true (NoneOf ")"))) (Is ")"))))).
Definition wrap (tag : string) (i : nat) (_ : list ascii) (g : nat → list ascii) : list ascii :=
  html ["<"; tag; ">"] ++ g i ++ html ["</"; tag; ">"].

Definition scheme_re : regex :=
  Alt (Seq (Word (lst "http")) (Seq (Opt (Is "s")) (Is ":"))) (Word (lst "mailto:")).
Definition safe_href (href : list ascii) : list ascii :=
  match exec scheme_re None href with Some _ => href | None => lst "#" end.
Definition link (_ : list ascii) (g : nat → list ascii) : list ascii :=
  html ["<a href="; String quote ""] ++ safe_href (g 2) ++
  html [String quote " target="; quoted "_blank"; " rel="; quoted "noreferrer noopener"; ">"] ++ g 1 ++ lst "</a>".

(** 8. The lines that are left. *)
Definition line_left_re : regex :=
  Seq Bol (Seq (NotAhead (Alt (Seq (Is "<") (Chr is_lower)) (Seq (Star true (Chr blank)) Eol)))
    (Seq (Group 1 (Plus true Any)) Eol)).

(** The steps before the links, and those that follow. *)
Definition blocks (out : list ascii) : list ascii :=
  let out := replace fence_re fenced out in
  let out := replace heading_re heading out in
  let out := replace rule_re (λ _ _, lst "<hr>") out in
  let out := replace (block_re bullet) (list_of "ul" bullet) out in
  replace (block_re number) (list_of "ol" number) out.
Definition inlines (out : list ascii) : list ascii :=
  let out := replace inline_code_re (wrap "code" 1) out in
  let out := replace bold_re (wrap "strong" 2) out in
  let out := replace italic_re (wrap "em" 2) out in
  replace strike_re (wrap "del" 1) out.
Definition links_and_lines (out : list ascii) : list ascii :=
  replace line_left_re (wrap "p" 1) (replace link_re link out).

Definition render (raw : list ascii) : list ascii := links_and_lines (inlines (blocks (escape_html raw))).
Definition renderMarkdown (raw : string) : string := str (render (lst raw)).

(** A text of several lines. *)
Definition lines (l : list string) : string := join (String newline "") l.

Example rendered : renderMarkdown (lines ["# A **b**"; "text `c` <i>"; "- one"; "- *two*"; "";
    "see [x](javascript:f)"]) =
  lines ["<h1>A <strong>b</strong></h1>"; "<p>text <code>c</code> &lt;i&gt;</p>"; "<ul><li>one</li>";
    "<li><em>two</em></li>"; "<p></ul></p>";
    "<p>see <a href=" +:+ quoted "#" +:+ " target=" +:+ quoted "_blank" +:+ " rel=" +:+
      quoted "noreferrer noopener" +:+ ">x</a></p>"].
Proof. vm_compute. reflexivity. Qed.

(** The language of a fence is in an attribute when the links are replaced: the reader's browser
    is given an attribute of the author's, [onmouseover]. *)
Example attribute_injected :
  renderMarkdown (lines ["```[x](http: onmouseover=location=name y)"; "code```"]) =
  "<pre><code class=" +:+ String quote ("language-<a href=" +:+
    quoted "http: onmouseover=location=name y" +:+ " target=" +:+ quoted "_blank" +:+ " rel=" +:+
    quoted "noreferrer noopener" +:+ ">x</a>" +:+ String quote ">code</code></pre>").
Proof. vm_compute. reflexivity. Qed.

(** What is fenced is not kept as it is: the steps after it go on inside. *)
Example code_rewritten : renderMarkdown (lines ["```"; "# a *b*"; "```"]) =
  lines ["<pre><code># a <em>b</em>"; "<p></code></pre></p>"].
Proof. vm_compute. reflexivity. Qed.

(** ** Tags *)

(** The tags of the templates: what may follow a [<]. *)
Definition heading_tags : list string := n ← ["1"; "2"; "3"; "4"; "5"; "6"]; ["h" +:+ n +:+ ">"; "/h" +:+ n +:+ ">"].
Definition text_tags : list string :=
  ["pre>"; "code>"; "code class=" +:+ String quote "language-"; "/code>"; "/pre>"; "hr>"; "ul>"; "/ul>";
   "ol>"; "/ol>"; "li>"; "/li>"; "strong>"; "/strong>"; "em>"; "/em>"; "del>"; "/del>"] ++ heading_tags.
Definition link_tags : list string :=
  ["a href=" +:+ String quote "http:"; "a href=" +:+ String quote "https:";
   "a href=" +:+ String quote "mailto:"; "a href=" +:+ quoted "#"; "/a>"; "p>"; "/p>"].

(** Each [<] of a text begins one of the tags. *)
Inductive tagged (T : list string) : list ascii → Prop :=
  | tagged_nil : tagged T []
  | tagged_char c l : c ≠ "<"%char → tagged T l → tagged T (c :: l)
  | tagged_tag w l : w ∈ T → tagged T l → tagged T ("<"%char :: lst w ++ l).

Definition outside (T : list string) (c : ascii) : Prop :=
  c ≠ "<"%char ∧ Forall (λ w, c ∉ lst w) T.

#[export] Instance outside_dec T c : Decision (outside T c).
Proof. unfold outside. apply _. Defined.

(** No tag has a [<] inside. *)
Definition well_formed (T : list string) : Prop := Forall (λ w, "<"%char ∉ lst w) T.

#[export] Instance well_formed_dec T : Decision (well_formed T).
Proof. unfold well_formed. apply _. Defined.

Section tags.
Context (T : list string) (HT : well_formed T).

Lemma tagged_plain l : "<"%char ∉ l → tagged T l.
Proof. clear HT. induction l as [|c l IH]; intros Hl; [constructor|]. constructor; set_solver. Qed.

Lemma tagged_app a b : tagged T a → tagged T b → tagged T (a ++ b).
Proof.
  clear HT. induction 1 as [|c l Hc _ IH|w l Hw _ IH]; intros Hb; [done|by constructor; auto|].
  cbn [app]. rewrite <- (assoc_L (++)). by constructor; auto.
Qed.

Lemma tag_plain w : w ∈ T → "<"%char ∉ lst w.
Proof. unfold well_formed in HT. rewrite Forall_forall in HT. apply HT. Qed.

Lemma tagged_tail c l : tagged T (c :: l) → tagged T l.
Proof.
  intros H. inversion H as [|? ? _ Hl|w l' Hw Hl]; subst; [done|].
  apply tagged_app; [|done]. by apply tagged_plain, tag_plain.
Qed.

Lemma tagged_suffix a b : tagged T (a ++ b) → tagged T b.
Proof. induction a as [|c a IH]; [done|]. intros H. by eapply IH, tagged_tail. Qed.

(** A text can be cut before or after a character no tag has. *)
Lemma tagged_cut a b : (∀ c, head b = Some c → outside T c) → tagged T (a ++ b) → tagged T a.
Proof.
  clear HT. intros Hb. remember (a ++ b) as l eqn:Hl. intros H. revert a Hl.
  induction H as [|c l Hc _ IH|w l Hw _ IH]; intros [|c' a] Hl; try (by constructor); try done.
  - injection Hl as [= -> ->]. by constructor; auto.
  - injection Hl as [= <- Hl]. destruct (decide (length a < length (lst w))) as [Hlt|Hge].
    + destruct b as [|c b].
      * exfalso. apply (f_equal length) in Hl. rewrite !length_app in Hl. cbn [length] in Hl. lia.
      * exfalso. destruct (Hb c eq_refl) as [_ Ho]. rewrite Forall_forall in Ho. apply (Ho w Hw).
        apply list_elem_of_lookup. exists (length a).
        rewrite <- (lookup_app_l (lst w) l) by done. by rewrite Hl, list_lookup_middle.
    + assert (a = lst w ++ drop (length (lst w)) a) as Ha.
      { rewrite <- (take_drop (length (lst w)) a) at 1. f_equal.
        rewrite <- (take_app_le a b), <- Hl, take_app_length by lia. done. }
      rewrite Ha. constructor; [done|]. apply IH. rewrite Ha, <- (assoc_L (++)) in Hl.
      by apply app_inv_head in Hl.
Qed.

Lemma tagged_cut_after a c b : outside T c → tagged T (a ++ c :: b) → tagged T (a ++ [c]).
Proof.
  clear HT. intros Hc H. apply tagged_app; [|by apply tagged_plain; destruct Hc; set_solver].
  eapply tagged_cut; [|done]. by intros ? [= <-].
Qed.
End tags.

Lemma tagged_mono T T' l : T ⊆ T' → tagged T l → tagged T' l.
Proof. intros HT. induction 1; [constructor|by constructor|]. constructor; [by apply HT|done]. Qed.

Lemma plain_outside T w c : w ∈ T → c ∈ lst w → ¬ outside T c.
Proof. intros Hw Hc [_ Ho]. rewrite Forall_forall in Ho. by apply (Ho w Hw). Qed.

(** A replacement keeps the tags when no match begins inside one, and what is put there has
    only tags: possibly more of them. *)
Section replacing.
Context (T T' : list string) (r : regex) (f : list ascii → (nat → list ascii) → list ascii).
Context (HT : well_formed T) (HTT : T ⊆ T').
Context (Hstart : ∀ x y, matches r x y →
  (∀ c, before x = Some c → outside T c) ∨ ∃ c, head (ahead x) = Some c ∧ outside T c).
Context (Hf : ∀ b l y, tagged T l → exec r b l = Some y →
  tagged T' (f (read (mkPos b l []) y) (λ i, default [] (captured i (caps y))))).

(** The loop copies a tag it stands in. *)
Lemma replace_in_tag w l : ∀ n b u v, w ∈ T → "<"%char :: lst w = u ++ [b] ++ v → length (v ++ l) < n →
  ∃ n' b', length l < n' ∧ n' ≤ n ∧ replace_loop n r f (Some b) (v ++ l) = v ++ replace_loop n' r f (Some b') l.
Proof.
  intros n b u v Hw. revert n b u. induction v as [|c v IH]; intros n b u Huv Hn; [by exists n, b|].
  destruct n as [|n]; [lia|]. cbn [app length] in Hn. rewrite <- app_comm_cons.
  assert (c ∈ lst w ∧ ¬ outside T b) as [Hc Hb].
  { destruct u as [|u0 u]; injection Huv as [= Hu Hl]; [split; [rewrite Hl; left|intros [Hn' _]; congruence]|].
    rewrite Hl. split; [|apply (plain_outside _ w); [done|rewrite Hl]]; rewrite !elem_of_app, ?elem_of_cons; naive_solver. }
  rewrite replace_skip.
  - destruct (IH n c (u ++ [b])) as (n' & b' & Hl & Hle & ->); [by rewrite Huv, <- !(assoc_L (++))|lia|].
    exists n', b'. split; [done|]. split; [lia|done].
  - apply exec_none. intros y Hy. destruct (Hstart _ _ Hy) as [Ho|(c' & [= <-] & Ho)]; cbn [before] in *.
    + by apply Hb, Ho.
    + by apply (plain_outside _ w c) in Ho.
Qed.

Lemma replace_loop_tagged n : ∀ b l, length l < n → tagged T l → tagged T' (replace_loop n r f b l).
Proof.
  induction n as [n IH] using lt_wf_ind. intros b l Hn Hl. destruct n as [|n]; [lia|].
  assert (tagged T' (match l with [] => [] | c :: l' => c :: replace_loop n r f (Some c) l' end)) as Hskip.
  { inversion Hl as [|c l' Hc Hl'|w l' Hw Hl']; subst; [constructor| |].
    - cbn [length] in Hn. constructor; [done|]. apply IH; [lia|lia|done].
    - cbn [length] in Hn. rewrite length_app in Hn.
      destruct (replace_in_tag w l' n "<"%char [] (lst w)) as (n' & b' & Hlt & Hle & ->);
        [done|done|rewrite length_app; lia|].
      constructor; [by apply HTT|]. apply IH; [lia|done|done]. }
  cbn [replace_loop]. destruct (exec r b l) as [y|] eqn:E; [|done].
  pose proof (matches_follows _ _ _ (exec_matches _ _ _ _ E)) as Hfol.
  apply tagged_app; [by eapply Hf|]. destruct (Nat.eqb_spec (left_of y) (length l)) as [|Hne]; [done|].
  pose proof (follows_left _ _ Hfol) as Hle. unfold left_of in *. cbn [ahead] in Hle.
  apply IH; [lia|lia|]. apply follows_read in Hfol. cbn [ahead] in Hfol. rewrite Hfol in Hl.
  by eapply tagged_suffix.
Qed.

Lemma replace_tagged l : tagged T l → tagged T' (replace r f l).
Proof. apply replace_loop_tagged. lia. Qed.
End replacing.

(** ** The steps keep the tags *)

Definition begins (T : list string) (r : regex) : Prop := ∀ x y, matches r x y →
  (∀ c, before x = Some c → outside T c) ∨ ∃ c, head (ahead x) = Some c ∧ outside T c.

(** Where a line ends, a text can be cut. *)
Definition line_safe (T : list string) : Prop := outside T newline ∧ outside T "013"%char.

Lemma terminator_outside T c : line_safe T → is_terminator c = true → outside T c.
Proof.
  intros [Hn Hr]. unfold is_terminator. intros [H|H]%orb_true_iff; apply Ascii.eqb_eq in H; by subst.
Qed.

Lemma begins_bol T r : line_safe T → begins T (Seq Bol r).
Proof. intros HT x y H. left. intros c Hc. apply match_bol in H as [_ H]. eauto using terminator_outside. Qed.

Lemma begins_char T p r : (∀ c, p c = true → outside T c) → begins T (Seq (Chr p) r).
Proof. intros Hp x y (z & H & _). right. destruct (match_char _ _ _ H) as (c & Hc & Hpc & _). eauto. Qed.

Lemma begins_assoc T a b c : begins T (Seq a (Seq b c)) → begins T (Seq (Seq a b) c).
Proof. intros H x y (z & (w & Ha & Hb) & Hc). apply (H x y). exists w. split; [done|by exists z]. Qed.

Lemma begins_group T n a b : begins T (Seq a Eps) → begins T (Seq (Group n a) b).
Proof. intros H x y (z & (w & Ha & _) & _). apply (H x w). by exists w. Qed.

(** What is read from a position of a tagged text, and what is left. *)
Lemma piece_tagged T x y : tagged T (ahead x) → follows x y →
  (∀ c, head (ahead y) = Some c → outside T c) → tagged T (read x y).
Proof. intros Hx Hf Hc. apply (tagged_cut T _ (ahead y)); [done|]. by rewrite <- follows_read. Qed.

Lemma rest_tagged T x y : well_formed T → tagged T (ahead x) → follows x y → tagged T (ahead y).
Proof. intros HT Hx Hf. rewrite (follows_read _ _ Hf) in Hx. by eapply tagged_suffix. Qed.

Lemma read_same x y z : ahead y = ahead z → read x y = read x z.
Proof. unfold read, left_of. by intros ->. Qed.

Definition all_tags : list string := text_tags ++ link_tags.

Lemma text_well : well_formed text_tags.
Proof. apply (bool_decide_unpack _). vm_compute. exact I. Qed.
Lemma all_well : well_formed all_tags.
Proof. apply (bool_decide_unpack _). vm_compute. exact I. Qed.
Lemma text_lines : line_safe text_tags.
Proof. split; apply (bool_decide_unpack _); vm_compute; exact I. Qed.
Lemma all_lines : line_safe all_tags.
Proof. split; apply (bool_decide_unpack _); vm_compute; exact I. Qed.

Ltac tag_known := apply (bool_decide_unpack _); vm_compute; exact I.

Lemma tagged_open T w l : w ∈ T → tagged T l → tagged T (lst ("<" +:+ w) ++ l).
Proof. intros Hw Hl. rewrite lst_app, <- (assoc_L (++)). exact (tagged_tag T w l Hw Hl). Qed.

Lemma tagged_wrap T a b l : a ∈ T → b ∈ T → tagged T l → tagged T (lst ("<" +:+ a) ++ l ++ lst ("<" +:+ b)).
Proof.
  intros Ha Hb Hl. apply tagged_open; [done|]. apply tagged_app; [done|].
  rewrite <- (app_nil_r (lst ("<" +:+ b))). apply tagged_open; [done|constructor].
Qed.

(** 1. *)
Lemma sub_plain c w l : "<"%char ∉ lst w → (c = "<"%char ∨ "<"%char ∉ l) →
  "<"%char ∉ replace (Is c) (λ _ _, lst w) l.
Proof.
  intros Hw Hl. unfold Is. rewrite (replace_chars _ (λ _, lst w)). rewrite list_elem_of_bind.
  intros (x & Hin & Hx). destruct (Ascii.eqb c x) eqn:E; [done|]. apply Ascii.eqb_neq in E.
  apply list_elem_of_singleton in Hin as <-. naive_solver.
Qed.

Lemma escape_plain raw : "<"%char ∉ escape_html raw.
Proof.
  unfold escape_html. repeat (apply sub_plain; [apply (bool_decide_unpack _); vm_compute; exact I|first [by left|right]]).
Qed.

(** 2. *)
Lemma esc_plain s : "<"%char ∉ esc s.
Proof.
  unfold esc. rewrite (replace_chars _ (λ t, t ≫= esc_char)), list_elem_of_bind.
  intros (x & Hin & Hx). destruct (one_of _ x) eqn:E.
  - cbn [mbind list_bind] in Hin. rewrite app_nil_r in Hin. unfold esc_char in Hin.
    revert Hin. repeat (case_match; [apply (bool_decide_unpack _); vm_compute; exact I|]).
    cbn [lst list_ascii_of_string]. intros <-%list_elem_of_singleton. by vm_compute in E.
  - by apply list_elem_of_singleton in Hin as <-.
Qed.

Lemma tagged_untagged l : tagged [] l → "<"%char ∉ l.
Proof. induction 1 as [|c l Hc _ IH|w l Hw _ IH]; [set_solver..|]. by apply not_elem_of_nil in Hw. Qed.

Lemma drop_ws_plain l : "<"%char ∉ l → "<"%char ∉ drop_ws l.
Proof. intros Hl Hin. apply Hl. destruct (drop_ws_suffix l) as [k Hk]. rewrite Hk. set_solver. Qed.

Lemma trim_plain l : "<"%char ∉ l → "<"%char ∉ trim_list l.
Proof.
  intros Hl. unfold trim_list. rewrite list_elem_of_In, <- in_rev, <- list_elem_of_In. apply drop_ws_plain.
  rewrite list_elem_of_In, <- in_rev, <- list_elem_of_In. by apply drop_ws_plain.
Qed.

Lemma read_in x z z' c : follows x z → follows z z' → c ∈ read z z' → c ∈ ahead x.
Proof. intros H1 H2 Hc. rewrite (follows_read _ _ H1), (follows_read _ _ H2). set_solver. Qed.

Lemma follows_ahead x y y' : ahead y = ahead y' → follows x y → read x y' = read x y ∧ ahead x = read x y ++ ahead y'.
Proof. intros Ha H. split; [by apply read_same|]. rewrite <- Ha. by apply follows_read. Qed.

(** The parts of a match: what is read before a group, the group, and where it ends. *)
Lemma group_after n a b x y : groups a = [] → matches (Seq (Group n a) b) x y →
  ∃ z, matches a x z ∧ follows x z ∧ ∃ z', ahead z' = ahead z ∧ before z' = before z ∧ matches b z' y ∧
    captured n (caps z') = Some (read x z) ∧ ∀ i, i ≠ n → captured i (caps z') = captured i (caps x).
Proof.
  intros Hg (z' & H & Hb). destruct (match_group _ _ _ _ Hg H) as (z & Ha & Hf & Hz & Hbe & Hc & Ho).
  exists z. split; [done|]. split; [done|]. exists z'. rewrite Hc. repeat split; try done. f_equal. by apply read_same.
Qed.

(** A text put between the tags of a fence. *)
Lemma fenced_tagged t g : "<"%char ∉ g 1 → "<"%char ∉ g 2 → tagged text_tags (fenced t g).
Proof.
  intros H1 H2. unfold fenced.
  assert (tagged text_tags (lst ">" ++ g 2 ++ lst "</code></pre>")) as Hin.
  { apply tagged_app; [apply tagged_plain; tag_known|]. apply tagged_app; [by apply tagged_plain|].
    change (tagged text_tags (lst ("<" +:+ "/code>") ++ lst ("<" +:+ "/pre>") ++ [])).
    apply tagged_open; [tag_known|]. apply tagged_open; [tag_known|constructor]. }
  unfold language_class. destruct (trim_list (g 1)) as [|c l] eqn:E.
  - change (tagged text_tags (lst ("<" +:+ "pre>") ++ lst ("<" +:+ "code>") ++ (g 2 ++ lst "</code></pre>"))).
    apply tagged_open; [tag_known|]. apply tagged_open; [tag_known|]. by apply (tagged_suffix _ text_well (lst ">")).
  - change (tagged text_tags (lst ("<" +:+ "pre>") ++ lst ("<" +:+ ("code class=" +:+ String quote "language-")) ++
      (esc (c :: l) ++ [quote]) ++ lst ">" ++ g 2 ++ lst "</code></pre>")).
    apply tagged_open; [tag_known|]. apply tagged_open; [tag_known|].
    apply tagged_app; [|done]. apply tagged_app; apply tagged_plain; [apply esc_plain|tag_known].
Qed.

Lemma fence_tagged l : tagged [] l → tagged text_tags (replace fence_re fenced l).
Proof.
  apply (replace_tagged [] text_tags); [by constructor|by intros ? ?%elem_of_nil| |].
  - apply begins_assoc, begins_char. intros c Hc. apply Ascii.eqb_eq in Hc as <-. split; [done|constructor].
  - intros b t y Ht Hy. apply exec_matches in Hy. apply tagged_untagged in Ht.
    destruct Hy as (x1 & H0 & H). destruct (match_plain _ _ _ H0 eq_refl) as [F0 C0].
    apply group_after in H as (z1 & _ & F1 & x2 & A1 & _ & H & G1 & _); [|done].
    destruct H as (x3 & H2 & H). destruct (match_plain _ _ _ H2 eq_refl) as [F2 C2].
    apply group_after in H as (z3 & _ & F3 & x4 & A3 & _ & H4 & G3 & O3); [|done].
    destruct (match_plain _ _ _ H4 eq_refl) as [_ C4].
    apply fenced_tagged; rewrite C4, ?G3, ?O3, ?C2, ?G1 by done; cbn [default].
    + intros Hc. apply Ht. by eapply (read_in (mkPos b t []) x1 z1).
    + intros Hc. apply Ht. change t with (ahead (mkPos b t [])). rewrite (follows_read _ _ F0), (follows_read _ _ F1).
      rewrite <- A1, (follows_read _ _ F2), (follows_read _ _ F3). set_solver.
Qed.

(** 3. *)
Lemma at_most_count n p x y : matches (AtMost n (Chr p)) x y → left_of x - left_of y ≤ n.
Proof.
  revert x y. induction n as [|n IH]; intros x y; [intros ->; lia|].
  intros [(z & (c & l & Hl & _ & ->) & Hy)|Hxy]; [|rewrite Hxy; lia].
  apply IH in Hy. unfold left_of in *. rewrite Hl. cbn [ahead length] in *. lia.
Qed.

Lemma hashes_count x y : matches (Seq (Is "#") (AtMost 5 (Is "#"))) x y → 1 ≤ length (read x y) ≤ 6.
Proof.
  intros (z & (c & l & Hl & _ & ->) & Hy). pose proof (at_most_count _ _ _ _ Hy) as Hn.
  apply matches_follows, follows_left in Hy. unfold read, left_of in *. rewrite length_take, Hl in *.
  cbn [ahead length] in *. lia.
Qed.

Lemma heading_word n : 1 ≤ n ≤ 6 →
  "h" +:+ pretty n +:+ ">" ∈ text_tags ∧ "/h" +:+ pretty n +:+ ">" ∈ text_tags.
Proof.
  intros Hn. assert (n ∈ [1; 2; 3; 4; 5; 6]) as Hin by (rewrite !elem_of_cons; lia).
  clear Hn. revert n Hin. apply Forall_forall. repeat (apply Forall_cons; split); try apply Forall_nil_2; split; tag_known.
Qed.

Lemma lst_parts a b c : lst (a +:+ b +:+ c) = lst a ++ lst b ++ lst c.
Proof. by rewrite !lst_app. Qed.

Lemma wrap_text T tag i t g : (tag +:+ ">") ∈ T → ("/" +:+ tag +:+ ">") ∈ T → tagged T (g i) →
  tagged T (wrap tag i t g).
Proof.
  intros Ho Hc Hg. unfold wrap, html. cbn [mbind list_bind]. rewrite !app_nil_r.
  pose proof (tagged_wrap T _ _ _ Ho Hc Hg) as H. by rewrite !lst_app in *.
Qed.

Lemma heading_tagged l : tagged text_tags l → tagged text_tags (replace heading_re heading l).
Proof.
  apply (replace_tagged text_tags text_tags); [apply text_well|done|by apply begins_bol, text_lines|].
  intros b t y Ht Hy. apply exec_matches in Hy. apply match_bol in Hy as [H _].
  apply group_after in H as (z1 & Hh & F1 & x2 & A1 & _ & H & G1 & _); [|done].
  destruct H as (x3 & H2 & H). destruct (match_plain _ _ _ H2 eq_refl) as [F2 C2].
  apply group_after in H as (z3 & _ & F3 & x4 & A3 & _ & [-> He] & G3 & O3); [|done].
  apply hashes_count in Hh. destruct (heading_word _ Hh) as [Ho Hc].
  unfold heading. rewrite G3, O3, C2, G1 by done. cbn [default].
  assert (tagged text_tags (read x3 z3)) as Hp.
  { apply piece_tagged; [|done|].
    - apply (rest_tagged _ x2); [apply text_well| |done]. rewrite A1. by apply (rest_tagged _ (mkPos b t []) z1 text_well).
    - intros c Hc'. rewrite <- A3 in Hc'. eauto using terminator_outside, text_lines. }
  pose proof (tagged_wrap _ _ _ _ Ho Hc Hp) as Hw.
  by rewrite !lst_app, <- !(assoc_L (++)) in Hw.
Qed.

(** 4. *)
Lemma rule_tagged l : tagged text_tags l → tagged text_tags (replace rule_re (λ _ _, lst "<hr>") l).
Proof.
  apply (replace_tagged text_tags text_tags); [apply text_well|done|by apply begins_bol, text_lines|].
  intros _ _ _ _ _. change (tagged text_tags (lst ("<" +:+ "hr>") ++ [])).
  apply tagged_open; [tag_known|constructor].
Qed.

(** 5. and 6.  Where a line of a list ends. *)
Definition edge (y : pos) : Prop :=
  before y = Some newline ∨ ∀ c, head (ahead y) = Some c → is_terminator c = true.

Lemma line_edge mark x k z : (∀ y, k y ≠ None) → m (line_re mark) x k = Some z →
  ∃ y, edge y ∧ matches (line_re mark) x y ∧ k y = Some z.
Proof.
  intros Hk H. unfold line_re in H. change (m (item_start mark) x
    (λ u, m (Plus true Any) u (λ v, m (Opt (Is newline)) v k)) = Some z) in H.
  pose proof (m_decides (item_start mark) x (λ u, m (Plus true Any) u (λ v, m (Opt (Is newline)) v k))) as Hd.
  rewrite H in Hd. destruct Hd as (u & Hu & Hrest). unfold Plus in Hrest.
  change (m Any u (λ u', m (Star true Any) u' (λ v, m (Opt (Is newline)) v k)) = Some z) in Hrest.
  pose proof (m_decides Any u (λ u', m (Star true Any) u' (λ v, m (Opt (Is newline)) v k))) as Hd.
  rewrite Hrest in Hd. destruct Hd as (u' & Hu' & Hstar).
  destruct (greedy_run (λ c, negb (is_terminator c)) u' (λ v, m (Opt (Is newline)) v k)) as (v & Hv & Hm & Hh).
  { intros y. cbn [Opt m]. by destruct (m (Is newline) y k). }
  unfold Any in Hstar. rewrite Hv in Hstar.
  assert (∀ y, matches (Opt (Is newline)) v y → matches (line_re mark) x y) as Hline
    by (intros y Hy; exists u; split; [done|]; exists v; split; [by exists u'|done]).
  cbn [Opt m Is] in Hstar. destruct (ahead v) as [|c l] eqn:E.
  - exists v. split; [right; by rewrite E|]. split; [apply Hline; by right|done].
  - destruct (Ascii.eqb newline c) eqn:Ec.
    + apply Ascii.eqb_eq in Ec as <-. destruct (k _) as [z'|] eqn:Ek; [|by apply Hk in Ek].
      exists (mkPos (Some newline) l (caps v)). split; [by left|]. split; [|by rewrite Ek]. apply Hline. left. by exists newline, l.
    + exists v. split; [right|split; [apply Hline; by right|done]].
      intros c' Hc'. rewrite E in Hc'. apply Hh in Hc'. by apply negb_false_iff.
Qed.

Lemma line_reads mark x y : matches (line_re mark) x y → left_of y ≠ left_of x.
Proof.
  intros (z & Hz & w & (w' & Hw' & Hw) & Hy). apply matches_follows, follows_left in Hz, Hy.
  apply (matches_follows (Star true Any)), follows_left in Hw. apply match_char in Hw' as (c & _ & _ & Hlt). lia.
Qed.

(** All the lines of a list are taken, to the end of the last. *)
Lemma lines_edge mark gs : ∀ fuel x k z, edge x → (∀ y, k y ≠ None) →
  repeatM true gs (m (line_re mark)) fuel x k = Some z → ∃ y, edge y ∧ k y = Some z.
Proof.
  induction fuel as [|f IH]; intros x k z Hx Hk H; cbn [repeatM] in H; [by exists x|].
  rewrite (m_ext _ _ _ (λ y, repeatM true gs (m (line_re mark)) f y k)) in H.
  - destruct (m (line_re mark) (forget gs x) _) as [z'|] eqn:E; [|by exists x].
    injection H as [= ->]. apply line_edge in E as (y & He & _ & Hr); [|intros y; by apply repeatM_total].
    by apply (IH y).
  - intros y Hy. apply line_reads in Hy. change (left_of (forget gs x)) with (left_of x) in Hy.
    by destruct (Nat.eqb_spec (left_of y) (left_of x)).
Qed.

Lemma block_edge mark b l y : exec (block_re mark) b l = Some y → edge y.
Proof.
  intros H. unfold exec, block_re, Plus in H.
  change (m (line_re mark) (mkPos b l []) (λ u, m (Star true (line_re mark)) u
    (λ v, Some (capture 1 (mkPos b l []) v))) = Some y) in H.
  apply line_edge in H as (u & Hu & _ & H); [|intros u; by apply repeatM_total].
  apply lines_edge in H as (v & Hv & [= <-]); [|done|done]. exact Hv.
Qed.

Lemma edge_tagged T x y : line_safe T → tagged T (ahead x) → follows x y → edge y → tagged T (read x y).
Proof.
  intros HT Hx Hf [Hb|Hh]; [|by apply piece_tagged; eauto using terminator_outside].
  pose proof (follows_read _ _ Hf) as Hr. destruct Hf as (l & Hl & Hbe).
  assert (read x y = l) as -> by (rewrite Hl in Hr; by apply app_inv_tail in Hr).
  destruct (last l) as [c|] eqn:E; [|apply last_None in E as ->; constructor].
  apply last_Some in E as (l' & ->). assert (c = newline) as -> by congruence.
  rewrite Hl, <- (assoc_L (++)) in Hx. eapply tagged_cut_after; [exact (proj1 HT)|exact Hx].
Qed.

Lemma items_tagged mark l : groups mark = [] → tagged text_tags l →
  tagged text_tags (replace (item_re mark) (λ _ g, lst "<li>" ++ g 1 ++ lst "</li>") l).
Proof.
  intros Hg. apply (replace_tagged text_tags text_tags); [apply text_well|done| |].
  { intros x y (z & (w & Hb & _) & _). left. intros c Hc. destruct Hb as [_ Hb]. eauto using terminator_outside, text_lines. }
  intros b t y Ht Hy. apply exec_matches in Hy as (x1 & H0 & H). apply matches_follows in H0 as F0.
  apply group_after in H as (z1 & _ & F1 & x2 & A1 & _ & [-> He] & G1 & _); [|done]. rewrite G1. cbn [default].
  apply (tagged_wrap _ "li>" "/li>"); [tag_known..|].
  apply piece_tagged; [by apply (rest_tagged _ (mkPos b t []) x1 text_well)|done|].
  intros c Hc. rewrite <- A1 in Hc. eauto using terminator_outside, text_lines.
Qed.

Lemma lists_tagged tag mark l : groups mark = [] → tag +:+ ">" ∈ text_tags → "/" +:+ tag +:+ ">" ∈ text_tags →
  tagged text_tags l → tagged text_tags (replace (block_re mark) (list_of tag mark) l).
Proof.
  intros Hg Ho Hc. apply (replace_tagged text_tags text_tags); [apply text_well|done| |].
  { intros x y (z & (z' & (w & (w' & Hb & _) & _) & _) & _). left. intros c Hc'.
    destruct Hb as [_ Hb]. eauto using terminator_outside, text_lines. }
  intros b t y Ht Hy. apply (wrap_text _ tag 0 [] (λ _, _) Ho Hc). apply items_tagged; [done|].
  pose proof (block_edge _ _ _ _ Hy) as He. apply exec_matches, matches_follows in Hy.
  by apply edge_tagged; [apply text_lines| | |].
Qed.

(** 7.  A group that begins a match, or comes after something, and is followed by a delimiter. *)
Lemma group_tagged T n a b x y : well_formed T → groups a = [] → tagged T (ahead x) →
  matches (Seq (Group n a) b) x y →
  (∀ z, matches b z y → ∀ c, head (ahead z) = Some c → outside T c) →
  ∃ z, tagged T (ahead z) ∧ matches b z y ∧ tagged T (default [] (captured n (caps z))) ∧
    ∀ i, i ≠ n → captured i (caps z) = captured i (caps x).
Proof.
  intros HT Hg Hx H Hcut. apply group_after in H as (z & _ & Hf & z' & A & _ & Hb & G & O); [|done].
  exists z'. rewrite A, G. split; [by eapply rest_tagged|]. split; [done|]. split; [|done].
  apply piece_tagged; [done|done|]. intros c Hc. rewrite <- A in Hc. eauto.
Qed.

Lemma is_outside c : outside text_tags c → ∀ r z y, matches (Seq (Is c) r) z y →
  ∀ c', head (ahead z) = Some c' → outside text_tags c'.
Proof. intros Ho r z y (w & Hw & _) c' Hc'. apply match_is in Hw. congruence. Qed.

Lemma is_outside_end c : outside text_tags c → ∀ z y, matches (Is c) z y →
  ∀ c', head (ahead z) = Some c' → outside text_tags c'.
Proof. intros Ho z y Hw c' Hc'. apply match_is in Hw. congruence. Qed.

Lemma one_of_outside T s c : Forall (outside T) (lst s) → one_of s c = true → outside T c.
Proof.
  intros Hs Hc. unfold one_of in Hc. apply existsb_exists in Hc as (c' & Hin & He). apply Ascii.eqb_eq in He as ->.
  rewrite Forall_forall in Hs. by apply Hs, list_elem_of_In.
Qed.

Lemma begins_is T c r : outside T c → begins T (Seq (Is c) r).
Proof. intros Hc. apply begins_char. intros c' Hc'. by apply Ascii.eqb_eq in Hc' as <-. Qed.

Lemma inline_code_tagged l : tagged text_tags l → tagged text_tags (replace inline_code_re (wrap "code" 1) l).
Proof.
  apply (replace_tagged text_tags text_tags); [apply text_well|done|apply begins_is; tag_known|].
  intros b t y Ht Hy. apply exec_matches in Hy as (x1 & H0 & H). apply matches_follows in H0.
  apply (group_tagged text_tags) in H as (z & _ & Hz & Hc & _);
    [|apply text_well|done|by apply (rest_tagged _ (mkPos b t []) x1 text_well)|intros z0; apply (is_outside_end "`"%char); tag_known].
  apply wrap_text; [tag_known..|]. by rewrite (proj2 (match_plain _ _ _ Hz eq_refl)).
Qed.

Lemma strike_tagged l : tagged text_tags l → tagged text_tags (replace strike_re (wrap "del" 1) l).
Proof.
  apply (replace_tagged text_tags text_tags); [apply text_well|done|apply begins_assoc, begins_is; tag_known|].
  intros b t y Ht Hy. apply exec_matches in Hy as (x1 & H0 & H). apply matches_follows in H0.
  apply (group_tagged text_tags) in H as (z & _ & Hz & Hc & _);
    [|apply text_well|done|by apply (rest_tagged _ (mkPos b t []) x1 text_well)|intros z0; apply (is_outside "~"%char ltac:(tag_known) (Seq (Is "~") Eps))].
  apply wrap_text; [tag_known..|]. by rewrite (proj2 (match_plain _ _ _ Hz eq_refl)).
Qed.

(** A delimiter, a text and the same delimiter. *)
Lemma between_tagged tag d l :
  groups d = [] → (∀ x y, matches d x y → ∃ c w, read x y = c :: w ∧ outside text_tags c) →
  tag +:+ ">" ∈ text_tags → "/" +:+ tag +:+ ">" ∈ text_tags → tagged text_tags l →
  tagged text_tags (replace (Seq (Group 1 d) (Seq (Group 2 (Plus false Any)) (Back 1))) (wrap tag 2) l).
Proof.
  intros Hg Hd Ho Hc. apply (replace_tagged text_tags text_tags); [apply text_well|done| |].
  { intros x y (z & (w & Hw & _) & _). right. destruct (Hd _ _ Hw) as (c & l' & Hr & Hout).
    exists c. apply matches_follows, follows_read in Hw. by rewrite Hw, Hr. }
  intros b t y Ht Hy. apply exec_matches in Hy.
  apply group_after in Hy as (z & Hz & Fz & x1 & A1 & _ & H & G1 & _); [|done].
  destruct (Hd _ _ Hz) as (c & w & Hr & Hout).
  apply group_after in H as (z2 & _ & F2 & x2 & A2 & _ & [Hb ->] & G2 & O2); [|done].
  apply wrap_text; [done|done|]. cbn [advance caps]. rewrite G2. cbn [default].
  apply piece_tagged; [|done|].
  - rewrite A1. by apply (rest_tagged _ (mkPos b t []) z text_well).
  - intros c' Hc'. rewrite O2, G1, Hr in Hb by done. cbn [default length Datatypes.id] in Hb.
    rewrite A2 in Hb. destruct (ahead z2) as [|c2 l2]; [done|]. injection Hc' as [= ->].
    cbn [take] in Hb. by injection Hb as [= -> _].
Qed.

Lemma read_char p x y : matches (Chr p) x y → ∃ c, read x y = [c] ∧ p c = true.
Proof.
  intros (c & l & Hl & Hp & ->). exists c. split; [|done]. unfold read, left_of. rewrite Hl. cbn [ahead length].
  by replace (S (length l) - length l) with 1 by lia.
Qed.

Lemma read_word w x y : matches (Word w) x y → read x y = w.
Proof.
  revert x y. induction w as [|c w IH]; intros x y; [intros ->; unfold read; by rewrite Nat.sub_diag|].
  intros (z & (c' & l & Hl & Hc & ->) & Hy). apply Ascii.eqb_eq in Hc as <-. pose proof (IH _ _ Hy) as Hr.
  apply matches_follows, follows_left in Hy. unfold read, left_of in *. rewrite Hl. cbn [ahead length] in *.
  replace (S (length l) - length (ahead y)) with (S (length l - length (ahead y))) by lia. cbn [take]. by f_equal.
Qed.

Lemma bold_tagged l : tagged text_tags l → tagged text_tags (replace bold_re (wrap "strong" 2) l).
Proof.
  apply between_tagged; [done| |tag_known..]. intros x y [H|H]; apply read_word in H; rewrite H.
  - exists "*"%char, ["*"%char]. split; [done|tag_known].
  - exists "_"%char, ["_"%char]. split; [done|tag_known].
Qed.

Lemma italic_tagged l : tagged text_tags l → tagged text_tags (replace italic_re (wrap "em" 2) l).
Proof.
  apply between_tagged; [done| |tag_known..]. intros x y H. apply read_char in H as (c & Hr & Hc).
  exists c, []. split; [done|]. eapply one_of_outside; [|exact Hc]. tag_known.
Qed.

(** A link leads to one of three schemes, or nowhere. *)
Lemma safe_href_cases href : safe_href href = lst "#" ∨
  ∃ s rest, s ∈ ["http:"; "https:"; "mailto:"] ∧ safe_href href = lst s ++ rest ∧ href = lst s ++ rest.
Proof.
  unfold safe_href. destruct (exec scheme_re None href) as [y|] eqn:E; [right|by left].
  apply exec_matches in E. pose proof (follows_read _ _ (matches_follows _ _ _ E)) as Hr. cbn [ahead] in Hr.
  destruct E as [(z & Hz & w & Hw & Hy)|H].
  - destruct (match_plain _ _ _ Hz eq_refl) as [Fz _]. destruct (match_plain _ _ _ Hw eq_refl) as [Fw _].
    destruct (match_plain _ _ _ Hy eq_refl) as [Fy _].
    apply follows_read in Fz, Fw, Fy. cbn [ahead] in Fz. rewrite (read_word _ _ _ Hz) in Fz.
    destruct (read_char _ _ _ Hy) as (c & Hc & Hce). apply Ascii.eqb_eq in Hce as <-. rewrite Hc in Fy.
    destruct Hw as [Hs|Hs].
    + destruct (read_char _ _ _ Hs) as (c & Hcs & Hce). apply Ascii.eqb_eq in Hce as <-. rewrite Hcs in Fw.
      exists "https:", (ahead y). split; [right; left|]. rewrite Fz, Fw, Fy. done.
    + rewrite Hs in Fy. exists "http:", (ahead y). split; [left|]. by rewrite Fz, Fy.
  - rewrite (read_word _ _ _ H) in Hr. exists "mailto:", (ahead y). split; [right; right; left|done].
Qed.

Lemma link_output t g : tagged all_tags (g 1) → tagged all_tags (g 2) → tagged all_tags (link t g).
Proof.
  intros H1 H2. unfold link.
  assert (tagged all_tags (html [String quote " target="; quoted "_blank"; " rel="; quoted "noreferrer noopener"; ">"] ++
    g 1 ++ lst "</a>")) as Hend.
  { apply tagged_app; [apply tagged_plain; tag_known|]. apply tagged_app; [done|].
    change (tagged all_tags (lst ("<" +:+ "/a>") ++ [])). apply tagged_open; [tag_known|constructor]. }
  destruct (safe_href_cases (g 2)) as [->|(s & rest & Hs & -> & Hg)].
  - apply (tagged_open all_tags ("a href=" +:+ quoted "#")
      (html [" target="; quoted "_blank"; " rel="; quoted "noreferrer noopener"; ">"] ++ g 1 ++ lst "</a>"));
      [tag_known|]. by apply (tagged_suffix _ all_well [quote]).
  - rewrite Hg in H2. apply tagged_suffix in H2; [|apply all_well].
    pose proof (tagged_app _ _ _ H2 Hend) as Hrest. rewrite <- (assoc_L (++)).
    apply (tagged_open all_tags ("a href=" +:+ String quote s)) in Hrest.
    + by rewrite lst_app in Hrest.
    + clear Hg Hrest. revert s Hs. apply Forall_forall.
      repeat (apply Forall_cons; split); [tag_known..|apply Forall_nil_2].
Qed.

Lemma links_tagged l : tagged text_tags l → tagged all_tags (replace link_re link l).
Proof.
  apply (replace_tagged text_tags all_tags); [apply text_well|by intros w Hw; apply elem_of_app; left
    |apply begins_is; tag_known|].
  intros b t y Ht Hy. apply exec_matches in Hy as (x1 & H0 & H). apply matches_follows in H0.
  apply (group_tagged text_tags) in H as (z1 & Hz1 & H & G1 & _);
    [|apply text_well|done|by apply (rest_tagged _ (mkPos b t []) x1 text_well)
     |intros z0; apply (is_outside "]"%char); tag_known].
  destruct H as (x2 & Hx2 & x3 & Hx3 & H).
  destruct (match_plain _ _ _ Hx2 eq_refl) as [F2 C2]. destruct (match_plain _ _ _ Hx3 eq_refl) as [F3 C3].
  apply (group_tagged text_tags) in H as (z2 & _ & Hz2 & G2 & O2);
    [|apply text_well|done
     |apply (rest_tagged _ x2 x3 text_well); [by apply (rest_tagged _ z1 x2 text_well)|done]
     |intros z0; apply (is_outside_end ")"%char); tag_known].
  rewrite <- (proj2 (match_plain _ _ _ Hz2 eq_refl)) in G2, O2.
  assert (text_tags ⊆ all_tags) as Hsub by (intros w Hw; apply elem_of_app; by left).
  assert (default [] (captured 1 (caps y)) = default [] (captured 1 (caps z1))) as E1 by (by rewrite O2, C3, C2 by done).
  apply link_output; apply (tagged_mono text_tags); try done. by rewrite E1.
Qed.

(** 8. *)
Lemma lines_tagged l : tagged all_tags l → tagged all_tags (replace line_left_re (wrap "p" 1) l).
Proof.
  apply (replace_tagged all_tags all_tags); [apply all_well|done|apply begins_bol, all_lines|].
  intros b t y Ht Hy. apply exec_matches in Hy. apply match_bol in Hy as [(x1 & [-> _] & H) _].
  apply group_tagged with (T := all_tags) in H as (z & _ & [-> _] & G & _); [|apply all_well|done|done|].
  - by apply wrap_text; [tag_known..|].
  - intros z [-> He] c Hc. eauto using terminator_outside, all_lines.
Qed.

(** C13: Whatever the body of an issue, in the HTML its page is given every [<] begins one of a
    fixed list of tags, and the tag of a link has an address of http, https or mailto, or
    [#]: no tag of the author's survives, nor an address that runs a script. *)
Theorem only_known_tags raw : tagged all_tags (lst (renderMarkdown raw)).
Proof.
  unfold renderMarkdown, render. rewrite lst_str. apply lines_tagged, links_tagged, strike_tagged,
    italic_tagged, bold_tagged, inline_code_tagged, (lists_tagged "ol" number), (lists_tagged "ul" bullet),
    rule_tagged, heading_tagged, fence_tagged, tagged_plain, escape_plain; try done; tag_known.
Qed.

(** ** Plain text *)

(** The characters the steps before the last look for. *)
Definition special (c : ascii) : bool := one_of ("&<>'#-*_`~[" +:+ String quote "") c || is_digit c.
Definition plain_char (c : ascii) : bool := negb (special c) && negb (is_terminator c).

(** The lines of a text without them: each in a paragraph of its own, unless blank. *)
Definition paragraph (l : string) : string :=
  if forallb blank (lst l) then l else "<p>" +:+ l +:+ "</p>".

Lemma replace_nothing r f l : (∀ x y, matches r x y → ahead x `suffix_of` l → False) → replace r f l = l.
Proof.
  intros Hno. unfold replace. assert (∀ n b k, k `suffix_of` l → length k < n → replace_loop n r f b k = k) as H
    by (induction n as [|n IH]; intros b k Hk Hn; [lia|]; cbn [replace_loop];
        rewrite exec_none by (intros y Hy; by apply Hno in Hy);
        destruct k as [|c k]; [done|]; rewrite IH; [done|by eapply suffix_cons_l|cbn [length] in Hn; lia]).
  apply H; [done|lia].
Qed.

(** A match that needs a character, where there is none. *)
Lemma replace_needs p r f l : (∀ x y, matches r x y → ∃ c, c ∈ ahead x ∧ p c = true) →
  Forall (λ c, p c = false) l → replace r f l = l.
Proof.
  intros Hr Hl. apply replace_nothing. intros x y H [k ->]. destruct (Hr x y H) as (c & Hc & Hp).
  rewrite Forall_app, !Forall_forall in Hl. destruct Hl as [_ Hl]. specialize (Hl c Hc). congruence.
Qed.

Lemma head_in {A} (l : list A) c : head l = Some c → c ∈ l.
Proof. destruct l; [done|]. intros [= ->]. left. Qed.

Definition needs_special (r : regex) : Prop := ∀ x y, matches r x y → ∃ c, c ∈ ahead x ∧ special c = true.

Lemma special_chr p r : (∀ c, p c = true → special c = true) → needs_special (Seq (Chr p) r).
Proof. intros Hp x y (z & H & _). apply match_char in H as (c & Hc & Hpc & _). apply head_in in Hc. eauto. Qed.

Lemma special_is c r : special c = true → needs_special (Seq (Is c) r).
Proof. intros Hc. apply special_chr. intros c' Hc'. by apply Ascii.eqb_eq in Hc' as <-. Qed.

Lemma special_of s : Forall (λ c, special c = true) (lst s) → ∀ c, one_of s c = true → special c = true.
Proof.
  intros Hs c Hc. apply existsb_exists in Hc as (c' & Hin & He). apply Ascii.eqb_eq in He as ->.
  rewrite Forall_forall in Hs. by apply Hs, list_elem_of_In.
Qed.

Lemma special_assoc a b c : needs_special (Seq a (Seq b c)) → needs_special (Seq (Seq a b) c).
Proof. intros H x y (z & (w & Ha & Hb) & Hc). apply (H x y). exists w. split; [done|by exists z]. Qed.

Lemma special_group n a b : needs_special (Seq a Eps) → needs_special (Seq (Group n a) b).
Proof. intros H x y (z & (w & Ha & _) & _). apply (H x w). by exists w. Qed.

Lemma special_bol r : needs_special r → needs_special (Seq Bol r).
Proof. intros H x y [Hm _]%match_bol. by apply (H x y). Qed.

(** What comes after something. *)
Lemma special_after a r : needs_special r → needs_special (Seq a r).
Proof.
  intros H x y (z & Ha & Hr). destruct (H z y Hr) as (c & Hc & Hs). exists c. split; [|done].
  rewrite (follows_read _ _ (matches_follows _ _ _ Ha)). set_solver.
Qed.

Lemma escape_nothing l : Forall (λ c, special c = false) l → escape_html l = l.
Proof.
  intros Hl. assert (∀ c w, special c = true → replace (Is c) (λ _ _, w) l = l) as Hs.
  { intros c w Hc. apply (replace_needs special); [|done]. intros x y H%match_is%head_in. eauto. }
  unfold escape_html. by rewrite !Hs.
Qed.

Lemma blocks_nothing l : Forall (λ c, special c = false) l → blocks l = l.
Proof.
  intros Hl. unfold blocks.
  assert (∀ mark, needs_special (Seq mark Eps) → needs_special (block_re mark)) as Hblock.
  { intros mark Hm x y (z & H & _). revert x z H. unfold Plus, line_re, item_start.
    change (needs_special (Seq (Seq (item_start mark) (Seq (Plus true Any) (Opt (Is newline)))) (Star true (line_re mark)))).
    unfold item_start. repeat apply special_assoc. apply special_bol, special_assoc, special_after, special_assoc.
    intros u v (w & Ha & _). apply (Hm u w). by exists w. }
  rewrite (replace_needs special fence_re), (replace_needs special heading_re), (replace_needs special rule_re),
    (replace_needs special (block_re bullet)), (replace_needs special (block_re number)); try done.
  - apply Hblock. unfold number, Plus. repeat apply special_assoc. apply special_chr.
    intros c Hc. unfold special. by rewrite Hc, orb_true_r.
  - apply Hblock, special_chr, special_of. tag_known.
  - apply special_bol, special_assoc, special_chr, special_of. tag_known.
  - by apply special_bol, special_group, special_assoc, special_is.
  - by apply special_assoc, special_is.
Qed.

Lemma inlines_nothing l : Forall (λ c, special c = false) l → inlines l = l.
Proof.
  intros Hl. unfold inlines.
  rewrite (replace_needs special inline_code_re), (replace_needs special bold_re), (replace_needs special italic_re),
    (replace_needs special strike_re); try done.
  - by apply special_assoc, special_is.
  - apply special_group, special_chr, special_of. tag_known.
  - apply special_group. intros x y (z & [H|H] & _); (eapply special_is; [|exact H]); done.
  - by apply special_is.
Qed.

Lemma link_nothing l : Forall (λ c, special c = false) l → replace link_re link l = l.
Proof. apply replace_needs. by apply special_is. Qed.

(** A run of characters: what any match of it reads, and that there is one. *)
Lemma star_reads g p x y : matches (Star g (Chr p)) x y → ∃ w, Forall (λ c, p c = true) w ∧ ahead x = w ++ ahead y.
Proof.
  induction 1 as [x|x y z [Hxy _] _ (w & Hw & Hy)]; [by exists []|].
  destruct Hxy as (c & l & Hl & Hc & ->). exists (c :: w). split; [by constructor|].
  cbn [forget ahead] in Hl. rewrite Hl. cbn [app]. by f_equal.
Qed.

Lemma star_matches g p w : ∀ b l cs, Forall (λ c, p c = true) w →
  ∃ b', matches (Star g (Chr p)) (mkPos b (w ++ l) cs) (mkPos b' l cs).
Proof.
  induction w as [|c w IH]; intros b l cs Hw; [by exists b; apply rtc_refl|].
  apply Forall_cons in Hw as [Hc Hw]. destruct (IH (Some c) l cs Hw) as [b' Hb']. exists b'.
  eapply rtc_l; [|exact Hb']. split; [|unfold left_of; cbn [app ahead length]; lia].
  exists c, (w ++ l). split; [done|]. split; [done|]. cbn [forget caps]. f_equal. symmetry.
  apply filter_all, Forall_forall. intros x _. apply not_elem_of_nil.
Qed.

(** Where a line ends. *)
Definition ends (l : list ascii) : Prop := ∀ c, head l = Some c → is_terminator c = true.

Lemma line_unique w w' l l' : Forall (λ c, is_terminator c = false) w → Forall (λ c, is_terminator c = false) w' →
  ends l → ends l' → w ++ l = w' ++ l' → w = w' ∧ l = l'.
Proof.
  intros Hw Hw' Hl Hl'. revert w' Hw'. induction Hw as [|c w Hc _ IH]; intros w' Hw' He.
  - destruct Hw' as [|c w' Hc _]; [done|]. cbn [app] in He. rewrite He in Hl. specialize (Hl c eq_refl). congruence.
  - destruct Hw' as [|c' w' Hc' Hw'].
    + cbn [app] in He. rewrite <- He in Hl'. specialize (Hl' c eq_refl). congruence.
    + injection He as [= -> He]. destruct (IH w' Hw' He) as [-> ->]. done.
Qed.

Definition fresh (b : option ascii) : Prop := ∀ c, b = Some c → is_terminator c = true.

Lemma blank_no_terminator c : blank c = true → is_terminator c = false.
Proof. unfold blank. intros [H|H]%orb_true_iff; by apply Ascii.eqb_eq in H as ->. Qed.

Section line.
Context (w tail : list ascii) (b : option ascii).
Context (Hw : Forall (λ c, is_terminator c = false) w) (Htail : ends tail) (Hb : fresh b).

Lemma blank_line : forallb blank w = true → exec line_left_re b (w ++ tail) = None.
Proof.
  intros Hbl. apply exec_none. intros y (x & [-> _] & x' & [-> Hno] & _).
  assert (Forall (λ c, blank c = true) w) as Hbl' by (by apply Forall_forall; intros c Hc; eapply forallb_forall in Hbl; [exact Hbl|apply list_elem_of_In]).
  destruct (star_matches true blank w b tail [] Hbl') as [b' Hm]. eapply Hno. right. eexists. split; [exact Hm|by split].
Qed.

Lemma filled_match : forallb blank w = false → "<"%char ∉ w → ∃ y, matches line_left_re (mkPos b (w ++ tail) []) y.
Proof.
  intros Hbl Hlt. destruct w as [|c w']; [done|]. apply Forall_cons in Hw as Hw'. destruct Hw' as [Hc Hw'].
  destruct (star_matches true (λ c, negb (is_terminator c)) w' (Some c) tail []) as [b' Hm].
  { eapply Forall_impl; [exact Hw'|]. by intros ? ->. }
  set (x := mkPos b ((c :: w') ++ tail) []). set (y := mkPos b' tail []).
  exists (capture 1 x y), x. split; [by split|]. exists x. split; [split; [reflexivity|]|].
  - intros z [(u & H & _)|(u & H & Hu & He)].
    + apply match_is in H. cbn [ahead app head] in H. set_solver.
    + apply star_reads in H as (k & Hk & Hkw). cbn [ahead] in Hkw. subst z.
      assert (Forall (λ c, is_terminator c = false) k) as Hkt
        by (eapply Forall_impl; [exact Hk|apply blank_no_terminator]).
      destruct (line_unique _ _ _ _ Hw Hkt Htail He Hkw) as [<- _].
      assert (forallb blank (c :: w') = true); [|congruence]. apply forallb_forall. intros d Hd.
      rewrite Forall_forall in Hk. by apply Hk, list_elem_of_In.
  - exists (capture 1 x y). split; [|by split]. exists y. split; [|done].
    exists (mkPos (Some c) (w' ++ tail) []). split; [|exact Hm]. exists c, (w' ++ tail). by rewrite Hc.
Qed.

(** A line that is not blank is taken whole, and only it. *)
Lemma filled_line : forallb blank w = false → "<"%char ∉ w →
  ∃ y, exec line_left_re b (w ++ tail) = Some y ∧
    captured 1 (caps y) = Some w ∧ ahead y = tail ∧ (∃ c, before y = Some c ∧ is_terminator c = false).
Proof.
  intros Hbl Hlt. destruct (filled_match Hbl Hlt) as [y0 Hy0].
  pose proof (m_decides line_left_re (mkPos b (w ++ tail) []) Some) as Hd. unfold exec.
  destruct (m _ _ _) as [y'|]; [|by specialize (Hd _ Hy0)].
  destruct Hd as (y & Hy & [= ->]). exists y'. split; [done|].
  destruct Hy as (x & [-> _] & x' & [-> _] & H).
  apply group_after in H as (z & Hz & Fz & z' & A & B & [-> He] & G & _); [|done].
  destruct Hz as (z1 & (c & l & Hl & Hc & ->) & Hstar). apply negb_true_iff in Hc.
  destruct (star_reads _ _ _ _ Hstar) as (k & Hk & Hkw). cbn [ahead] in Hl, Hkw.
  assert (Forall (λ c, is_terminator c = false) (c :: k)) as Hck.
  { constructor; [done|]. eapply Forall_impl; [exact Hk|]. intros d Hd. by apply negb_true_iff. }
  rewrite A in He. assert (w ++ tail = (c :: k) ++ ahead z) as Hall by (rewrite Hl, Hkw; done).
  destruct (line_unique _ _ _ _ Hw Hck Htail He Hall) as [Hwk Ht].
  pose proof (follows_read _ _ Fz) as Hr. cbn [ahead] in Hr. rewrite Ht in Hr. apply app_inv_tail in Hr.
  split; [by rewrite G, Ht, <- Hr|]. split; [by rewrite A|].
  destruct Fz as (l' & Hl' & Hbe). cbn [ahead] in Hl'. rewrite Ht in Hl'. apply app_inv_tail in Hl'. subst l'.
  rewrite B, Hbe, Hwk. destruct (last (c :: k)) as [d|] eqn:E; [|by apply last_None in E].
  exists d. split; [done|]. apply last_Some in E as (l2 & E). rewrite E, Forall_app, Forall_singleton in Hck. apply Hck.
Qed.
End line.

(** After a line no match begins before its end. *)
Lemma copied_line n b w tail : (∃ c, b = Some c ∧ is_terminator c = false) →
  Forall (λ c, is_terminator c = false) w →
  ∃ b', replace_loop (length w + n) line_left_re (wrap "p" 1) b (w ++ tail) =
    w ++ replace_loop n line_left_re (wrap "p" 1) b' tail ∧ ∃ c, b' = Some c ∧ is_terminator c = false.
Proof.
  intros Hb Hw. revert b Hb. induction Hw as [|c w Hc _ IH]; intros b (d & -> & Hd); [by eexists; eauto|].
  cbn [length app Nat.add]. rewrite replace_skip.
  - destruct (IH (Some c)) as (b' & -> & Hb'); eauto.
  - apply exec_none. intros y [_ H]%match_bol. specialize (H d eq_refl). congruence.
Qed.

(** A text of lines, as it is read by the loop: after a line comes the end or a line break. *)
Definition texts (ls : list string) : list ascii := lst (lines ls).

Lemma texts_cons s s' ls : texts (s :: s' :: ls) = lst s ++ newline :: texts (s' :: ls).
Proof. unfold texts, lines. cbn [join]. by rewrite !lst_app. Qed.

Definition plain (s : string) : Prop := Forall (λ c, plain_char c = true) (lst s).

Lemma plain_spec s : plain s →
  Forall (λ c, is_terminator c = false) (lst s) ∧ Forall (λ c, special c = false) (lst s) ∧ "<"%char ∉ lst s.
Proof.
  intros Hs. assert (Forall (λ c, is_terminator c = false ∧ special c = false) (lst s)) as [H1 H2]%Forall_and.
  { eapply Forall_impl; [exact Hs|]. unfold plain_char. intros c [H1 H2]%andb_prop.
    by rewrite negb_true_iff in H1, H2. }
  split; [done|]. split; [done|]. intros Hin. rewrite Forall_forall in H2. by specialize (H2 _ Hin).
Qed.

Lemma plain_texts ls : Forall plain ls → Forall (λ c, special c = false) (texts ls).
Proof.
  induction 1 as [|s ls Hs Hls IH]; [by constructor|]. destruct ls as [|s' ls].
  - apply plain_spec in Hs. apply Hs.
  - rewrite texts_cons. apply Forall_app. split; [apply plain_spec in Hs; apply Hs|]. by constructor.
Qed.

(** The line at the front of the text: then the loop is at its end. *)
Lemma line_step s tail n b : plain s → ends tail → fresh b → length (lst s ++ tail) < n →
  ∃ n' b', length tail < n' ∧
    replace_loop n line_left_re (wrap "p" 1) b (lst s ++ tail) =
    lst (paragraph s) ++ replace_loop n' line_left_re (wrap "p" 1) b' tail.
Proof.
  intros Hs Ht Hb Hn. apply plain_spec in Hs as (Hw & _ & Hlt). rewrite length_app in Hn. unfold paragraph.
  destruct (forallb blank (lst s)) eqn:Hbl.
  - destruct (lst s) as [|c w] eqn:E; [exists n, b; cbn [length] in Hn; split; [lia|done]|].
    destruct n as [|n]; [lia|]. cbn [length] in Hn. apply Forall_cons in Hw as Hcw. destruct Hcw as [Hc Hw'].
    assert (exec line_left_re b (c :: w ++ tail) = None) as Hno by (by apply (blank_line (c :: w))).
    destruct (copied_line (n - length w) (Some c) w tail) as (b' & Heq & Hb'); [by eauto|done|].
    exists (n - length w), b'. split; [lia|]. cbn [app]. rewrite replace_skip by done.
    rewrite <- Heq. by replace (length w + (n - length w)) with n by lia.
  - destruct (filled_line (lst s) tail b Hw Ht Hb Hbl Hlt) as (y & Hy & Hcap & Ha & Hbe).
    destruct n as [|n]; [lia|]. exists n, (before y). split; [destruct (lst s); [done|cbn [length] in Hn; lia]|].
    cbn [replace_loop]. rewrite Hy. unfold left_of. rewrite Ha, length_app.
    destruct (Nat.eqb_spec (length tail) (length (lst s) + length tail)); [destruct (lst s); [done|cbn [length] in *; lia]|].
    unfold wrap. rewrite Hcap, !lst_app. cbn [default]. by rewrite <- !(assoc_L (++)).
Qed.

(** Where a line ends nothing matches. *)
Lemma line_end b tail : ends tail → exec line_left_re b tail = None.
Proof. intros Ht. by apply (blank_line [] tail b). Qed.

Lemma lines_wrapped ls : ∀ n b, Forall plain ls → fresh b → length (texts ls) < n →
  replace_loop n line_left_re (wrap "p" 1) b (texts ls) = texts (paragraph <$> ls).
Proof.
  induction ls as [|s ls IH]; intros n b Hls Hb Hn.
  - destruct n as [|n]; [done|]. cbn [replace_loop texts lines join lst list_ascii_of_string].
    by rewrite line_end.
  - apply Forall_cons in Hls as [Hs Hls]. destruct ls as [|s' ls].
    + change (texts [s]) with (lst s) in *. change (texts (paragraph <$> [s])) with (lst (paragraph s)).
      rewrite <- (app_nil_r (lst s)) in *.
      destruct (line_step s [] n b Hs) as (n' & b' & Hn' & ->); [done|done|done|].
      rewrite <- (app_nil_r (lst (paragraph s))) at 2. f_equal.
      destruct n' as [|n']; [lia|]. cbn [replace_loop]. by rewrite line_end.
    + rewrite texts_cons in *.
      destruct (line_step s (newline :: texts (s' :: ls)) n b Hs) as (n' & b' & Hn' & ->);
        [by intros ? [= <-]|done|done|]. cbn [fmap list_fmap] in *. rewrite texts_cons. f_equal.
      destruct n' as [|n']; [cbn [length] in Hn'; lia|].
      rewrite replace_skip by (apply line_end; by intros ? [= <-]).
      f_equal. apply IH; [done|by intros ? [= <-]|cbn [length] in Hn'; lia].
Qed.

(** A text without the characters the steps look for is shown as it is: each line that is not
    blank is a paragraph, the others stay. *)
Theorem plain_text_paragraphs ls : Forall plain ls → renderMarkdown (lines ls) = lines (paragraph <$> ls).
Proof.
  intros Hls. pose proof (plain_texts ls Hls) as Hsp. unfold renderMarkdown, render, links_and_lines.
  rewrite escape_nothing, blocks_nothing, inlines_nothing, link_nothing by done.
  unfold replace. fold (texts ls). rewrite lines_wrapped by (done || lia). unfold texts. by rewrite str_lst.
Qed.

Lemma plain_text_paragraphs_witness :
  renderMarkdown (lines ["It fails, always."; ""; "See the log"]) =
  lines ["<p>It fails, always.</p>"; ""; "<p>See the log</p>"].
Proof.
  apply (plain_text_paragraphs ["It fails, always."; ""; "See the log"]).
  apply (bool_decide_unpack _). vm_compute. exact I.
Defined.
