(* ===== verification/Pages.v ===== *)
(** * Pages of the frontend ([src/frontend/src/pages/])

    The issue page and the contributor page as functions of what their hooks hold: what they
    show, the buttons they offer and what a click does, and the boundary that catches what
    they throw ([components/ErrorBoundary.tsx]). *)

From Stdlib Require Import String Ascii.
From S2P Require Import Prelude Js Decimal Browser Http Db Cache Url Contributors Client Markdown Issues IssueLists Wiring.

#[local] Open Scope string_scope.
#[local] Open Scope list_scope.
#[local] Open Scope Z_scope.

(** ** Rendering that may throw *)

#[export] Instance outcome_ret : MRet outcome := λ A a, Ret a.
#[export] Instance outcome_bind : MBind outcome := λ A B k m, match m with Ret a => k a | Throw e => Throw e end.

Definition type_error (msg : string) : exn := ErrorObj "TypeError" msg.
Definition undefined_property (k : string) : exn :=
  type_error ("Cannot read properties of undefined (reading '" +:+ k +:+ "')").

(** [v.k] *)
Definition member (k : string) (v : option json) : outcome (option json) :=
  match v with
  | None => Throw (undefined_property k)
  | Some JNull => Throw (null_property k)
  | Some j => Ret (prop k j)
  end.

(** [v.method(...)] for a method of arrays, and for one of strings. *)
Definition array_of (method : string) (v : option json) : outcome (list json) :=
  match v with
  | None => Throw (undefined_property method)
  | Some JNull => Throw (null_property method)
  | Some (JArr l) => Ret l
  | Some _ => Throw (type_error (method +:+ " is not a function"))
  end.
Definition string_of (method : string) (v : option json) : outcome string :=
  match v with
  | None => Throw (undefined_property method)
  | Some JNull => Throw (null_property method)
  | Some (JStr s) => Ret s
  | Some _ => Throw (type_error (method +:+ " is not a function"))
  end.

(** [===] between a value of the API and a string or [null]. *)
Definition same (v : option json) (s : option string) : bool :=
  match v, s with
  | Some JNull, None => true
  | Some (JStr a), Some b => String.eqb a b
  | _, _ => false
  end.
Definition is_string (s : string) (v : option json) : bool := same v (Some s).

(** [v >= n] for a number of the API, [NaN] for what is not one. *)
Definition number_of (v : option json) : jsnum :=
  match v with Some (JNum m k) => Fin (m / pow10 k) | _ => NaN end.

(** [l.map(f)] and [l.some(f)], where [f] may throw. *)
Fixpoint map_throw {A B} (f : A → outcome B) (l : list A) : outcome (list B) :=
  match l with
  | [] => Ret []
  | a :: l' => b ← f a; bs ← map_throw f l'; Ret (b :: bs)
  end.
Fixpoint some_throw {A} (f : A → outcome bool) (l : list A) : outcome bool :=
  match l with
  | [] => Ret false
  | a :: l' => b ← f a; if (b : bool) then Ret true else some_throw f l'
  end.

(** ** The issue page ([IssueDetailPage.tsx]) *)

Module IssuePage.

Definition EVENT_LABELS : list (string * string) :=
  [("applied", "Applied"); ("assigned", "Assigned"); ("completed", "Completed"); ("revoked", "Revoked")].
Definition EVENT_VARIANT : list (string * string) :=
  [("applied", "info"); ("assigned", "success"); ("completed", "success"); ("revoked", "error")].

Definition lookup_label (table : list (string * string)) (v : option json) : option string :=
  k ← v ≫= as_string; assoc k table.

(** [addr && addr.length > 14 ? ... : addr] *)
Definition shortAddr (addr : json) : json :=
  match addr with JStr s => JStr (shorten 14 6 4 s) | _ => addr end.

Definition hasApplied (data : option json) (publicKey : option string) : outcome bool :=
  if truthy_opt data then
    events ← member "events" data;
    l ← array_of "some" events;
    some_throw (λ e, ty ← member "event_type" (Some e);
                     if is_string "applied" ty
                     then c ← member "contributor" (Some e); Ret (same c publicKey)
                     else Ret false) l
  else Ret false.

Definition labels_of (v : option json) : outcome (list string) :=
  if truthy_opt v then
    s ← string_of "split" v;
    Ret (filter (λ l, l ≠ "") (trim <$> split "," s))
  else Ret [].

(** The time element: [toISOString] throws on what is not a date. *)
Definition date_of (v : option json) : outcome Z :=
  match v ≫= as_string with
  | Some s => match getTime s with Fin ms => Ret ms | NaN => Throw (ErrorObj "RangeError" "Invalid time value") end
  | None => Throw (ErrorObj "RangeError" "Invalid time value")
  end.

Record timeline_item := mkItem {
  variant : string;
  item_label : option json;
  item_addr : option json;      (** shown when truthy *)
  item_time : Z;
  item_hash : option string;    (** its first twelve characters *)
}.

Definition timeline (ev : json) : outcome timeline_item :=
  ty ← member "event_type" (Some ev);
  c ← member "contributor" (Some ev);
  ts ← member "timestamp" (Some ev);
  ms ← date_of ts;
  h ← member "tx_hash" (Some ev);
  hash ← (if truthy_opt h then s ← string_of "slice" h; Ret (Some (slice_to 12 s +:+ ellipsis)) else Ret None);
  Ret (mkItem (default "neutral" (lookup_label EVENT_VARIANT ty))
         (match lookup_label EVENT_LABELS ty with Some l => Some (JStr l) | None => ty end)
         (if truthy_opt c then shortAddr <$> c else None) ms hash).

Inductive action := Apply | Withdraw.
#[export] Instance action_eq_dec : EqDecision action.
Proof. solve_decision. Defined.

(** The state of the page. *)
Record state := mkState { actionBusy : option action; actionError : option string }.
Definition initial : state := mkState None None.

(** The card of the sidebar. *)
Inductive card_item :=
  | ConnectHint
  | ActionButton (a : action) (disabled busy : bool)
  | ActionError (msg : string)
  | AlreadyAssigned
  | YouAreAssigned.

Definition is_none {A} (o : option A) : bool := match o with None => true | Some _ => false end.

Definition card (publicKey : option string) (assigned applied : bool) (assigned_to : option json) (s : state) :
    list card_item :=
  let connected := negb (is_none (filled publicKey)) in
  (if connected then [] else [ConnectHint]) ++
  (if connected && negb assigned then
     let a := if applied then Withdraw else Apply in
     ActionButton a (negb (is_none (actionBusy s))) (bool_decide (actionBusy s = Some a)) ::
     match filled (actionError s) with Some e => [ActionError e] | None => [] end
   else []) ++
  (if assigned && negb (same assigned_to publicKey) then [AlreadyAssigned] else []) ++
  (if assigned && same assigned_to publicKey then [YouAreAssigned] else []).

Inductive level := low | medium | high.
Definition cap_level (applicant_count : option json) : level :=
  let n := number_of applicant_count in
  if js_ge n (Fin 10) then high else if js_ge n (Fin 4) then medium else low.

Inductive view :=
  | LoadingIssue
  | FailedToLoad (msg : string)
  | Blank
  | Shown (title : option json) (created : Z) (labels : list string) (count : option json) (plural : bool)
      (to : option json) (body : option string) (events : list timeline_item) (sidebar : list card_item)
      (link : option json) (cap : level).

Definition body_of (v : option json) : outcome (option string) :=
  if truthy_opt v then s ← string_of "replace" v; Ret (Some (renderMarkdown s)) else Ret None.

Definition render (publicKey : option string) (l : loaded) (s : state) : outcome view :=
  applied ← hasApplied (data l) publicKey;
  if negb (truthy_opt (data l)) then
    Ret (if loading l then LoadingIssue
         else match filled (error l) with Some e => FailedToLoad e | None => Blank end)
  else
  issue ← member "issue" (data l);
  count ← member "applicant_count" (data l);
  to ← member "assigned_to" (data l);
  events ← member "events" (data l);
  ls ← member "labels" issue;
  labels ← labels_of ls;
  status ← member "status" issue;
  let assigned := is_string "assigned" status || negb (same to None) in
  title ← member "title" issue;
  created ← member "created_at" issue;
  ms ← date_of created;
  b ← member "body" issue;
  body ← body_of b;
  evs ← array_of "map" events;
  items ← map_throw timeline evs;
  link ← member "github_url" issue;
  Ret (Shown title ms labels count
         (match count with Some (JNum m k) => negb (bool_decide (m = pow10 k)) | _ => true end)
         (if truthy_opt to then shortAddr <$> to else None) body items
         (card publicKey assigned applied to s) (if truthy_opt link then link else None) (cap_level count)).

(** ** Clicks *)

(** [onApply] and [onWithdraw] are given by the caller of the page, or not. *)
Record callbacks := mkCallbacks { onApply : bool; onWithdraw : bool }.
Definition given (cb : callbacks) (a : action) : bool :=
  match a with Apply => onApply cb | Withdraw => onWithdraw cb end.
Definition failure (a : action) : string := match a with Apply => "Apply failed" | Withdraw => "Withdraw failed" end.

(** The page with what it has asked for: the calls that have not settled, all the calls it
    made, and how often it loaded the issue again. *)
Record page := mkPage { local : state; pending : list action; calls : list action; refetches : nat }.
Definition mounted : page := mkPage initial [] [] 0.

Inductive event :=
  | Click (a : action)                          (** on a button that is shown *)
  | Settle (i : nat) (o : outcome unit).        (** the promise of a call *)

(** [handleApply], [handleWithdraw]; a disabled button does nothing. *)
Definition step (cb : callbacks) (p : page) (e : event) : page :=
  match e with
  | Click a =>
      if negb (is_none (actionBusy (local p))) || negb (given cb a) then p
      else mkPage (mkState (Some a) None) (pending p ++ [a]) (calls p ++ [a]) (refetches p)
  | Settle i o =>
      match pending p !! i with
      | None => p
      | Some a =>
          let rest := delete i (pending p) in
          match o with
          | Ret _ => mkPage (mkState None (actionError (local p))) rest (calls p) (S (refetches p))
          | Throw e => mkPage (mkState None (Some (error_message (failure a) e))) rest (calls p) (refetches p)
          end
      end
  end.

Definition history (cb : callbacks) (es : list event) : page := fold_left (step cb) es mounted.
End IssuePage.

(** ** The boundary around the pages ([components/ErrorBoundary.tsx]) *)

Module Boundary.

Record state := mkState { error : option exn; logged : list exn; was_reset : nat }.
Definition initial : state := mkState None [] 0.
Definition hasError (s : state) : bool := match error s with Some _ => true | None => false end.

Inductive event :=
  | Draw            (** the children are rendered, unless an error is shown *)
  | Retry           (** [handleRetry], the button of the fallback *)
  | Navigate.       (** [componentDidUpdate] with another [resetKey] *)

Definition reset (s : state) : state := mkState None (logged s) (S (was_reset s)).

(** [getDerivedStateFromError] and [componentDidCatch]; [logError] posts and never throws. *)
Definition step {V} (children : outcome V) (s : state) (e : event) : state :=
  match e with
  | Draw => if hasError s then s
            else match children with Ret _ => s | Throw x => mkState (Some x) (logged s ++ [x]) (was_reset s) end
  | Retry | Navigate => if hasError s then reset s else s
  end.

Inductive shown (V : Type) := Children (v : V) | Fallback (msg : option string) | Uncommitted.
Arguments Children {V} v.
Arguments Fallback {V} msg.
Arguments Uncommitted {V}.

(** [render]: what is committed; a child that throws is not. *)
Definition render {V} (children : outcome V) (s : state) : shown V :=
  match error s with
  | Some (ErrorObj _ m) => Fallback (Some m)
  | Some (OtherValue _) => Fallback None
  | None => match children with Ret v => Children v | Throw _ => Uncommitted end
  end.

Definition history {V} (children : outcome V) (es : list event) : state := fold_left (step children) es initial.
End Boundary.

(** ** The contributor page ([ContributorProfilePage.tsx]) *)

Module ProfilePage.

Definition GLOBAL_CAP : Z := 15.
Definition ORG_CAP : Z := 4.
Definition API_BASE : string := "/api".

Definition relativeTime (toLocaleDateString : string → string) (now : Z) (iso : string) : string :=
  match getTime iso with
  | NaN => toLocaleDateString iso
  | Fin t =>
      let s := (now - t) / 1000 in
      if s <? 60 then pretty s +:+ "s ago" else
      let m := s / 60 in
      if m <? 60 then pretty m +:+ "m ago" else
      let h := m / 60 in
      if h <? 24 then pretty h +:+ "h ago" else toLocaleDateString iso
  end.

(** A row of an organisation; [ratio < 0.67] and [ratio < 0.93] for a ratio of quarters. *)
Inductive color := success | warning | danger.
Definition barColor (assignments : Z) : color :=
  if assignments * 100 <? 67 * ORG_CAP then success
  else if assignments * 100 <? 93 * ORG_CAP then warning else danger.

Record org_row := mkOrgRow {
  row_org : option json;
  row_assignments : jsnum;
  row_color : color;
  row_warns : bool;
  row_percent : jsnum;            (** of the bar *)
  row_pending : option (Z * bool) (** how many applications, in the plural *)
}.

Definition OrgRow (org : json) : outcome org_row :=
  o ← member "org_id" (Some org);
  a ← member "assignments" (Some org);
  p ← member "applications" (Some org);
  let n := number_of a in
  Ret (mkOrgRow o n (match n with Fin z => barColor z | NaN => danger end) (js_ge n (Fin 3))
         (js_min (js_mul n (Fin (100 / ORG_CAP))) (Fin 100))
         (match number_of p with Fin k => if 0 <? k then Some (k, negb (k =? 1)) else None | NaN => None end)).

Record event_item := mkEventItem {
  item_label : option json;
  item_org : option json;
  item_issue : option json;
  item_url : string;
  item_hash : string;
  item_at : option string;
}.

Definition explorerBase (network : option string) : string :=
  let n := match filled network with Some n => toLowerCase n | None => "testnet" end in
  if String.eqb n "mainnet" then "https://stellar.expert/explorer/public/tx"
  else "https://stellar.expert/explorer/testnet/tx".

Definition EventItem (network : option string) (ev : json) : outcome event_item :=
  ty ← member "event_type" (Some ev);
  org ← member "org_id" (Some ev);
  issue ← member "issue_id" (Some ev);
  h ← member "tx_hash" (Some ev);
  hash ← string_of "slice" h;
  at_ ← member "timestamp" (Some ev);
  Ret (mkEventItem (match IssuePage.lookup_label IssuePage.EVENT_LABELS ty with Some l => Some (JStr l) | None => ty end)
         (if truthy_opt org then org else None)
         (match issue with Some JNull => None | _ => issue end)
         (explorerBase network +:+ "/" +:+ hash) (slice_to 8 hash +:+ ellipsis) (at_ ≫= as_string)).

Definition isOwnProfile (publicKey address : option string) : bool :=
  match filled publicKey, filled address with
  | Some k, Some a => String.eqb (toLowerCase k) (toLowerCase a)
  | _, _ => false
  end.

Inductive view :=
  | SkeletonProfile
  | NotFound
  | Failed (msg : string)
  | Nothing
  | Shown (address : option json) (own : bool) (count : option json) (near_cap : bool)
      (orgs : list org_row) (events : list event_item).

Definition render (network publicKey address : option string) (s : Profile.state) : outcome view :=
  match Profile.status s, Profile.profile s with
  | (Profile.idle | Profile.loading), None => Ret SkeletonProfile
  | Profile.not_found, _ => Ret NotFound
  | Profile.error, _ =>
      Ret (Failed ("Unable to load profile. " +:+ default "" (Profile.message s)))
  | _, None => Ret Nothing
  | _, Some p =>
      if negb (truthy p) then
        Ret (match Profile.status s with Profile.idle | Profile.loading => SkeletonProfile | _ => Nothing end)
      else
      evs ← member "recent_events" (Some p);
      l ← array_of "slice" evs;
      a ← member "address" (Some p);
      c ← member "global_application_count" (Some p);
      os ← member "orgs" (Some p);
      orgs ← array_of "map" os;
      rows ← map_throw OrgRow orgs;
      items ← map_throw (EventItem network) (js_slice (Fin 0) (Fin 10) l);
      Ret (Shown a (isOwnProfile publicKey address) c (js_ge (number_of c) (Fin 12)) rows items)
  end.

(** *** The withdrawals ([WithdrawSection]) *)

Record app := mkApp { app_org : string; app_issue : Z; app_title : string }.

Record section := mkSection {
  applications : list app;
  loading : bool;
  loaded : bool;
  withdrawing : option Z;
  error : option string;
  withdrawn : nat;             (** calls of [onWithdrawn] *)
}.
Definition before_mount : section := mkSection [] false false None None 0.

(** What the two requests settle to. *)
Inductive answer (A : Type) := Status (code : Z) (body : option A) | Lost (e : exn).
Arguments Status {A} code body.
Arguments Lost {A} e.

Inductive event :=
  | FetchApps                                     (** on mount, and [Retry] *)
  | AppsArrive (r : answer (list app))
  | ClickWithdraw (orgId : string) (issueId : Z)
  | WithdrawArrives (issueId : Z) (r : answer unit).

Definition settle_apps (r : answer (list app)) (s : section) : section :=
  let fail e := mkSection (applications s) false (loaded s) (withdrawing s)
                  (Some (error_message "Failed to load applications" e)) (withdrawn s) in
  match r with
  | Lost e => fail e
  | Status code body =>
      if negb (ok code) then fail (Error (http_error code))
      else match body with
           | None => fail bad_json
           | Some l => mkSection l false true (withdrawing s) (error s) (withdrawn s)
           end
  end.

Definition settle_withdraw (issueId : Z) (r : answer unit) (s : section) : section :=
  let fail e := mkSection (applications s) (loading s) (loaded s) None
                  (Some (error_message "Withdraw failed" e)) (withdrawn s) in
  match r with
  | Lost e => fail e
  | Status code _ =>
      if negb (ok code) && negb (code =? 204) then fail (Error (http_error code))
      else mkSection (filter (λ a, app_issue a ≠ issueId) (applications s)) (loading s) (loaded s) None
             (error s) (S (withdrawn s))
  end.

Definition step (s : section) (e : event) : section :=
  match e with
  | FetchApps => mkSection (applications s) true (loaded s) (withdrawing s) None (withdrawn s)
  | AppsArrive r => settle_apps r s
  | ClickWithdraw _ issueId => mkSection (applications s) (loading s) (loaded s) (Some issueId) (error s) (withdrawn s)
  | WithdrawArrives issueId r => settle_withdraw issueId r s
  end.

Inductive shown := Loading | ErrorText (msg : string) | Empty | Items (l : list (app * bool)).

Definition display (s : section) : shown :=
  if loading s && negb (loaded s) then Loading else
  match filled (error s) with
  | Some e => ErrorText e
  | None =>
      if loaded s && bool_decide (applications s = []) then Empty
      else Items ((λ a, (a, bool_decide (withdrawing s = Some (app_issue a)))) <$> applications s)
  end.

#[export] Instance app_eq_dec : EqDecision app.
Proof. solve_decision. Defined.

(** The requests of the section, answered by the application. *)
Definition remove (address orgId : string) (issueId : Z) : option (answer unit) :=
  match handled_by DELETE (withdraw_url address orgId issueId) with
  | Some _ => None
  | None => match not_found with Answered code _ => Some (Status code None) | Rejected e => Some (Lost e) end
  end.
End ProfilePage.

(** ** Theorems *)

#[local] Ltac inv_ret := repeat match goal with
  | H : Ret _ = Ret _ |- _ => injection H as [= <-]
  end.

Section issue_page.
Context {S R : Type} `{HasDb S} `{HasCache S R} `{RedisStore R}.
Variable sc : schema.
Variable JSON_parse : string → option json.
Variable JSON_stringify : json → string.
Variable detail_json : Db.issue_row → json.
Variable detail_event_json : contract_event_row → json.

End issue_page.

(** An event of [EventItem], and an organisation, as the route writes them. *)
Lemma event_item_shown network e : is_ret (ProfilePage.EventItem network (event_json e)) = true.
Proof. done. Qed.

Lemma map_throw_ret {A B} (f : A → outcome B) l : Forall (λ a, is_ret (f a) = true) l →
  ∃ bs, map_throw f l = Ret bs ∧ length bs = length l ∧ Forall2 (λ a b, f a = Ret b) l bs.
Proof.
  induction 1 as [|a l Ha _ (bs & IH & Hlen & Hall)]; [by exists []|].
  cbn [map_throw]. destruct (f a) as [b|] eqn:E; [|done]. cbn. rewrite IH. cbn.
  exists (b :: bs). split; [done|]. split; [cbn [length]; by rewrite Hlen|by constructor].
Qed.

Lemma number_of_jint z : number_of (Some (jint z)) = Fin z.
Proof. unfold number_of, jint, pow10. f_equal. apply Z.div_1_r. Qed.

Lemma org_row_shown (o : string * (Z * Z)) : ∃ row, ProfilePage.OrgRow (entry_json o) = Ret row ∧
  ProfilePage.row_org row = Some (JStr o.1) ∧ ProfilePage.row_assignments row = Fin o.2.2 ∧
  ProfilePage.row_pending row = if 0 <? o.2.1 then Some (o.2.1, negb (o.2.1 =? 1)) else None.
Proof.
  destruct o as [o [p a]]. exists (ProfilePage.mkOrgRow (Some (JStr o)) (Fin a) (ProfilePage.barColor a)
    (js_ge (Fin a) (Fin 3)) (js_min (js_mul (Fin a) (Fin (100 / ProfilePage.ORG_CAP))) (Fin 100))
    (if 0 <? p then Some (p, negb (p =? 1)) else None)).
  split; [|done]. rewrite <- (number_of_jint a). pose proof (number_of_jint p) as Hp.
  transitivity (Ret (ProfilePage.mkOrgRow (Some (JStr o)) (number_of (Some (jint a)))
    (match number_of (Some (jint a)) with Fin z => ProfilePage.barColor z | NaN => ProfilePage.danger end)
    (js_ge (number_of (Some (jint a))) (Fin 3))
    (js_min (js_mul (number_of (Some (jint a))) (Fin (100 / ProfilePage.ORG_CAP))) (Fin 100))
    (match number_of (Some (jint p)) with Fin k => if 0 <? k then Some (k, negb (k =? 1)) else None | NaN => None end)));
    [reflexivity|]. by rewrite Hp, !number_of_jint.
Qed.

Section profile_page.
Context {S : Type} `{HasDb S}.

(** What the route of the profile answers with status 200. *)
Lemma recent_events_shape sc address :
  yields (S := S) (λ l, ∃ evs, l = event_json <$> evs) (recent_events sc address).
Proof.
  unfold recent_events. apply yields_try; [|intros e; apply yields_ret; by exists []].
  apply yields_bind. intros rows. apply yields_ret. by eexists.
Qed.

Definition profile_answer (address : string) (res : response) : Prop :=
  Http.status res = 200 → ∃ n k orgs evs, rbody res = Some (obj
    [("address", Some (JStr address)); ("global_application_count", Some (jint n));
     ("global_assignment_count", Some (jint k)); ("orgs", Some (JArr (entry_json <$> orgs)));
     ("recent_events", Some (JArr (event_json <$> evs)))]).

Lemma get_profile_answer sc address : yields (S := S) (profile_answer address) (get_profile sc address).
Proof.
  unfold get_profile, guarded. case_match; [|apply yields_ret; by intros [=]].
  apply yields_try; [|intros e; apply yields_ret; by intros [=]].
  do 3 (apply yields_bind; intros ?). case_match; [apply yields_ret; by intros [=]|].
  apply yields_bind; intros orgs. eapply yields_bind_post; [apply recent_events_shape|].
  intros l [evs ->]. apply yields_ret. intros _. by eexists _, _, _, _.
Qed.

(** What the route of a contributor answers is what their page shows: a row for each
    organisation with its numbers, no more than ten events, the count of applications; the page
    is the reader's own exactly when their wallet has this address, letter case aside. *)
Theorem profile_page_opens sc address (w w' : world S) res network publicKey s :
  get_profile sc address w = (Ret res, w') → Http.status res = 200 →
  ∃ own count near rows items n orgs,
    ProfilePage.render network publicKey (Some address) (Profile.receive (reply_of res) s) =
      Ret (ProfilePage.Shown (Some (JStr address)) own count near rows items) ∧
    own = ProfilePage.isOwnProfile publicKey (Some address) ∧
    count = Some (jint n) ∧ near = (12 <=? n) ∧
    Forall2 (λ (o : string * (Z * Z)) row, ProfilePage.row_org row = Some (JStr o.1) ∧
      ProfilePage.row_assignments row = Fin o.2.2 ∧
      ProfilePage.row_pending row = if 0 <? o.2.1 then Some (o.2.1, negb (o.2.1 =? 1)) else None) orgs rows ∧
    (length items ≤ 10)%nat.
Proof.
  intros Hget Hst. destruct (get_profile_answer sc address _ _ _ Hget Hst) as (n & k & orgs & evs & Hb).
  unfold reply_of. rewrite Hst, Hb. cbn [Profile.receive].
  destruct (map_throw_ret ProfilePage.OrgRow (entry_json <$> orgs)) as (rows & Hrows & _ & Hall);
    [apply Forall_fmap, Forall_forall; done|].
  destruct (map_throw_ret (ProfilePage.EventItem network) (js_slice (Fin 0) (Fin 10) (event_json <$> evs)))
    as (items & Hitems & Hlen & _).
  { apply Forall_forall. intros e He. eapply elem_of_sublist in He; [|apply js_slice_sublist]. apply list_elem_of_fmap in He.
    destruct He as (ev & -> & _). done. }
  exists (ProfilePage.isOwnProfile publicKey (Some address)), (Some (jint n)), (12 <=? n), rows, items, n, orgs.
  split; [|split; [reflexivity|split; [reflexivity|split; [reflexivity|split]]]].
  - transitivity (map_throw ProfilePage.OrgRow (entry_json <$> orgs) ≫= λ rows,
      map_throw (ProfilePage.EventItem network) (js_slice (Fin 0) (Fin 10) (event_json <$> evs)) ≫= λ items,
      Ret (ProfilePage.Shown (Some (JStr address)) (ProfilePage.isOwnProfile publicKey (Some address))
             (Some (jint n)) (js_ge (number_of (Some (jint n))) (Fin 12)) rows items)); [reflexivity|].
    rewrite Hrows, number_of_jint. cbn [mbind outcome_bind]. rewrite Hitems. cbn [mbind outcome_bind].
    unfold js_ge, js_cmp. by rewrite Z.geb_leb.
  - apply Forall2_fmap_l in Hall. eapply Forall2_impl; [exact Hall|]. intros o row Hr.
    destruct (org_row_shown o) as (row' & Hr' & Hrest). assert (Ret row = Ret row') as E by (etransitivity; [symmetry; exact Hr|exact Hr']).
    by injection E as [= ->].
  - rewrite Hlen, js_slice_fin by lia. rewrite length_take. lia.
Qed.
End profile_page.

(** *** Withdrawing *)

(** A withdrawal on the page of a contributor never succeeds: no route answers it, so the
    list of applications is replaced by the error of an unknown address, nothing leaves the
    list, the profile is not loaded again, and what [Retry] then brings is what the server
    still holds. *)
Theorem profile_withdrawal_fails address orgId issueId s :
  0 ≤ issueId →
  ∃ r, ProfilePage.remove address orgId issueId = Some r ∧
    let s' := ProfilePage.step (ProfilePage.step s (ProfilePage.ClickWithdraw orgId issueId))
                (ProfilePage.WithdrawArrives issueId r) in
    ProfilePage.applications s' = ProfilePage.applications s ∧
    ProfilePage.withdrawn s' = ProfilePage.withdrawn s ∧
    ((ProfilePage.loading s = true → ProfilePage.loaded s = true) →
     ProfilePage.display s' = ProfilePage.ErrorText "HTTP 404") ∧
    ∀ l, l ≠ [] → ProfilePage.display (fold_left ProfilePage.step
           [ProfilePage.FetchApps; ProfilePage.AppsArrive (ProfilePage.Status 200 (Some l))] s') =
         ProfilePage.Items ((λ a, (a, false)) <$> l).
Proof.
  intros Hi. pose proof (lost_requests address orgId "" issueId Hi) as Hl.
  apply Forall_cons in Hl as [_ Hl]. apply Forall_cons in Hl as [[Hd _] _].
  exists (ProfilePage.Status 404 None). unfold ProfilePage.remove. rewrite Hd. split; [done|].
  cbn [ProfilePage.step]. repeat split; [|].
  - intros Hload. unfold ProfilePage.display. cbn.
    destruct (ProfilePage.loading s); [by rewrite Hload|done].
  - intros [|a l] Hne; [done|]. cbn. f_equal.
Qed.

Lemma profile_withdrawal_fails_witness : ∃ r, ProfilePage.remove "GA" "a/b" 7 = Some r ∧
  ProfilePage.display (ProfilePage.step (ProfilePage.step
    (ProfilePage.mkSection [ProfilePage.mkApp "a/b" 7 "t"] false true None None 0) (ProfilePage.ClickWithdraw "a/b" 7))
    (ProfilePage.WithdrawArrives 7 r)) = ProfilePage.ErrorText "HTTP 404".
Proof.
  destruct (profile_withdrawal_fails "GA" "a/b" 7
    (ProfilePage.mkSection [ProfilePage.mkApp "a/b" 7 "t"] false true None None 0)) as (r & Hr & _ & _ & Hd & _); [lia|].
  exists r. split; [exact Hr|]. apply Hd. done.
Defined.

(** *** The buttons of the issue page *)

Module IssueTheorems.
Import IssuePage.

(** What a page keeps between two events. *)
Definition tidy (p : page) : Prop :=
  actionBusy (local p) = head (pending p) ∧ (length (pending p) ≤ 1)%nat ∧
  (actionBusy (local p) = None ∨ actionError (local p) = None).

Lemma page_tidy_step cb p e : tidy p → tidy (step cb p e).
Proof.
  intros Ht. pose proof Ht as (Hb & Hl & He). destruct e as [a|i o]; cbn [step].
  - destruct (actionBusy (local p)) as [a'|] eqn:E; [done|]. destruct (given cb a); [|done].
    destruct (pending p) as [|a' l]; [|done]. split; [done|]. split; [cbn; lia|by right].
  - destruct (pending p) as [|a' [|a2 l]]; [done| |cbn in Hl; lia].
    destruct i as [|i]; [|done]. cbn [lookup list_lookup delete list_delete].
    destruct o; (split; [done|]; split; [cbn; lia|by left]).
Qed.

Definition settled_well (e : event) : bool := match e with Settle _ (Throw _) => false | _ => true end.

(** The page never asks for two things at once: while an application or a withdrawal is under
    way both buttons are disabled and a click does nothing; the button says it is busy exactly
    then, an error is shown only when nothing is under way, and each call that succeeds makes
    the issue be loaded once more. *)
Theorem one_action_at_a_time cb es :
  let p := history cb es in
  actionBusy (local p) = head (pending p) ∧ (length (pending p) ≤ 1)%nat ∧
  (pending p ≠ [] → actionError (local p) = None ∧ ∀ a, step cb p (Click a) = p) ∧
  (refetches p + length (pending p) ≤ length (calls p))%nat ∧
  (forallb settled_well es = true → length (calls p) = (refetches p + length (pending p))%nat).
Proof.
  unfold history. set (h := fold_left (step cb) es mounted).
  assert (tidy h ∧ (refetches h + length (pending h) ≤ length (calls h))%nat ∧
    (forallb settled_well es = true → length (calls h) = (refetches h + length (pending h))%nat)) as (Ht & Hle & Heq).
  { subst h. induction es as [|e es IH] using rev_ind.
    - split; [|by split]. split; [done|]. split; [cbn; lia|by left].
    - rewrite fold_left_app. cbn [fold_left]. set (p := fold_left _ es _) in *. destruct IH as (Ht & Hle & Heq).
      split; [by apply page_tidy_step|]. rewrite forallb_app. cbn [forallb]. rewrite andb_true_r.
      destruct e as [a|i o]; cbn [step].
      + case_match; [by rewrite andb_true_r|]. cbn [calls pending refetches]. rewrite !length_app. cbn [length settled_well].
        rewrite andb_true_r. split; [lia|]. intros Hs. specialize (Heq Hs). lia.
      + destruct (pending p !! i) as [a|] eqn:Hi; [|split; [done|]; intros [Hs _]%andb_prop; auto].
        apply lookup_lt_Some in Hi as Hlt. pose proof (length_delete (pending p) i ltac:(by eexists)) as Hd.
        destruct o; cbn [calls pending refetches settled_well]; rewrite Hd, ?andb_true_r, ?andb_false_r; (split; [lia|]);
          [|done]. intros Hs. specialize (Heq Hs). lia. }
  destruct Ht as (Hb & Hl & He). split; [done|]. split; [done|]. split; [|done].
  intros Hp. destruct (pending h) as [|a l] eqn:Ep; [done|]. cbn [head] in Hb. split; [destruct He; congruence|].
  intros a'. cbn [step]. by rewrite Hb.
Qed.

Definition is_offer (i : card_item) : bool := match i with ActionError _ => false | _ => true end.

(** The card of a connected reader makes one offer: to apply, to withdraw, that the issue is
    taken, or that it is theirs; it is theirs exactly when they are the one assigned, and a
    button stands there exactly when the issue is free, to withdraw when one of its events is
    their application. *)
Theorem card_offers_one key assigned applied assigned_to s :
  key ≠ "" →
  let c := card (Some key) assigned applied assigned_to s in
  length (filter is_offer c) = 1%nat ∧
  (YouAreAssigned ∈ c ↔ assigned = true ∧ assigned_to = Some (JStr key)) ∧
  ((∃ a d b, ActionButton a d b ∈ c) ↔ assigned = false) ∧
  (∀ a d b, ActionButton a d b ∈ c → a = (if applied then Withdraw else Apply)).
Proof.
  intros Hk c. assert (filled (Some key) = Some key) as Hf by (destruct key; done).
  assert (same assigned_to (Some key) = true ↔ assigned_to = Some (JStr key)) as Hsame.
  { destruct assigned_to as [[]|]; cbn [same]; try done. rewrite String.eqb_eq. naive_solver. }
  unfold c, card. rewrite Hf. cbn [is_none negb andb app].
  destruct assigned; cbn [andb negb app].
  - destruct (same assigned_to (Some key)); cbn [negb app].
    + split; [done|]. split; [set_solver|]. split; [|set_solver]. split; [|done]. intros (a & d & b & H); set_solver.
    + split; [done|]. split; [set_solver|]. split; [|set_solver]. split; [|done]. intros (a & d & b & H); set_solver.
  - split; [by destruct (filled (actionError s))|]. split; [destruct (filled (actionError s)); set_solver|].
    split; [split; [done|intros _; eexists _, _, _; left]|].
    intros a d b Hin. destruct (filled (actionError s)); set_solver.
Qed.

Lemma card_offers_one_witness :
  card (Some "GA") false true (Some JNull) initial = [ActionButton Withdraw false false] ∧
  length (filter is_offer (card (Some "GA") false true (Some JNull) initial)) = 1%nat.
Proof.
  destruct (card_offers_one "GA" false true (Some JNull) initial) as (H & _ & _ & _); [done|].
  split; [reflexivity|exact H].
Defined.

(** Without a wallet an issue whose status says it is assigned, to no one, is the reader's. *)
Example nobody_is_assigned : card None true false (Some JNull) initial = [ConnectHint; YouAreAssigned].
Proof. reflexivity. Qed.

(** An application that was withdrawn still counts as one: its event stays. *)
Example applied_for_ever :
  hasApplied (Some (obj [("events", Some (JArr [obj [("event_type", Some (JStr "applied")); ("contributor", Some (JStr "GA"))];
    obj [("event_type", Some (JStr "withdrawn")); ("contributor", Some (JStr "GA"))]]))])) (Some "GA") = Ret true.
Proof. reflexivity. Qed.
End IssueTheorems.

(** ** Concrete runs *)


Lemma profile_page_opens_witness :
  ∃ count near rows items n orgs,
    ProfilePage.render None (Some alice) (Some alice)
      (Profile.receive (reply_of (default route_not_found
         (match (get_profile migrate_schema alice (World sample_db [])).1 with Ret r => Some r | Throw _ => None end)))
         Profile.initial) =
      Ret (ProfilePage.Shown (Some (JStr alice)) true count near rows items) ∧
    length (orgs : list (string * (Z * Z))) = length rows ∧ count = Some (jint n).
Proof.
  destruct (get_profile migrate_schema alice (World sample_db [])) as [o w'] eqn:E.
  assert (∃ res, o = Ret res ∧ Http.status res = 200) as (res & -> & Hs).
  { assert (o = (get_profile migrate_schema alice (World sample_db [])).1) as -> by (by rewrite E).
    eexists. split; vm_compute; reflexivity. }
  destruct (profile_page_opens migrate_schema alice (World sample_db []) w' res None (Some alice) Profile.initial E Hs)
    as (own & count & near & rows & items & n & orgs & H & Hown & Hc & _ & Hall & _).
  exists count, near, rows, items, n, orgs. cbn [fst default Datatypes.id]. split; [|split; [|exact Hc]].
  - rewrite Hown in H. exact H.
  - by eapply Forall2_length.
Defined.

(** What the card, the labels and the timeline of an issue that loads would show. *)
Example issue_shown :
  IssuePage.render (Some "GA")
    (mkLoaded (Some (obj
      [("issue", Some (obj [("title", Some (JStr "A bug")); ("labels", Some (JStr "bug, ,ui "));
          ("created_at", Some (JStr "2026-07-20")); ("status", Some (JStr "open"));
          ("body", Some (JStr "hello")); ("github_url", Some JNull)]));
       ("applicant_count", Some (jint 4)); ("assigned_to", Some JNull);
       ("events", Some (JArr [obj [("event_type", Some (JStr "applied")); ("contributor", Some (JStr "GA"));
          ("timestamp", Some (JStr "2026-07-20")); ("tx_hash", Some JNull)]]))])) false None) IssuePage.initial =
  Ret (IssuePage.Shown (Some (JStr "A bug")) 1784505600000 ["bug"; "ui"] (Some (jint 4)) true None
    (Some "<p>hello</p>") [IssuePage.mkItem "info" (Some (JStr "Applied")) (Some (JStr "GA")) 1784505600000 None]
    [IssuePage.ActionButton IssuePage.Withdraw false false] None IssuePage.medium).
Proof. vm_compute. reflexivity. Qed.

(** The row of an organisation turns to a warning at three assignments, the last colour at four. *)
Example row_colors : ProfilePage.barColor <$> [0; 2; 3; 4] =
  [ProfilePage.success; ProfilePage.success; ProfilePage.warning; ProfilePage.danger].
Proof. reflexivity. Qed.
