(* ===== verification/LiveUpdates.v ===== *)
(** * Live counts, the activity feed and the event table

    [useLiveUpdates.tsx] ([Live]): the event stream with its retries and the polling after
    them, and the counts both keep; [ActivityFeed.tsx] ([Feed]) and [EventHistoryTable.tsx]
    ([History]): the lists over [GET /api/events]. *)

From Stdlib Require Import String Ascii Sorted.
From S2P Require Import Prelude Js Url Http Decimal Paging Browser Client Db Contributors Issues.

#[local] Open Scope string_scope.
#[local] Open Scope list_scope.
#[local] Open Scope Z_scope.

(** [a ?? b] on possibly missing values. *)
Definition nullish2 (a b : option json) : option json :=
  match a with None | Some JNull => b | _ => a end.

(** [a === 's']. *)
Definition is_text (s : string) (v : option json) : bool :=
  match v with Some (JStr t) => String.eqb t s | _ => false end.

(** ** The live counts *)

Module Live.

Inductive LiveStatus := connected | reconnecting | polling.

#[export] Instance live_status_eq_dec : EqDecision LiveStatus.
Proof. solve_decision. Defined.

(** The fields of an event that are read; they are strings where they are used. *)
Record LiveEvent := mkEvent { eventType : option string; orgId : option string }.

Record CapState := mkCaps { globalApplications : Z; orgCounts : list (string * Z) }.

Definition initialState : CapState := mkCaps 0 [].

Definition is_type (t : string) (e : LiveEvent) : bool :=
  match eventType e with Some s => String.eqb s t | None => false end.

(** [orgCounts.map((count) => count.org === org ? ... : count)]. *)
Definition bump (org : string) (l : list (string * Z)) : list (string * Z) :=
  (λ c, if String.eqb c.1 org then (c.1, c.2 + 1) else c) <$> l.

Definition known (org : string) (l : list (string * Z)) : bool := existsb (λ c, String.eqb c.1 org) l.

Definition updateCounts (s : CapState) (e : LiveEvent) : CapState :=
  if negb (is_type "applied" e) && negb (is_type "assigned" e) then s else
  let g := if is_type "applied" e then globalApplications s + 1
           else Z.max (globalApplications s - 1) 0 in
  match filled (orgId e) with
  | Some org =>
      if is_type "assigned" e then
        mkCaps g (if known org (orgCounts s) then bump org (orgCounts s)
                  else orgCounts s ++ [(org, 1)])
      else mkCaps g (orgCounts s)
  | None => mkCaps g (orgCounts s)
  end.

(** [existing.assignments += 1]: the first entry of the organisation. *)
Fixpoint count_first (org : string) (l : list (string * Z)) : list (string * Z) :=
  match l with
  | [] => [(org, 1)]
  | c :: l' => if String.eqb c.1 org then (c.1, c.2 + 1) :: l' else c :: count_first org l'
  end.

(** The state [pollEvents] computes from a list of events. *)
Definition count_events (evs : list LiveEvent) : CapState :=
  let applications := zlen (filter (λ e, is_type "applied" e = true) evs) in
  let assignments := filter (λ e, is_type "assigned" e = true) evs in
  mkCaps (Z.max (applications - zlen assignments) 0)
    (fold_left (λ counts e, match filled (orgId e) with
                            | None => counts
                            | Some org => count_first org counts
                            end) assignments []).

Definition read_event (e : json) : outcome LiveEvent :=
  match e with
  | JNull => Throw (null_property "eventType")
  | _ => Ret (mkEvent (nullish2 (prop "eventType" e) (prop "event_type" e) ≫= as_string)
                (nullish2 (prop "orgId" e) (prop "org_id" e) ≫= as_string))
  end.

(** [pollEvents]. *)
Definition pollEvents (r : reply) : outcome CapState :=
  match r with
  | Rejected e => Throw e
  | Answered code body =>
      if negb (ok code) then Throw (Error ("Event polling failed: " +:+ pretty code))
      else match body with
           | None => Throw bad_json
           | Some JNull => Throw (null_property "events")
           | Some b =>
               match nullish_or (prop "events" b) (JArr []) with
               | JArr l => match map_outcome read_event l with
                           | Throw e => Throw e
                           | Ret evs => Ret (count_events evs)
                           end
               | _ => Throw (ErrorObj "TypeError" "map is not a function")
               end
           end
  end.

(** *** The connection *)

Record live := mkLive {
  caps : CapState;
  status : LiveStatus;
  source : bool;               (** an [EventSource] that is not closed *)
  retryTimer : option Z;       (** the delay of the timer that is set *)
  pollTimer : bool;
  retryCount : Z;
  stopped : bool;
}.

Definition connect (s : live) : live :=
  if stopped s then s
  else mkLive (caps s) reconnecting true None (pollTimer s) (retryCount s) (stopped s).

Definition startPolling (s : live) : live :=
  if stopped s || pollTimer s then s
  else mkLive (caps s) polling (source s) (retryTimer s) true (retryCount s) (stopped s).

Inductive event :=
  | Opened
  | Message (e : option LiveEvent)
  | Errored
  | RetryFired
  | Polled (r : reply)
  | Stop.

(** Only a live source opens, delivers or fails, and only a set timer fires; [Message None]
    is data that does not parse. *)
Definition step (s : live) (e : event) : live :=
  match e with
  | Opened =>
      if source s then mkLive (caps s) connected true (retryTimer s) (pollTimer s) 0 (stopped s)
      else s
  | Message (Some ev) =>
      if source s then mkLive (updateCounts (caps s) ev) (status s) true (retryTimer s) (pollTimer s)
                         (retryCount s) (stopped s)
      else s
  | Message None => s
  | Errored =>
      if source s then
        let s := mkLive (caps s) (status s) false (retryTimer s) (pollTimer s) (retryCount s)
                   (stopped s) in
        if 3 <=? retryCount s then startPolling s
        else mkLive (caps s) (status s) false (Some (Z.min (1000 * 2 ^ retryCount s) 30000))
               (pollTimer s) (retryCount s + 1) (stopped s)
      else s
  | RetryFired => match retryTimer s with Some _ => connect s | None => s end
  | Polled r =>
      if pollTimer s then
        match pollEvents r with
        | Ret c => mkLive c (status s) (source s) (retryTimer s) (pollTimer s) (retryCount s) (stopped s)
        | Throw _ => s
        end
      else s
  | Stop => mkLive (caps s) (status s) false None false (retryCount s) true
  end.

Definition initial : live := mkLive initialState reconnecting false None false 0 false.
Definition start : live := connect initial.
Definition run (es : list event) : live := fold_left step es start.

End Live.

(** ** The activity feed *)

Module Feed.

Definition PAGE_SIZE : Z := 25.

(** What a call of [fetchPage] asks for: [reset] is the call of the effect, which also
    clears the list. *)
Record params := mkParams { orgId : option string; filter_by : string; offset : Z; reset : bool }.

Definition feed_params (p : params) : list (string * string) :=
  [("limit", pretty PAGE_SIZE); ("offset", pretty (offset p))] ++
  (match filled (orgId p) with Some o => [("org_id", o)] | None => [] end) ++
  (if String.eqb (filter_by p) "" then [] else [("event_type", filter_by p)]).

Record feed := mkFeed {
  events : list json; next_offset : Z; hasMore : option json; loading : bool;
  error : option string; newIds : list (option json);
}.

Definition id_of (e : json) : option json := prop "id" e.

(** [data.events] as a list, and [data.pagination.hasMore]. *)
Definition decode (r : reply) : outcome (option json * option (option json)) :=
  match r with
  | Rejected e => Throw e
  | Answered code body =>
      if negb (ok code) then Throw (Error (http_error code))
      else match body with
           | None => Throw bad_json
           | Some d => Ret (prop "events" d, prop "hasMore" <$> prop "pagination" d)
           end
  end.

Definition fresh (prev incoming : list json) : list (option json) :=
  id_of <$> filter (λ e, existsb (λ x, match id_of x, id_of e with
                                       | Some a, Some b => strict_eq a b
                                       | None, None => true
                                       | _, _ => false
                                       end) prev = false) incoming.

(** What a reply of the declared shape does; the updater runs before the rest is read. *)
Definition receive (p : params) (r : reply) (s : feed) : feed :=
  let fail e s := mkFeed (events s) (next_offset s) (hasMore s) (loading s)
                    (Some (error_message "Failed to load events" e)) (newIds s) in
  match decode r with
  | Throw e => fail e s
  | Ret (Some (JArr incoming), pagination) =>
      let s := if reset p
               then mkFeed incoming (next_offset s) (hasMore s) (loading s) (error s) (newIds s)
               else mkFeed (events s ++ incoming) (next_offset s) (hasMore s) (loading s) (error s)
                      (newIds s ++ fresh (events s) incoming) in
      match pagination with
      | None => fail (ErrorObj "TypeError" "Cannot read properties of undefined (reading 'hasMore')") s
      | Some more =>
          mkFeed (events s) (offset p + PAGE_SIZE) more (loading s) (error s) (newIds s)
      end
  | Ret (_, _) => fail (ErrorObj "TypeError" "data.events is not iterable") s
  end.

Definition fetchPage : hook params reply feed :=
  Hook false (λ _, true) id
    (λ p s, if reset p then mkFeed [] 0 (Some (JBool true)) true None (newIds s)
            else mkFeed (events s) (next_offset s) (hasMore s) true None (newIds s))
    receive
    (λ s, mkFeed (events s) (next_offset s) (hasMore s) false (error s) (newIds s)).

(** The end of the list comes into view. *)
Definition on_intersect (org : option string) (filter_by : string) (s : feed) : option params :=
  if truthy_opt (hasMore s) && negb (loading s)
  then Some (mkParams org filter_by (next_offset s) false) else None.

(** The highlight of some ids ends. *)
Definition clear_highlight (ids l : list (option json)) : list (option json) :=
  filter (λ x, existsb (λ y, match x, y with
                             | Some a, Some b => strict_eq a b
                             | None, None => true
                             | _, _ => false
                             end) ids = false) l.

Definition shortAddr (addr : string) : string := shorten 12 6 4 addr.

(** [relativeTime(iso)] at time [now]; [locale_date] prints an old date. *)
Definition relativeTime (now : Z) (locale_date : string → string) (iso : string) : string :=
  match getTime iso with
  | NaN => locale_date iso
  | Fin t =>
      let s := (now - t) / 1000 in
      if s <? 60 then pretty s +:+ "s ago" else
      let m := s / 60 in
      if m <? 60 then pretty m +:+ "m ago" else
      let h := m / 60 in
      if h <? 24 then pretty h +:+ "h ago" else locale_date iso
  end.

Definition initial : feed := mkFeed [] 0 (Some (JBool true)) false None [].

End Feed.

(** ** The event table *)

Module History.

Definition PAGE_SIZE : Z := 25.

Inductive SortDir := asc | desc.

(** The event types of the filter, [None] for [all]. *)
Definition FilterValue := option string.
Definition FILTER_OPTIONS : list (FilterValue * string) := [
  (None, "All Events"); (Some "application", "Applications"); (Some "assignment", "Assignments");
  (Some "completion", "Completions"); (Some "revocation", "Revocations")].

Definition EVENT_BADGE (t : string) : string :=
  default "neutral" (assoc t [("application", "info"); ("assignment", "warning");
                              ("completion", "success"); ("revocation", "error")]).

Record table := mkTable {
  events : list json; loading : bool; error : option string;
  sortDir : SortDir; filter_by : FilterValue; page : Z;
}.

(** [new Date(v).getTime()]. *)
Definition time_of (v : option json) : jsnum :=
  match v with
  | Some (JStr s) => getTime s
  | Some JNull => Fin 0
  | Some (JBool b) => Fin (if b then 1 else 0)
  | Some (JNum m k) => if jnum_is_int m k then Fin (jnum_int m k) else NaN
  | _ => NaN
  end.
Definition timestamp (e : json) : jsnum := time_of (prop "timestamp" e).

Definition filtered (f : FilterValue) (l : list json) : list json :=
  filter (λ e, match f with None => true | Some t => is_text t (prop "event_type" e) end = true) l.

Definition compare (d : SortDir) (a b : json) : jsnum :=
  match d with
  | desc => js_sub (timestamp b) (timestamp a)
  | asc => js_sub (timestamp a) (timestamp b)
  end.

Definition sorted (s : table) : list json :=
  sort_by (compare (sortDir s)) (filtered (filter_by s) (events s)).

Definition totalPages (s : table) : Z := last_page (zlen (sorted s)) PAGE_SIZE.
Definition safePage (s : table) : Z := Z.min (page s) (totalPages s).
Definition pageItems (s : table) : list json :=
  js_slice (Fin ((safePage s - 1) * PAGE_SIZE)) (Fin (safePage s * PAGE_SIZE)) (sorted s).

(** The pager: its page and its four buttons. *)
Definition Pagination (s : table) : option pager := draw_pager (safePage s) (totalPages s).

Inductive event :=
  | ToggleSort
  | FilterChange (f : FilterValue)
  | First | Prev | Next | Last
  | Props (l : list json)
  | Fetch
  | Fetched (r : outcome (list json)).

(** The buttons of the pager work when it is drawn and they are enabled. *)
Definition go (want : pager → bool) (p : Z) (s : table) : table :=
  match Pagination s with
  | Some b => if want b then mkTable (events s) (loading s) (error s) (sortDir s) (filter_by s) p else s
  | None => s
  end.

Definition step (s : table) (e : event) : table :=
  match e with
  | ToggleSort => mkTable (events s) (loading s) (error s)
                    (match sortDir s with desc => asc | asc => desc end) (filter_by s) 1
  | FilterChange f => mkTable (events s) (loading s) (error s) (sortDir s) f 1
  | First => go (λ b, negb (prev_disabled b)) 1 s
  | Prev => go (λ b, negb (prev_disabled b)) (safePage s - 1) s
  | Next => go (λ b, negb (next_disabled b)) (safePage s + 1) s
  | Last => go (λ b, negb (next_disabled b)) (totalPages s) s
  | Props l => mkTable l (loading s) (error s) (sortDir s) (filter_by s) (page s)
  | Fetch => mkTable (events s) true None (sortDir s) (filter_by s) (page s)
  | Fetched (Ret l) => mkTable l false (error s) (sortDir s) (filter_by s) (page s)
  | Fetched (Throw e) => mkTable (events s) false (Some (error_message "Failed to load events" e))
                           (sortDir s) (filter_by s) (page s)
  end.

Definition initial (l : option (list json)) : table :=
  mkTable (default [] l) (match l with None => true | Some _ => false end) None desc None 1.

(** The query of [fetchEvents], and what it reads of the answer; [cast] reads the value as
    the list it is declared to be. *)
Definition history_params (contributor : option string) : list (string * string) :=
  ("limit", "500") :: match filled contributor with Some c => [("contributor", c)] | None => [] end.

Definition fetched (cast : json → list json) (r : reply) : outcome (list json) :=
  match r with
  | Rejected e => Throw e
  | Answered code body =>
      if negb (ok code) then Throw (Error (http_error code))
      else match body with
           | None => Throw bad_json
           | Some JNull => Throw (null_property "events")
           | Some d => Ret (cast (nullish_or (prop "events" d) (JArr [])))
           end
  end.

Definition truncateHash (hash : string) (chars : nat) : string :=
  if strlen hash <=? Z.of_nat chars * 2 + 3 then hash
  else slice_to chars hash +:+ ellipsis +:+ slice_last chars hash.

End History.

(** ** The connection *)

Module Connection.
Import Live.

(** Exactly one of a live source, a pending retry and the polling, until it stops; then none. *)
Definition well_formed (s : live) : Prop :=
  (0 ≤ retryCount s ≤ 3) ∧
  (∀ d, retryTimer s = Some d → 1 ≤ retryCount s ∧ d = 1000 * 2 ^ (retryCount s - 1)) ∧
  (stopped s = false → status s = polling ↔ pollTimer s = true) ∧
  (if stopped s then source s = false ∧ retryTimer s = None ∧ pollTimer s = false
   else (source s = true ∧ retryTimer s = None ∧ pollTimer s = false) ∨
        (source s = false ∧ retryTimer s ≠ None ∧ pollTimer s = false) ∨
        (source s = false ∧ retryTimer s = None ∧ pollTimer s = true)).

Lemma retry_delay n : 0 ≤ n < 3 → Z.min (1000 * 2 ^ n) 30000 = 1000 * 2 ^ n.
Proof. intros Hn. assert (n = 0 ∨ n = 1 ∨ n = 2) as [-> | [-> | ->]] by lia; done. Qed.

Lemma connection_step_well_formed s e : well_formed s → well_formed (step s e).
Proof.
  intros Hw. destruct s as [cs stt src rt pt rc st]. pose proof Hw as (Hc & Hd & Hp & Hx).
  cbn in Hc, Hd, Hp, Hx.
  destruct e as [|[ev|]| | |r|]; cbn [step source stopped retryTimer pollTimer retryCount status caps].
  - destruct src; [|exact Hw]. destruct st; [naive_solver|].
    assert (rt = None ∧ pt = false) as [-> ->] by naive_solver.
    split; [cbn; lia|]. split; [done|]. split; [done|]. by left.
  - destruct src; exact Hw.
  - exact Hw.
  - destruct src; [|exact Hw]. destruct st; [naive_solver|].
    assert (rt = None ∧ pt = false) as [-> ->] by naive_solver. destruct (Z.leb_spec 3 rc).
    + split; [done|]. split; [done|]. split; [done|]. cbn. auto.
    + split; [cbn; lia|]. split; [|split; [done|cbn; auto]].
      intros d [= <-]. cbn. split; [lia|]. rewrite retry_delay by lia. do 2 f_equal. lia.
  - destruct rt as [d|]; [|exact Hw]. unfold connect. cbn. destruct st; [exact Hw|].
    assert (pt = false) as -> by (destruct Hx as [(_ & ? & _)|[(_ & _ & ?)|(_ & ? & _)]]; done).
    split; [done|]. split; [done|]. split; [done|]. by left.
  - destruct pt; [|exact Hw]. destruct (pollEvents r); exact Hw.
  - split; [done|]. split; [done|]. split; [done|]. done.
Qed.

Lemma well_formed_run es : well_formed (run es).
Proof.
  unfold run. assert (well_formed start) as Hs.
  { split; [done|]. split; [done|]. split; [done|]. by left. }
  revert Hs. generalize start. induction es as [|e es IH]; intros s Hs; [done|].
  cbn [fold_left]. by apply IH, connection_step_well_formed.
Qed.

End Connection.

(** ** Counting *)

Module Counting.
Import Live.

Definition keyed (l : list (string * Z)) : Prop := NoDup l.*1.

Lemma known_spec org l : known org l = true ↔ org ∈ l.*1.
Proof.
  unfold known. rewrite existsb_exists. split.
  - intros (c & Hc & He). apply String.eqb_eq in He as <-. apply list_elem_of_In in Hc.
    by apply list_elem_of_fmap_2.
  - intros (c & -> & Hc)%list_elem_of_fmap. exists c. split; [by apply list_elem_of_In|apply String.eqb_refl].
Qed.

Lemma bump_absent org l : org ∉ l.*1 → bump org l = l.
Proof.
  induction l as [|c l IH]; [done|]. rewrite fmap_cons, not_elem_of_cons. intros [Hc Hl].
  unfold bump in *. rewrite fmap_cons, IH by done.
  by rewrite (proj2 (String.eqb_neq c.1 org)) by congruence.
Qed.

(** Both ways of counting an assignment agree. *)
Lemma count_first_bump org l : keyed l →
  (if known org l then bump org l else l ++ [(org, 1)]) = count_first org l.
Proof.
  induction l as [|c l IH]; [done|]. unfold keyed. rewrite fmap_cons, NoDup_cons. intros [Hc Hl].
  cbn [count_first]. unfold known, bump in *. rewrite fmap_cons. cbn [existsb].
  destruct (String.eqb_spec c.1 org) as [He|He]; cbn [orb].
  - f_equal. subst org. by apply bump_absent.
  - rewrite <- IH by done. by destruct (existsb _ l).
Qed.

Lemma count_first_keys org l :
  (count_first org l).*1 = if decide (org ∈ l.*1) then l.*1 else l.*1 ++ [org].
Proof.
  induction l as [|c l IH]; [done|]. cbn [count_first]. destruct (String.eqb_spec c.1 org) as [He|He].
  - rewrite decide_True by (rewrite fmap_cons; set_solver). done.
  - rewrite !fmap_cons, IH. repeat case_decide; set_solver.
Qed.

Lemma count_first_keyed org l : keyed l → keyed (count_first org l).
Proof.
  unfold keyed. rewrite count_first_keys. case_decide; [done|]. intros Hl.
  apply NoDup_app. split_and!; [done|set_solver|apply NoDup_singleton].
Qed.

Definition surplus (evs : list LiveEvent) : Z :=
  zlen (filter (λ e, is_type "applied" e = true) evs) -
  zlen (filter (λ e, is_type "assigned" e = true) evs).

Definition count_assigned (counts : list (string * Z)) (e : LiveEvent) : list (string * Z) :=
  match filled (orgId e) with None => counts | Some org => count_first org counts end.

Lemma types_apart e : is_type "applied" e = true → is_type "assigned" e = false.
Proof.
  unfold is_type. destruct (eventType e) as [t|]; [|done]. intros H%String.eqb_eq. by subst.
Qed.

Lemma zlen_filter_cons (f : LiveEvent → bool) e evs :
  zlen (filter (λ e, f e = true) (e :: evs)) =
    (if f e then 1 else 0) + zlen (filter (λ e, f e = true) evs).
Proof.
  rewrite filter_cons. unfold zlen. destruct (f e); case_decide; try done; cbn [length]; lia.
Qed.

Lemma surplus_cons e evs :
  surplus (e :: evs) = (if is_type "applied" e then 1 else if is_type "assigned" e then -1 else 0) +
    surplus evs.
Proof.
  unfold surplus. rewrite !zlen_filter_cons. pose proof (types_apart e).
  destruct (is_type "applied" e), (is_type "assigned" e); naive_solver lia.
Qed.

Lemma update_global s e :
  globalApplications (updateCounts s e) =
    if is_type "applied" e then globalApplications s + 1
    else if is_type "assigned" e then Z.max (globalApplications s - 1) 0
    else globalApplications s.
Proof.
  unfold updateCounts. destruct (is_type "applied" e), (is_type "assigned" e); cbn;
    by destruct (filled (orgId e)).
Qed.

Lemma update_orgs s e : keyed (orgCounts s) →
  orgCounts (updateCounts s e) =
    if is_type "assigned" e then count_assigned (orgCounts s) e else orgCounts s.
Proof.
  intros Hk. pose proof (types_apart e). unfold updateCounts, count_assigned.
  destruct (is_type "applied" e), (is_type "assigned" e); cbn; try by destruct (filled (orgId e)).
  - naive_solver.
  - destruct (filled (orgId e)); [|done]. cbn. by apply count_first_bump.
Qed.

Lemma live_orgs evs : ∀ s, keyed (orgCounts s) →
  orgCounts (fold_left updateCounts evs s) =
    fold_left count_assigned (filter (λ e, is_type "assigned" e = true) evs) (orgCounts s).
Proof.
  induction evs as [|e evs IH]; intros s Hk; [done|]. cbn [fold_left]. rewrite filter_cons.
  pose proof (update_orgs s e Hk) as Hu. rewrite IH, Hu.
  - destruct (is_type "assigned" e); by case_decide.
  - rewrite Hu. destruct (is_type "assigned" e); [|done]. unfold count_assigned.
    destruct (filled (orgId e)); [by apply count_first_keyed|done].
Qed.

Lemma live_global evs : ∀ s, 0 ≤ globalApplications s →
  let g := globalApplications (fold_left updateCounts evs s) in
  Z.max (globalApplications s + surplus evs) 0 ≤ g ∧
  ((∀ k, 0 ≤ globalApplications s + surplus (take k evs)) → g = globalApplications s + surplus evs).
Proof.
  induction evs as [|e evs IH]; intros s Hs; cbn [fold_left]; [unfold surplus; cbn; lia|].
  rewrite surplus_cons. pose proof (update_global s e) as Hu.
  destruct (IH (updateCounts s e)) as [H1 H2].
  { rewrite Hu. destruct (is_type "applied" e), (is_type "assigned" e); lia. }
  split.
  - rewrite Hu in H1. destruct (is_type "applied" e), (is_type "assigned" e); lia.
  - intros Hk. pose proof (Hk 1%nat) as H0. cbn [take] in H0. rewrite surplus_cons in H0.
    change (surplus (take 0 evs)) with 0 in H0.
    rewrite H2.
    + rewrite Hu. destruct (is_type "applied" e), (is_type "assigned" e); lia.
    + intros k. specialize (Hk (S k)). cbn [take] in Hk. rewrite surplus_cons in Hk. rewrite Hu.
      destruct (is_type "applied" e), (is_type "assigned" e); lia.
Qed.

End Counting.

(** ** Theorems *)

(** the connection of the live updates, after any sequence of openings, messages,
    failures, timers and polls: exactly one of a live event source, a pending retry and the
    polling is active, and none once the provider is gone; a retry waits one, two or four
    seconds, doubling since the last opening; and the status says [polling] exactly while
    it polls. *)
Theorem live_connection_states es :
  let s := Live.run es in
  (if Live.stopped s
   then Live.source s = false ∧ Live.retryTimer s = None ∧ Live.pollTimer s = false
   else (Live.source s = true ∧ Live.retryTimer s = None ∧ Live.pollTimer s = false) ∨
        (Live.source s = false ∧ Live.retryTimer s ≠ None ∧ Live.pollTimer s = false) ∨
        (Live.source s = false ∧ Live.retryTimer s = None ∧ Live.pollTimer s = true)) ∧
  (∀ d, Live.retryTimer s = Some d → d ∈ [1000; 2000; 4000]) ∧
  (Live.stopped s = false → Live.status s = Live.polling ↔ Live.pollTimer s = true).
Proof.
  destruct (Connection.well_formed_run es) as (Hc & Hd & Hp & Hx).
  split; [exact Hx|]. split; [|exact Hp]. intros d Hr. destruct (Hd d Hr) as [H1 ->].
  assert (Live.retryCount (Live.run es) = 1 ∨ Live.retryCount (Live.run es) = 2 ∨
          Live.retryCount (Live.run es) = 3) as [-> | [-> | ->]] by lia; set_solver.
Qed.

(** the counts kept from the stream and the counts computed by polling the same events:
    the assignments per organisation are the same; the applications are at least the polled
    ones, and the same when no prefix of the events has more assignments than
    applications. *)
Theorem stream_agrees_with_polling evs :
  let live := fold_left Live.updateCounts evs Live.initialState in
  let polled := Live.count_events evs in
  Live.orgCounts live = Live.orgCounts polled ∧
  Live.globalApplications polled ≤ Live.globalApplications live ∧
  ((∀ k, 0 ≤ Counting.surplus (take k evs)) →
   Live.globalApplications live = Live.globalApplications polled).
Proof.
  split; [apply Counting.live_orgs; constructor|].
  destruct (Counting.live_global evs Live.initialState) as [H1 H2]; [done|].
  cbn [Live.initialState Live.globalApplications] in H1, H2. rewrite Z.add_0_l in H1, H2.
  unfold Live.count_events. cbn [Live.globalApplications]. unfold Counting.surplus in *.
  split; [lia|]. intros Hk. rewrite H2 by (intros k; specialize (Hk k); lia).
  specialize (Hk (length evs)). rewrite firstn_all in Hk. lia.
Qed.

Section feeds.
Context {S : Type} `{HasDb S}.
Variables (sc : schema) (rows : db → list feed_row) (parse_date : string → jsnum).

(** What a reply of the route is made of. *)
Definition feed_answer (res : response) : Prop :=
  (∃ msg, res = error_response 500 msg) ∨
  ∃ l p t n m, res = send_json 200 (obj [("events", Some (JArr (feed_json <$> l)));
    ("pagination", Some (pagination_json t p n m))]) ∧ (zlen l ≤ 100).

Lemma get_events_answer r : yields feed_answer (get_events (S := S) sc rows parse_date r).
Proof.
  unfold get_events. apply yields_try; [|intros e; apply yields_ret; left; by eexists].
  apply yields_bind. intros c.
  eapply (yields_bind_post (λ l, zlen l ≤ 100)); [|intros l Hl; apply yields_ret; right; by eauto 10].
  unfold select_feed. destruct (feed_limit r) as [|n] eqn:En; [intros w a w' Hc|].
  { unfold call in Hc. destruct (sched w) as [|[|e|e] fs]; by inversion Hc. }
  destruct (js_mul _ _) as [|off]; intros w a w' Hc;
    [unfold call in Hc; destruct (sched w) as [|[|e|e] fs]; by inversion Hc|].
  unfold feed_query in Hc. destruct (_ || _).
  { unfold call in Hc. destruct (sched w) as [|[|e|e] fs]; by inversion Hc. }
  apply select_Ret in Hc as (-> & _). unfold zlen. rewrite length_take.
  unfold feed_limit in En. destruct (query_int "limit" "20" r); [done|]. cbn in En. injection En as <-. lia.
Qed.

End feeds.

Lemma read_feed_json l : map_outcome Live.read_event (feed_json <$> l) =
  Ret ((λ e, Live.mkEvent None (Some (f_org_id e))) <$> l).
Proof. induction l as [|e l IH]; [done|]. rewrite !fmap_cons. cbn [map_outcome]. by rewrite IH. Qed.

Lemma count_untyped evs : Forall (λ e, Live.eventType e = None) evs →
  Live.count_events evs = Live.initialState.
Proof.
  intros Hf. assert (∀ t, filter (λ e, Live.is_type t e = true) evs = []) as Hnil.
  { intros t. induction Hf as [|e evs He _ IH]; [done|]. rewrite filter_cons_False; [exact IH|].
    unfold Live.is_type. by rewrite He. }
  unfold Live.count_events. by rewrite !Hnil.
Qed.

(** polling over the route it polls: the rows of [GET /api/events] have a [topic] and no
    event type, so whatever events there are, a poll that is answered sets the counts to
    none, and one that fails leaves them. *)
Theorem polling_shows_nothing {S} `{HasDb S} sc rows parse_date r (w w' : world S) res s :
  get_events sc rows parse_date r w = (Ret res, w') → Live.pollTimer s = true →
  Live.caps (Live.step s (Live.Polled (reply_of res))) =
    if ok (Http.status res) then Live.initialState else Live.caps s.
Proof.
  intros Hr Hp. cbn [Live.step]. rewrite Hp.
  destruct (get_events_answer _ _ _ _ _ _ _ Hr) as [[msg ->]|(l & p & t & n & m & -> & _)]; [done|].
  assert (Live.pollEvents (reply_of (send_json 200 (obj
    [("events", Some (JArr (feed_json <$> l))); ("pagination", Some (pagination_json t p n m))]))) =
    Ret Live.initialState) as ->; [|done].
  unfold Live.pollEvents, reply_of. cbn -[map_outcome pagination_json feed_json fmap].
  change (nullish_or _ _) with (JArr (feed_json <$> l)). cbv iota.
  rewrite read_feed_json, count_untyped; [done|]. apply Forall_fmap, Forall_true. done.
Qed.

(** the activity feed over the same route: once a page was answered the feed asks for no
    other, because the route calls its flag [has_more]: it never shows more than one page of
    at most a hundred events, and none of them has the type it is labelled by. *)
Theorem feed_stops_at_one_page {S} `{HasDb S} sc rows parse_date r (w w' : world S) res p s org ty :
  get_events sc rows parse_date r w = (Ret res, w') → Http.status res = 200 →
  Feed.reset p = true →
  let s' := on_end Feed.fetchPage (on_reply Feed.fetchPage p (reply_of res)
              (on_start Feed.fetchPage p s)) in
  Feed.on_intersect org ty s' = None ∧ zlen (Feed.events s') ≤ 100 ∧
  Forall (λ e, prop "event_type" e = None) (Feed.events s') ∧ Feed.error s' = None.
Proof.
  intros Hr H200 Hp s'.
  destruct (get_events_answer _ _ _ _ _ _ _ Hr) as [[msg ->]|(l & pg & t & n & m & -> & Hl)]; [done|].
  assert (Feed.receive p (reply_of (send_json 200 (obj
    [("events", Some (JArr (feed_json <$> l))); ("pagination", Some (pagination_json t pg n m))])))
    (on_start Feed.fetchPage p s) =
    Feed.mkFeed (feed_json <$> l) (Feed.offset p + Feed.PAGE_SIZE) None true None (Feed.newIds s)) as He.
  { unfold Feed.receive. change (Feed.decode _) with (Ret (A := option json * option (option json))
      (Some (JArr (feed_json <$> l)), Some None)). cbv iota. by rewrite Hp; cbn; rewrite Hp. }
  unfold s'. change (on_reply Feed.fetchPage) with Feed.receive. rewrite He.
  split; [done|]. split; [by cbn; rewrite zlen_fmap|]. split; [|done].
  apply Forall_fmap, Forall_true. done.
Qed.

(** *** The table *)

Lemma total_pages_pos s : 1 ≤ History.totalPages s.
Proof. unfold History.totalPages, last_page. lia. Qed.

Lemma history_page_pos es s : 1 ≤ History.page s → 1 ≤ History.page (fold_left History.step es s).
Proof.
  revert s. induction es as [|e es IH]; intros s Hs; [done|]. cbn [fold_left]. apply IH.
  pose proof (total_pages_pos s) as Ht.
  destruct e as [|f| | | | |l| |[l|e]]; cbn; try lia; unfold History.go, History.Pagination, draw_pager;
    destruct (Z.leb_spec (History.totalPages s) 1); try lia; cbn;
    destruct (Z.eqb_spec (History.safePage s) 1), (Z.eqb_spec (History.safePage s) (History.totalPages s));
    cbn; try lia; unfold History.safePage in *; lia.
Qed.

Lemma page_items_window s : 1 ≤ History.page s →
  History.pageItems s = window (History.safePage s) 25 (History.sorted s).
Proof.
  intros Hp. pose proof (total_pages_pos s). unfold History.pageItems, History.PAGE_SIZE.
  rewrite <- window_slice by (unfold History.safePage; lia). do 2 f_equal. lia.
Qed.

(** the event table after any clicks, changes of its events and fetches: it shows a page
    that exists, never an empty one while there are events to show; its pages together are
    exactly the events of the chosen type, each once, and when their timestamps can be read
    they are in the chosen order. *)
Theorem history_pages l es :
  let s := fold_left History.step es (History.initial l) in
  1 ≤ History.safePage s ≤ History.totalPages s ∧
  (History.sorted s ≠ [] → History.pageItems s ≠ []) ∧
  concat ((λ i, window (Z.of_nat i + 1) 25 (History.sorted s)) <$>
            seq 0 (page_count (zlen (History.sorted s)) 25)) = History.sorted s ∧
  History.pageItems s = window (History.safePage s) 25 (History.sorted s) ∧
  History.sorted s ≡ₚ History.filtered (History.filter_by s) (History.events s) ∧
  (Forall (λ e, ∃ t, History.timestamp e = Fin t) (History.events s) →
   StronglySorted (λ a b, goes_before (History.compare (History.sortDir s) b a) = false)
     (History.sorted s)).
Proof.
  intros s. assert (1 ≤ History.page s) as Hp by (by apply history_page_pos).
  pose proof (total_pages_pos s) as Ht. split; [unfold History.safePage; lia|]. split; [|split; [|split; [|split]]].
  - intros Hne. rewrite page_items_window by done.
    destruct (last_page_spec (zlen (History.sorted s)) 25) as (_ & _ & Hlt); [unfold zlen; lia|done|].
    assert (0 < zlen (History.sorted s)) as Hpos
      by (destruct (History.sorted s); [done|unfold zlen; cbn; lia]).
    specialize (Hlt Hpos). intros He. apply (f_equal length) in He.
    unfold window in He. rewrite length_take, length_drop in He. cbn in He.
    unfold History.safePage, History.totalPages, History.PAGE_SIZE in *. unfold zlen in *. nia.
  - by apply windows_cover.
  - by apply page_items_window.
  - apply sort_by_perm.
  - intros Hf. set (key e := match History.timestamp e with
      | Fin t => match History.sortDir s with History.asc => t | History.desc => - t end | NaN => 0 end).
    apply (sort_by_order _ key).
    intros a b [_ Ha]%list_elem_of_filter [_ Hb]%list_elem_of_filter. rewrite Forall_forall in Hf.
    destruct (Hf a Ha) as [ta Ea], (Hf b Hb) as [tb Eb]. unfold key, History.compare.
    rewrite Ea, Eb. destruct (History.sortDir s); cbn; f_equal; lia.
Qed.

(** ** Concrete runs *)

(** A table of one event, asked for as the browser asks. *)
Definition demo_rows (_ : db) : list feed_row := [mkFeed 1 10 "tx" "applied" "org" "1" "GA" 0].
Definition demo_request : request := Request [] [("limit", JStr "1000")] [] None None.
Definition demo_run : outcome response * world db :=
  get_events feed_schema demo_rows parseInt demo_request (World empty_db []).
Definition demo_reply : response := match demo_run.1 with Ret r => r | Throw _ => send_empty 500 end.

(** Four failures in a row: the source gives way to polling. *)
Definition demo_polling : Live.live :=
  Live.run [Live.Errored; Live.RetryFired; Live.Errored; Live.RetryFired; Live.Errored; Live.RetryFired;
            Live.Errored].

Lemma polling_shows_nothing_witness :
  get_events feed_schema demo_rows parseInt demo_request (World empty_db []) =
    (Ret demo_reply, World empty_db []) ∧
  Live.pollTimer demo_polling = true ∧
  Live.caps (Live.step demo_polling (Live.Polled (reply_of demo_reply))) = Live.initialState.
Proof.
  assert (get_events feed_schema demo_rows parseInt demo_request (World empty_db []) =
    (Ret demo_reply, World empty_db [])) as Hr by (vm_compute; reflexivity).
  split; [exact Hr|]. split; [reflexivity|].
  exact (polling_shows_nothing feed_schema demo_rows parseInt demo_request (World empty_db [])
    (World empty_db []) demo_reply demo_polling Hr eq_refl).
Defined.

Lemma feed_stops_at_one_page_witness :
  let p := Feed.mkParams None "" 0 true in
  let s' := on_end Feed.fetchPage (on_reply Feed.fetchPage p (reply_of demo_reply)
              (on_start Feed.fetchPage p Feed.initial)) in
  Http.status demo_reply = 200 ∧ length (Feed.events s') = 1%nat ∧ Feed.on_intersect None "" s' = None.
Proof.
  assert (get_events feed_schema demo_rows parseInt demo_request (World empty_db []) =
    (Ret demo_reply, World empty_db [])) as Hr by (vm_compute; reflexivity).
  assert (Http.status demo_reply = 200) as H200 by (vm_compute; reflexivity).
  split; [exact H200|]. split; [vm_compute; reflexivity|].
  destruct (feed_stops_at_one_page feed_schema demo_rows parseInt demo_request (World empty_db [])
    (World empty_db []) demo_reply (Feed.mkParams None "" 0 true) Feed.initial None "" Hr H200 eq_refl)
    as [H _]. exact H.
Defined.
