(* ===== verification/RepoSync.v ===== *)
(** * The repository sync of the backend service ([backend/src/github.ts])

    Fetching the open issues of a repository with conditional requests, writing them in one
    database transaction, waiting out a rate limit, and the run over all registered
    repositories.  A page of issues is taken as the interface [GitHubIssue] declares it.
    The clock moves only while the service waits. *)

From Stdlib Require Import String Ascii.
From S2P Require Import Prelude Js Url Db.

#[local] Open Scope string_scope.
#[local] Open Scope list_scope.
#[local] Open Scope Z_scope.

Record GitHubIssue := mkIssue {
  id : Z;
  number : Z;
  title : string;
  html_url : string;
  labels : list string;        (** [labels[].name] *)
  user : option string;        (** [user?.login] *)
  created_at : string;
  updated_at : string;
}.

Record SyncResult := mkResult {
  org : string;
  repo : string;
  upserted : Z;
  closed : Z;
  durationMs : Z;
  skipped : bool;
}.

(** What [fetch] resolves to; [res_issues] is [res.json()], [None] when it throws. *)
Record api_response := mkApi {
  res_status : Z;
  res_headers : list (string * string);
  res_text : string;
  res_issues : option (list GitHubIssue);
}.

Definition res_ok (r : api_response) : bool := (200 <=? res_status r) && (res_status r <=? 299).

(** A row of [github_issues]. *)
Record issue_record := mkRecord {
  g_id : Z;
  g_owner : string;
  g_repo : string;
  g_number : Z;
  g_title : string;
  g_html_url : string;
  g_state : string;
  g_labels : list string;
  g_author : option string;
  g_created_at : string;
  g_updated_at : string;
  g_synced_at : Z;
}.

(** The state: the network, the ETags of the last full answers, the committed table and the
    copy an open transaction works on, the registered repositories ([None]: no such table),
    the clock and the waits. *)
Record sync_state (N : Type) := SyncState {
  net : N;
  etagCache : gmap string string;
  table : list issue_record;
  working : option (list issue_record);
  registered_repos : option (list (string * string));
  clock : Z;
  slept : list Z;
}.
Arguments SyncState {N} net etagCache table working registered_repos clock slept.
Arguments net {N} s.
Arguments etagCache {N} s.
Arguments table {N} s.
Arguments working {N} s.
Arguments registered_repos {N} s.
Arguments clock {N} s.
Arguments slept {N} s.

Definition set_net {N} (n : N) (s : sync_state N) : sync_state N :=
  SyncState n (etagCache s) (table s) (working s) (registered_repos s) (clock s) (slept s).
Definition set_etags {N} (e : gmap string string) (s : sync_state N) : sync_state N :=
  SyncState (net s) e (table s) (working s) (registered_repos s) (clock s) (slept s).
Definition set_tables {N} (t : list issue_record) (w : option (list issue_record))
    (s : sync_state N) : sync_state N :=
  SyncState (net s) (etagCache s) t w (registered_repos s) (clock s) (slept s).

Definition SYNC_LABEL : string := "good first issue".
Definition GITHUB_API_BASE : string := "https://api.github.com".

(** ** The statements of one sync *)

(** [INSERT ... ON CONFLICT (id) DO UPDATE]: owner, repository, number and creation date of
    a known id are not updated. *)
Definition upsert_issue (now : Z) (owner repo : string) (i : GitHubIssue)
    (rows : list issue_record) : list issue_record :=
  if existsb (λ r, g_id r =? id i) rows then
    (λ r, if g_id r =? id i then
            mkRecord (g_id r) (g_owner r) (g_repo r) (g_number r) (title i) (html_url i) "open"
              (labels i) (user i) (g_created_at r) (updated_at i) now
          else r) <$> rows
  else rows ++ [mkRecord (id i) owner repo (number i) (title i) (html_url i) "open" (labels i)
                  (user i) (created_at i) (updated_at i) now].

(** The condition of the closing UPDATE; an empty list of ids is sent as NULL. *)
Definition vanished (owner repo : string) (openIds : list Z) (r : issue_record) : bool :=
  String.eqb (g_owner r) owner && String.eqb (g_repo r) repo && String.eqb (g_state r) "open" &&
  (match openIds with [] => true | _ => bool_decide (g_id r ∉ openIds) end).

Definition close_record (now : Z) (r : issue_record) : issue_record :=
  mkRecord (g_id r) (g_owner r) (g_repo r) (g_number r) (g_title r) (g_html_url r) "closed"
    (g_labels r) (g_author r) (g_created_at r) (g_updated_at r) now.

(** The UPDATE: its row count and the new rows. *)
Definition close_missing (now : Z) (owner repo : string) (openIds : list Z)
    (rows : list issue_record) : Z * list issue_record :=
  (Z.of_nat (length (filter (λ r, vanished owner repo openIds r = true) rows)),
   (λ r, if vanished owner repo openIds r then close_record now r else r) <$> rows).

Section RepoSync.
Context {N : Type}.
Variable GITHUB_TOKEN : string.
(** The global [fetch]: an answer or a rejection. *)
Variable http : string → list (string * string) → N → (api_response + exn) * N.
(** [process.env.SYNC_REPOS ?? '']. *)
Variable SYNC_REPOS : string.

Notation state := (sync_state N).

(** ** [fetchIssuesForRepo] *)

Inductive fetched :=
  | Answer (status : Z) (etag : option string) (issues : list GitHubIssue) (resetAt : option jsnum)
  | RateLimited (statusCode : Z) (resetAt : option jsnum).

Definition repo_key (owner repo : string) : string := owner +:+ "/" +:+ repo.

Definition request_headers (cachedEtag : option string) : list (string * string) :=
  [("Accept", "application/vnd.github+json"); ("X-GitHub-Api-Version", "2022-11-28")] ++
  (if String.eqb GITHUB_TOKEN "" then [] else [("Authorization", "Bearer " +:+ GITHUB_TOKEN)]) ++
  match cachedEtag with
  | Some e => if String.eqb e "" then [] else [("If-None-Match", e)]
  | None => []
  end.

Definition issues_url (owner repo : string) (page : Z) : string :=
  GITHUB_API_BASE +:+ "/repos/" +:+ owner +:+ "/" +:+ repo +:+ "/issues?" +:+
  search_params [("state", "open"); ("labels", SYNC_LABEL); ("per_page", "100");
                 ("page", pretty page)].

(** [new Date(parseInt(resetHeader, 10) * 1000)] when the header is there, the value of the
    page before otherwise. *)
Definition reset_of (r : api_response) (resetAt : option jsnum) : option jsnum :=
  match assoc "x-ratelimit-reset" (res_headers r) with
  | Some h => if String.eqb h "" then resetAt else Some (js_mul (parseInt h) (Fin 1000))
  | None => resetAt
  end.

Definition rate_limited (r : api_response) : bool :=
  ((res_status r =? 429) || (res_status r =? 403)) &&
  (bool_decide (assoc "x-ratelimit-remaining" (res_headers r) = Some "0") ||
   (res_status r =? 429)).

Definition next_page (r : api_response) : bool :=
  includes rel_next (default "" (assoc "link" (res_headers r))).

(** The loop with [fuel] requests left; [None] is the exhaustion of the fuel, [inl] an early
    answer, [inr] the ETag, the issues and the reset time at its end. *)
Fixpoint fetch_loop (fuel : nat) (owner repo : string) (cachedEtag : option string) (page : Z)
    (etag : option string) (all : list GitHubIssue) (resetAt : option jsnum)
    : M state (option (fetched + option string * list GitHubIssue * option jsnum)) :=
  match fuel with
  | O => mret None
  | Datatypes.S fuel' =>
      answer ← local (λ s, let '(a, n) := http (issues_url owner repo page)
                                            (request_headers cachedEtag) (net s) in
                           (a, set_net n s));
      match answer with
      | inr e => throw e
      | inl res =>
          let resetAt := reset_of res resetAt in
          if rate_limited res then mret (Some (inl (RateLimited (res_status res) resetAt)))
          else if res_status res =? 304 then mret (Some (inl (Answer 304 cachedEtag [] resetAt)))
          else if negb (res_ok res) then
            throw (Error ("GitHub API error " +:+ pretty (res_status res) +:+ " for " +:+
                          repo_key owner repo +:+ ": " +:+ res_text res))
          else
            let etag := if page =? 1 then assoc "etag" (res_headers res) else etag in
            match res_issues res with
            | None => throw (ErrorObj "SyntaxError" "Unexpected token in JSON")
            | Some [] => mret (Some (inr (etag, all, resetAt)))
            | Some data =>
                if next_page res
                then fetch_loop fuel' owner repo cachedEtag (page + 1) etag (all ++ data) resetAt
                else mret (Some (inr (etag, all ++ data, resetAt)))
            end
      end
  end.

Definition remember_etag (key : string) (etag : option string) : M state unit :=
  match etag with
  | Some ((String _ _) as e) => modify (λ s, set_etags (<[key := e]> (etagCache s)) s)
  | _ => mret tt
  end.

Definition fetchIssuesForRepo (fuel : nat) (owner repo : string) : M state (option fetched) :=
  cachedEtag ← gets (λ s, etagCache s !! repo_key owner repo);
  r ← fetch_loop fuel owner repo cachedEtag 1 None [] None;
  match r with
  | None => mret None
  | Some (inl f) => mret (Some f)
  | Some (inr (etag, issues, resetAt)) =>
      _ ← remember_etag (repo_key owner repo) etag;
      mret (Some (Answer 200 etag issues resetAt))
  end.

(** ** [syncIssuesToDb] *)

(** [client.query] inside the transaction. *)
Definition in_transaction {A} (f : Z → list issue_record → A * list issue_record) : M state A :=
  call (λ s, match working s with
             | Some rows => let '(a, rows) := f (clock s) rows in
                            (Ret a, set_tables (table s) (Some rows) s)
             | None => (Throw (Error "no transaction"), s)
             end).

Definition begin : M state unit := call (λ s, (Ret tt, set_tables (table s) (Some (table s)) s)).
Definition commit : M state unit :=
  call (λ s, (Ret tt, set_tables (default (table s) (working s)) None s)).
Definition rollback : M state unit := call (λ s, (Ret tt, set_tables (table s) None s)).

(** [client.release()]: a transaction left open is lost with its connection. *)
Definition release : M state unit := modify (λ s, set_tables (table s) None s).

Definition upsert (owner repo : string) (i : GitHubIssue) : M state unit :=
  if in_int4 (number i)
  then in_transaction (λ now rows, (tt, upsert_issue now owner repo i rows))
  else call (λ s, (Throw (Error "value is out of range for type integer"), s)).

(** [try { m } finally { client.release() }]. *)
Definition with_release {A} (m : M state A) : M state A := λ w,
  let '(o, w1) := m w in let '(_, w2) := release w1 in (o, w2).

Definition syncIssuesToDb (owner repo : string) (issues : list GitHubIssue) : M state (Z * Z) :=
  _ ← call (λ s, (Ret tt, s));
  with_release
    (try_catch
       (_ ← begin;
        upserted ← for_fold (λ n i, _ ← upsert owner repo i; mret (n + 1)) 0 issues;
        closed ← in_transaction (λ now, close_missing now owner repo (id <$> issues));
        _ ← commit;
        mret (upserted, closed))
       (λ err, _ ← rollback; throw err)).

(** ** [loadRegisteredRepos] *)

Definition pair_of (pair : string) : string * string :=
  match split "/" pair with
  | owner :: repo :: _ => (owner, repo)
  | [owner] => (owner, "")
  | [] => (pair, "")
  end.

Definition env_repos (raw : string) : list (string * string) :=
  filter (λ r : string * string, r.1 ≠ "" ∧ r.2 ≠ "")
    (pair_of <$> filter (λ s, s ≠ "") (trim <$> split "," raw)).

Definition loadRegisteredRepos : M state (list (string * string)) :=
  rows ← try_catch
           (call (λ s, (match registered_repos s with
                        | Some l => Ret l
                        | None => Throw (Error "relation does not exist: registered_repos")
                        end, s)))
           (λ _, mret []);
  mret (match rows with [] => env_repos SYNC_REPOS | _ => rows end).

(** ** [syncRepo] and [runFullSync] *)

(** [waitUntil(target)]: logging an invalid date throws. *)
Definition waitUntil (target : jsnum) : M state unit :=
  match target with
  | Fin t =>
      if valid_time t then
        modify (λ s, let delay := Z.max 0 (t - clock s) + 5000 in
          SyncState (net s) (etagCache s) (table s) (working s) (registered_repos s)
            (clock s + delay) (slept s ++ [delay]))
      else throw (ErrorObj "RangeError" "Invalid time value")
  | NaN => throw (ErrorObj "RangeError" "Invalid time value")
  end.

Definition rate_limit_error (owner repo : string) : exn :=
  Error ("GitHub rate limit hit for " +:+ repo_key owner repo).

(** The loop over the attempts, [left] of them left. *)
Fixpoint sync_attempts (fuel left : nat) (attempt start : Z) (owner repo : string)
    : M state (option SyncResult) :=
  match left with
  | O => throw (Error ("syncRepo(" +:+ repo_key owner repo +:+ ") exceeded retry budget"))
  | Datatypes.S left' =>
      f ← fetchIssuesForRepo fuel owner repo;
      match f with
      | None => mret None
      | Some (RateLimited statusCode (Some target)) =>
          if attempt =? 1 then
            _ ← waitUntil target; sync_attempts fuel left' (attempt + 1) start owner repo
          else throw (rate_limit_error owner repo)
      | Some (RateLimited statusCode None) => throw (rate_limit_error owner repo)
      | Some (Answer status _ issues _) =>
          if status =? 304 then
            now ← gets clock; mret (Some (mkResult owner repo 0 0 (now - start) true))
          else
            r ← syncIssuesToDb owner repo issues;
            now ← gets clock;
            mret (Some (mkResult owner repo r.1 r.2 (now - start) false))
      end
  end.

Definition syncRepo (fuel : nat) (owner repo : string) : M state (option SyncResult) :=
  start ← gets clock; sync_attempts fuel 2 1 start owner repo.

Definition ensureSchema : M state unit := call (λ s, (Ret tt, s)).

(** [runFullSync]; a repository whose pages exhaust the fuel is dropped from the results. *)
Definition runFullSync (fuel : nat) : M state (list SyncResult) :=
  _ ← ensureSchema;
  repos ← loadRegisteredRepos;
  for_fold (λ results '(owner, repo),
    r ← try_catch (syncRepo fuel owner repo) (λ _, mret None);
    mret (match r with Some r => results ++ [r] | None => results end)) [] repos.

(** [runGitHubSyncJob] of the scheduler: the numbers it logs, [None] when the run failed. *)
Definition runGitHubSyncJob (fuel : nat) : M state (option (Z * Z * Z)) :=
  try_catch
    (results ← runFullSync fuel;
     mret (Some (Z.of_nat (length results), fold_left (λ n r, n + upserted r) results 0,
                 fold_left (λ n r, n + closed r) results 0)))
    (λ _, mret None).

End RepoSync.

(** ** What one sync should do to the table *)

Definition synced (now : Z) (owner repo : string) (issues : list GitHubIssue)
    (rows : list issue_record) : Z * list issue_record :=
  close_missing now owner repo (id <$> issues)
    (fold_left (λ rows i, upsert_issue now owner repo i rows) issues rows).

(** ** Lemmas *)

Section table.
Variables (now : Z) (owner repo : string).

Definition of_repo (r : issue_record) : Prop := g_owner r = owner ∧ g_repo r = repo.

Lemma upsert_ids i rows :
  g_id <$> upsert_issue now owner repo i rows =
  if existsb (λ r, g_id r =? id i) rows then g_id <$> rows else (g_id <$> rows) ++ [id i].
Proof.
  unfold upsert_issue. case_match; [|by rewrite fmap_app].
  rewrite <- list_fmap_compose. apply list_fmap_ext. intros _ r _. cbn. by case_match.
Qed.

Lemma existsb_id i rows :
  existsb (λ r, g_id r =? i) rows = true ↔ i ∈ g_id <$> rows.
Proof.
  rewrite existsb_exists, list_elem_of_fmap. split.
  - intros (r & Hr & He). exists r. split; [lia|by apply list_elem_of_In].
  - intros (r & -> & Hr). exists r. split; [by apply list_elem_of_In|lia].
Qed.

Lemma upsert_key i rows :
  NoDup (g_id <$> rows) →
  NoDup (g_id <$> upsert_issue now owner repo i rows) ∧
  (∀ x, x ∈ g_id <$> upsert_issue now owner repo i rows ↔ x ∈ g_id <$> rows ∨ x = id i).
Proof.
  intros Hn. rewrite upsert_ids. destruct (existsb _ rows) eqn:E.
  - apply existsb_id in E. split; [done|]. set_solver.
  - assert (id i ∉ g_id <$> rows) by (intros Hc%existsb_id; congruence).
    split; [|set_solver]. apply NoDup_app. split_and!; [done|set_solver|apply NoDup_singleton].
Qed.

(** A row of the table after an upsert: the issue's own row, or an old one. *)
Lemma upsert_elem i rows r :
  r ∈ upsert_issue now owner repo i rows →
  (g_id r = id i ∧ g_state r = "open" ∧
   (of_repo r ∨ ∃ r0, r0 ∈ rows ∧ g_id r0 = id i ∧ g_owner r = g_owner r0 ∧ g_repo r = g_repo r0)) ∨
  (g_id r ≠ id i ∧ r ∈ rows).
Proof.
  unfold upsert_issue. destruct (existsb _ rows) eqn:E.
  - intros (r0 & -> & Hr0)%list_elem_of_fmap. destruct (g_id r0 =? id i) eqn:Ei.
    + left. split_and!; [cbn; lia|done|]. right. exists r0. split_and!; [done|lia|done|done].
    + right. split; [lia|done].
  - intros [Hr|Hr]%elem_of_app.
    + right. split; [|done]. intros He.
      enough (existsb (λ r0, g_id r0 =? id i) rows = true) by congruence.
      apply existsb_id, list_elem_of_fmap. by exists r.
    + apply list_elem_of_singleton in Hr as ->. left. split_and!; [done|done|by left].
Qed.

Lemma upsert_keeps i rows r : g_id r ≠ id i → r ∈ rows → r ∈ upsert_issue now owner repo i rows.
Proof.
  intros Hr Hin. unfold upsert_issue. case_match; [|by apply elem_of_app; left].
  apply list_elem_of_fmap. exists r. split; [|done]. by replace (g_id r =? id i) with false by lia.
Qed.

Notation upserts := (fold_left (λ rows i, upsert_issue now owner repo i rows)).

Lemma upserts_key issues : ∀ rows, NoDup (g_id <$> rows) →
  NoDup (g_id <$> upserts issues rows) ∧
  (∀ x, x ∈ g_id <$> upserts issues rows ↔ x ∈ g_id <$> rows ∨ x ∈ id <$> issues).
Proof.
  induction issues as [|i issues IH]; intros rows Hn; cbn [fold_left]; [set_solver|].
  destruct (upsert_key i rows Hn) as [H1 H2]. destruct (IH _ H1) as [H3 H4].
  split; [done|]. intros x. rewrite H4, H2, fmap_cons. set_solver.
Qed.

Lemma upserts_keeps issues : ∀ rows r, g_id r ∉ id <$> issues → r ∈ rows →
  r ∈ upserts issues rows.
Proof.
  induction issues as [|i issues IH]; intros rows r Hr Hin; cbn [fold_left]; [done|].
  rewrite fmap_cons in Hr. apply IH; [set_solver|]. apply upsert_keeps; [set_solver|done].
Qed.

(** No row of another repository carries one of the ids. *)
Definition unshared (ids : list Z) (rows : list issue_record) : Prop :=
  ∀ r, r ∈ rows → g_id r ∈ ids → of_repo r.

Lemma upserts_elem issues : ∀ rows, unshared (id <$> issues) rows → ∀ r,
  r ∈ upserts issues rows →
  (g_id r ∈ id <$> issues ∧ g_state r = "open" ∧ of_repo r) ∨
  (g_id r ∉ id <$> issues ∧ r ∈ rows).
Proof.
  assert (∀ issues ids rows, unshared ids rows → (id <$> issues) ⊆ ids → ∀ r,
    r ∈ upserts issues rows →
    unshared ids (upserts issues rows) ∧
    ((g_id r ∈ id <$> issues ∧ g_state r = "open" ∧ of_repo r) ∨
     (g_id r ∉ id <$> issues ∧ r ∈ rows))) as H.
  { clear issues. induction issues as [|i issues IH]; intros ids rows Hu Hsub r Hr; cbn [fold_left] in *.
    - split; [done|]. right. split; [set_solver|done].
    - rewrite fmap_cons in *.
      assert (unshared ids (upsert_issue now owner repo i rows)) as Hu'.
      { intros r' Hr' Hid. destruct (upsert_elem i rows r' Hr') as [(He & _ & [Ho|(r0 & H0 & H1 & H2 & H3)])|[_ Hin]];
          [done| |by apply Hu].
        destruct (Hu r0 H0) as [H4 H5]; [rewrite H1; set_solver|]. split; congruence. }
      destruct (IH ids _ Hu' ltac:(set_solver) r Hr) as [Hu2 [(H1 & H2 & H3)|[H1 H2]]].
      + split; [done|]. left. split_and!; [set_solver|done|done].
      + split; [done|]. destruct (upsert_elem i rows r H2) as [(He & Hs & _)|[Hne Hin]].
        * left. split_and!; [set_solver|done|]. apply Hu2; [done|]. set_solver.
        * right. split; [set_solver|done]. }
  intros rows Hu r Hr. by apply (H issues (id <$> issues) rows Hu (reflexivity _) r Hr).
Qed.

Lemma close_ids ids rows : g_id <$> (close_missing now owner repo ids rows).2 = g_id <$> rows.
Proof.
  unfold close_missing. cbn. rewrite <- list_fmap_compose. apply list_fmap_ext.
  intros _ r _. cbn. by case_match.
Qed.

Lemma vanished_spec ids r :
  vanished owner repo ids r = true ↔ of_repo r ∧ g_state r = "open" ∧ g_id r ∉ ids.
Proof.
  unfold vanished, of_repo. rewrite !andb_true_iff, !String.eqb_eq.
  destruct ids as [|x ids]; [|rewrite bool_decide_eq_true]; set_solver.
Qed.

End table.

Section transaction.
Context {N : Type}.
Notation state := (sync_state N).

(** Two states that differ in the working copy only. *)
Definition same_outside (s s' : state) : Prop := s' = set_tables (table s) (working s') s.

Lemma same_outside_refl s : same_outside s s.
Proof. by destruct s. Qed.

Lemma same_outside_trans s1 s2 s3 :
  same_outside s1 s2 → same_outside s2 s3 → same_outside s1 s3.
Proof. unfold same_outside. intros H1 H2. rewrite H2, H1. by destruct s1. Qed.

Lemma in_transaction_run {A} (f : Z → list issue_record → A * list issue_record) w o w' rows :
  working (st w) = Some rows → in_transaction f w = (o, w') →
  same_outside (st w) (st w') ∧
  ∀ a, o = Ret a → a = (f (clock (st w)) rows).1 ∧
                   working (st w') = Some (f (clock (st w)) rows).2.
Proof.
  intros Hw Hf. unfold in_transaction, call in Hf.
  destruct w as [s [|[|e|e] fs]]; simpl in *; rewrite ?Hw in Hf;
    destruct (f (clock s) rows) as [a rows'] eqn:E; simplify_eq/=;
    (split; [first [done|by destruct s]|]); intros a' ?; simplify_eq; by rewrite ?E.
Qed.

Lemma upsert_run owner repo i w o w' rows :
  working (st w) = Some rows → upsert owner repo i w = (o, w') →
  same_outside (st w) (st w') ∧
  (o = Ret tt → working (st w') = Some (upsert_issue (clock (st w)) owner repo i rows)).
Proof.
  intros Hw Hu. unfold upsert in Hu. destruct (in_int4 (number i)).
  - destruct (in_transaction_run _ _ _ _ _ Hw Hu) as [H1 H2]. split; [done|].
    intros ->. by destruct (H2 tt eq_refl).
  - unfold call in Hu. destruct w as [s [|[|e|e] fs]]; simplify_eq/=;
      (split; [by destruct s|done]).
Qed.

Lemma upserts_run owner repo issues : ∀ n w o w' rows,
  working (st w) = Some rows →
  for_fold (λ n i, _ ← upsert owner repo i; mret (n + 1)) n issues w = (o, w') →
  same_outside (st w) (st w') ∧
  ∀ m, o = Ret m → m = n + Z.of_nat (length issues) ∧
    working (st w') =
      Some (fold_left (λ rows i, upsert_issue (clock (st w)) owner repo i rows) issues rows).
Proof.
  induction issues as [|i issues IH]; intros n w o w' rows Hw Hf; cbn [for_fold] in Hf.
  - unfold_m. simplify_eq. split; [apply same_outside_refl|]. intros m [= <-].
    split; [simpl; lia|done].
  - apply bind_cases in Hf as [(m1 & w1 & Hu & Hf)|(e & Hu & ->)];
      apply bind_cases in Hu as [([] & w2 & Hu & Hr)|(e' & Hu & He)]; unfold_m; simplify_eq;
      destruct (upsert_run _ _ _ _ _ _ _ Hw Hu) as [H1 H2]; [|by split].
    specialize (H2 eq_refl). destruct (IH _ _ _ _ _ H2 Hf) as [H3 H4].
    assert (clock (st w1) = clock (st w)) as Hc by (rewrite H1; by destruct (st w)).
    split; [by eapply same_outside_trans|]. intros m Hm.
    destruct (H4 m Hm) as [-> ->]. rewrite Hc. split; [simpl; lia|done].
Qed.

Lemma set_tables_twice t w t' w' (s : state) : set_tables t w (set_tables t' w' s) = set_tables t w s.
Proof. by destruct s. Qed.

Lemma set_tables_same (s : state) : set_tables (table s) (working s) s = s.
Proof. by destruct s. Qed.

Lemma begin_run (w : world state) o w' :
  begin w = (o, w') →
  same_outside (st w) (st w') ∧ (o = Ret tt → working (st w') = Some (table (st w))).
Proof.
  unfold begin, call. destruct w as [s [|[|e|e] fs]]; simpl; intros [= <- <-]; simpl;
    (split; [by destruct s|done]).
Qed.

Lemma commit_run (w : world state) o w' rows :
  working (st w) = Some rows → commit w = (o, w') →
  ∃ t wk, st w' = set_tables t wk (st w) ∧ (t = rows ∨ o ≠ Ret tt ∧ t = table (st w)).
Proof.
  unfold commit, call. destruct w as [s [|[|e|e] fs]]; simpl; intros Hw [= <- <-];
    rewrite ?Hw; simpl; do 2 eexists; (split; [first [reflexivity|by rewrite set_tables_same]|]); auto.
Qed.

(** The result of the statements between BEGIN and the handler. *)
Definition outcome_of (full : Z * list issue_record) (n : nat) (s s' : state)
    (o : outcome (Z * Z)) : Prop :=
  ∃ t wk, s' = set_tables t wk s ∧
    match o with
    | Ret (u, c) => t = full.2 ∧ u = Z.of_nat n ∧ c = full.1
    | Throw _ => t = table s ∨ t = full.2
    end.

Lemma outcome_same full n s s' e : same_outside s s' → outcome_of full n s s' (Throw e).
Proof. intros H. exists (table s), (working s'). by split; [|left]. Qed.

Lemma statements_run owner repo issues (w : world state) o w' :
  (_ ← begin;
   upserted ← for_fold (λ n i, _ ← upsert owner repo i; mret (n + 1)) 0 issues;
   closed ← in_transaction (λ now, close_missing now owner repo (id <$> issues));
   _ ← commit;
   mret (upserted, closed)) w = (o, w') →
  outcome_of (synced (clock (st w)) owner repo issues (table (st w))) (length issues)
    (st w) (st w') o.
Proof.
  intros Hs. apply bind_cases in Hs as [([] & w1 & H1 & Hs)|(e & H1 & ->)];
    destruct (begin_run _ _ _ H1) as [S1 W1]; [|by apply outcome_same].
  specialize (W1 eq_refl).
  apply bind_cases in Hs as [(n & w2 & H2 & Hs)|(e & H2 & ->)];
    destruct (upserts_run _ _ _ _ _ _ _ _ W1 H2) as [S2 W2];
    pose proof (same_outside_trans _ _ _ S1 S2) as S12; [|by apply outcome_same].
  destruct (W2 n eq_refl) as [-> W2'].
  assert (clock (st w1) = clock (st w) ∧ clock (st w2) = clock (st w)) as [C1 C2].
  { split; [rewrite S1|rewrite S12]; by destruct (st w). }
  apply bind_cases in Hs as [(c & w3 & H3 & Hs)|(e & H3 & ->)];
    destruct (in_transaction_run _ _ _ _ _ W2' H3) as [S3 W3];
    pose proof (same_outside_trans _ _ _ S12 S3) as S13; [|by apply outcome_same].
  destruct (W3 c eq_refl) as [-> W3']. rewrite C1, C2 in W3'.
  apply bind_cases in Hs as [([] & w4 & H4 & Hs)|(e & H4 & ->)];
    destruct (commit_run _ _ _ _ W3' H4) as (t & wk & Hst & Ht);
    rewrite S13, set_tables_twice in Hst; exists t, wk.
  - unfold_m. simplify_eq. split; [done|]. destruct Ht as [->|[? _]]; [|done].
    rewrite C1, C2. split_and!; [done|lia|done].
  - split; [done|]. destruct Ht as [->|[_ ->]]; [by right|left].
    rewrite S13. by destruct (st w).
Qed.

End transaction.

(** ** Theorems *)

Section theorems.
Context {N : Type}.
Notation state := (sync_state N).

(** The transaction, whatever fails. *)
Lemma syncIssuesToDb_run owner repo issues (w : world state) o w' :
  working (st w) = None → syncIssuesToDb owner repo issues w = (o, w') →
  let full := synced (clock (st w)) owner repo issues (table (st w)) in
  ∃ t, st w' = set_tables t None (st w) ∧
    match o with
    | Ret (u, c) => t = full.2 ∧ u = Z.of_nat (length issues) ∧ c = full.1
    | Throw _ => t = table (st w) ∨ t = full.2
    end.
Proof.
  intros Hw Hs full. unfold syncIssuesToDb in Hs.
  apply bind_cases in Hs as [([] & w1 & Hc & Hs)|(e & Hc & ->)].
  2:{ exists (table (st w)). unfold call in Hc. destruct w as [s [|[|e1|e1] fs]]; simplify_eq/=;
      (split; [by destruct s; simpl in *; subst|by left]). }
  assert (st w1 = st w) as Hw1.
  { unfold call in Hc. by destruct w as [s [|[|e1|e1] fs]]; simplify_eq/=. }
  clear Hc. unfold with_release in Hs. destruct (try_catch _ _ w1) as [o2 w2] eqn:Et.
  enough (outcome_of full (length issues) (st w) (st w2) o2) as (t & wk & Hst & Ho).
  { unfold release, modify, local in Hs. simplify_eq/=. exists t. split; [|done].
    rewrite Hst. by destruct (st w). }
  subst full. rewrite <- Hw1. clear Hs Hw Hw1 w. apply try_cases in Et as [([u c] & Hb & ->)|(e & w3 & Hb & Hh)];
    destruct (statements_run _ _ _ _ _ _ Hb) as (t & wk & Hst & Ho); [by exists t, wk|].
  apply bind_cases in Hh as [([] & w4 & Hr & Hh)|(e' & Hr & ->)]; unfold_m; simplify_eq;
    unfold rollback, call in Hr; destruct w3 as [s3 [|[|e3|e3] fs]]; simplify_eq/=;
    (exists t, wk; split; [done|exact Ho]) ||
    (exists t, None; rewrite set_tables_twice; split; [by destruct (st w1)|exact Ho]).
Qed.



Variable GITHUB_TOKEN : string.
Variable http : string → list (string * string) → N → (api_response + exn) * N.
Variable SYNC_REPOS : string.

Notation fetchIssuesForRepo := (fetchIssuesForRepo GITHUB_TOKEN http).
Notation fetch_loop := (fetch_loop GITHUB_TOKEN http).
Notation syncRepo := (syncRepo GITHUB_TOKEN http).
Notation sync_attempts := (sync_attempts GITHUB_TOKEN http).

(** The API in state [n] holds [pages] for the repository and answers requests that carry
    [headers] with them. *)
Definition serves (owner repo : string) (headers : list (string * string)) (etag : option string)
    (pages : list (list GitHubIssue)) (n : N) : Prop :=
  ∀ i items, pages !! i = Some items →
    ∃ res, http (issues_url owner repo (Z.of_nat i + 1)) headers n = (inl res, n) ∧
      res_ok res = true ∧ rate_limited res = false ∧ res_issues res = Some items ∧
      next_page res = bool_decide (Datatypes.S i < length pages)%nat ∧
      (i = 0%nat → assoc "etag" (res_headers res) = etag).

Lemma ok_not_304 r : res_ok r = true → (res_status r =? 304) = false.
Proof. unfold res_ok. lia. Qed.

Lemma fetch_loop_pages owner repo cached etag0 pages (s : state) :
  serves owner repo (request_headers GITHUB_TOKEN cached) etag0 pages (net s) →
  ∀ rest i etag all ra,
    rest = drop i pages → rest ≠ [] →
    Forall (λ p, p ≠ []) (take (length rest - 1) rest) →
    (i ≠ 0%nat → etag = etag0) →
    ∃ ra', fetch_loop (length rest) owner repo cached (Z.of_nat i + 1) etag all ra (World s []) =
      (Ret (Some (inr (etag0, all ++ concat rest, ra'))), World s []).
Proof.
  intros Hsrv. induction rest as [|items rest IH]; intros i etag all ra Hrest Hne Hall Het; [done|].
  assert (pages !! i = Some items) as Hi.
  { pose proof (lookup_drop pages i 0) as H0. rewrite <- Hrest in H0.
    cbn in H0. by rewrite Nat.add_0_r in H0. }
  assert (rest = drop (Datatypes.S i) pages) as Hrest'.
  { rewrite <- Nat.add_1_r, <- drop_drop, <- Hrest. done. }
  destruct (Hsrv i items Hi) as (res & Hhttp & Hok & Hrl & Hitems & Hnext & Hetag).
  cbn [fetch_loop length]. erewrite bind_intro.
  2:{ unfold local. cbn [st sched]. rewrite Hhttp. reflexivity. }
  cbn [st sched]. replace (set_net (net s) s) with s by (by destruct s).
  rewrite Hrl, (ok_not_304 _ Hok), Hok, Hitems. cbn [negb].
  assert ((if Z.of_nat i + 1 =? 1 then assoc "etag" (res_headers res) else etag) = etag0) as ->.
  { destruct (decide (i = 0%nat)) as [->|Hi0]; [by apply Hetag|].
    replace (Z.of_nat i + 1 =? 1) with false by lia. by apply Het. }
  destruct rest as [|items2 rest].
  - assert (length pages = Datatypes.S i) as Hlen.
    { apply (f_equal length) in Hrest'. rewrite length_drop in Hrest'. cbn in Hrest'.
      apply lookup_lt_Some in Hi. lia. }
    rewrite Hnext, bool_decide_false by lia. cbn [concat]. rewrite app_nil_r.
    destruct items; eexists; [by rewrite app_nil_r|done].
  - assert (items ≠ []) as Hitne by (by inv Hall).
    rewrite Hnext, bool_decide_true.
    2:{ apply (f_equal length) in Hrest'. rewrite length_drop in Hrest'. cbn in Hrest'. lia. }
    destruct (IH (Datatypes.S i) etag0 (all ++ items) (reset_of res ra)) as (ra' & Hra').
    { done. } { done. }
    { cbn [length] in *. replace (Datatypes.S (Datatypes.S (length rest)) - 1)%nat
        with (Datatypes.S (length rest)) in Hall by lia. cbn in Hall. inv Hall.
      by replace (Datatypes.S (length rest) - 1)%nat with (length rest) by lia. }
    { done. }
    exists ra'. destruct items as [|x items]; [done|].
    replace (Z.of_nat i + 1 + 1) with (Z.of_nat (Datatypes.S i) + 1) by lia.
    rewrite Hra'. cbn [concat]. rewrite <- app_assoc. reflexivity.
Qed.

(** C36: when the repository's pages are served without an error and only the last may be
    empty, as many requests as there are pages return the issues of all of them, in order,
    and the ETag of the first page is remembered for the next run. *)
Theorem fetchIssuesForRepo_all owner repo etag pages (s : state) :
  let key := repo_key owner repo in
  serves owner repo (request_headers GITHUB_TOKEN (etagCache s !! key)) etag pages (net s) →
  pages ≠ [] → Forall (λ p, p ≠ []) (take (length pages - 1) pages) →
  ∃ ra s', fetchIssuesForRepo (length pages) owner repo (World s []) =
    (Ret (Some (Answer 200 etag (concat pages) ra)), World s' []) ∧
    table s' = table s ∧
    (∀ e, etag = Some e → e ≠ "" → etagCache s' = <[key := e]> (etagCache s)).
Proof.
  intros key Hs Hne Hall.
  destruct (fetch_loop_pages owner repo (etagCache s !! key) etag pages s Hs pages 0 None [] None)
    as (ra & Hl); [by rewrite drop_0|done..|].
  unfold RepoSync.fetchIssuesForRepo. erewrite bind_intro by reflexivity.
  cbn [st sched]. erewrite bind_intro by exact Hl. cbn [app].
  destruct etag as [[|c e]|]; eexists ra, _; (split; [reflexivity|]);
    (split; [by destruct s|]); intros e' [= <-]; try done; by destruct s.
Qed.

(** What a fetch leaves alone: everything but the network and the ETags. *)
Definition fetch_frame (s s' : state) : Prop :=
  s' = SyncState (net s') (etagCache s') (table s) (working s) (registered_repos s) (clock s)
         (slept s).

Lemma fetch_loop_frame owner repo cached s0 fuel : ∀ page etag all ra,
  keeps (fetch_frame s0) (fetch_loop fuel owner repo cached page etag all ra).
Proof.
  induction fuel as [|fuel IH]; intros page etag all ra; cbn; [apply keeps_ret|].
  apply keeps_bind.
  { apply keeps_local. intros s1 ->. by destruct (http _ _ _). }
  intros [res|e]; [|apply keeps_throw].
  repeat case_match; first [apply keeps_ret|apply keeps_throw|apply IH].
Qed.

Lemma fetchIssuesForRepo_frame fuel owner repo w o w' :
  fetchIssuesForRepo fuel owner repo w = (o, w') → fetch_frame (st w) (st w').
Proof.
  intros Hf.
  enough (keeps (fetch_frame (st w)) (fetchIssuesForRepo fuel owner repo)) as Hk.
  { apply (Hk _ _ _ Hf). unfold fetch_frame. by destruct (st w). }
  unfold RepoSync.fetchIssuesForRepo. apply keeps_bind; [by apply keeps_local|].
  intros cached. apply keeps_bind; [apply fetch_loop_frame|].
  intros [[f|[[etag issues] ra]]|]; try apply keeps_ret.
  apply keeps_bind; [|intros; apply keeps_ret].
  unfold remember_etag. repeat case_match; try apply keeps_ret.
  apply keeps_local. intros s1 ->. done.
Qed.

(** What one attempt at a repository leaves of the table and of the waits. *)
Definition synced_or_not (owner repo : string) (s s' : state) : Prop :=
  working s' = None ∧
  (table s' = table s ∨
   ∃ now issues, table s' = (synced now owner repo issues (table s)).2).

Lemma waitUntil_run target (w : world state) o w' :
  waitUntil target w = (o, w') →
  table (st w') = table (st w) ∧ working (st w') = working (st w) ∧
  ((slept (st w') = slept (st w) ∧ o ≠ Ret tt) ∨
   ∃ d, slept (st w') = slept (st w) ++ [d] ∧ 5000 ≤ d ∧ o = Ret tt).
Proof.
  unfold waitUntil, throw, modify, local. destruct target as [|t]; [|destruct (valid_time t)];
    intros [= <- <-]; cbn; (split_and!; [done..|]); [by left| |by left].
  right. eexists. split_and!; [done|lia|done].
Qed.

(** At most one wait, and none after the first attempt. *)
Definition waited (attempt : Z) (s s' : state) : Prop :=
  slept s' = slept s ∨ attempt = 1 ∧ ∃ d, slept s' = slept s ++ [d] ∧ 5000 ≤ d.

Lemma sync_attempts_run fuel left : ∀ attempt start owner repo w o w',
  1 ≤ attempt → working (st w) = None →
  sync_attempts fuel left attempt start owner repo w = (o, w') →
  synced_or_not owner repo (st w) (st w') ∧ waited attempt (st w) (st w').
Proof.
  unfold synced_or_not, waited.
  induction left as [|left IH]; intros attempt start owner repo w o w' Ha Hw Hs; cbn in Hs.
  { unfold_m. simplify_eq. auto. }
  apply bind_cases in Hs as [(f & w1 & Hf & Hs)|(e & Hf & ->)];
    pose proof (fetchIssuesForRepo_frame _ _ _ _ _ _ Hf) as Hfr.
  2:{ rewrite Hfr. cbn. auto. }
  assert (working (st w1) = None) as Hw1 by (by rewrite Hfr).
  assert (table (st w1) = table (st w) ∧ slept (st w1) = slept (st w)) as [Ht1 Hl1] by (by rewrite Hfr).
  destruct f as [[status etag issues ra|code [target|]]|];
    try (unfold_m; simplify_eq; by rewrite Ht1, Hl1; auto).
  - destruct (status =? 304); [unfold_m; simplify_eq; cbn; by rewrite Ht1, Hl1; auto|].
    apply bind_cases in Hs as [(r & w2 & Hr & Hs)|(e & Hr & ->)];
      destruct (syncIssuesToDb_run _ _ _ _ _ _ Hw1 Hr) as (t & Hst & Ho); rewrite ?Ht1 in Ho.
    + unfold_m. simplify_eq. cbn. rewrite Hst. cbn. destruct r as [u c], Ho as (-> & _ & _).
      split; [|by left]. split; [done|]. right. by eexists _, issues.
    + rewrite Hst. cbn. split; [|by left]. split; [done|].
      destruct Ho as [->| ->]; [by left|right]. by eexists _, issues.
  - destruct (Z.eqb_spec attempt 1) as [->|Hne]; [|unfold_m; simplify_eq; by rewrite Ht1, Hl1; auto].
    apply bind_cases in Hs as [([] & w2 & Hr & Hs)|(e & Hr & ->)];
      destruct (waitUntil_run _ _ _ _ Hr) as (Ht & Hwk & Hsl).
    + assert (working (st w2) = None) as Hw2 by congruence.
      destruct (IH (1 + 1) start owner repo w2 o w' ltac:(lia) Hw2 Hs) as [[H1 H2] H3].
      rewrite Ht, Ht1 in H2. split; [by split|].
      destruct H3 as [H3|[? _]]; [|lia]. rewrite H3.
      destruct Hsl as [[_ Hc]|(d & Hd & H5 & _)]; [done|]. right. split; [done|].
      exists d. by rewrite Hd, Hl1.
    + rewrite Ht, Ht1, Hwk. split; [auto|]. left.
      destruct Hsl as [[-> _]|(d & _ & _ & Hc)]; done.
Qed.

(** a repository is tried at most twice: whatever the API and the database do, one run
    waits at most once, for at least five seconds, and leaves the table as it was or
    synchronised with one answer of the API; no transaction stays open. *)
Theorem syncRepo_bounded fuel owner repo (w : world state) o w' :
  working (st w) = None → syncRepo fuel owner repo w = (o, w') →
  working (st w') = None ∧
  (table (st w') = table (st w) ∨
   ∃ now issues, table (st w') = (synced now owner repo issues (table (st w))).2) ∧
  (slept (st w') = slept (st w) ∨ ∃ d, slept (st w') = slept (st w) ++ [d] ∧ 5000 ≤ d).
Proof.
  intros Hw Hs. unfold RepoSync.syncRepo in Hs.
  apply bind_cases in Hs as [(start & w1 & Hg & Hs)|(e & Hg & ->)]; [|by unfold_m].
  assert (st w1 = st w) as Hw1 by (unfold_m; by simplify_eq).
  destruct (sync_attempts_run fuel 2 1 start owner repo w1 o w' ltac:(lia) ltac:(by rewrite Hw1) Hs)
    as [[H1 H2] H3].
  rewrite Hw1 in H2, H3. split_and!; [done|done|]. unfold waited in H3. naive_solver.
Qed.

(** The table after a run over some repositories: each of them is synchronised with one
    answer of the API, or skipped. *)
Inductive synced_each : list (string * string) → list issue_record → list issue_record → Prop :=
  | each_nil t : synced_each [] t t
  | each_skip owner repo l t t' :
      synced_each l t t' → synced_each ((owner, repo) :: l) t t'
  | each_sync owner repo l now issues t t' :
      synced_each l (synced now owner repo issues t).2 t' →
      synced_each ((owner, repo) :: l) t t'.

Definition names (o : option SyncResult) (owner repo : string) : Prop :=
  ∀ r, o = Some r → org r = owner ∧ RepoSync.repo r = repo.

Lemma sync_attempts_names fuel left : ∀ attempt start owner repo,
  yields (λ o, names o owner repo) (sync_attempts fuel left attempt start owner repo).
Proof.
  unfold names.
  induction left as [|left IH]; intros attempt start owner repo; cbn; [apply yields_throw|].
  apply yields_bind. intros f.
  repeat (case_match || (apply yields_bind; intros ?));
    first [apply IH|apply yields_throw|apply yields_ret; intros r Hr; by simplify_eq].
Qed.

Lemma run_repos fuel repos : ∀ results (w : world state) o w',
  working (st w) = None →
  for_fold (λ results '(owner, repo),
    r ← try_catch (syncRepo fuel owner repo) (λ _, mret None);
    mret (match r with Some r => results ++ [r] | None => results end)) results repos w = (o, w') →
  ∃ more, o = Ret (results ++ more) ∧
    (λ r, (org r, RepoSync.repo r)) <$> more `sublist_of` repos ∧
    synced_each repos (table (st w)) (table (st w')) ∧ working (st w') = None.
Proof.
  induction repos as [|[owner repo] repos IH]; intros results w o w' Hw Hf; cbn [for_fold] in Hf.
  { unfold_m. simplify_eq. exists []. rewrite app_nil_r. split_and!; [done..|constructor|done]. }
  apply bind_cases in Hf as [(res1 & w1 & H1 & Hf)|(e & H1 & ->)].
  2:{ apply bind_cases in H1 as [(r & w1 & _ & Hr)|(e' & Hr & _)]; [unfold_m; by destruct r|].
      destruct (try_default (syncRepo fuel owner repo) None w) as (a & w1 & Ht).
      rewrite Ht in Hr. done. }
  apply bind_cases in H1 as [(r & w2 & Hr & H1)|(e' & Hr & ?)]; [|done].
  assert (w2 = w1 ∧ res1 = match r with Some r => results ++ [r] | None => results end) as [-> ->]
    by (unfold_m; by simplify_eq). clear H1.
  assert (∃ o2, syncRepo fuel owner repo w = (o2, w1) ∧ (∀ r0, r = Some r0 → o2 = Ret (Some r0)))
    as (o2 & Hs & Ho2).
  { apply try_cases in Hr as [(a & Hr & Ha)|(e & w3 & Hr & Hh)].
    - simplify_eq. eexists. split; [exact Hr|]. by intros r0 ->.
    - unfold_m. simplify_eq. eexists. split; [exact Hr|]. done. }
  assert (names r owner repo) as Hnames.
  { intros r0 Hr0. specialize (Ho2 r0 Hr0). subst o2 r. unfold RepoSync.syncRepo in Hs.
    apply bind_Ret in Hs as (start & w3 & _ & Hs). by eapply sync_attempts_names. }
  unfold RepoSync.syncRepo in Hs.
  apply bind_cases in Hs as [(start & w3 & Hg & Hs)|(e & Hg & _)]; [|by unfold_m].
  assert (st w3 = st w) as Hw3 by (unfold_m; by simplify_eq).
  destruct (sync_attempts_run fuel 2 1 start owner repo w3 o2 w1 ltac:(lia) ltac:(by rewrite Hw3) Hs)
    as [[Hn Htab] _]. rewrite Hw3 in Htab.
  destruct (IH _ _ _ _ Hn Hf) as (more & -> & Hsub & Heach & Hn').
  assert (synced_each ((owner, repo) :: repos) (table (st w)) (table (st w'))) as Heach'.
  { destruct Htab as [He|(now & issues & He)]; rewrite He in Heach;
      [by apply each_skip|by eapply each_sync]. }
  destruct r as [r|].
  - exists (r :: more). destruct (Hnames r eq_refl) as [H3 H4].
    rewrite <- app_assoc. split_and!; [done| |done|done].
    rewrite fmap_cons, H3, H4. by apply sublist_skip.
  - exists more. split_and!; [done| |done|done]. by apply sublist_cons.
Qed.

(** one run over the registered repositories never aborts: after the schema statement it
    always returns, with the results of some of the repositories in their order, and each
    repository was synchronised with one answer of the API or skipped, whatever failed for
    the others. *)
Theorem runFullSync_isolated fuel (w : world state) o w' :
  working (st w) = None → runFullSync GITHUB_TOKEN http SYNC_REPOS fuel w = (o, w') →
  (∃ e, o = Throw e ∧ table (st w') = table (st w)) ∨
  ∃ repos results, o = Ret results ∧
    (λ r, (org r, RepoSync.repo r)) <$> results `sublist_of` repos ∧
    repos ∈ [env_repos SYNC_REPOS; default [] (registered_repos (st w))] ∧
    synced_each repos (table (st w)) (table (st w')).
Proof.
  intros Hw Hr. unfold runFullSync in Hr.
  apply bind_cases in Hr as [([] & w1 & H1 & Hr)|(e & H1 & ->)].
  2:{ left. exists e. split; [done|]. unfold ensureSchema, call in H1.
      by destruct w as [s [|[|e1|e1] fs]]; simplify_eq/=. }
  assert (st w1 = st w) as S1.
  { unfold ensureSchema, call in H1. by destruct w as [s [|[|e1|e1] fs]]; simplify_eq/=. }
  right. apply bind_cases in Hr as [(repos & w2 & H2 & Hr)|(e & H2 & ->)].
  - assert (st w2 = st w1 ∧ repos ∈ [env_repos SYNC_REPOS; default [] (registered_repos (st w1))])
      as [S2 Hrepos].
    { unfold loadRegisteredRepos in H2.
      apply bind_Ret in H2 as (rows & w3 & H3 & H2). unfold_m. simplify_eq.
      unfold try_catch, call in H3. destruct w1 as [s [|[|e1|e1] fs]]; simpl in *;
        destruct (registered_repos s) as [l|]; simplify_eq/=; (split; [done|]);
        first [by left|destruct rows; [by left|by right; left]]. }
    rewrite S1 in *.
    destruct (run_repos fuel repos [] w2 o w' ltac:(by rewrite S2) Hr) as (more & -> & Hsub & Heach & _).
    rewrite S2 in Heach. exists repos, more. split_and!; done.
  - exfalso. unfold loadRegisteredRepos in H2.
    apply bind_cases in H2 as [(rows & w3 & _ & H2)|(e' & H2 & _)]; [by unfold_m|].
    match type of H2 with try_catch ?m _ _ = _ =>
      destruct (try_default m [] w1) as (a & w3 & Ht) end.
    rewrite Ht in H2. done.
Qed.

(** the ETag is remembered before the issues are written: when the write fails, the
    next run is answered 304 as long as the repository does not change, reports the
    repository as skipped, and the issues never reach the table. *)
Theorem failed_write_hidden owner repo e issues (s : state) err res :
  working s = None → e ≠ "" →
  serves owner repo (request_headers GITHUB_TOKEN (etagCache s !! repo_key owner repo)) (Some e)
    [issues] (net s) →
  http (issues_url owner repo 1) (request_headers GITHUB_TOKEN (Some e)) (net s) =
    (inl res, net s) →
  res_status res = 304 →
  ∃ s1 d, syncRepo 1 owner repo (World s [FailBefore err]) = (Throw err, World s1 []) ∧
    table s1 = table s ∧
    syncRepo 1 owner repo (World s1 []) =
      (Ret (Some (mkResult owner repo 0 0 d true)), World s1 []).
Proof.
  intros Hw He Hs Hh Hst. set (key := repo_key owner repo) in *.
  set (s1 := set_etags (<[key := e]> (etagCache s)) s).
  destruct (Hs 0%nat issues eq_refl) as (r0 & Hh0 & Hok & Hrl & Hitems & Hnext & Het).
  assert (∀ fs, ∃ ra, fetchIssuesForRepo 1 owner repo (World s fs) =
    (Ret (Some (Answer 200 (Some e) issues ra)), World s1 fs)) as Hf.
  { intros fs. unfold RepoSync.fetchIssuesForRepo. erewrite bind_intro by reflexivity.
    cbn [st sched]. fold key.
    assert (∃ ra, fetch_loop 1 owner repo (etagCache s !! key) 1 None [] None (World s fs) =
      (Ret (Some (inr (Some e, issues, ra))), World s fs)) as (ra & Hl).
    { cbn [RepoSync.fetch_loop]. erewrite bind_intro.
      2:{ unfold local. cbn [st sched]. change (Z.of_nat 0 + 1) with 1 in Hh0. rewrite Hh0. reflexivity. }
      replace (set_net (net s) s) with s by (by destruct s).
      rewrite Hrl, (ok_not_304 _ Hok), Hok, Hitems, Hnext. cbn.
      rewrite (Het eq_refl). destruct issues; eexists; reflexivity. }
    exists ra. erewrite bind_intro by exact Hl. destruct e as [|c e]; [done|]. reflexivity. }
  exists s1, 0. split_and!.
  - unfold RepoSync.syncRepo. erewrite bind_intro by reflexivity. cbn [RepoSync.sync_attempts].
    destruct (Hf [FailBefore err]) as [ra Hra]. erewrite bind_intro by exact Hra.
    cbv beta iota; change (200 =? 304) with false. cbv beta iota. erewrite bind_throw; [reflexivity|].
    unfold syncIssuesToDb. by erewrite bind_throw by reflexivity.
  - by destruct s.
  - unfold RepoSync.syncRepo. erewrite bind_intro by reflexivity. cbn [RepoSync.sync_attempts].
    assert (net s1 = net s ∧ etagCache s1 = <[key := e]> (etagCache s)) as [Hn Hc] by (by destruct s).
    erewrite (bind_intro (fetchIssuesForRepo 1 owner repo) _ _ (Some (Answer 304 (Some e) [] (reset_of res None))) (World s1 [])).
    + cbn. erewrite bind_intro by reflexivity. unfold mret, M_ret. cbn. by rewrite Z.sub_diag.
    + unfold RepoSync.fetchIssuesForRepo. erewrite bind_intro by reflexivity. cbn [st sched].
      rewrite Hc. unfold key. rewrite lookup_insert_eq. fold key.
      assert (fetch_loop 1 owner repo (Some e) 1 None [] None (World s1 []) =
        (Ret (Some (inl (Answer 304 (Some e) [] (reset_of res None)))), World s1 [])) as Hl.
      { cbn [RepoSync.fetch_loop]. erewrite bind_intro.
        2:{ unfold local. cbn [st sched]. rewrite Hn, Hh. reflexivity. }
        replace (set_net (net s) s1) with s1 by (by destruct s).
        unfold rate_limited. rewrite Hst. reflexivity. }
      erewrite bind_intro by exact Hl. reflexivity.
Qed.

End theorems.

(** *** The configured repositories *)

(** A name that the separators and the trimming leave alone. *)
Definition clean (s : string) : Prop :=
  s ≠ "" ∧ ","%char ∉ lst s ∧ "/"%char ∉ lst s ∧ Forall (λ c, is_ws c = false) (lst s).

(** the value of [SYNC_REPOS] made of clean [owner/repo] pairs is read back as these
    pairs. *)
Theorem env_repos_roundtrip (pairs : list (string * string)) :
  Forall (λ p, clean p.1 ∧ clean p.2) pairs →
  env_repos (join "," ((λ p, p.1 +:+ "/" +:+ p.2) <$> pairs)) = pairs.
Proof.
  intros Hc. unfold env_repos. destruct (decide (pairs = [])) as [->|Hne]; [reflexivity|].
  rewrite split_join; [|by destruct pairs|].
  2:{ rewrite Forall_fmap. eapply Forall_impl; [exact Hc|].
      intros [a b] [(_ & Ha & _) (_ & Hb & _)]. cbn in *. rewrite !lst_app. cbn.
      rewrite elem_of_app, elem_of_cons. naive_solver. }
  induction Hc as [|[a b] pairs [Ha Hb] Hc IH]; [done|]. clear Hne.
  destruct Ha as (Ha0 & Ha1 & Ha2 & Ha3), Hb as (Hb0 & Hb1 & Hb2 & Hb3). cbn [fst snd] in *.
  rewrite !fmap_cons. cbn [fst snd]. rewrite trim_none.
  2:{ rewrite !lst_app. cbn. apply Forall_app. split; [done|]. by constructor. }
  rewrite filter_cons_True by (by destruct a). rewrite fmap_cons.
  assert (pair_of (a +:+ "/" +:+ b) = (a, b)) as ->.
  { unfold pair_of. pose proof (split_join "/" [a; b]) as Hs. cbn [join] in Hs.
    rewrite Hs; [done|done|]. by repeat constructor. }
  rewrite filter_cons_True by done. f_equal.
  destruct pairs as [|p pairs]; [reflexivity|]. by apply IH.
Qed.

(** ** Concrete runs *)

Definition demo_issue (i : Z) : GitHubIssue := mkIssue i i "t" "u" [SYNC_LABEL] None "c" "c".

(** A repository with two pages; requests that carry an ETag are answered 304. *)
Definition demo_http (url : string) (headers : list (string * string)) (u : unit)
    : (api_response + exn) * unit :=
  match assoc "If-None-Match" headers with
  | Some _ => (inl (mkApi 304 [] "" None), u)
  | None =>
      if String.eqb url (issues_url "o" "r" 1)
      then (inl (mkApi 200 [("etag", "W1"); ("link", rel_next)] "" (Some [demo_issue 1; demo_issue 2])), u)
      else if String.eqb url (issues_url "o" "r" 2)
      then (inl (mkApi 200 [] "" (Some [demo_issue 3])), u)
      else if String.eqb url (issues_url "o" "single" 1)
      then (inl (mkApi 200 [("etag", "W2")] "" (Some [demo_issue 4])), u)
      else (inl (mkApi 403 [("x-ratelimit-remaining", "0"); ("x-ratelimit-reset", "60")] "" None), u)
  end.

(** Issue 9 was open and has vanished; issue 7 belongs to another repository. *)
Definition demo_rows : list issue_record :=
  [mkRecord 9 "o" "r" 9 "old" "u" "open" [] None "c" "c" 0;
   mkRecord 7 "x" "y" 7 "other" "u" "open" [] None "c" "c" 0].

Definition demo_sync : sync_state unit :=
  SyncState tt ∅ demo_rows None (Some [("o", "r"); ("o", "blocked"); ("o", "single")]) 0 [].

Example demo_full_sync :
  let '(o, s) := run (runFullSync "" demo_http "" 5) demo_sync in
  o = Ret [mkResult "o" "r" 3 1 0 false; mkResult "o" "single" 1 0 0 false] ∧
  (λ r, (g_id r, g_state r)) <$> table s =
    [(9, "closed"); (7, "open"); (1, "open"); (2, "open"); (3, "open"); (4, "open")] ∧
  slept s = [65000].
Proof. vm_compute. done. Qed.


Lemma demo_unshared : unshared "o" "r" [1; 2; 3] demo_rows.
Proof. intros r Hr Hi. unfold demo_rows in Hr. set_solver. Qed.


Lemma demo_serves :
  serves demo_http "o" "r" (request_headers "" None) (Some "W1")
    [[demo_issue 1; demo_issue 2]; [demo_issue 3]] tt.
Proof.
  intros [|[|i]] items Hi; [..|done]; injection Hi as <-; eexists;
    (split; [vm_compute; reflexivity|]); (split_and!; try (vm_compute; reflexivity); try done).
Qed.

Lemma fetchIssuesForRepo_all_witness :
  ∃ ra s', fetchIssuesForRepo "" demo_http 2 "o" "r" (World demo_sync []) =
    (Ret (Some (Answer 200 (Some "W1") [demo_issue 1; demo_issue 2; demo_issue 3] ra)),
     World s' []).
Proof.
  destruct (fetchIssuesForRepo_all "" demo_http "o" "r" (Some "W1")
    [[demo_issue 1; demo_issue 2]; [demo_issue 3]] demo_sync) as (ra & s' & H & _);
    [exact demo_serves|done|by repeat constructor|].
  exists ra, s'. exact H.
Defined.

Lemma syncRepo_bounded_witness :
  slept (st (syncRepo "" demo_http 5 "o" "blocked" (World demo_sync [])).2) = [] ∨
  ∃ d, slept (st (syncRepo "" demo_http 5 "o" "blocked" (World demo_sync [])).2) = [] ++ [d] ∧
       5000 ≤ d.
Proof.
  apply (syncRepo_bounded "" demo_http 5 "o" "blocked" (World demo_sync [])
    (syncRepo "" demo_http 5 "o" "blocked" (World demo_sync [])).1
    (syncRepo "" demo_http 5 "o" "blocked" (World demo_sync [])).2);
    [reflexivity|by destruct (syncRepo _ _ _ _ _ _)].
Defined.

Lemma runFullSync_isolated_witness :
  let w' := (runFullSync "" demo_http "" 5 (World demo_sync [])).2 in
  (∃ e, (runFullSync "" demo_http "" 5 (World demo_sync [])).1 = Throw e ∧ table (st w') = demo_rows) ∨
  ∃ repos results, (runFullSync "" demo_http "" 5 (World demo_sync [])).1 = Ret results ∧
    (λ r, (org r, RepoSync.repo r)) <$> results `sublist_of` repos ∧
    repos ∈ [env_repos ""; [("o", "r"); ("o", "blocked"); ("o", "single")]] ∧
    synced_each repos demo_rows (table (st w')).
Proof.
  apply (runFullSync_isolated "" demo_http "" 5 (World demo_sync [])); [reflexivity|].
  by destruct (runFullSync _ _ _ _ _).
Defined.

Lemma failed_write_hidden_witness :
  ∃ s1 d, syncRepo "" demo_http 1 "o" "single" (World demo_sync [FailBefore (Error "db down")]) =
            (Throw (Error "db down"), World s1 []) ∧
    table s1 = demo_rows ∧
    syncRepo "" demo_http 1 "o" "single" (World s1 []) =
      (Ret (Some (mkResult "o" "single" 0 0 d true)), World s1 []).
Proof.
  apply (failed_write_hidden "" demo_http "o" "single" "W2" [demo_issue 4] demo_sync
    (Error "db down") (mkApi 304 [] "" None)); try reflexivity; [discriminate|].
  intros [|i] items Hi; [|done]. injection Hi as <-. eexists.
  split; [vm_compute; reflexivity|]. split_and!; try (vm_compute; reflexivity); done.
Defined.

Lemma env_repos_roundtrip_witness :
  env_repos "stellar/js-sdk,acme/api" = [("stellar", "js-sdk"); ("acme", "api")].
Proof.
  apply (env_repos_roundtrip [("stellar", "js-sdk"); ("acme", "api")]).
  repeat constructor; try discriminate; cbn; set_solver.
Defined.
