(* ===== verification/Health.v ===== *)
(** * The health check of the backend service ([backend/src/health.ts])

    Five dependency checks run at the same time, each raced against a timer.  A check is
    given by when its promise settles and how; the handler answers when the last check is
    decided.  Times are in milliseconds from the start of the request. *)

From Stdlib Require Import String.
From S2P Require Import Prelude Js Http.

#[local] Open Scope string_scope.
#[local] Open Scope list_scope.
#[local] Open Scope Z_scope.

Inductive DepStatus := healthy | unhealthy.

#[export] Instance DepStatus_eq_dec : EqDecision DepStatus.
Proof. solve_decision. Defined.

Record DependencyResult := mkDep { name : string; dep_status : DepStatus; latency_ms : Z }.

Inductive OverallStatus := Healthy | Degraded | Unhealthy.

Definition CHECK_TIMEOUT_MS : Z := 2000.

(** A promise: it settles after some time with an outcome, or never. *)
Definition promise (A : Type) : Type := option (Z * outcome A).

Definition then_ {A B} (f : A → B) (p : promise A) : promise B :=
  (λ '(t, o), (t, match o with Ret a => Ret (f a) | Throw e => Throw e end)) <$> p.

Definition timeout_error (name : string) : exn :=
  Error (name +:+ " check timed out after " +:+ pretty CHECK_TIMEOUT_MS +:+ "ms").

(** [Promise.race([fn(), timeoutPromise])]. *)
Definition race {A} (name : string) (p : promise A) : Z * outcome A :=
  match p with
  | Some (t, o) => if t <? CHECK_TIMEOUT_MS then (t, o)
                   else (CHECK_TIMEOUT_MS, Throw (timeout_error name))
  | None => (CHECK_TIMEOUT_MS, Throw (timeout_error name))
  end.

(** The result, the latency and the error. *)
Definition withTimeout {A} (name : string) (p : promise A) : option A * Z * option string :=
  match race name p with
  | (t, Ret a) => (Some a, t, None)
  | (t, Throw err) => (None, t, Some (error_text err))
  end.

(** [result && !error]. *)
Definition check (name : string) (p : promise bool) : DependencyResult :=
  match withTimeout name p with
  | (Some true, t, None) => mkDep name healthy t
  | (Some true, t, Some "") => mkDep name healthy t
  | (_, t, _) => mkDep name unhealthy t
  end.

(** The row count of [SELECT 1], the reply to PING, the latest ledger, and the HTTP status
    of Horizon and of GitHub. *)
Definition checkDatabase (rowCount : promise Z) : DependencyResult :=
  check "postgres" (then_ (λ n, n =? 1) rowCount).
Definition checkRedis (pong : promise string) : DependencyResult :=
  check "redis" (then_ (String.eqb "PONG") pong).
Definition checkSorobanRpc (sequence : promise Z) : DependencyResult :=
  check "soroban_rpc" (then_ (λ n, 0 <? n) sequence).
Definition http_ok (code : Z) : bool := (200 <=? code) && (code <=? 299).
Definition checkHorizon (code : promise Z) : DependencyResult :=
  check "horizon" (then_ http_ok code).
Definition checkGitHub (code : promise Z) : DependencyResult :=
  check "github" (then_ http_ok code).

Definition CRITICAL_DEPS : list string := ["postgres"; "soroban_rpc"].

Definition down (d : DependencyResult) : bool := bool_decide (dep_status d = unhealthy).

Definition critical_down (ds : list DependencyResult) : bool :=
  existsb (λ d, bool_decide (name d ∈ CRITICAL_DEPS) && down d) ds.

Definition overall_status (ds : list DependencyResult) : OverallStatus :=
  if critical_down ds then Unhealthy else if existsb down ds then Degraded else Healthy.

Definition status_text (s : OverallStatus) : string :=
  match s with Healthy => "healthy" | Degraded => "degraded" | Unhealthy => "unhealthy" end.

Definition dependency_json (d : DependencyResult) : json :=
  obj [("name", Some (JStr (name d)));
       ("status", Some (JStr (match dep_status d with healthy => "healthy"
                                                 | unhealthy => "unhealthy" end)));
       ("latency_ms", Some (jint (latency_ms d)))].

(** The answer, and when it is sent: [Promise.all] waits for the slowest check. *)
Definition healthHandler (rowCount : promise Z) (pong : promise string) (sequence : promise Z)
    (horizon github : promise Z) : response * Z :=
  let dependencies := [checkDatabase rowCount; checkRedis pong; checkSorobanRpc sequence;
                       checkHorizon horizon; checkGitHub github] in
  (send_json (if critical_down dependencies then 503 else 200)
     (obj [("status", Some (JStr (status_text (overall_status dependencies))));
           ("dependencies", Some (JArr (dependency_json <$> dependencies)))]),
   foldr Z.max 0 (latency_ms <$> dependencies)).

(** ** What a dependency promises: the expected answer within the timeout *)
Definition answers {A} (good : A → bool) (p : promise A) : bool :=
  match p with
  | Some (t, Ret a) => (t <? CHECK_TIMEOUT_MS) && good a
  | _ => false
  end.

(** ** Lemmas *)

Lemma check_spec {A} n (good : A → bool) p :
  down (check n (then_ good p)) = negb (answers good p) ∧
  name (check n (then_ good p)) = n ∧
  latency_ms (check n (then_ good p)) ≤ CHECK_TIMEOUT_MS.
Proof.
  unfold check, withTimeout, race, then_, answers, CHECK_TIMEOUT_MS.
  destruct p as [[t [a|e]]|]; cbn; [| |done]; destruct (t <? 2000) eqn:Et; cbn.
  - destruct (good a); cbn; split_and!; (done || lia).
  - by split_and!.
  - split_and!; (done || lia).
  - by split_and!.
Qed.

(** ** Theorems *)

(** whatever the dependencies do, answer late, never, wrongly or with an error, the
    health check answers within the timeout of one check, 503 exactly when the database or
    the Soroban node did not give its expected answer in time, and calls itself healthy
    exactly when all five did. *)
Theorem healthHandler_spec rowCount pong sequence horizon github :
  let '(res, elapsed) := healthHandler rowCount pong sequence horizon github in
  let db := answers (λ n, n =? 1) rowCount in
  let rpc := answers (λ n, 0 <? n) sequence in
  let rest := answers (String.eqb "PONG") pong && answers http_ok horizon &&
              answers http_ok github in
  elapsed ≤ CHECK_TIMEOUT_MS ∧
  status res = (if db && rpc then 200 else 503) ∧
  (rbody res ≫= prop "status") =
    Some (JStr (if db && rpc then if rest then "healthy" else "degraded" else "unhealthy")).
Proof.
  unfold healthHandler, overall_status, critical_down.
  unfold checkDatabase, checkRedis, checkSorobanRpc, checkHorizon, checkGitHub.
  destruct (check_spec "postgres" (λ n, n =? 1) rowCount) as (D1 & N1 & L1).
  destruct (check_spec "redis" (String.eqb "PONG") pong) as (D2 & N2 & L2).
  destruct (check_spec "soroban_rpc" (λ n, 0 <? n) sequence) as (D3 & N3 & L3).
  destruct (check_spec "horizon" http_ok horizon) as (D4 & N4 & L4).
  destruct (check_spec "github" http_ok github) as (D5 & N5 & L5).
  set (d1 := check "postgres" _) in *. set (d2 := check "redis" _) in *.
  set (d3 := check "soroban_rpc" _) in *. set (d4 := check "horizon" _) in *.
  set (d5 := check "github" _) in *.
  split; [cbn [fmap list_fmap foldr]; unfold CHECK_TIMEOUT_MS in *; lia|].
  cbn [existsb]. rewrite N1, N2, N3, N4, N5, D1, D2, D3, D4, D5.
  change (bool_decide ("postgres" ∈ CRITICAL_DEPS)) with true.
  change (bool_decide ("redis" ∈ CRITICAL_DEPS)) with false.
  change (bool_decide ("soroban_rpc" ∈ CRITICAL_DEPS)) with true.
  change (bool_decide ("horizon" ∈ CRITICAL_DEPS)) with false.
  change (bool_decide ("github" ∈ CRITICAL_DEPS)) with false.
  by destruct (answers _ rowCount), (answers _ pong), (answers _ sequence),
    (answers _ horizon), (answers _ github).
Qed.

(** Redis and GitHub hang: the service is degraded but answers 200 after two seconds. *)
Example hanging_redis :
  let '(res, elapsed) := healthHandler (Some (3, Ret 1)) None (Some (12, Ret 100))
    (Some (50, Ret 200)) (Some (9000, Ret 200)) in
  status res = 200 ∧ elapsed = 2000.
Proof. vm_compute. done. Qed.
