(* ===== verification/Jobs.v ===== *)
(** * The scheduled jobs of the backend service ([backend/src/scheduler.ts],
    [backend/src/soroban.ts])

    The extension of the applications about to expire: the query, the batches, one
    transaction per batch, and the job that submits them all.  When it starts is in
    [Schedulers]; the GitHub job is [runGitHubSyncJob] of [RepoSync]. *)

From Stdlib Require Import String.
From S2P Require Import Prelude Js Db.

#[local] Open Scope string_scope.
#[local] Open Scope list_scope.
#[local] Open Scope Z_scope.

Record ApplicationRef := mkRef { contributor : string; orgId : string; issueId : Z }.

(** ** [chunk] *)

(** [for (let i = 0; i < arr.length; i += size)], with [fuel] iterations left. *)
Fixpoint chunk_from {A} (fuel : nat) (arr : list A) (size i : nat) : list (list A) :=
  match fuel with
  | O => []
  | Datatypes.S fuel' =>
      if (i <? length arr)%nat
      then take size (drop i arr) :: chunk_from fuel' arr size (i + size)
      else []
  end.

(** A positive size needs at most one iteration per element. *)
Definition chunk {A} (arr : list A) (size : nat) : list (list A) :=
  chunk_from (length arr) arr size 0.

(** ** [extendApplicationTtlBatch] *)

(** What [sendTransaction] and [getTransaction] report. *)
Record sent := mkSent { sent_status : string; sent_hash : string; errorResult : option string }.

(** The RPC node and the SDK: accounts, transactions, simulation results. *)
Class TtlRpc (R : Type) := {
  account : Type;
  tx : Type;
  simulation : Type;
  fromSecret : string → outcome string;      (** the public key *)
  getAccount : string → R → outcome account * R;
  build : account → string → list ApplicationRef → outcome tx;
  simulateTransaction : tx → R → outcome simulation * R;
  simulation_error : simulation → option string;
  assemble : tx → simulation → outcome tx;
  sign : string → tx → tx;
  sendTransaction : tx → R → outcome sent * R;
  getTransaction : string → R → outcome string * R;
}.

(** A row of [active_applications]. *)
Record active_row := mkActive {
  ac_contributor : string;
  ac_org_id : string;
  ac_issue_id : Z;
  ac_status : string;
  ac_ttl_expires_at : Z;
}.

Record job_state (R : Type) := JobState {
  node : R;
  active_applications : option (list active_row);   (** [None]: no such table *)
  slept : list Z;
}.
Arguments JobState {R} node active_applications slept.
Arguments node {R} j.
Arguments active_applications {R} j.
Arguments slept {R} j.

Section Jobs.
Context {R : Type} `{TtlRpc R}.
Variables SOURCE_SECRET CONTRACT_ID : string.

Notation state := (job_state R).

Definition rpc {A} (f : R → outcome A * R) : M state A :=
  call (λ s, let '(o, n) := f (node s) in (o, JobState n (active_applications s) (slept s))).

Definition sleep (ms : Z) : M state unit :=
  modify (λ s, JobState (node s) (active_applications s) (slept s ++ [ms])).

Definition lift {A} (o : outcome A) : M state A :=
  match o with Ret a => mret a | Throw e => throw e end.

Definition MAX_POLLS : nat := 30.

(** [for (i = 0; i < 30 && status === 'NOT_FOUND'; i++)], with [left] iterations left. *)
Fixpoint confirm (hash : string) (left : nat) (status : string) : M state string :=
  match left with
  | O => mret status
  | Datatypes.S left' =>
      if String.eqb status "NOT_FOUND" then
        _ ← sleep 1000;
        status ← rpc (getTransaction hash);
        confirm hash left' status
      else mret status
  end.

Definition extendApplicationTtlBatch (applications : list ApplicationRef) : M state string :=
  if String.eqb SOURCE_SECRET "" then
    throw (Error "SOROBAN_SOURCE_SECRET is not set — cannot submit transactions")
  else if String.eqb CONTRACT_ID "" then throw (Error "CONTRACT_ID is not set")
  else match applications with
  | [] => throw (Error "extendApplicationTtlBatch called with empty batch")
  | _ =>
      publicKey ← lift (fromSecret SOURCE_SECRET);
      sourceAccount ← rpc (getAccount publicKey);
      t ← lift (build sourceAccount CONTRACT_ID applications);
      simResult ← rpc (simulateTransaction t);
      match simulation_error simResult with
      | Some e => throw (Error ("Simulation failed: " +:+ e))
      | None =>
          prepared ← lift (assemble t simResult);
          sendResult ← rpc (sendTransaction (sign SOURCE_SECRET prepared));
          if String.eqb (sent_status sendResult) "ERROR" then
            throw (Error ("Transaction rejected: " +:+
                          default "undefined" (errorResult sendResult)))
          else
            let hash := sent_hash sendResult in
            first ← rpc (getTransaction hash);
            last ← confirm hash MAX_POLLS first;
            if String.eqb last "FAILED"
            then throw (Error ("Transaction " +:+ hash +:+ " failed on-chain"))
            else mret hash
      end
  end.

(** ** [runTtlExtensionJob] *)

Definition APP_TTL_LEDGERS : Z := 17280.
(** One ledger every five seconds. *)
Definition SECONDS_PER_LEDGER : Z := 5.
Definition TTL_EXTEND_THRESHOLD_LEDGERS : Z := APP_TTL_LEDGERS.
Definition BATCH_SIZE : nat := 10.

(** [Math.ceil(TTL_EXTEND_THRESHOLD_LEDGERS / LEDGERS_PER_SECOND)]. *)
Definition windowSeconds : Z := TTL_EXTEND_THRESHOLD_LEDGERS * SECONDS_PER_LEDGER.

Definition expiring (now : Z) (r : active_row) : bool :=
  String.eqb (ac_status r) "pending" && (ac_ttl_expires_at r <=? now + windowSeconds * 1000).

Definition loadExpiringApplications (now : Z) : M state (list ApplicationRef) :=
  rows ← call (λ s, (match active_applications s with
                     | Some l => Ret (order_asc ac_ttl_expires_at
                                        (filter (λ r, expiring now r = true) l))
                     | None => Throw (Error "relation does not exist: active_applications")
                     end, s));
  mret ((λ r, mkRef (ac_contributor r) (ac_org_id r) (ac_issue_id r)) <$> rows).

(** The loop over the batches: how many applications were extended and how many failed. *)
Definition run_batches (extend : list ApplicationRef → M state string)
    (batches : list (list ApplicationRef)) : M state (Z * Z) :=
  for_fold (λ '(extendedCount, failedCount) batch,
    ok ← try_catch (_ ← extend batch; mret true) (λ _, mret false);
    mret (if (ok : bool) then (extendedCount + Z.of_nat (length batch), failedCount)
          else (extendedCount, failedCount + Z.of_nat (length batch)))) (0, 0) batches.

(** [None]: the applications could not be loaded, or there was none. *)
Definition runTtlExtensionJob (now : Z) : M state (option (Z * Z)) :=
  loaded ← try_catch (l ← loadExpiringApplications now; mret (Some l)) (λ _, mret None);
  match loaded with
  | None | Some [] => mret None
  | Some applications =>
      r ← run_batches extendApplicationTtlBatch (chunk applications BATCH_SIZE); mret (Some r)
  end.

End Jobs.

(** ** Lemmas *)

Section chunk.
Context {A : Type}.

(** Enough fuel gives all the chunks. *)
Lemma chunk_from_spec (size : nat) (arr : list A) : (0 < size)%nat → ∀ fuel i,
  (length arr - i ≤ fuel)%nat →
  concat (chunk_from fuel arr size i) = drop i arr ∧
  Forall (λ c, 1 ≤ length c ≤ size)%nat (chunk_from fuel arr size i) ∧
  Forall (λ c, length c = size)%nat
    (take (length (chunk_from fuel arr size i) - 1) (chunk_from fuel arr size i)).
Proof.
  intros Hs. induction fuel as [|fuel IH]; intros i Hf; cbn [chunk_from].
  - rewrite drop_ge by lia. split_and!; [done|constructor|constructor].
  - destruct (Nat.ltb_spec i (length arr)) as [Hi|Hi].
    2:{ rewrite drop_ge by lia. split_and!; [done|constructor|constructor]. }
    destruct (IH (i + size)%nat ltac:(lia)) as (H1 & H2 & H3). split_and!.
    + cbn [concat]. rewrite H1, <- drop_drop. apply take_drop.
    + constructor; [|done]. rewrite length_take, length_drop. lia.
    + cbn [length]. destruct (chunk_from fuel arr size (i + size)) as [|c cs] eqn:E; [constructor|].
      cbn [length] in *. rewrite Nat.sub_succ, Nat.sub_0_r in *. cbn. constructor; [|done].
      rewrite length_take, length_drop.
      destruct fuel as [|fuel]; [done|]. cbn [chunk_from] in E.
      destruct (Nat.ltb_spec (i + size) (length arr)); [lia|done].
Qed.

End chunk.

Section theorems.
Context {R : Type} `{TtlRpc R}.
Variables SOURCE_SECRET CONTRACT_ID : string.
Notation state := (job_state R).

(** the batches are the applications cut into pieces: together they are the list, in
    order and each element once; every batch has between one and [size] elements, and all
    but the last have exactly [size]. *)
Theorem chunk_partition {A} (arr : list A) (size : nat) : (0 < size)%nat →
  concat (chunk arr size) = arr ∧
  Forall (λ c, 1 ≤ length c ≤ size)%nat (chunk arr size) ∧
  Forall (λ c, length c = size) (take (length (chunk arr size) - 1) (chunk arr size)).
Proof. intros Hs. apply (chunk_from_spec size arr Hs (length arr) 0). lia. Qed.

(** The batches were all submitted, one after the other, with these successes. *)
Inductive submitted (extend : list ApplicationRef → M state string) :
    list (list ApplicationRef) → world state → list bool → world state → Prop :=
  | submitted_nil w : submitted extend [] w [] w
  | submitted_cons b bs w o w1 oks w2 :
      extend b w = (o, w1) → submitted extend bs w1 oks w2 →
      submitted extend (b :: bs) w (is_ret o :: oks) w2.

(** The number of elements of the batches that succeeded, or failed. *)
Definition count_of (want : bool) (bs : list (list ApplicationRef)) (oks : list bool) : Z :=
  Z.of_nat (length (concat (fst <$> filter (λ p : _ * bool, p.2 = want) (zip bs oks)))).

Lemma count_cons want b bs ok oks :
  count_of want (b :: bs) (ok :: oks) =
  (if eqb ok want then Z.of_nat (length b) else 0) + count_of want bs oks.
Proof.
  unfold count_of. cbn [zip zip_with]. rewrite filter_cons.
  case_decide as Hd; cbn [snd] in Hd.
  - subst. rewrite eqb_reflx, fmap_cons. cbn [concat fst]. rewrite length_app. lia.
  - destruct ok, want; done || lia.
Qed.

Lemma run_batches_run extend bs : ∀ acc (w : world state),
  ∃ oks w', for_fold (λ '(extendedCount, failedCount) batch,
      ok ← try_catch (_ ← extend batch; mret true) (λ _, mret false);
      mret (if (ok : bool) then (extendedCount + Z.of_nat (length batch), failedCount)
            else (extendedCount, failedCount + Z.of_nat (length batch)))) acc bs w =
    (Ret (acc.1 + count_of true bs oks, acc.2 + count_of false bs oks), w') ∧
    submitted extend bs w oks w'.
Proof.
  induction bs as [|b bs IH]; intros [x y] w; cbn [for_fold].
  - exists [], w. split; [|constructor]. unfold count_of, mret, M_ret. cbn. by rewrite !Z.add_0_r.
  - destruct (extend b w) as [o w1] eqn:E.
    destruct (IH (if is_ret o then (x + Z.of_nat (length b), y)
                  else (x, y + Z.of_nat (length b))) w1) as (oks & w' & Hf & Hsub).
    exists (is_ret o :: oks), w'. split; [|by econstructor].
    erewrite bind_intro.
    + rewrite Hf, !count_cons. destruct o; cbn; by rewrite ?Z.add_0_l, ?Z.add_assoc.
    + erewrite bind_intro; [reflexivity|]. unfold_m. rewrite E. by destruct o.
Qed.

Lemma submitted_counts extend bs w oks w' :
  submitted extend bs w oks w' →
  count_of true bs oks + count_of false bs oks = Z.of_nat (length (concat bs)).
Proof.
  induction 1 as [w|b bs w o w1 oks w2 Hb Hs IH]; [done|].
  rewrite !count_cons. cbn [concat]. rewrite length_app. destruct (is_ret o); cbn; lia.
Qed.

(** the job never throws; once the expiring applications are loaded, every one of their
    batches is submitted, in order, whatever happens to the batches before it, and the two
    counts reported are those of the batches that succeeded and of the others and add up to
    the number of applications. *)
Theorem ttl_job_complete now (w : world state) :
  (∃ r w', runTtlExtensionJob SOURCE_SECRET CONTRACT_ID now w = (Ret r, w')) ∧
  ∀ apps w1, loadExpiringApplications now w = (Ret apps, w1) → apps ≠ [] →
    ∃ extended failed oks w',
      runTtlExtensionJob SOURCE_SECRET CONTRACT_ID now w = (Ret (Some (extended, failed)), w') ∧
      submitted (extendApplicationTtlBatch SOURCE_SECRET CONTRACT_ID)
        (chunk apps BATCH_SIZE) w1 oks w' ∧
      extended = count_of true (chunk apps BATCH_SIZE) oks ∧
      extended + failed = Z.of_nat (length apps).
Proof.
  assert (∀ apps w1, ∃ oks w',
    run_batches (extendApplicationTtlBatch SOURCE_SECRET CONTRACT_ID) (chunk apps BATCH_SIZE) w1 =
      (Ret (count_of true (chunk apps BATCH_SIZE) oks, count_of false (chunk apps BATCH_SIZE) oks), w') ∧
    submitted (extendApplicationTtlBatch SOURCE_SECRET CONTRACT_ID) (chunk apps BATCH_SIZE) w1 oks w')
    as Hrun.
  { intros apps w1. destruct (run_batches_run (extendApplicationTtlBatch SOURCE_SECRET CONTRACT_ID)
      (chunk apps BATCH_SIZE) (0, 0) w1) as (oks & w' & H1 & H2). by exists oks, w'. }
  unfold runTtlExtensionJob. split.
  - match goal with |- context [try_catch ?m _] => destruct (try_default m None w) as (l & w1 & Hl) end.
    erewrite bind_intro by exact Hl. destruct l as [[|a l]|]; [by do 2 eexists| |by do 2 eexists].
    destruct (Hrun (a :: l) w1) as (oks & w' & H1 & _). erewrite bind_intro by exact H1. by do 2 eexists.
  - intros apps w1 Hl Hne. destruct (Hrun apps w1) as (oks & w' & H1 & H2).
    do 2 eexists. exists oks, w'. split_and!; [|exact H2|reflexivity|].
    + erewrite bind_intro by (apply try_Ret; by erewrite bind_intro by exact Hl).
      destruct apps as [|a apps]; [done|]. by erewrite bind_intro by exact H1.
    + rewrite (submitted_counts _ _ _ _ _ H2).
      do 2 f_equal. apply (chunk_from_spec BATCH_SIZE); unfold BATCH_SIZE; lia.
Qed.

(** What a call to the node leaves alone. *)
Lemma rpc_run {A} (f : R → outcome A * R) (w : world state) o w' :
  rpc f w = (o, w') →
  slept (st w') = slept (st w) ∧ ∀ a, o = Ret a → ∃ n, (f n).1 = Ret a.
Proof.
  unfold rpc, call. destruct w as [s [|[|e|e] fs]]; cbn; intros Hr;
    [destruct (f (node s)) as [o1 n1] eqn:E; simplify_eq/=; (split; [done|]);
     intros a ->; exists (node s); by rewrite E..| |];
    [simplify_eq/=; by split|destruct (f (node s)); simplify_eq/=; by split].
Qed.

Lemma lift_run {A} (o1 : outcome A) (w : world state) o w' : lift o1 w = (o, w') → w' = w.
Proof. by destruct o1; intros [= <- <-]. Qed.

Lemma confirm_run hash left : ∀ status (w : world state) o w',
  confirm hash left status w = (o, w') →
  ∃ k, (k ≤ left)%nat ∧ slept (st w') = slept (st w) ++ replicate k 1000 ∧
    ∀ last, o = Ret last → (last = "NOT_FOUND" → k = left) ∧
      (last = status ∨ ∃ n, (getTransaction hash n).1 = Ret last).
Proof.
  induction left as [|left IH]; intros status w o w' Hc; cbn in Hc.
  { unfold_m. simplify_eq. exists 0%nat. rewrite app_nil_r. split_and!; [lia|done|].
    intros last [= <-]. auto. }
  destruct (String.eqb_spec status "NOT_FOUND") as [->|Hne].
  2:{ unfold_m. simplify_eq. exists 0%nat. rewrite app_nil_r. split_and!; [lia|done|].
      intros last [= <-]. split; [done|by left]. }
  apply bind_cases in Hc as [([] & w1 & Hs & Hc)|(e & Hs & ->)]; [|by unfold sleep in Hs; unfold_m].
  assert (slept (st w1) = slept (st w) ++ [1000]) as Hs1 by (unfold sleep in Hs; unfold_m; by simplify_eq).
  apply bind_cases in Hc as [(st1 & w2 & Hr & Hc)|(e & Hr & ->)];
    destruct (rpc_run _ _ _ _ Hr) as [Hs2 Hn].
  - destruct (IH _ _ _ _ Hc) as (k & Hk & Hsl & Hl). exists (Datatypes.S k).
    rewrite Hsl, Hs2, Hs1, <- app_assoc. split_and!; [lia|done|]. intros last Hlast.
    destruct (Hl last Hlast) as [H1 H2]. split; [by intros ->%H1|].
    destruct H2 as [->|H2]; [right; by apply Hn|by right].
  - exists 1%nat. rewrite Hs2, Hs1. split_and!; [lia|done|done].
Qed.

(** a batch polls for its confirmation at most thirty times, one second apart; it
    reports a hash only for a transaction the node did not reject when it was sent and that
    was not reported as failed, but a transaction still unknown after the thirtieth poll
    counts as extended. *)
Theorem extend_batch_bounded apps (w : world state) o w' :
  extendApplicationTtlBatch SOURCE_SECRET CONTRACT_ID apps w = (o, w') →
  ∃ k, (k ≤ 30)%nat ∧ slept (st w') = slept (st w) ++ replicate k 1000 ∧
    ∀ hash, o = Ret hash →
      ∃ t n reply last n', (sendTransaction t n).1 = Ret reply ∧ sent_status reply ≠ "ERROR" ∧
        hash = sent_hash reply ∧ (getTransaction hash n').1 = Ret last ∧ last ≠ "FAILED" ∧
        (last = "NOT_FOUND" → k = 30%nat).
Proof.
  intros He. unfold extendApplicationTtlBatch in He.
  assert (∀ w2, slept (st w2) = slept (st w) → ∀ e, o = Throw e → w' = w2 →
    ∃ k, (k ≤ 30)%nat ∧ slept (st w') = slept (st w) ++ replicate k 1000 ∧
      ∀ hash, o = Ret hash → ∃ t n reply last n', (sendTransaction t n).1 = Ret reply ∧
        sent_status reply ≠ "ERROR" ∧ hash = sent_hash reply ∧
        (getTransaction hash n').1 = Ret last ∧ last ≠ "FAILED" ∧
        (last = "NOT_FOUND" → k = 30%nat)) as Hstop.
  { intros w2 Hs e -> ->. exists 0%nat. rewrite app_nil_r. split_and!; [lia|done|done]. }
  destruct (String.eqb SOURCE_SECRET ""); [unfold_m; simplify_eq; by eapply Hstop|].
  destruct (String.eqb CONTRACT_ID ""); [unfold_m; simplify_eq; by eapply Hstop|].
  destruct apps as [|a apps]; [unfold_m; simplify_eq; by eapply Hstop|].
  apply bind_cases in He as [(pk & w1 & H1 & He)|(e & H1 & ->)];
    apply lift_run in H1 as ->; [|by eapply Hstop].
  apply bind_cases in He as [(acc & w2 & H2 & He)|(e & H2 & ->)];
    destruct (rpc_run _ _ _ _ H2) as [S2 _]; [|by eapply Hstop].
  apply bind_cases in He as [(t & w3 & H3 & He)|(e & H3 & ->)];
    apply lift_run in H3 as ->; [|by eapply Hstop].
  apply bind_cases in He as [(sim & w4 & H4 & He)|(e & H4 & ->)];
    destruct (rpc_run _ _ _ _ H4) as [S4 _]; rewrite S2 in S4; [|by eapply Hstop].
  destruct (simulation_error sim); [unfold_m; simplify_eq; by eapply Hstop|].
  apply bind_cases in He as [(prep & w5 & H5 & He)|(e & H5 & ->)];
    apply lift_run in H5 as ->; [|by eapply Hstop].
  apply bind_cases in He as [(reply & w6 & H6 & He)|(e & H6 & ->)];
    destruct (rpc_run _ _ _ _ H6) as [S6 N6]; rewrite S4 in S6; [|by eapply Hstop].
  destruct (String.eqb_spec (sent_status reply) "ERROR") as [|Hsent];
    [unfold_m; simplify_eq; by eapply Hstop|].
  apply bind_cases in He as [(first & w7 & H7 & He)|(e & H7 & ->)];
    destruct (rpc_run _ _ _ _ H7) as [S7 N7]; rewrite S6 in S7; [|by eapply Hstop].
  apply bind_cases in He as [(last & w8 & H8 & He)|(e & H8 & ->)];
    destruct (confirm_run _ _ _ _ _ _ H8) as (k & Hk & S8 & L8); rewrite S7 in S8.
  2:{ exists k. by split_and!. }
  assert (w' = w8) as -> by (destruct (String.eqb last "FAILED"); unfold_m; by simplify_eq).
  exists k. split_and!; [done|done|]. intros hash ->.
  destruct (String.eqb_spec last "FAILED") as [|Hlast]; [done|]. unfold_m. simplify_eq.
  destruct (N6 reply eq_refl) as [n6 Hn6], (L8 last eq_refl) as [Hnf Hgot].
  destruct Hgot as [->|[n' Hn']].
  - destruct (N7 first eq_refl) as [n7 Hn7]. by exists (sign SOURCE_SECRET prep), n6, reply, first, n7.
  - by exists (sign SOURCE_SECRET prep), n6, reply, last, n'.
Qed.

End theorems.

(** ** Concrete runs *)

(** A node that accepts every transaction and never confirms it; it rejects the accounts
    of a transaction for the contributor "bad". *)
#[export] Instance silent_node : TtlRpc unit := {|
  account := unit;
  tx := list ApplicationRef;
  simulation := unit;
  fromSecret s := Ret s;
  getAccount _ u := (Ret tt, u);
  build _ _ l := Ret l;
  simulateTransaction _ u := (Ret tt, u);
  simulation_error _ := None;
  assemble t _ := Ret t;
  sign _ t := t;
  sendTransaction t u :=
    (Ret (mkSent (if existsb (λ r, String.eqb (contributor r) "bad") t then "ERROR" else "PENDING")
            "h" None), u);
  getTransaction _ u := (Ret "NOT_FOUND", u);
|}.

Definition demo_active : list active_row :=
  ((λ n, mkActive (if (n =? 3)%nat then "bad" else "c") "o" (Z.of_nat n) "pending" (Z.of_nat n))
     <$> seq 0 12) ++ [mkActive "late" "o" 99 "pending" 86400002].

Definition demo_jobs : job_state unit := JobState tt (Some demo_active) [].

(** Thirteen applications, one of which expires later: the first batch is rejected, the
    second is sent. *)
Example demo_job :
  (runTtlExtensionJob "S" "C" 1 (World demo_jobs [])).1 = Ret (Some (2, 10)).
Proof. vm_compute. reflexivity. Qed.

Lemma chunk_partition_witness :
  concat (chunk [1; 2; 3; 4; 5] 2) = [1; 2; 3; 4; 5] ∧ chunk [1; 2; 3; 4; 5] 2 = [[1; 2]; [3; 4]; [5]].
Proof. split; [apply (chunk_partition [1; 2; 3; 4; 5] 2); lia|reflexivity]. Defined.

Lemma ttl_job_complete_witness :
  ∃ extended failed oks w',
    runTtlExtensionJob "S" "C" 1 (World demo_jobs []) = (Ret (Some (extended, failed)), w') ∧
    submitted (extendApplicationTtlBatch "S" "C")
      (chunk ((λ r, mkRef (ac_contributor r) (ac_org_id r) (ac_issue_id r)) <$> take 12 demo_active)
         BATCH_SIZE) (World demo_jobs []) oks w' ∧
    extended + failed = 12.
Proof.
  destruct (proj2 (ttl_job_complete "S" "C" 1 (World demo_jobs []))
    ((λ r, mkRef (ac_contributor r) (ac_org_id r) (ac_issue_id r)) <$> take 12 demo_active)
    (World demo_jobs [])) as (e & f & oks & w' & H1 & H2 & _ & H3);
    [vm_compute; reflexivity|discriminate|].
  exists e, f, oks, w'. split; [exact H1|]. split; [exact H2|exact H3].
Defined.

Lemma extend_batch_bounded_witness :
  ∃ k, (k ≤ 30)%nat ∧
    slept (st (extendApplicationTtlBatch "S" "C" [mkRef "c" "o" 1] (World demo_jobs [])).2) =
    [] ++ replicate k 1000.
Proof.
  destruct (extend_batch_bounded "S" "C" [mkRef "c" "o" 1] (World demo_jobs [])
    (extendApplicationTtlBatch "S" "C" [mkRef "c" "o" 1] (World demo_jobs [])).1
    (extendApplicationTtlBatch "S" "C" [mkRef "c" "o" 1] (World demo_jobs [])).2)
    as (k & H1 & H2 & _); [vm_compute; reflexivity|].
  exists k. split; [exact H1|exact H2].
Defined.
