(* ===== verification/Schedulers.v ===== *)
(** * Scheduled jobs and the end of the backend process ([backend/src/scheduler.ts],
    [backend/src/app.ts])

    Which job is started when: both at boot, then by cron, until the process is told to stop.  What a
    job does is [runTtlExtensionJob] of [Jobs] and [runGitHubSyncJob] of [RepoSync]; a job is not
    waited for, so that a signal stops the timers and not what runs. *)

From Stdlib Require Import String.
From S2P Require Import Prelude.

#[local] Open Scope string_scope.
#[local] Open Scope list_scope.
#[local] Open Scope Z_scope.

Inductive job := TtlExtension | GitHubSync.
#[export] Instance job_eq_dec : EqDecision job.
Proof. solve_decision. Defined.

(** A task of node-cron: its expression, what its callback starts, and whether it was stopped. *)
Record task := mkTask { expression : string; starts : job; stopped : bool }.

Definition TTL_SCHEDULE : string := "0 */6 * * *".
Definition SYNC_SCHEDULE : string := "0,15,30,45 * * * *".

(** The minutes, counted from an epoch at midnight UTC, at which an expression fires. *)
Class Cron := {
  fires : string → Z → bool;
  fires_ttl m : fires TTL_SCHEDULE m = (m mod 360 =? 0);
  fires_sync m : fires SYNC_SCHEDULE m = (m mod 15 =? 0);
}.

(** The process: its tasks, the jobs started so far, each with its time, whether the server takes
    requests, the time of the forced exit, and the exit code. *)
Record process := mkProcess {
  tasks : list task; log : list (Z * job); listening : bool; forced_at : option Z; exited : option Z }.

Inductive event :=
  | Minute (m : Z)          (** the clock reaches minute [m] *)
  | Signal (at_ : Z)        (** SIGTERM or SIGINT, at a time in milliseconds *)
  | Closed                  (** the last connection of the closed server has ended *)
  | Clock (now : Z).        (** timers up to [now] fire *)

Section process.
Context `{Cron}.

(** [startScheduler]. *)
Definition startScheduler (m : Z) : list (Z * job) * list task :=
  ([(m, TtlExtension); (m, GitHubSync)],
   [mkTask TTL_SCHEDULE TtlExtension false; mkTask SYNC_SCHEDULE GitHubSync false]).

Definition boot (m : Z) : process :=
  let '(l, ts) := startScheduler m in mkProcess ts l true None None.

(** [handle.stop()]. *)
Definition stop (ts : list task) : list task := (λ t, mkTask (expression t) (starts t) true) <$> ts.

Definition due (m : Z) (ts : list task) : list (Z * job) :=
  (λ t, (m, starts t)) <$> filter (λ t, negb (stopped t) && fires (expression t) m = true) ts.

(** [shutdown]; a second signal sets another timer, the first of which ends the process. *)
Definition shutdown (now : Z) (p : process) : process :=
  mkProcess (stop (tasks p)) (log p) false
    (Some (match forced_at p with Some t => Z.min t (now + 10000) | None => now + 10000 end)) (exited p).

Definition exit (code : Z) (p : process) : process := mkProcess (tasks p) (log p) false (forced_at p) (Some code).

Definition step (p : process) (e : event) : process :=
  match exited p with
  | Some _ => p
  | None =>
      match e with
      | Minute m => mkProcess (tasks p) (log p ++ due m (tasks p)) (listening p) (forced_at p) None
      | Signal now => shutdown now p
      | Closed => if listening p then p else exit 0 p
      | Clock now => match forced_at p with Some t => if t <=? now then exit 1 p else p | None => p end
      end
  end.
Definition after (p : process) (es : list event) : process := fold_left step es p.

(** [n] minutes from [m] on. *)
Definition minutes (m : Z) (n : nat) : list event := (λ i, Minute (m + Z.of_nat i)) <$> seq 0 n.

Lemma due_running m ts : ts = (boot 0).(tasks) →
  due m ts = (if m mod 360 =? 0 then [(m, TtlExtension)] else []) ++ (if m mod 15 =? 0 then [(m, GitHubSync)] else []).
Proof.
  intros ->. unfold due, boot, startScheduler. cbn [tasks]. rewrite !filter_cons, filter_nil. cbn [stopped negb andb expression].
  rewrite fires_ttl, fires_sync. by destruct (m mod 360 =? 0), (m mod 15 =? 0).
Qed.

Lemma after_minutes m n : ∀ p, exited p = None → tasks p = (boot 0).(tasks) →
  after p (minutes m n) = mkProcess (tasks p) (log p ++ (seq 0 n ≫= λ i, due (m + Z.of_nat i) (tasks p))) (listening p) (forced_at p) None.
Proof.
  induction n as [|n IH]; intros p Hp Ht.
  - cbn. rewrite app_nil_r. destruct p. cbn in *. by subst.
  - unfold minutes. rewrite seq_S, fmap_app. unfold after. rewrite fold_left_app. fold (minutes m n). fold (after p (minutes m n)).
    rewrite IH by done. cbn [fmap list_fmap fold_left step exited tasks log listening forced_at]. rewrite bind_app.
    cbn. by rewrite app_nil_r, app_assoc.
Qed.

(** Both jobs start at boot; then, as long as no signal comes, the extension of TTLs starts in
    exactly the minutes that are multiples of six hours and the synchronisation in the multiples of
    a quarter of an hour. *)
Theorem jobs_started m0 m n x :
  x ∈ log (after (boot m0) (minutes m n)) ↔
  x = (m0, TtlExtension) ∨ x = (m0, GitHubSync) ∨
  ∃ i, (i < n)%nat ∧ let k := m + Z.of_nat i in
    (x = (k, TtlExtension) ∧ k mod 360 = 0 ∨ x = (k, GitHubSync) ∧ k mod 15 = 0).
Proof.
  rewrite after_minutes by done. cbn [log boot startScheduler tasks]. rewrite !elem_of_app, !elem_of_cons, list_elem_of_bind, elem_of_nil.
  assert (∀ k, x ∈ due k (tasks (boot 0)) ↔ x = (k, TtlExtension) ∧ k mod 360 = 0 ∨ x = (k, GitHubSync) ∧ k mod 15 = 0) as Hdue.
  { intros k. rewrite due_running by done. rewrite elem_of_app.
    destruct (Z.eqb_spec (k mod 360) 0), (Z.eqb_spec (k mod 15) 0); set_solver. }
  setoid_rewrite elem_of_seq. split.
  - intros [[?|[?|?]]|(i & Hx & Hi)]; [by left|by right; left|done|]. right. right. exists i. split; [lia|]. by apply Hdue.
  - intros [?|[?|(i & Hi & Hx)]]; [by left; left|by left; right; left|]. right. exists i. split; [by apply Hdue|lia].
Qed.

(** What a signal leaves: no timer, and a forced exit at the latest after ten seconds. *)
Definition stopping (t : Z) (p : process) : Prop :=
  exited p = None → Forall (λ t, stopped t = true) (tasks p) ∧ ∃ f, forced_at p = Some f ∧ f ≤ t + 10000.

Lemma due_stopped m ts : Forall (λ t, stopped t = true) ts → due m ts = [].
Proof.
  intros Hts. unfold due. induction Hts as [|t ts Ht _ IH]; [done|]. rewrite filter_cons, Ht. cbn. done.
Qed.

Lemma stopping_step t p e : stopping t p → stopping t (step p e) ∧ log (step p e) = log p.
Proof.
  intros Hp. unfold step. destruct (exited p) eqn:He; [done|]. destruct (Hp He) as (Hts & f & Hf & Hle).
  destruct e as [m|now| |now]; cbn.
  - rewrite due_stopped, app_nil_r by done. split; [|done]. intros _. cbn. eauto.
  - split; [|done]. intros _. cbn. split; [apply Forall_fmap, Forall_true; done|]. rewrite Hf. eexists. split; [done|]. lia.
  - case_match; [done|]. split; [|done]. done.
  - rewrite Hf. case_match; [|done]. split; [|done]. done.
Qed.

Lemma stopping_after t es : ∀ p, stopping t p → stopping t (after p es) ∧ log (after p es) = log p.
Proof.
  induction es as [|e es IH]; intros p Hp; [done|]. destruct (stopping_step t p e Hp) as [H1 H2].
  destruct (IH _ H1) as [H3 H4]. split; [exact H3|]. unfold after in *. cbn. by rewrite H4.
Qed.

(** After a signal no job is started, whatever comes, and the process has ended when ten seconds
    are over. *)
Theorem signal_ends_process p t es now :
  exited p = None → t + 10000 ≤ now →
  log (after p (Signal t :: es)) = log p ∧ is_Some (exited (after p (Signal t :: es ++ [Clock now]))).
Proof.
  intros Hp Hnow. assert (stopping t (step p (Signal t))) as Hs.
  { intros _. unfold step. rewrite Hp. cbn. split; [apply Forall_fmap, Forall_true; done|]. eexists. split; [done|]. case_match; lia. }
  assert (log (step p (Signal t)) = log p) as Hl by (unfold step; by rewrite Hp).
  change (after p (Signal t :: ?l)) with (after (step p (Signal t)) l). destruct (stopping_after t es _ Hs) as [H1 H2].
  split; [by rewrite H2|]. unfold after. rewrite fold_left_app. fold (after (step p (Signal t)) es). cbn [fold_left].
  set (q := after (step p (Signal t)) es) in *. unfold step. destruct (exited q) as [c|] eqn:He; [rewrite He; eauto|].
  destruct (H1 He) as (_ & f & Hf & Hle). rewrite Hf, (proj2 (Z.leb_le _ _)) by lia. cbn. eauto.
Qed.

End process.

#[export, program] Instance demo_cron : Cron := {|
  fires e m := if String.eqb e TTL_SCHEDULE then m mod 360 =? 0 else m mod 15 =? 0
|}.
Solve Obligations with done.

Lemma signal_ends_process_witness :
  let p := after (boot 1) (minutes 2 20) in
  log (after p [Signal 500; Minute 30; Clock 10000]) = [(1, TtlExtension); (1, GitHubSync); (15, GitHubSync)] /\
  is_Some (exited (after p (Signal 500 :: [Minute 30] ++ [Clock 10500]))).
Proof.
  intros p. split.
  - destruct (signal_ends_process p 500 [Minute 30; Clock 10000] 20000) as [H _]; [reflexivity|lia|].
    etransitivity; [exact H|reflexivity].
  - apply (signal_ends_process p 500 [Minute 30] 10500); [reflexivity|lia].
Defined.
