(* ===== verification/Cancellations.v ===== *)
(** * The audit service ([src/services/auditService.ts])

    The paginated cancellation records and their statistics, over the rows of
    [cancellation_audit].  Page and page size are integers; the server refuses a negative
    LIMIT or OFFSET. *)

From Stdlib Require Import String Sorting.Sorted.
From S2P Require Import Prelude Js Http Decimal Paging Db.

#[local] Open Scope string_scope.
#[local] Open Scope list_scope.
#[local] Open Scope Z_scope.

Record audit_row := mkAudit {
  au_event_type : string;
  au_actor : string;
  au_contributor : string;
  au_org_id : string;
  au_issue_id : Z;
  au_reason : option string;
  au_timestamp : Z;
  au_tx_hash : option string;
}.

#[export] Instance audit_row_eq_dec : EqDecision audit_row.
Proof. solve_decision. Defined.

Record CancellationRecord := mkCancellation {
  event_type : string;
  actor : string;
  contributor : string;
  org_id : string;
  issue_id : Z;
  reason : string;
  timestamp : Z;
  tx_hash : string;
}.

Record PaginationParams := mkParams {
  pp_page : option Z;
  pp_pageSize : option Z;
  pp_org_id : option string;
  pp_isAdmin : option bool;
}.

(** [totalPages] is [NaN] when the quotient is not finite. *)
Record PaginatedResult (A : Type) := mkPage {
  data : list A;
  total : jsnum;
  page : Z;
  pageSize : Z;
  totalPages : jsnum;
}.
Arguments mkPage {A} data total page pageSize totalPages.
Arguments data {A} p.
Arguments total {A} p.
Arguments page {A} p.
Arguments pageSize {A} p.
Arguments totalPages {A} p.

Definition mapRecord (r : audit_row) : CancellationRecord :=
  mkCancellation (au_event_type r) (au_actor r) (au_contributor r) (au_org_id r) (au_issue_id r)
    (default "" (au_reason r)) (au_timestamp r) (default "" (au_tx_hash r)).

(** [Math.ceil(total / limit)]. *)
Definition pages_of (total : jsnum) (limit : Z) : jsnum :=
  match total with
  | Fin t => if limit =? 0 then NaN else Fin (ceil_div t limit)
  | NaN => NaN
  end.

(** The state is the table. *)
Notation state := (list audit_row).

(** [query.clone().count('* as total').first()], parsed. *)
Definition count_matching (P : audit_row → bool) : M state jsnum :=
  c ← call (λ rows, (Ret (count_rows (λ r, P r = true) rows), rows)); mret (parseInt c).

(** [query.orderBy('timestamp', 'desc').limit(limit).offset(offset)]. *)
Definition select_page (P : audit_row → bool) (limit offset : Z) : M state (list audit_row) :=
  call (λ rows,
    (if limit <? 0 then Throw (Error "LIMIT must not be negative")
     else if offset <? 0 then Throw (Error "OFFSET must not be negative")
     else Ret (take (Z.to_nat limit) (drop (Z.to_nat offset)
                 (order_desc au_timestamp (filter (λ r, P r = true) rows)))), rows)).

Definition of_org (o : string) (r : audit_row) : bool := String.eqb (au_org_id r) o.

(** [getCancellations(params)]. *)
Definition getCancellations (params : PaginationParams) : M state (PaginatedResult CancellationRecord) :=
  let page := default 1 (pp_page params) in
  let pageSize := default 50 (pp_pageSize params) in
  let isAdmin := default false (pp_isAdmin params) in
  let offset := (page - 1) * pageSize in
  let limit := Z.min pageSize 200 in
  let fetch P :=
    total ← count_matching P;
    rows ← select_page P limit offset;
    mret (mkPage (mapRecord <$> rows) total page limit (pages_of total limit)) in
  match pp_org_id params with
  | Some ((String _ _) as o) => fetch (of_org o)
  | _ => if isAdmin then fetch (λ _, true)
         else throw (Error "org_id filter is required for non-admin users")
  end.

(** [getOrgCancellations(org_id, startDate, endDate, page, pageSize)]; the dates are valid. *)
Definition getOrgCancellations (o : string) (startDate endDate : option Z) (page pageSize : Z)
    : M state (PaginatedResult CancellationRecord) :=
  let P r := of_org o r &&
    match startDate with Some d => d <=? au_timestamp r | None => true end &&
    match endDate with Some d => au_timestamp r <=? d | None => true end in
  total ← count_matching P;
  rows ← select_page P (Z.min pageSize 200) ((page - 1) * pageSize);
  mret (mkPage (mapRecord <$> rows) total page (Z.min pageSize 200)
          (pages_of total (Z.min pageSize 200))).

(** [GROUP BY key]: each key with its row count; SQL promises no order of the groups. *)
Definition group_counts (key : audit_row → string) (rows : list audit_row) : list (string * Z) :=
  (λ k, (k, Z.of_nat (length (filter (λ r, key r = k) rows)))) <$> remove_dups (key <$> rows).

Record CancellationStats := mkStats {
  st_total : jsnum;
  byEventType : list (string * Z);
  byActor : list (string * Z);
}.

(** [getCancellationStats(org_id)]: the ten most active actors. *)
Definition getCancellationStats (o : option string) : M state CancellationStats :=
  let P := match o with Some ((String _ _) as o) => of_org o | _ => λ _, true end in
  total ← count_matching P;
  types ← call (λ rows, (Ret (group_counts au_event_type (filter (λ r, P r = true) rows)), rows));
  actors ← call (λ rows, (Ret (take 10 (order_desc snd
                   (group_counts au_actor (filter (λ r, P r = true) rows)))), rows));
  mret (mkStats total types actors).

(** ** Lemmas *)

Lemma count_matching_ok P (rows : state) :
  count_matching P (World rows []) =
    (Ret (Fin (Z.of_nat (length (filter (λ r, P r = true) rows)))), World rows []).
Proof. unfold count_matching. erewrite bind_intro by reflexivity. by rewrite parse_count. Qed.

Lemma select_page_ok P limit offset (rows : state) : 0 ≤ limit → 0 ≤ offset →
  select_page P limit offset (World rows []) =
    (Ret (take (Z.to_nat limit) (drop (Z.to_nat offset)
            (order_desc au_timestamp (filter (λ r, P r = true) rows)))), World rows []).
Proof.
  intros Hl Ho. unfold select_page, call. cbn.
  by replace (limit <? 0) with false by lia; replace (offset <? 0) with false by lia.
Qed.

(** The page of an organisation, without faults. *)
Lemma getCancellations_ok o p n admin (rows : state) : o ≠ "" → 1 ≤ p → 0 ≤ n →
  getCancellations (mkParams (Some p) (Some n) (Some o) admin) (World rows []) =
    let found := order_desc au_timestamp (filter (λ r, of_org o r = true) rows) in
    (Ret (mkPage (mapRecord <$> take (Z.to_nat (Z.min n 200)) (drop (Z.to_nat ((p - 1) * n)) found))
            (Fin (Z.of_nat (length found))) p (Z.min n 200)
            (pages_of (Fin (Z.of_nat (length found))) (Z.min n 200))), World rows []).
Proof.
  intros Ho Hp Hn. destruct o as [|c o]; [done|]. unfold getCancellations. cbn [pp_org_id pp_page pp_pageSize default].
  erewrite bind_intro by apply count_matching_ok.
  assert (0 ≤ Z.min n 200 ∧ 0 ≤ (p - 1) * n) as [H1 H2] by nia.
  erewrite bind_intro by (by apply select_page_ok).
  by rewrite (Permutation_length (proj1 (order_desc_spec _ _))).
Qed.

Lemma group_keys key (rows : list audit_row) :
  (group_counts key rows).*1 = remove_dups (key <$> rows).
Proof.
  unfold group_counts. induction (remove_dups (key <$> rows)) as [|k ks IH]; [done|].
  rewrite !fmap_cons, IH. done.
Qed.

(** ** Theorems *)

(** a caller who is not an administrator only sees records of the organisation asked
    for, whatever the parameters and the faults, and none without naming one. *)
Theorem getCancellations_scope params (w : world state) res w' :
  getCancellations params w = (Ret res, w') → default false (pp_isAdmin params) = false →
  ∃ o, pp_org_id params = Some o ∧ o ≠ "" ∧ Forall (λ r, org_id r = o) (data res).
Proof.
  intros Hg Ha. unfold getCancellations in Hg. rewrite Ha in Hg.
  destruct (pp_org_id params) as [[|c o]|]; [by unfold_m| |by unfold_m].
  exists (String c o). split_and!; [done|done|].
  apply bind_Ret in Hg as (t & w1 & _ & (rows & w2 & Hs & Hm)%bind_Ret). unfold_m. simplify_eq. cbn.
  rewrite Forall_fmap. unfold select_page, call in Hs.
  assert (∀ tbl, Forall (λ r, au_org_id r = String c o)
    (take (Z.to_nat (default 50 (pp_pageSize params) `min` 200))
       (drop (Z.to_nat ((default 1 (pp_page params) - 1) * default 50 (pp_pageSize params)))
          (order_desc au_timestamp (filter (λ r, of_org (String c o) r = true) tbl))))) as Hall.
  { intros tbl. apply Forall_take, Forall_drop. rewrite (proj1 (order_desc_spec _ _)).
    apply Forall_forall. intros r [Hr _]%list_elem_of_filter. by apply String.eqb_eq. }
  destruct w1 as [tbl [|[|e|e] fs]]; cbn in Hs; repeat case_match; simplify_eq; apply Hall.
Qed.

(** with a page size of at most 200, the pages from 1 to [totalPages] are all the records
    of the organisation, newest first, each once. *)
Theorem getCancellations_cover o n admin (rows : state) : o ≠ "" → 1 ≤ n ≤ 200 →
  ∃ found pages,
    found ≡ₚ filter (λ r, au_org_id r = o) rows ∧ descending au_timestamp found ∧
    concat pages = mapRecord <$> found ∧
    ∀ i pg, pages !! i = Some pg → ∃ res,
      getCancellations (mkParams (Some (Z.of_nat i + 1)) (Some n) (Some o) admin) (World rows []) =
        (Ret res, World rows []) ∧
      data res = pg ∧ totalPages res = Fin (Z.of_nat (length pages)).
Proof.
  intros Ho Hn. set (found := order_desc au_timestamp (filter (λ r, of_org o r = true) rows)).
  destruct (order_desc_spec au_timestamp (filter (λ r, of_org o r = true) rows)) as [Hp Hs].
  set (count := page_count (Z.of_nat (length found)) n).
  exists found, ((λ l, mapRecord <$> l) <$> ((λ i, window (Z.of_nat i + 1) n found) <$> seq 0 count)).
  split_and!; [|done| |].
  - etrans; [exact Hp|]. erewrite list_filter_iff; [reflexivity|]. intros r. apply String.eqb_eq.
  - etrans; [apply concat_fmap_fmap|]. f_equal. apply windows_cover. lia.
  - intros i pg Hi. apply list_lookup_fmap_Some in Hi as (w & -> & Hi).
    apply list_lookup_fmap_Some in Hi as (j & -> & [-> Hj]%lookup_seq). cbn [plus].
    eexists. split; [by rewrite getCancellations_ok by (done || lia)|].
    cbn [data totalPages]. fold found. rewrite Z.min_l by lia. split; [done|].
    unfold pages_of. replace (n =? 0) with false by lia.
    rewrite !length_fmap, length_seq. unfold count, page_count.
    pose proof (ceil_div_spec (Z.of_nat (length found)) n ltac:(lia)). f_equal. nia.
Qed.

(** with a page size above 200 the offset still advances by the page size while a page
    holds 200 records: a record at position 200 is on no page at all. *)
Theorem oversized_pages_lose_records o n admin (rows : state) r :
  o ≠ "" → 200 < n →
  let found := order_desc au_timestamp (filter (λ r, of_org o r = true) rows) in
  NoDup (mapRecord <$> found) → (mapRecord <$> found) !! 200%nat = Some r →
  ∀ p, 1 ≤ p → ∃ res,
    getCancellations (mkParams (Some p) (Some n) (Some o) admin) (World rows []) =
      (Ret res, World rows []) ∧ r ∉ data res.
Proof.
  intros Ho Hn found Hnd Hr p Hp. eexists.
  split; [by rewrite getCancellations_ok by (done || lia)|]. cbn [data]. fold found.
  rewrite fmap_take, fmap_drop. intros (i & Hi)%list_elem_of_lookup.
  apply lookup_take_Some in Hi as [Hi Hlt]. rewrite lookup_drop in Hi.
  pose proof (NoDup_lookup _ _ _ _ Hnd Hi Hr) as He.
  assert (p = 1 ∨ n ≤ (p - 1) * n) as [->|Hge] by nia; lia.
Qed.

(** the counts per event type add up to the total. *)
Theorem stats_add_up o (rows : state) :
  ∃ s, getCancellationStats o (World rows []) = (Ret s, World rows []) ∧
    NoDup (byEventType s).*1 ∧
    st_total s = Fin (foldr Z.add 0 (byEventType s).*2) ∧
    (length (byActor s) ≤ 10)%nat.
Proof.
  unfold getCancellationStats.
  erewrite bind_intro by apply count_matching_ok.
  do 2 erewrite bind_intro by reflexivity.
  eexists. split; [reflexivity|]. cbn [byEventType st_total byActor].
  set (l := filter _ rows). split_and!.
  - rewrite group_keys. apply NoDup_remove_dups.
  - f_equal. unfold group_counts. rewrite <- list_fmap_compose.
    etrans; [|symmetry; apply (count_by_key au_event_type _ l (NoDup_remove_dups _))].
    rewrite filter_all; [done|]. apply Forall_forall. intros x Hx.
    apply elem_of_remove_dups, list_elem_of_fmap. by exists x.
  - rewrite length_take. lia.
Qed.

(** ** Witnesses *)

Definition sample_rows : list audit_row :=
  [mkAudit "org_cancelled" "ga" "gc" "o1" 4 None 10 None;
   mkAudit "contributor_cancelled" "gb" "gc" "o2" 5 (Some "late") 30 (Some "ff");
   mkAudit "contributor_cancelled" "gb" "gd" "o1" 6 None 20 None].

Lemma getCancellations_scope_witness :
  let params := mkParams (Some 1) (Some 50) (Some "o1") (Some false) in
  ∃ res, (getCancellations params (World sample_rows [])).1 = Ret res ∧
    issue_id <$> data res = [6; 4] ∧
    ∃ o, pp_org_id params = Some o ∧ o ≠ "" ∧ Forall (λ r, org_id r = o) (data res).
Proof.
  intros params.
  destruct (getCancellations params (World sample_rows [])) as [o w'] eqn:He.
  pose proof He as He'. vm_compute in He'. injection He' as <- _.
  eexists. split_and!; [reflexivity|reflexivity|].
  exact (getCancellations_scope params _ _ _ He eq_refl).
Defined.

Lemma getCancellations_cover_witness :
  ∃ found pages,
    found ≡ₚ filter (λ r, au_org_id r = "o1") sample_rows ∧ descending au_timestamp found ∧
    concat pages = mapRecord <$> found ∧
    ∀ i pg, pages !! i = Some pg → ∃ res,
      getCancellations (mkParams (Some (Z.of_nat i + 1)) (Some 1) (Some "o1") None)
        (World sample_rows []) = (Ret res, World sample_rows []) ∧
      data res = pg ∧ totalPages res = Fin (Z.of_nat (length pages)).
Proof. apply (getCancellations_cover "o1" 1 None sample_rows); [done|lia]. Defined.

Definition many_rows : list audit_row :=
  (λ i, mkAudit "org_cancelled" "ga" "gc" "o1" (Z.of_nat i) None (- Z.of_nat i) None) <$> seq 0 202.

Lemma oversized_pages_lose_records_witness :
  ∃ r, issue_id r = 200 ∧ ∀ p, 1 ≤ p → ∃ res,
    getCancellations (mkParams (Some p) (Some 201) (Some "o1") None) (World many_rows []) =
      (Ret res, World many_rows []) ∧ r ∉ data res.
Proof.
  eexists (mapRecord (mkAudit "org_cancelled" "ga" "gc" "o1" 200 None (-200) None)).
  split; [reflexivity|].
  apply (oversized_pages_lose_records "o1" 201 None many_rows); [done|lia| |].
  - apply (NoDup_fmap_1 issue_id). apply (bool_decide_unpack _). by vm_compute.
  - by vm_compute.
Defined.
