(* ===== verification/Activity.v ===== *)
(** * Charts, logs and exports of a contributor's activity

    The streak of [StreakBadge.tsx] over the rows of the activity route, the axis of
    [ActivityChart.tsx], and [TransactionHistoryLog.tsx] with its filters and its export to CSV,
    which a reader of CSV reads back. *)

From Stdlib Require Import String Ascii Sorted.
From S2P Require Import Prelude Js Decimal Db Browser Contributors.

#[local] Open Scope string_scope.
#[local] Open Scope list_scope.
#[local] Open Scope Z_scope.

(** ** The streak *)

Module Streak.

Record MonthlyActivity := mkMonth { month : string; applied : Z; assigned : Z; completed : Z }.

Definition completed_at (activity : list MonthlyActivity) (i : nat) : Z :=
  match activity !! i with Some m => completed m | None => 0 end.

(** Step 1, with one more than [end]: the months without a completion at the end. *)
Fixpoint trim_zeroes (activity : list MonthlyActivity) (n : nat) : nat :=
  match n with
  | O => O
  | S end_ => if completed_at activity end_ =? 0 then trim_zeroes activity end_ else n
  end.

(** Step 2: left from there. *)
Fixpoint walk (activity : list MonthlyActivity) (n : nat) (streak : Z) : Z :=
  match n with
  | O => streak
  | S i => if 0 <? completed_at activity i then walk activity i (streak + 1) else streak
  end.

Definition calculateStreak (activity : list MonthlyActivity) : Z :=
  if (length activity =? 0)%nat then 0 else
  let n := trim_zeroes activity (length activity) in
  if (n =? 0)%nat then 0 else walk activity n 0.

Inductive tier := gold | silver | bronze | none.
Definition streakTier (streak : Z) : tier :=
  if 12 <=? streak then gold else if 6 <=? streak then silver else if 3 <=? streak then bronze else none.

Definition TIER_META (t : tier) : string :=
  match t with gold => "Gold streak" | silver => "Silver streak" | bronze => "Bronze streak" | none => "No streak" end.

(** What the badge announces; nothing for short streaks. *)
Definition StreakBadge (activity : list MonthlyActivity) : option string :=
  let streak := calculateStreak activity in
  match streakTier streak with
  | none => None
  | t => Some (TIER_META t +:+ ": " +:+ pretty streak +:+ " consecutive month" +:+
               (if streak =? 1 then "" else "s") +:+ " with completed assignments")
  end.

Lemma completed_at_app a m b : completed_at (a ++ m :: b) (length a) = completed m.
Proof. unfold completed_at. by rewrite list_lookup_middle. Qed.

Lemma trim_spec zs : ∀ a, Forall (λ m, completed m = 0) zs →
  (match last a with Some m => completed m ≠ 0 | None => True end) →
  trim_zeroes (a ++ zs) (length (a ++ zs)) = length a.
Proof.
  assert (∀ zs' a b, Forall (λ m, completed m = 0) zs' →
    trim_zeroes (a ++ zs' ++ b) (length a + length zs') = trim_zeroes (a ++ zs' ++ b) (length a)) as Hzs.
  { induction zs' as [|m zs' IH] using rev_ind; intros a b Hall; [by rewrite Nat.add_0_r|].
    apply Forall_app in Hall as [Hall Hm]. rewrite Forall_singleton in Hm. rewrite length_app, <- app_assoc. cbn [length app].
    rewrite Nat.add_assoc, Nat.add_1_r. cbn [trim_zeroes].
    assert (completed_at (a ++ zs' ++ m :: b) (length a + length zs') = 0) as ->.
    { rewrite <- length_app, app_assoc, completed_at_app. exact Hm. }
    by apply (IH a (m :: b)). }
  intros a Hall Ha. rewrite length_app. pose proof (Hzs zs a [] Hall) as Hz. rewrite app_nil_r in Hz. rewrite Hz.
  destruct a as [|m a _] using rev_ind; [done|]. rewrite last_snoc in Ha. rewrite length_app, Nat.add_1_r. cbn [trim_zeroes].
  rewrite <- app_assoc. cbn [app]. rewrite completed_at_app. by rewrite (proj2 (Z.eqb_neq _ _)).
Qed.

Lemma walk_spec run : ∀ a b s, Forall (λ m, 0 < completed m) run →
  (match last a with Some m => completed m ≤ 0 | None => True end) →
  walk (a ++ run ++ b) (length a + length run) s = s + Z.of_nat (length run).
Proof.
  induction run as [|m run IH] using rev_ind; intros a b s Hall Ha.
  - rewrite Nat.add_0_r. destruct a as [|m a _] using rev_ind; [cbn; lia|]. rewrite last_snoc in Ha.
    rewrite length_app, Nat.add_1_r. cbn [walk]. rewrite <- app_assoc. cbn [app]. rewrite completed_at_app.
    rewrite (proj2 (Z.ltb_ge _ _)) by done. cbn. lia.
  - apply Forall_app in Hall as [Hall Hm]. rewrite Forall_singleton in Hm.
    rewrite length_app, <- app_assoc. cbn [length app]. rewrite Nat.add_assoc, Nat.add_1_r. cbn [walk].
    assert (completed_at (a ++ run ++ m :: b) (length a + length run) = completed m) as ->.
    { rewrite <- length_app, app_assoc. by rewrite completed_at_app. }
    rewrite (proj2 (Z.ltb_lt _ _)) by done. rewrite (IH a (m :: b)) by done. lia.
Qed.

(** A list of months, in its three parts: what came before, the streak, the months without a
    completion at the end. *)
Lemma streak_parts l : Forall (λ m, 0 ≤ completed m) l → ∃ before run zeroes,
  l = before ++ run ++ zeroes ∧
  Forall (λ m, completed m = 0) zeroes ∧ Forall (λ m, 0 < completed m) run ∧
  (match last before with Some m => completed m = 0 | None => True end) ∧
  (run = [] → before = []).
Proof.
  intros Hl. assert (∃ a zeroes, l = a ++ zeroes ∧ Forall (λ m, completed m = 0) zeroes ∧
    match last a with Some m => 0 < completed m | None => True end) as (a & zs & -> & Hzs & Ha).
  { induction l as [|m l IH] using rev_ind; [by exists [], []|]. apply Forall_app in Hl as [Hl Hm].
    rewrite Forall_singleton in Hm. destruct (decide (completed m = 0)) as [Hz|Hz].
    - destruct (IH Hl) as (a & zs & -> & Hzs & Ha). exists a, (zs ++ [m]). rewrite app_assoc. split; [done|].
      split; [|done]. apply Forall_app. split; [done|]. by constructor.
    - exists (l ++ [m]), []. rewrite app_nil_r, last_snoc. repeat split; [constructor|lia]. }
  apply Forall_app in Hl as [Hl _].
  assert (∃ before run, a = before ++ run ∧ Forall (λ m, 0 < completed m) run ∧
    match last before with Some m => completed m = 0 | None => True end) as (b & run & -> & Hrun & Hb).
  { clear Ha. induction a as [|m a IH] using rev_ind; [by exists [], []|]. apply Forall_app in Hl as [Hl Hm].
    rewrite Forall_singleton in Hm. destruct (decide (completed m = 0)) as [Hz|Hz].
    - exists (a ++ [m]), []. rewrite app_nil_r, last_snoc. repeat split; [constructor|done].
    - destruct (IH Hl) as (b & run & -> & Hrun & Hb). exists b, (run ++ [m]). rewrite app_assoc. split; [done|].
      split; [|done]. apply Forall_app. split; [done|]. constructor; [lia|constructor]. }
  exists b, run, zs. rewrite app_assoc. repeat split; [done|done|done|]. intros ->. rewrite app_nil_r in Ha.
  destruct (last b) eqn:Hlast; [lia|]. by apply last_None in Hlast.
Qed.

Lemma streak_length before run zeroes :
  Forall (λ m, completed m = 0) zeroes → Forall (λ m, 0 < completed m) run →
  (match last before with Some m => completed m = 0 | None => True end) → (run = [] → before = []) →
  calculateStreak (before ++ run ++ zeroes) = Z.of_nat (length run).
Proof.
  intros Hz Hrun Hb Hempty. unfold calculateStreak.
  destruct (Nat.eqb_spec (length (before ++ run ++ zeroes)) 0) as [H0|H0].
  { apply nil_length_inv in H0. apply app_eq_nil in H0 as [_ [-> _]%app_eq_nil]. done. }
  rewrite app_assoc, (trim_spec zeroes (before ++ run)); [|done|].
  - cbv zeta. destruct (Nat.eqb_spec (length (before ++ run)) 0) as [H1|H1].
    { apply nil_length_inv in H1. by apply app_eq_nil in H1 as [_ ->]. }
    rewrite length_app, <- app_assoc, walk_spec; [lia|done|]. destruct (last before); [lia|done].
  - destruct run as [|m run _] using rev_ind; [by rewrite Hempty|]. rewrite app_assoc, last_snoc.
    apply Forall_app in Hrun as [_ Hm]. rewrite Forall_singleton in Hm. lia.
Qed.

(** The rows of the activity route, as the hook reads them. *)
Definition of_row (r : MonthlyActivityRow) : MonthlyActivity :=
  mkMonth (month_label (Contributors.month r)) (act_applied r) (act_assigned r) (act_completed r).

(** The streak of a contributor over the twelve months the activity route answers: the months
    are those of an earlier part, the streak, and the months at the end without a completion; in
    every month of the streak something was completed, in the one before it nothing was, and the
    badge is shown from three months on. *)
Theorem streak_of_activity now address d :
  let months := of_row <$> activity_rows now address d in
  ∃ before run zeroes, months = before ++ run ++ zeroes ∧
    Forall (λ m, completed m = 0) zeroes ∧ Forall (λ m, 0 < completed m) run ∧
    (match last before with Some m => completed m = 0 | None => True end) ∧
    calculateStreak months = Z.of_nat (length run) ∧ calculateStreak months ≤ 12 ∧
    (is_Some (StreakBadge months) ↔ 3 ≤ calculateStreak months).
Proof.
  intros months. assert (Forall (λ m, 0 ≤ completed m) months) as Hpos.
  { apply Forall_forall. intros m [r [-> Hr]]%list_elem_of_fmap. unfold activity_rows in Hr.
    apply list_elem_of_fmap in Hr as (k & -> & _). cbn. unfold zlen. lia. }
  destruct (streak_parts months Hpos) as (before & run & zs & Hm & Hz & Hrun & Hb & Hempty).
  exists before, run, zs. pose proof (streak_length before run zs Hz Hrun Hb Hempty) as Hlen. rewrite <- Hm in Hlen.
  do 4 (split; [done|]). split; [done|].
  assert (length months = 12%nat) as H12 by (unfold months, activity_rows; by rewrite !length_fmap).
  rewrite Hm, !length_app in H12. split; [lia|]. unfold StreakBadge, streakTier.
  destruct (Z.leb_spec 12 (calculateStreak months)); [by split; [lia|]; eauto|].
  destruct (Z.leb_spec 6 (calculateStreak months)); [by split; [lia|]; eauto|].
  destruct (Z.leb_spec 3 (calculateStreak months)); [by split; [lia|]; eauto|].
  split; [by intros [? ?]|lia].
Qed.

End Streak.

(** ** The axis of the chart *)

Module Chart.

Definition Y_TICKS : Z := 4.

Definition yTicks (maxVal : Z) : list Z :=
  if maxVal =? 0 then [0; 1; 2; 3; 4] else
  let top := ceil_div maxVal Y_TICKS * Y_TICKS in
  (λ i, top / Y_TICKS * Z.of_nat i) <$> seq 0 5.

(** The largest value, at least one, and the tick at the top. *)
Definition maxVal (activity : list Streak.MonthlyActivity) : Z :=
  foldl Z.max 1 (activity ≫= λ m, [Streak.applied m; Streak.assigned m; Streak.completed m]).
Definition topTick (activity : list Streak.MonthlyActivity) : Z :=
  default 0 (last (yTicks (maxVal activity))).

Lemma foldl_max l : ∀ n, n ≤ foldl Z.max n l ∧ Forall (λ v, v ≤ foldl Z.max n l) l.
Proof.
  induction l as [|v l IH]; intros n; cbn [foldl]; [done|]. destruct (IH (Z.max n v)) as [Hn Hl].
  split; [lia|]. constructor; [lia|done].
Qed.

(** Every value of the chart is below its top tick; the five ticks are whole numbers, evenly apart,
    from zero, no two the same, and the top one is less than four above the largest value. *)
Theorem ticks_cover activity m :
  m ∈ activity →
  let ticks := yTicks (maxVal activity) in let top := topTick activity in
  (∃ q, 1 ≤ q ∧ ticks = [0; q; 2 * q; 3 * q; 4 * q] ∧ top = 4 * q) ∧
  Streak.applied m ≤ top ∧ Streak.assigned m ≤ top ∧ Streak.completed m ≤ top ∧ top < maxVal activity + 4.
Proof.
  intros Hm ticks top. destruct (foldl_max (activity ≫= λ m, [Streak.applied m; Streak.assigned m; Streak.completed m]) 1) as [H1 Hall].
  fold (maxVal activity) in H1, Hall. rewrite Forall_forall in Hall.
  assert (∀ v, v ∈ [Streak.applied m; Streak.assigned m; Streak.completed m] → v ≤ maxVal activity) as Hv.
  { intros v Hin. apply Hall. apply list_elem_of_bind. by exists m. }
  assert (0 < Y_TICKS) as Hy by done. unfold Y_TICKS in *.
  set (q := ceil_div (maxVal activity) 4). assert (4 * q - 4 < maxVal activity ≤ 4 * q) as Hq.
  { pose proof (ceil_div_spec (maxVal activity) 4 ltac:(lia)). lia. }
  assert (ticks = [0; q; 2 * q; 3 * q; 4 * q]) as Ht.
  { unfold ticks, yTicks, Y_TICKS. rewrite (proj2 (Z.eqb_neq _ _)) by lia. fold q. cbv zeta. rewrite Z.div_mul by done. cbn [fmap list_fmap seq].
    replace (q * Z.of_nat 1) with q by lia. by rewrite !(Z.mul_comm q). }
  assert (top = 4 * q) as Htop by (unfold top, topTick; fold ticks; by rewrite Ht).
  split; [exists q; split; [lia|done]|]. rewrite Htop. repeat split; try lia; (transitivity (maxVal activity); [apply Hv; set_solver|lia]).
Qed.

Lemma ticks_cover_witness :
  let m := Streak.mkMonth "Jan 2026" 3 5 1 in
  m ∈ [m] ∧ Streak.assigned m ≤ topTick [m].
Proof.
  split; [by apply list_elem_of_singleton|].
  apply (ticks_cover [Streak.mkMonth "Jan 2026" 3 5 1] (Streak.mkMonth "Jan 2026" 3 5 1)).
  by apply list_elem_of_singleton.
Defined.

End Chart.

(** ** The log of transactions *)

Module Log.

Inductive EventType :=
  | ApplicationSubmitted | ApplicationWithdrawn | IssueAssigned | AssignmentCompleted | AssignmentRevoked | TTLExtended.
Definition type_name (t : EventType) : string :=
  match t with
  | ApplicationSubmitted => "ApplicationSubmitted" | ApplicationWithdrawn => "ApplicationWithdrawn"
  | IssueAssigned => "IssueAssigned" | AssignmentCompleted => "AssignmentCompleted"
  | AssignmentRevoked => "AssignmentRevoked" | TTLExtended => "TTLExtended"
  end.

Record GovernorEvent := mkEvent {
  id : string; txHash : string; eventType : EventType; orgId : string; issueId : Z;
  contributorAddress : string; timestamp : Z;   (** in seconds *)
}.

Definition kept (selectedEventType searchOrgId : string) (ev : GovernorEvent) : bool :=
  if negb (String.eqb selectedEventType "ALL") && negb (String.eqb (type_name (eventType ev)) selectedEventType) then false
  else if negb (String.eqb (trim searchOrgId) "") &&
          negb (includes (toLowerCase (trim searchOrgId)) (toLowerCase (orgId ev))) then false
  else true.

Definition filteredEvents (events : list GovernorEvent) (selectedEventType searchOrgId : string) : list GovernorEvent :=
  sort_by (λ a b, Fin (timestamp b - timestamp a)) (filter (λ ev, kept selectedEventType searchOrgId ev = true) events).

(** [new Date(ev.timestamp * 1000).toISOString()]. *)
Definition iso_of (seconds : Z) : outcome string :=
  if valid_time (seconds * 1000) then Ret (toISOString (seconds * 1000)) else Throw (ErrorObj "RangeError" "Invalid time value").

Definition headers : list string :=
  ["Event ID"; "Timestamp (UTC)"; "Action Type"; "Org ID"; "Issue ID"; "Contributor"; "Tx Hash"].
Definition row (ev : GovernorEvent) : outcome (list string) :=
  match iso_of (timestamp ev) with
  | Ret t => Ret [id ev; t; type_name (eventType ev); orgId ev; pretty (issueId ev); contributorAddress ev; txHash ev]
  | Throw e => Throw e
  end.

Definition newline : string := String "010" "".
Definition csv_line (fields : list string) : string := join "," (quoted <$> fields).

Fixpoint rows_of (events : list GovernorEvent) : outcome (list (list string)) :=
  match events with
  | [] => Ret []
  | ev :: events' =>
      match row ev, rows_of events' with
      | Ret r, Ret rs => Ret (r :: rs)
      | Ret _, Throw e => Throw e
      | Throw e, _ => Throw e
      end
  end.

Definition csvContent (rows : list (list string)) : string :=
  join newline (join "," headers :: (csv_line <$> rows)).

(** The file that is downloaded, with its name; [None] when there is nothing to export. *)
Definition exportToCSV (now : Z) (filtered : list GovernorEvent) : outcome (option (string * string)) :=
  if (length filtered =? 0)%nat then Ret None else
  match rows_of filtered with
  | Ret rows => Ret (Some ("workload_governor_history_" +:+ pretty now +:+ ".csv", csvContent rows))
  | Throw e => Throw e
  end.

(** *** A reader of CSV, after RFC 4180 *)

Inductive mode := Start | Plain | Quoted | Closing.

Definition quote_char : ascii := "034"%char.

Fixpoint scan (m : mode) (field : string) (fields : list string) (rows : list (list string)) (s : string)
    : list (list string) :=
  match s with
  | "" => rows ++ [fields ++ [field]]
  | String c s' =>
      let plain :=
        if Ascii.eqb c "," then scan Start "" (fields ++ [field]) rows s'
        else if Ascii.eqb c "010" then scan Start "" [] (rows ++ [fields ++ [field]]) s'
        else scan Plain (field +:+ String c "") fields rows s' in
      match m with
      | Start => if Ascii.eqb c quote_char then scan Quoted "" fields rows s' else plain
      | Plain => plain
      | Quoted => if Ascii.eqb c quote_char then scan Closing field fields rows s'
                  else scan Quoted (field +:+ String c "") fields rows s'
      | Closing => if Ascii.eqb c quote_char then scan Quoted (field +:+ String c "") fields rows s' else plain
      end
  end.
Definition csv_read (s : string) : list (list string) := scan Start "" [] [] s.

(** What can follow a line: the end, or a new line. *)
Definition after_line (fields : list string) (rows : list (list string)) (s : string) : list (list string) :=
  match s with "" => rows ++ [fields] | String _ s' => scan Start "" [] (rows ++ [fields]) s' end.
Definition line_end (s : string) : Prop := match s with "" => True | String c _ => c = "010"%char end.

Definition unquoted (s : string) : Prop := quote_char ∉ lst s.

Lemma append_assoc (s t u : string) : s +:+ (t +:+ u) = (s +:+ t) +:+ u.
Proof. apply (inj lst). by rewrite !lst_app, app_assoc. Qed.

Lemma append_nil_r (s : string) : s +:+ "" = s.
Proof. apply (inj lst). by rewrite lst_app, app_nil_r. Qed.

Lemma append_cons c (s t : string) : String c s +:+ t = String c (s +:+ t).
Proof. reflexivity. Qed.

Lemma append_one c (s : string) : String c "" +:+ s = String c s.
Proof. reflexivity. Qed.

Lemma scan_text f : ∀ acc fields rows rest, unquoted f →
  scan Quoted acc fields rows (f +:+ rest) = scan Quoted (acc +:+ f) fields rows rest.
Proof.
  induction f as [|c f IH]; intros acc fields rows rest Hf; [by rewrite append_nil_r|].
  unfold unquoted in Hf. cbn in Hf. apply not_elem_of_cons in Hf as [Hc Hf]. rewrite ?append_cons; cbn [scan].
  destruct (Ascii.eqb_spec c quote_char); [congruence|]. rewrite IH by done. f_equal. by rewrite <- append_assoc.
Qed.

Lemma scan_field f fields rows rest : unquoted f →
  scan Start "" fields rows (quoted f +:+ rest) = scan Closing f fields rows rest.
Proof.
  intros Hf. unfold quoted. rewrite <- !append_assoc. rewrite ?append_cons; cbn [scan]. change (Ascii.eqb _ quote_char) with true. cbv iota.
  change (scan Quoted "" fields rows (f +:+ String quote_char rest) = scan Closing f fields rows rest).
  rewrite (scan_text f) by done. reflexivity.
Qed.

Lemma scan_line fs : ∀ f fields rows rest, Forall unquoted (f :: fs) → line_end rest →
  scan Start "" fields rows (csv_line (f :: fs) +:+ rest) = after_line (fields ++ f :: fs) rows rest.
Proof.
  induction fs as [|g fs IH]; intros f fields rows rest Hall Hend; apply Forall_cons in Hall as [Hf Hall].
  - unfold csv_line. cbn [fmap list_fmap join]. rewrite (scan_field f) by done.
    destruct rest as [|c rest]; [done|]. cbn in Hend. by subst c.
  - change (csv_line (f :: g :: fs)) with (quoted f +:+ "," +:+ csv_line (g :: fs)).
    rewrite <- !append_assoc, scan_field, append_one by done. cbn [scan]. change (Ascii.eqb "," quote_char) with false.
    change (Ascii.eqb "," ",") with true. cbv iota zeta. rewrite IH by done. by rewrite <- app_assoc.
Qed.

Lemma scan_lines rs : ∀ r fields, Forall (λ r, r ≠ [] ∧ Forall unquoted r) (r :: rs) →
  scan Start "" [] fields (join newline (csv_line <$> r :: rs)) = fields ++ r :: rs.
Proof.
  induction rs as [|r2 rs IH]; intros r fields Hall; apply Forall_cons in Hall as [[Hne Hr] Hall].
  - destruct r as [|f r]; [done|]. cbn [fmap list_fmap join]. rewrite <- (append_nil_r (csv_line _)).
    by rewrite scan_line.
  - destruct r as [|f r]; [done|].
    change (join newline (csv_line <$> (f :: r) :: r2 :: rs)) with
      (csv_line (f :: r) +:+ newline +:+ join newline (csv_line <$> r2 :: rs)).
    rewrite scan_line by done. unfold newline. rewrite append_one. cbn [after_line]. rewrite IH by done. by rewrite <- app_assoc.
Qed.

(** *** Fields without a quote *)

Lemma unquoted_app s t : unquoted s → unquoted t → unquoted (s +:+ t).
Proof. unfold unquoted. rewrite lst_app. set_solver. Qed.

Lemma digits_unquoted ds : digits ds → quote_char ∉ ds.
Proof.
  intros Hd Hin. unfold digits in Hd. rewrite Forall_forall in Hd. specialize (Hd _ Hin). by vm_compute in Hd.
Qed.

Lemma pretty_unquoted (z : Z) : unquoted (pretty z).
Proof.
  destruct (decide (0 ≤ z)) as [Hz|Hz]; [apply digits_unquoted; by apply pretty_digits|].
  destruct z as [|p|p]; [lia|lia|]. change (pretty (Z.neg p)) with ("-" +:+ pretty (Z.pos p)).
  apply unquoted_app; [by apply (bool_decide_unpack _)|]. apply digits_unquoted. by apply pretty_digits.
Qed.

Lemma padded_unquoted n (z : Z) : unquoted (str (pad_left n "0" (lst (pretty z)))).
Proof.
  unfold unquoted, pad_left. rewrite lst_str. intros [H|H]%elem_of_app; [|by apply (pretty_unquoted z)].
  apply elem_of_replicate in H as [? _]. discriminate.
Qed.

Lemma iso_unquoted ms : unquoted (toISOString ms).
Proof.
  unfold toISOString, iso_year, pad2, pad3, pad4, pad6. repeat case_match; repeat apply unquoted_app;
    first [apply padded_unquoted | by apply (bool_decide_unpack _)].
Qed.

(** An event whose texts can be exported: none has a quote, and its time is a date. *)
Definition exportable (ev : GovernorEvent) : Prop :=
  unquoted (id ev) ∧ unquoted (orgId ev) ∧ unquoted (contributorAddress ev) ∧ unquoted (txHash ev) ∧
  valid_time (timestamp ev * 1000) = true.

Lemma row_exportable ev : exportable ev → ∃ r, row ev = Ret r ∧ r ≠ [] ∧ Forall unquoted r.
Proof.
  intros (Hid & Ho & Hc & Ht & Hv). unfold row, iso_of. rewrite Hv. eexists. split; [done|]. split; [done|].
  repeat constructor; try done; [apply iso_unquoted| |apply pretty_unquoted].
  by destruct (eventType ev); apply (bool_decide_unpack _).
Qed.

Lemma rows_exportable events : Forall exportable events → ∃ rows, rows_of events = Ret rows ∧
  Forall2 (λ ev r, row ev = Ret r) events rows ∧ Forall (λ r, r ≠ [] ∧ Forall unquoted r) rows.
Proof.
  induction 1 as [|ev events Hev _ (rows & Hrows & Hf & Hq)]; [by exists []|].
  destruct (row_exportable ev Hev) as (r & Hr & Hne & Hu). exists (r :: rows). cbn [rows_of]. rewrite Hr, Hrows.
  split; [done|]. split; by constructor.
Qed.

Lemma read_content rows : Forall (λ r, r ≠ [] ∧ Forall unquoted r) rows → rows ≠ [] →
  csv_read (csvContent rows) = headers :: rows.
Proof.
  intros Hall Hne. destruct rows as [|r rows]; [done|].
  change (csv_read (csvContent (r :: rows))) with
    (scan Start "" [] [headers] (join newline (csv_line <$> r :: rows))).
  by rewrite scan_lines.
Qed.

Lemma newest_first events selected search :
  StronglySorted (λ a b, timestamp b ≤ timestamp a) (filteredEvents events selected search).
Proof.
  assert (StronglySorted (λ a b, - timestamp a ≤ - timestamp b) (filteredEvents events selected search)) as H.
  { apply sort_by_sorted. intros a b _ _. f_equal. lia. }
  induction H as [|a l _ IH Ha]; constructor; [done|]. eapply Forall_impl; [exact Ha|]. cbn. lia.
Qed.

(** C38: The log shows exactly the events the two filters keep, newest first; and when no text of
    theirs holds a double quote, the file it exports is read back by a reader of CSV as the header
    and one row per event shown, in their order, whatever commas and line breaks the texts hold. *)
Theorem export_read_back now events selected search :
  let shown := filteredEvents events selected search in
  Forall exportable events → shown ≠ [] →
  shown ≡ₚ filter (λ ev, kept selected search ev = true) events ∧
  StronglySorted (λ a b, timestamp b ≤ timestamp a) shown ∧
  ∃ name text rows, exportToCSV now shown = Ret (Some (name, text)) ∧
    csv_read text = headers :: rows ∧ Forall2 (λ ev r, row ev = Ret r) shown rows.
Proof.
  intros shown Hall Hne.
  assert (shown ≡ₚ filter (λ ev, kept selected search ev = true) events) as Hperm by apply sort_by_perm.
  split; [done|]. split.
  { apply newest_first. }
  assert (Forall exportable shown) as Hshown.
  { rewrite Hperm. apply Forall_forall. intros ev [_ Hin]%list_elem_of_filter. rewrite Forall_forall in Hall. by apply Hall. }
  destruct (rows_exportable shown Hshown) as (rows & Hrows & Hf & Hq). exists ("workload_governor_history_" +:+ pretty now +:+ ".csv"), (csvContent rows), rows.
  unfold exportToCSV. destruct (Nat.eqb_spec (length shown) 0) as [H0|_]; [by apply nil_length_inv in H0|].
  rewrite Hrows. split; [done|]. split; [|done]. apply read_content; [done|].
  intros ->. by apply Forall2_nil_inv_r in Hf.
Qed.

Definition demo_event (n : Z) (org : string) : GovernorEvent :=
  mkEvent "e1" "ab12" IssueAssigned org n "GABC" (1784548800 + n).

Lemma export_read_back_witness :
  let events := [demo_event 1 "acme, inc"; demo_event 2 "other"; demo_event 3 "Acme"] in
  exists name text rows, exportToCSV 0 (filteredEvents events "ALL" " acme ") = Ret (Some (name, text)) /\
    csv_read text = headers :: rows /\ length rows = 2%nat.
Proof.
  destruct (export_read_back 0 [demo_event 1 "acme, inc"; demo_event 2 "other"; demo_event 3 "Acme"] "ALL" " acme ")
    as (_ & _ & name & text & rows & He & Hr & Hf).
  - repeat constructor; apply (bool_decide_unpack _); vm_compute; exact I.
  - by vm_compute.
  - exists name, text, rows. split; [exact He|]. split; [exact Hr|]. by apply Forall2_length in Hf.
Defined.

(** Quotes are not doubled: an organisation with quotes in its name can add a column. *)
Example quote_adds_column :
  let q := String quote_char "" in
  csv_read (csvContent [["1"; "a" +:+ q +:+ "," +:+ q +:+ "b"; "x"]]) = [headers; ["1"; "a"; "b"; "x"]].
Proof. reflexivity. Qed.

End Log.
