(* ===== verification/Widgets.v ===== *)
(** * Small stateful widgets of the frontend

    The notifications of [components/Toast.tsx] with their timers, and the keyboard shortcuts of
    [hooks/useKeyboardShortcuts.ts] with the G-then-O sequence. *)

From Stdlib Require Import String Ascii Sorted.
From stdpp Require Import sorting.
From S2P Require Import Prelude Js.

#[local] Open Scope string_scope.
#[local] Open Scope list_scope.
#[local] Open Scope Z_scope.

(** ** Notifications *)

Module Toasts.

Inductive ToastType := success | error | warning | info.
Record Toast := mkToast { id : nat; message : string; type : ToastType; duration : Z }.

(** [visibleRef], [queuedRef], the last id given, and the timeouts that are pending, by the id
    their callback removes, each with its delay. *)
Record state := mkState {
  nextId : nat; visible : list Toast; queued : list Toast; timers : list (nat * Z) }.

Definition init : state := mkState 0 [] [] [].

Definition set_timeout (t : Toast) (s : state) : state :=
  mkState (nextId s) (visible s) (queued s) (timers s ++ [(id t, duration t)]).

Definition add (message : string) (type : ToastType) (duration : option Z) (s : state) : state :=
  let toast := mkToast (S (nextId s)) message type (default 5000 duration) in
  if (3 <=? length (visible s))%nat then mkState (id toast) (visible s) (queued s ++ [toast]) (timers s)
  else set_timeout toast (mkState (id toast) (visible s ++ [toast]) (queued s) (timers s)).

Definition remove (i : nat) (s : state) : state :=
  let visible' := filter (λ t, id t ≠ i) (visible s) in
  match queued s with
  | nextToast :: rest => set_timeout nextToast (mkState (nextId s) (visible' ++ [nextToast]) rest (timers s))
  | [] => mkState (nextId s) visible' [] (timers s)
  end.

Inductive event :=
  | Add (message : string) (type : ToastType) (duration : option Z)
  | Dismiss (i : nat)     (** the button of a visible toast *)
  | Timeout (n : nat).    (** the [n]-th pending timeout fires *)

Definition step (s : state) (e : event) : state :=
  match e with
  | Add m t d => add m t d s
  | Dismiss i => if decide (i ∈ id <$> visible s) then remove i s else s
  | Timeout n =>
      match timers s !! n with
      | Some (i, _) => remove i (mkState (nextId s) (visible s) (queued s) (delete n (timers s)))
      | None => s
      end
  end.
Definition after (s : state) (es : list event) : state := fold_left step es s.

Definition is_dismiss (e : event) : bool := match e with Dismiss _ => true | _ => false end.
Definition dismissals (es : list event) : nat := length (List.filter is_dismiss es).

(** The timeouts of toasts that are no longer visible. *)
Definition stale (s : state) : list nat := filter (λ i, i ∉ id <$> visible s) (timers s).*1.

(** [k] is the last id shown, [d] how many were dismissed. *)
Record inv (k d : nat) (s : state) : Prop := {
  i_last : (k ≤ nextId s)%nat;
  i_queue : id <$> queued s = seq (S k) (nextId s - k);
  i_visible : StronglySorted lt (id <$> visible s);
  i_timers : NoDup (timers s).*1;
  i_shown : Forall (λ i, i ≤ k)%nat (timers s).*1;
  i_pending : id <$> visible s ⊆ (timers s).*1;
  i_full : queued s = [] ∨ (3 ≤ length (visible s))%nat;
  i_stale : (length (stale s) ≤ d)%nat;
  i_bound : (length (visible s) + length (stale s) ≤ 3 + d)%nat;
}.

Lemma ids_filter i (l : list Toast) : id <$> filter (λ t, id t ≠ i) l = filter (λ j, j ≠ i) (id <$> l).
Proof. induction l as [|t l IH]; [done|]. rewrite fmap_cons, !filter_cons. case_decide; [rewrite fmap_cons|]; by rewrite IH. Qed.

Lemma sorted_NoDup (l : list nat) : StronglySorted lt l → NoDup l.
Proof.
  induction 1 as [|x l _ IH Hx]; constructor; [|done]. rewrite Forall_forall in Hx. intros Hin. specialize (Hx x Hin). lia.
Qed.

Lemma sorted_filter (P : nat → Prop) `{∀ x, Decision (P x)} l : StronglySorted lt l → StronglySorted lt (filter P l).
Proof.
  induction 1 as [|x l _ IH Hx]; [constructor|]. rewrite filter_cons. case_decide; [|done]. constructor; [done|].
  apply Forall_forall. intros y [_ Hy]%list_elem_of_filter. rewrite Forall_forall in Hx. by apply Hx.
Qed.

Lemma sorted_snoc l x : StronglySorted lt l → Forall (λ y, y < x)%nat l → StronglySorted lt (l ++ [x]).
Proof.
  induction 1 as [|y l _ IH Hy]; intros Hx; [by repeat constructor|]. apply Forall_cons in Hx as [Hyx Hx]. cbn.
  constructor; [by apply IH|]. apply Forall_app. split; [done|by constructor].
Qed.

Lemma remove_length (i : nat) (l : list nat) : NoDup l → i ∈ l → length l = S (length (filter (λ j, j ≠ i) l)).
Proof.
  intros Hn Hi. assert (l ≡ₚ i :: filter (λ j, j ≠ i) l) as Hp; [|by rewrite Hp at 1].
  apply NoDup_Permutation; [done| |].
  - constructor; [rewrite list_elem_of_filter; naive_solver|by apply NoDup_filter].
  - intros x. rewrite elem_of_cons, list_elem_of_filter. destruct (decide (x = i)); naive_solver.
Qed.

Lemma remove_absent (i : nat) (l : list nat) : i ∉ l → filter (λ j, j ≠ i) l = l.
Proof. intros Hi. induction l as [|x l IH]; [done|]. rewrite filter_cons. rewrite decide_True by set_solver. rewrite IH by set_solver. done. Qed.

(** What is left before the next toast is promoted. *)
Record pre (k d : nat) (s : state) : Prop := {
  p_visible : StronglySorted lt (id <$> visible s);
  p_timers : NoDup (timers s).*1;
  p_shown : Forall (λ i, i ≤ k)%nat (timers s).*1;
  p_pending : id <$> visible s ⊆ (timers s).*1;
  p_stale : (length (stale s) ≤ d)%nat;
  p_bound : (length (visible s) + length (stale s) ≤ 2 + d)%nat;
}.

Lemma filter_in (P Q : nat → Prop) `{∀ x, Decision (P x)} `{∀ x, Decision (Q x)} (l : list nat) :
  (∀ x, x ∈ l → P x ↔ Q x) → filter P l = filter Q l.
Proof.
  induction l as [|x l IH]; intros Hl; [done|]. rewrite !filter_cons. rewrite IH by set_solver.
  assert (P x ↔ Q x) by (apply Hl; set_solver). repeat case_decide; tauto || done.
Qed.

Lemma stale_snoc t s q : Forall (λ j, j < id t)%nat (timers s).*1 →
  stale (set_timeout t (mkState (nextId s) (visible s ++ [t]) q (timers s))) = stale s.
Proof.
  intros Hlt. unfold stale, set_timeout. cbn [timers visible]. rewrite !fmap_app, filter_app.
  change ([(id t, duration t)].*1) with [id t]. change (id <$> [t]) with [id t].
  rewrite filter_cons, decide_False, filter_nil, app_nil_r by set_solver.
  rewrite Forall_forall in Hlt. apply filter_in. intros x Hx. specialize (Hlt x Hx). rewrite not_elem_of_app.
  split; [naive_solver|]. intros Hn. split; [done|]. intros ->%list_elem_of_singleton. lia.
Qed.

(** A toast with the next id is shown. *)
Lemma toast_shown_next k d t s q :
  pre k d s → id t = S k → id <$> q = seq (S (S k)) (nextId s - S k) → (S k ≤ nextId s)%nat →
  q = [] ∨ (2 ≤ length (visible s))%nat →
  inv (S k) d (set_timeout t (mkState (nextId s) (visible s ++ [t]) q (timers s))).
Proof.
  intros [Hv Hnd Hsh Hp Hst Hb] Ht Hq' Hk Hfull.
  assert (Forall (λ j, j < id t)%nat (timers s).*1) as Hlt by (eapply Forall_impl; [exact Hsh|]; cbn; lia).
  split; [done|done| | | | | | |].
  - cbn. rewrite fmap_app. apply sorted_snoc; [done|]. rewrite Forall_forall in Hlt. apply Forall_forall. intros x Hx. by apply Hlt, Hp.
  - cbn. rewrite fmap_app. cbn. apply NoDup_app. split; [done|]. split; [|apply NoDup_singleton].
    intros x Hx ->%list_elem_of_singleton. rewrite Forall_forall in Hlt. specialize (Hlt _ Hx). lia.
  - cbn. rewrite fmap_app. apply Forall_app. split; [eapply Forall_impl; [exact Hsh|]; cbn; lia|]. constructor; [cbn; lia|done].
  - cbn. rewrite !fmap_app. set_solver.
  - cbn. rewrite length_app. cbn. destruct Hfull as [->|]; [by left|right; lia].
  - by rewrite stale_snoc.
  - rewrite stale_snoc by done. cbn. rewrite length_app. cbn. lia.
Qed.

Lemma stale_elem s x : x ∈ stale s ↔ x ∈ (timers s).*1 ∧ x ∉ id <$> visible s.
Proof. unfold stale. rewrite list_elem_of_filter. tauto. Qed.

Lemma stale_NoDup s : NoDup (timers s).*1 → NoDup (stale s).
Proof. apply NoDup_filter. Qed.

Definition without (i : nat) (ts : list (nat * Z)) (s : state) : state :=
  mkState (nextId s) (filter (λ t, id t ≠ i) (visible s)) (queued s) ts.

(** A toast goes, with its timeout when that is what fired. *)
Lemma pre_without k d s i ts d' :
  inv k d s → NoDup ts.*1 →
  (ts = timers s ∧ i ∈ id <$> visible s ∧ d' = S d) ∨ ((timers s).*1 ≡ₚ i :: ts.*1 ∧ d' = d) →
  pre k d' (without i ts s) ∧ (queued s = [] ∨ (2 ≤ length (visible (without i ts s)))%nat).
Proof.
  intros [Hl Hq Hv Hnd Hsh Hp Hfull Hst Hb] Hts Hcase.
  pose proof (sorted_NoDup _ Hv) as Hvn.
  assert (∀ x, x ∈ ts.*1 → x ∈ (timers s).*1) as Hsub.
  { destruct Hcase as [[-> _]|[Hperm _]]; [done|]. intros x. rewrite Hperm. set_solver. }
  assert (∀ x, x ∈ stale (without i ts s) ↔ x ∈ ts.*1 ∧ (x ∉ id <$> visible s ∨ x = i)) as Hx.
  { intros x. rewrite stale_elem. cbn. rewrite ids_filter, list_elem_of_filter. destruct (decide (x = i)); naive_solver. }
  assert (length (visible (without i ts s)) = length (filter (λ j, j ≠ i) (id <$> visible s))) as Hlen.
  { cbn. by rewrite <- ids_filter, length_fmap. }
  pose proof (length_fmap id (visible s)) as Hlv.
  assert (length (stale (without i ts s)) ≤ d' ∧
          length (visible (without i ts s)) + length (stale (without i ts s)) ≤ 2 + d' ∧
          length (visible s) ≤ 1 + length (visible (without i ts s)))%nat as (H1 & H2 & H3).
  { rewrite Hlen. destruct Hcase as [(-> & Hi & ->)|[Hperm ->]].
    - assert (stale (without i (timers s) s) ≡ₚ i :: stale s) as ->.
      { apply NoDup_Permutation; [by apply stale_NoDup|constructor; [rewrite stale_elem; tauto|by apply stale_NoDup]|].
        intros x. rewrite Hx, elem_of_cons, stale_elem. specialize (Hp i Hi). naive_solver. }
      pose proof (remove_length i _ Hvn Hi). cbn. lia.
    - destruct (decide (i ∈ id <$> visible s)) as [Hi|Hi].
      + assert (stale (without i ts s) ≡ₚ stale s) as ->.
        { apply NoDup_Permutation; [by apply stale_NoDup|by apply stale_NoDup|]. intros x. rewrite Hx, stale_elem, Hperm, elem_of_cons.
          rewrite Hperm in Hnd. apply NoDup_cons in Hnd as [Hni _]. naive_solver. }
        pose proof (remove_length i _ Hvn Hi). lia.
      + assert (stale s ≡ₚ i :: stale (without i ts s)) as Hs.
        { rewrite Hperm in Hnd. apply NoDup_cons in Hnd as [Hni _].
          apply NoDup_Permutation; [apply stale_NoDup; rewrite Hperm; by constructor|constructor; [rewrite Hx; tauto|by apply stale_NoDup]|].
          intros x. rewrite elem_of_cons, Hx, stale_elem, Hperm, elem_of_cons. naive_solver. }
        rewrite (remove_absent i) by done. apply Permutation_length in Hs. rewrite length_cons in Hs. lia. }
  split; [split|]; cbn [visible nextId queued timers without]; try done.
  - rewrite ids_filter. by apply sorted_filter.
  - apply Forall_forall. intros x Hin. rewrite Forall_forall in Hsh. by apply Hsh, Hsub.
  - rewrite ids_filter. intros x [Hne Hin]%list_elem_of_filter. specialize (Hp x Hin).
    destruct Hcase as [[-> _]|[Hperm _]]; [done|]. rewrite Hperm in Hp. set_solver.
  - destruct Hfull as [|Hfull]; [by left|right]. unfold without in H3. cbn in H3. lia.
Qed.

Lemma inv_remove k d s i ts d' :
  inv k d s → NoDup ts.*1 →
  (ts = timers s ∧ i ∈ id <$> visible s ∧ d' = S d) ∨ ((timers s).*1 ≡ₚ i :: ts.*1 ∧ d' = d) →
  ∃ k', (k ≤ k')%nat ∧ inv k' d' (remove i (mkState (nextId s) (visible s) (queued s) ts)).
Proof.
  intros Hs Hts Hcase. destruct (pre_without k d s i ts d' Hs Hts Hcase) as [Hpre Hfull].
  unfold remove. cbn [visible queued nextId timers]. destruct (queued s) as [|t q] eqn:Hq.
  - exists k. split; [done|]. destruct Hpre as [Hv Hnd Hsh Hp Hst Hb]. unfold without in *. rewrite Hq in *. pose proof (i_queue _ _ _ Hs) as Hids. rewrite Hq in Hids.
    split; [apply (i_last _ _ _ Hs)|done..|by left|done|]. cbn [visible] in *. lia.
  - pose proof (i_queue _ _ _ Hs) as Hids. rewrite Hq in Hids. cbn in Hids. destruct (nextId s - k)%nat as [|m] eqn:Hm; [done|].
    injection Hids as Ht Hids. exists (S k). split; [lia|].
    apply (toast_shown_next k d' t (without i ts s) q Hpre Ht); cbn; [|lia|].
    + replace (nextId s - S k)%nat with m by lia. done.
    + right. by destruct Hfull.
Qed.

Lemma inv_weaken k d d' s : inv k d s → (d ≤ d')%nat → inv k d' s.
Proof. intros [] Hd. split; [done..|lia|lia]. Qed.

Lemma inv_add k d m t dur s : inv k d s → ∃ k', (k ≤ k')%nat ∧ inv k' d (add m t dur s).
Proof.
  intros Hs. unfold add. destruct (Nat.leb_spec 3 (length (visible s))) as [H3|H3].
  - exists k. split; [done|]. destruct Hs as [Hl Hq Hv Hnd Hsh Hp Hfull Hst Hb]. split; cbn; [lia| |done..|by right|done|done].
    rewrite fmap_app, Hq. cbn [id fmap list_fmap]. replace (S (nextId s) - k)%nat with (nextId s - k + 1)%nat by lia. rewrite seq_app.
    cbn [seq]. do 2 f_equal. lia.
  - assert (queued s = []) as Hq0 by (destruct (i_full _ _ _ Hs); [done|lia]).
    assert (nextId s = k) as Hk.
    { pose proof (i_queue _ _ _ Hs) as Hq. pose proof (i_last _ _ _ Hs). rewrite Hq0 in Hq. destruct (nextId s - k)%nat eqn:He; [lia|done]. }
    exists (S k). split; [lia|]. set (toast := mkToast _ _ _ _). rewrite Hq0.
    apply (toast_shown_next k d toast (mkState (S (nextId s)) (visible s) [] (timers s)) []); cbn; [|by rewrite Hk|by rewrite Hk, Nat.sub_diag|lia|by left].
    destruct Hs as [Hl Hq Hv Hnd Hsh Hp Hfull Hst Hb]. split; try done. unfold stale in *. cbn [visible timers] in *. lia.
Qed.

Lemma toast_inv_step k d s e : inv k d s → ∃ k', (k ≤ k')%nat ∧ inv k' (d + dismissals [e]) (step s e).
Proof.
  intros Hs. destruct e as [m t dur|i|n]; cbn [step].
  - replace (d + dismissals [Add m t dur])%nat with d by (cbn; lia). by apply inv_add.
  - replace (d + dismissals [Dismiss i])%nat with (S d) by (cbn; lia). case_decide as Hi.
    + destruct (inv_remove k d s i (timers s) (S d) Hs (i_timers _ _ _ Hs) ltac:(by left)) as (k' & Hk & H1).
      exists k'. split; [done|]. by destruct s.
    + exists k. split; [done|]. eapply inv_weaken; [exact Hs|lia].
  - replace (d + dismissals [Timeout n])%nat with d by (cbn; lia).
    destruct (timers s !! n) as [[i dur]|] eqn:Hn; [|by exists k].
    assert ((timers s).*1 ≡ₚ i :: (delete n (timers s)).*1) as Hperm by by rewrite (delete_Permutation _ _ _ Hn) at 1.
    apply (inv_remove k d); [exact Hs| |by right].
    pose proof (i_timers _ _ _ Hs) as Hnd. rewrite Hperm in Hnd. by apply NoDup_cons in Hnd as [_ ?].
Qed.

Lemma toast_inv_after es : ∀ k d s, inv k d s → ∃ k', (k ≤ k')%nat ∧ inv k' (d + dismissals es) (after s es).
Proof.
  induction es as [|e es IH]; intros k d s Hs; [exists k; by rewrite Nat.add_0_r|].
  destruct (toast_inv_step k d s e Hs) as (k1 & Hk1 & H1). destruct (IH _ _ _ H1) as (k2 & Hk2 & H2). exists k2. split; [lia|].
  replace (d + dismissals (e :: es))%nat with (d + dismissals [e] + dismissals es)%nat; [done|].
  unfold dismissals. cbn. destruct (is_dismiss e); cbn; lia.
Qed.

Lemma inv_init : inv 0 0 init.
Proof. split; cbn; try done; try lia; by constructor. Qed.

(** Notifications are shown in the order they were added and none is skipped: at any time those
    shown so far are the first ones, those waiting are the rest in order, every visible one has a
    timeout that will remove it, and one waits only while three are visible.  Without dismissals at
    most three are visible; every dismissal lets one more be. *)
Theorem toasts_in_order es :
  let s := after init es in
  ∃ k, (k ≤ nextId s)%nat ∧ id <$> queued s = seq (S k) (nextId s - k) ∧
    StronglySorted lt (id <$> visible s) ∧ Forall (λ t, id t ≤ k)%nat (visible s) ∧
    id <$> visible s ⊆ (timers s).*1 ∧ (queued s = [] ∨ (3 ≤ length (visible s))%nat) ∧
    (length (visible s) ≤ 3 + dismissals es)%nat.
Proof.
  cbv zeta. destruct (toast_inv_after es 0 0 init inv_init) as (k & _ & [Hl Hq Hv Hnd Hsh Hp Hfull Hst Hb]).
  exists k. split_and!; [done|done|done| |done|done|cbn in Hb; lia].
  apply Forall_forall. intros t Ht. rewrite Forall_forall in Hsh. apply Hsh, Hp. by apply list_elem_of_fmap_2.
Qed.

(** The timeout of a dismissed toast promotes another one when it fires: here four are visible. *)
Example dismissed_timeout_promotes :
  let adds := replicate 6 (Add "saved" success None) in
  id <$> visible (after init (adds ++ [Dismiss 1; Timeout 0])) = [2; 3; 4; 5]%nat.
Proof. reflexivity. Qed.

(** Firing every pending timeout, first one first, as often as there are toasts. *)
Lemma all_close n : ∀ k d s, inv k d s → (length (timers s) + length (queued s) ≤ n)%nat →
  let s' := after s (replicate n (Timeout 0)) in visible s' = [] ∧ queued s' = [] ∧ timers s' = [].
Proof.
  induction n as [|n IH]; intros k d s Hs Hn.
  - assert (timers s = [] ∧ queued s = []) as [Ht Hq] by (destruct (timers s), (queued s); cbn in Hn; lia || done).
    split_and!; [|done|done]. cbn. pose proof (i_pending _ _ _ Hs) as Hp. rewrite Ht in Hp.
    destruct (visible s) as [|t v]; [done|]. exfalso. by apply (not_elem_of_nil (id t)), Hp, list_elem_of_here.
  - cbn [replicate]. change (after s (Timeout 0 :: ?l)) with (after (step s (Timeout 0)) l).
    destruct (toast_inv_step k d s (Timeout 0) Hs) as (k' & _ & H1). eapply IH; [exact H1|]. cbn [step].
    destruct (timers s) as [|[i dur] ts] eqn:Ht; cbn.
    + destruct (queued s) eqn:Hq; [cbn; rewrite Ht; cbn; lia|]. exfalso.
      destruct (i_full _ _ _ Hs) as [H0|H3]; [congruence|]. pose proof (i_pending _ _ _ Hs) as Hp. rewrite Ht in Hp.
      destruct (visible s) as [|t0 v]; [cbn in H3; lia|]. by apply (not_elem_of_nil (id t0)), Hp, list_elem_of_here.
    + unfold remove. cbn. cbn in Hn. destruct (queued s) as [|t q]; cbn in *; [lia|]. rewrite length_app. cbn. lia.
Qed.

(** Every notification goes away: once no more are added, as many timeouts as are pending or
    waiting to be set empty the screen and the queue. *)
Theorem toasts_close es :
  let s := after init es in let n := (length (timers s) + length (queued s))%nat in
  let s' := after s (replicate n (Timeout 0)) in visible s' = [] ∧ queued s' = [] ∧ timers s' = [].
Proof. intros s n. destruct (toast_inv_after es 0 0 init inv_init) as (k & _ & Hs). by eapply all_close. Qed.

End Toasts.

(** ** Keyboard shortcuts *)

Module Shortcuts.

(** A key press, with what the handler reads of the document: whether the focus is in a text field,
    the number of items of the list and which of them holds the focus, whether there is an
    organisation selector and a search field. *)
Record press := mkPress {
  key : string; modified : bool; typing : bool;
  items : nat; focused : option nat; org_selector : bool; search : bool }.

Inductive effect :=
  | FocusItem (i : nat) | FocusOrgSelector | FocusSearch
  | onEscape | onEnter (i : nat) | onHelp | onOrgSelector.

(** [pendingGRef] with the time its timer fires. *)
Definition pending := option Z.

(** [moveFocus(direction)]. *)
Definition moveFocus (direction : Z) (p : press) : list effect :=
  if (items p =? 0)%nat then [] else
  let last := Z.of_nat (items p) - 1 in
  let nextIndex :=
    match focused p with
    | None => if direction =? 1 then 0 else last
    | Some i => Z.max 0 (Z.min last (Z.of_nat i + direction))
    end in
  [FocusItem (Z.to_nat nextIndex)].

Definition is_key (ks : list string) (p : press) : bool := bool_decide (key p ∈ ks).

(** The [switch] of [handleKeyDown], after the pending G has been cleared. *)
Definition plain_key (t : Z) (p : press) : list effect * pending :=
  if is_key ["j"; "J"] p then (moveFocus 1 p, None)
  else if is_key ["k"; "K"] p then (moveFocus (-1) p, None)
  else if is_key ["Enter"] p then (match focused p with Some i => [onEnter i] | None => [] end, None)
  else if is_key ["Escape"] p then ([onEscape], None)
  else if is_key ["/"] p then (if search p then [FocusSearch] else [], None)
  else if is_key ["g"; "G"] p then ([], Some (t + 1000))
  else if is_key ["?"] p then ([onHelp], None)
  else ([], None).

Definition handleKeyDown (t : Z) (p : press) (s : pending) : list effect * pending :=
  if modified p then ([], s)
  else if typing p then if is_key ["Escape"] p then ([onEscape], None) else ([], s)
  else match s with
  | Some _ => if is_key ["o"; "O"] p then ([if org_selector p then FocusOrgSelector else onOrgSelector], None)
              else plain_key t p
  | None => plain_key t p
  end.

(** What happens, each with its time; [Rerender] is a render with other callbacks, which clears the
    pending G as it takes the listener away. *)
Inductive event := Press (p : press) | Rerender.

(** The timer of the pending G fires before what happens at its time or later. *)
Definition expire (t : Z) (s : pending) : pending :=
  match s with Some at_ => if at_ <=? t then None else s | None => None end.

Definition step (s : pending) (te : Z * event) : list effect * pending :=
  match te.2 with
  | Press p => handleKeyDown te.1 p (expire te.1 s)
  | Rerender => ([], None)
  end.

Fixpoint run (s : pending) (es : list (Z * event)) : list effect * pending :=
  match es with
  | [] => ([], s)
  | e :: es' => let '(f, s1) := step s e in let '(fs, s2) := run s1 es' in (f ++ fs, s2)
  end.

(** *** A specification over the history *)

(** The keys the hook takes part in: pressed without a modifier and not into a text field, but for
    Escape. *)
Definition heard (e : event) : bool :=
  match e with
  | Press p => negb (modified p) && (negb (typing p) || is_key ["Escape"] p)
  | Rerender => true
  end.
Definition is_g (e : event) : bool :=
  match e with Press p => negb (typing p) && is_key ["g"; "G"] p | Rerender => false end.

(** A G is pending when the last event heard was one, less than a second ago. *)
Definition g_pending (now : Z) (history : list (Z * event)) : bool :=
  match last (filter (λ te, heard te.2 = true) history) with
  | Some (t, e) => is_g e && (now <? t + 1000)
  | None => false
  end.

Definition increasing (es : list (Z * event)) : Prop := StronglySorted Z.le es.*1.

Lemma plain_pending t p : (plain_key t p).2 = if is_key ["g"; "G"] p then Some (t + 1000) else None.
Proof.
  unfold plain_key, is_key. repeat case_bool_decide; cbn; try done; set_unfold; intuition congruence.
Qed.

Lemma handle_pending t p s : modified p = false → typing p = false →
  (handleKeyDown t p s).2 = if is_key ["g"; "G"] p then Some (t + 1000) else None.
Proof.
  intros Hm Ht. unfold handleKeyDown. rewrite Hm, Ht. destruct s; [|by rewrite plain_pending].
  destruct (is_key ["o"; "O"] p) eqn:Ho; [|by rewrite plain_pending]. cbn.
  apply bool_decide_eq_true in Ho. unfold is_key. rewrite bool_decide_false; [done|]. set_unfold. intuition congruence.
Qed.

(** What is pending after a history, once what has expired by [now] is gone. *)
Lemma run_app a : ∀ b s, run s (a ++ b) = ((run s a).1 ++ (run (run s a).2 b).1, (run (run s a).2 b).2).
Proof.
  induction a as [|e a IH]; intros b s; [cbn; by destruct (run s b)|]. cbn [app run].
  destruct (step s e) as [f s1]. rewrite IH. destruct (run s1 a) as [f1 s2]. cbn. by rewrite <- app_assoc.
Qed.

Lemma step_pending s t e :
  (step s (t, e)).2 = if heard e then (if is_g e then Some (t + 1000) else None) else expire t s.
Proof.
  destruct e as [p|]; [|done]. unfold step, heard, is_g. cbn. destruct (modified p) eqn:Hm; cbn [negb andb].
  { unfold handleKeyDown. by rewrite Hm. }
  destruct (typing p) eqn:Ht; cbn [negb andb orb]; [|by apply handle_pending].
  unfold handleKeyDown. rewrite Hm, Ht. by destruct (is_key ["Escape"] p).
Qed.

Lemma pending_after es : ∀ now, increasing (es ++ [(now, Rerender)]) →
  bool_decide (is_Some (expire now (run None es).2)) = g_pending now es.
Proof.
  induction es as [|[t e] es IH] using rev_ind; intros now Hi; [done|].
  assert (t ≤ now ∧ increasing (es ++ [(now, Rerender)])) as [Ht Hes].
  { unfold increasing in *. rewrite !fmap_app in *. cbn in *. rewrite <- app_assoc in Hi.
    apply StronglySorted_app in Hi as (Hx & Hl & Hr). cbn in *. split.
    - inv Hr. by match goal with H : Forall _ [now] |- _ => inv H end.
    - apply StronglySorted_app. split; [intros; apply Hx; set_solver|]. split; [done|repeat constructor]. }
  rewrite run_app. cbn [run]. pose proof (step_pending (run None es).2 t e) as Hs.
  destruct (step (run None es).2 (t, e)) as [f s1]. cbn in Hs |- *. subst s1. unfold g_pending.
  rewrite filter_app, filter_cons, filter_nil. cbn [snd]. destruct (heard e) eqn:He.
  - rewrite decide_True, last_snoc by done. destruct (is_g e); [|done]. cbn. destruct (Z.leb_spec (t + 1000) now).
    + rewrite bool_decide_false by (by intros [? ?]). lia.
    + rewrite bool_decide_true by eauto. lia.
  - rewrite decide_False, app_nil_r by done. specialize (IH now Hes). unfold g_pending in IH. rewrite <- IH. f_equal.
    destruct (run None es).2 as [at_|]; [|done]. cbn. destruct (Z.leb_spec at_ t); [|done].
    rewrite (proj2 (Z.leb_le _ _)) by lia. done.
Qed.

Lemma moveFocus_bounds d p i : (d = 1 ∨ d = -1) → FocusItem i ∈ moveFocus d p →
  (i < items p)%nat ∧ ∀ j, focused p = Some j → (j < items p)%nat → (j ≤ i + 1 ∧ i ≤ j + 1)%nat.
Proof.
  intros Hd. unfold moveFocus. destruct (Nat.eqb_spec (items p) 0) as [|Hn]; [set_solver|].
  intros [= ->]%list_elem_of_singleton. split.
  - destruct (focused p) as [k|]; [lia|]. destruct Hd as [->| ->]; cbn; lia.
  - intros j -> Hj. lia.
Qed.

Definition opens_orgs (fx : list effect) : Prop := FocusOrgSelector ∈ fx ∨ onOrgSelector ∈ fx.

Lemma plain_effects t p :
  let fx := (plain_key t p).1 in ¬ opens_orgs fx ∧
  ∀ i, FocusItem i ∈ fx → (i < items p)%nat ∧ ∀ j, focused p = Some j → (j < items p)%nat → (j ≤ i + 1 ∧ i ≤ j + 1)%nat.
Proof.
  assert (∀ d, ¬ opens_orgs (moveFocus d p)) as Hm by (intros d; unfold opens_orgs, moveFocus; case_match; set_solver).
  unfold plain_key. repeat (case_match; cbn; [try (split; [done || (unfold opens_orgs; set_solver)|
    first [intros i; apply moveFocus_bounds; by auto | set_solver]])|]); try done.
  all: split; [unfold opens_orgs; set_solver|set_solver].
Qed.

(** The keyboard shortcuts, over any history of presses, timers and renders: the organisation
    selector is opened exactly by an O, without a modifier and outside a text field, when the last
    event the hook took part in was a G less than a second before; J and K move the focus to an item
    of the list, the next or previous one, and stay at its ends; and while the user types nothing
    but Escape has an effect. *)
Theorem shortcuts_spec now es p :
  increasing (es ++ [(now, Rerender)]) →
  let fx := (step (run None es).2 (now, Press p)).1 in
  (opens_orgs fx ↔ modified p = false ∧ typing p = false ∧ is_key ["o"; "O"] p = true ∧ g_pending now es = true) ∧
  (∀ i, FocusItem i ∈ fx → (i < items p)%nat ∧
    ∀ j, focused p = Some j → (j < items p)%nat → (j ≤ i + 1 ∧ i ≤ j + 1)%nat) ∧
  (typing p = true → fx ⊆ [onEscape]).
Proof.
  intros Hi fx. pose proof (pending_after es now Hi) as Hp. subst fx. unfold step. cbn [fst snd]. unfold handleKeyDown.
  destruct (modified p); [cbn; unfold opens_orgs; set_solver|].
  destruct (typing p); [destruct (is_key ["Escape"] p); cbn; unfold opens_orgs; set_solver|].
  destruct (plain_effects now p) as [Hno Hitem].
  destruct (expire now (run None es).2) as [at_|].
  - rewrite bool_decide_true in Hp by eauto. destruct (is_key ["o"; "O"] p) eqn:Ho.
    + split; [split; [done|]|split; [|done]]; [intros _|destruct (org_selector p); cbn; set_solver].
      destruct (org_selector p); cbn; unfold opens_orgs; set_solver.
    + split; [|done]. split; [by intros ?|naive_solver].
  - rewrite bool_decide_false in Hp by (by intros [? ?]). split; [|done]. split; [by intros ?|]. intros (_ & _ & _ & H). congruence.
Qed.

Definition press_key (k : string) : event := Press (mkPress k false false 3 (Some 2%nat) false true).

Lemma shortcuts_spec_witness :
  let p := mkPress "o" false false 3 (Some 2%nat) false true in
  let es := [(0, press_key "j"); (100, press_key "G")] in
  opens_orgs (step (run None es).2 (900, Press p)).1 /\ ~ opens_orgs (step (run None es).2 (1100, Press p)).1.
Proof.
  split.
  - apply (shortcuts_spec 900 [(0, press_key "j"); (100, press_key "G")]); [repeat constructor; done|repeat split; reflexivity].
  - intros H. apply (shortcuts_spec 1100 [(0, press_key "j"); (100, press_key "G")]) in H as (_ & _ & _ & H); [|repeat constructor; done].
    vm_compute in H. discriminate H.
Defined.

End Shortcuts.
