(* ===== verification/DashboardPage.v ===== *)
(** * The dashboard page ([frontend/src/pages/DashboardPage.tsx])

    The gauges ([components/Gauge.tsx], [design-system/Gauge.tsx]) with their bands and
    percentages, the list of applications with its hook, and the whole page: its two requests,
    the withdrawal (TxFlows), its notifications (Widgets), its buttons and everything it
    shows, composed with the two contributor routes it reads.  Numbers are exact fractions;
    the geometry of the drawings and the animation are left out. *)

From Stdlib Require Import String.
From S2P Require Import Prelude Js Decimal Url Http Db Contributors Browser Client TxFlows Widgets.

#[local] Open Scope string_scope.
#[local] Open Scope list_scope.
#[local] Open Scope Z_scope.

(** ** Gauges *)

Module Gauge.

(** [v / max] for a number [max]: [NaN], an infinity, or the fraction [n / d] with [0 < d]. *)
Inductive quot := QNaN | QInf (neg : bool) | Q (n d : Z).

Definition to_number (v : json) : numval :=
  match v with
  | JNull => NumDec 0 0
  | JBool b => NumDec (if b then 1 else 0) 0
  | JNum m k => NumDec m (- Z.of_nat k)
  | _ => js_Number (js_String v)
  end.

Definition quotient (v : json) (max : Z) : quot :=
  match to_number v with
  | NumNaN => QNaN
  | NumInf neg => QInf neg
  | NumDec m e => if 0 <=? e then Q (m * 10 ^ e) max else Q m (max * 10 ^ (- e))
  end.

(** [x <= p / q] and [x < p / q]; every comparison with [NaN] is false. *)
Definition q_le (x : quot) (p q : Z) : bool :=
  match x with QNaN => false | QInf neg => neg | Q n d => n * q <=? p * d end.
Definition q_lt (x : quot) (p q : Z) : bool :=
  match x with QNaN => false | QInf neg => neg | Q n d => n * q <? p * d end.

(** [max > 0 ? Math.min(Math.max(value / max, 0), 1) : 0]. *)
Definition ratio (value : json) (max : Z) : quot :=
  if 0 <? max then
    match quotient value max with
    | QNaN => QNaN
    | x => if q_le x 0 1 then Q 0 1 else if q_le x 1 1 then x else Q 1 1
    end
  else Q 0 1.

Definition gaugeColor (x : quot) : string :=
  if q_le x 1 2 then "var(--color-success-500)"
  else if q_le x 4 5 then "var(--color-warning-500)" else "var(--color-error-500)".

Definition gaugeColorClass (x : quot) : string :=
  if q_le x 1 2 then "gauge--green" else if q_le x 4 5 then "gauge--yellow" else "gauge--red".

(** [Math.round(ratio * 100)], [None] for [NaN]; a ratio is finite.  The fraction is exact;
    no count lies in the middle of two percentages of the cap in use, 15, where a double
    could make a difference. *)
Definition pct (x : quot) : option Z :=
  match x with Q n d => Some ((200 * n + d) / (2 * d)) | _ => None end.

Definition print_pct (p : option Z) : string :=
  match p with Some z => pretty z | None => "NaN" end +:+ "%".

(** What is drawn: the colour, the share of the arc that is filled, if any, the two texts and
    the label read aloud. *)
Record view := mkView {
  v_class : string; v_fill : option (quot * string); v_pct : string; v_value : string;
  v_aria : string; v_label : option string; v_tooltip : option string;
}.

Definition render (value : json) (max : Z) (label tooltip : option string) : view :=
  let x := ratio value max in
  let text := js_String value +:+ " of " +:+ pretty max in
  mkView (gaugeColorClass x)
    (if match x with Q n _ => 0 <? n | _ => false end then Some (x, gaugeColor x) else None)
    (print_pct (pct x)) (js_String value +:+ "/" +:+ pretty max)
    match filled label with Some l => l +:+ ": " +:+ text | None => text end
    (filled label) (filled tooltip).

(** The gauge of the design system, for integers and [0 <= max]: its clamped value, its colour
    and its label. *)
Definition ds_clamped (value max : Z) : Z := Z.min (Z.max value 0) max.
Definition ds_colour (value max : Z) : string :=
  let x := Q (ds_clamped value max) max in
  if negb (q_le x 4 5) then "var(--gauge-danger, #ef4444)"
  else if negb (q_le x 1 2) then "var(--gauge-warn, #f59e0b)" else "var(--gauge-ok, #22c55e)".
Definition ds_label (value max : Z) (label aria : option string) : string :=
  match aria with
  | Some a => a
  | None => default "Progress" label +:+ ": " +:+ pretty (ds_clamped value max) +:+ " of " +:+ pretty max
  end.

End Gauge.

(** ** The list of applications *)

Module Applications.

(** [useApplications]: what [setApplications] was given last, array or not. *)
Record state := mkState { applications : json; loading : bool; error : option string }.
Definition initial : state := mkState (JArr []) false None.

Definition url (p : Dashboard.params) : string :=
  Dashboard.apiBase p +:+ "/contributors/" +:+
  encodeURIComponent (default "null" (Dashboard.address p)) +:+ "/applications".

Definition decode (r : reply) : outcome json :=
  match r with
  | Rejected e => Throw e
  | Answered code body =>
      if negb (ok code) then Throw (Error ("Failed to fetch applications: " +:+ pretty code))
      else match body with Some v => Ret v | None => Throw bad_json end
  end.

(** The reply, with the [finally] that follows it at once. *)
Definition receive (r : reply) (s : state) : state :=
  match decode r with
  | Ret v => mkState v false (error s)
  | Throw e => mkState (applications s) false (Some (error_message "Unknown error" e))
  end.

Definition useApplications : hook Dashboard.params reply state :=
  Hook false (λ p, match filled (Dashboard.address p) with Some _ => true | None => false end) id
    (λ _ s, mkState (applications s) true None) (λ _, receive) id.

(** An answer that is no array has no row to withdraw. *)
Definition removeApplication (issueId : string) (s : state) : state :=
  match applications s with
  | JArr l => mkState (JArr (Withdraw.removeApplication issueId l)) (loading s) (error s)
  | _ => s
  end.

(** [applications.length]. *)
Definition length_of (v : json) : outcome (option json) :=
  match v with
  | JNull => Throw (null_property "length")
  | JArr l => Ret (Some (jint (zlen l)))
  | JStr s => Ret (Some (jint (strlen s)))
  | _ => Ret (prop "length" v)
  end.

(** The rows that are drawn: none if the length is 0, else what [applications.map] goes over. *)
Definition rows (v : json) : outcome (list json) :=
  match length_of v with
  | Throw e => Throw e
  | Ret n =>
      match v with
      | JArr l => Ret l
      | _ => if match n with Some n => strict_eq n (jint 0) | None => false end then Ret []
             else Throw (ErrorObj "TypeError" "applications.map is not a function")
      end
  end.

End Applications.

(** ** The page *)

Module Page.
Import Dashboard.

(** An organisation's card: its name, whether it is marked, the count, the colour and width of
    its bar, and the pending applications. *)
Record card := mkCard {
  c_org : option json; c_warning : bool; c_count : string; c_color : string;
  c_width : Gauge.quot; c_pending : json;
}.

Definition barColor (x : Gauge.quot) : string :=
  if Gauge.q_lt x 67 100 then "var(--color-success-500)"
  else if Gauge.q_lt x 93 100 then "var(--color-warning-500)" else "var(--color-error-500)".

(** The width as a share: [Math.min(assignments / ORG_CAP * 100, 100)]%. *)
Definition width (x : Gauge.quot) : Gauge.quot :=
  match x with
  | Gauge.QNaN => Gauge.QNaN
  | _ => if Gauge.q_le x 1 1 then x else Gauge.Q 1 1
  end.

Definition OrgCard (u : OrgUsage) : card :=
  let assignRatio := Gauge.quotient (assignments u) ORG_CAP in
  mkCard (org_id u) (at_least 3 (assignments u))
    (js_String (assignments u) +:+ " / " +:+ pretty ORG_CAP)
    (barColor assignRatio) (width assignRatio) (applications u).

(** The row of an application: the texts of its button. *)
Record row := mkRow {
  r_target : Withdraw.target; r_disabled : bool; r_busy : bool; r_button : string; r_aria : string;
}.

Definition withdrawing (w : Withdraw.state) (a : json) : bool :=
  Withdraw.loading w &&
  match Withdraw.pendingTarget w with
  | Some t => String.eqb (Withdraw.issueId t) (Withdraw.issueId (Withdraw.row_target a)) &&
              String.eqb (Withdraw.orgId t) (Withdraw.orgId (Withdraw.row_target a))
  | None => false
  end.

Definition isAssigned (a : json) : bool :=
  match prop "status" a with Some (JStr s) => String.eqb s "assigned" | _ => false end.

Definition ApplicationRow (w : Withdraw.state) (a : json) : outcome row :=
  match a with
  | JNull => Throw (null_property "org_id")
  | _ =>
      let title := Withdraw.issueTitle (Withdraw.row_target a) in
      let busy := withdrawing w a in
      Ret (mkRow (Withdraw.row_target a) (busy || isAssigned a) busy
        (if busy then "Withdrawing…" else if isAssigned a then "Assigned" else "Withdraw")
        (if isAssigned a then "Cannot withdraw: issue " +:+ title +:+ " is already assigned"
         else "Withdraw application for: " +:+ title))
  end.

(** The page: the key of the wallet, the counts, the list, the withdrawal and the
    notifications. *)
Record state := mkState {
  key : option string;
  counts : component params (reply * Z) Dashboard.state;
  apps : component params reply Applications.state;
  withdraw : Withdraw.state;
  toasts : Toasts.state;
}.

(** The wallet answers a connection; the button to refresh; the button of the [n]-th row; the
    dialog and the answers a withdrawal waits for; the replies of the two requests; the
    notifications.  A wallet that is connected stays: the page then offers no connection. *)
Inductive event :=
  | Connected (k : string)
  | ClickRefresh
  | ClickWithdraw (n : nat)
  | Dialog (e : Withdraw.event)
  | CountsReply (i : nat) (r : reply * Z)
  | AppsReply (i : nat) (r : reply)
  | Toast (e : Toasts.event).

Section page.
Variables (base : string) (freighter : bool).

Definition request (k : option string) : params := mkParams base k.

(** [refresh] and [reload]. *)
Definition refresh (k : option string) (s : state) : state :=
  mkState k (step useDashboard (counts s) (Render (request k))) (apps s) (withdraw s) (toasts s).
Definition reload (k : option string) (s : state) : state :=
  mkState k (counts s) (step Applications.useApplications (apps s) (Render (request k)))
    (withdraw s) (toasts s).

Definition addToast (m : string) (t : Toasts.ToastType) (s : state) : state :=
  mkState (key s) (counts s) (apps s) (withdraw s) (Toasts.add m t None (toasts s)).

Definition remove_row (issueId : string) (s : state) : state :=
  mkState (key s) (counts s)
    (Component (Applications.removeApplication issueId (shown (apps s))) (runs (apps s)))
    (withdraw s) (toasts s).

(** [onSuccess] and [onError]; the other calls of a withdrawal are requests. *)
Definition callback (s : state) (c : Withdraw.call) : state :=
  match c with
  | Withdraw.OnSuccess issueId =>
      refresh (key s)
        (addToast "Application withdrawn successfully. Your cap count has been decremented."
           Toasts.success (remove_row issueId s))
  | Withdraw.OnError msg => addToast ("Withdraw failed: " +:+ msg) Toasts.error s
  | _ => s
  end.

(** A step of the withdrawal, and the callbacks it makes. *)
Definition withdrawal (e : Withdraw.event) (s : state) : state :=
  let w := Withdraw.step (key s) freighter (withdraw s) e in
  fold_left callback (drop (length (Withdraw.calls (withdraw s))) (Withdraw.calls w))
    (mkState (key s) (counts s) (apps s) w (toasts s)).

Definition open_page (k : option string) : state :=
  reload k (refresh k (mkState k (mount Dashboard.initial) (mount Applications.initial)
                         Withdraw.initial Toasts.init)).

(** The rows with a button: none while the list is loading. *)
Definition buttons (s : state) : list json :=
  let a := shown (apps s) in
  if Applications.loading a then []
  else match Applications.rows (Applications.applications a) with Ret l => l | Throw _ => [] end.

Definition isLoading (s : state) : bool :=
  match fetch_state (shown (counts s)) with loading => true | _ => false end.

Definition step (s : state) (e : event) : state :=
  match filled (key s), e with
  | None, Connected k => reload (Some k) (refresh (Some k) s)
  | None, _ => s
  | Some _, Connected _ => s
  | Some _, ClickRefresh => if isLoading s then s else reload (key s) (refresh (key s) s)
  | Some _, ClickWithdraw n =>
      match buttons s !! n with
      | Some a => if withdrawing (withdraw s) a || isAssigned a then s
                  else withdrawal (Withdraw.Initiate (Withdraw.row_target a)) s
      | None => s
      end
  | Some _, Dialog (Withdraw.Initiate _) => s
  | Some _, Dialog e => withdrawal e s
  | Some _, CountsReply i r =>
      mkState (key s) (Client.step useDashboard (counts s) (Reply i r)) (apps s) (withdraw s) (toasts s)
  | Some _, AppsReply i r =>
      mkState (key s) (counts s) (Client.step Applications.useApplications (apps s) (Reply i r))
        (withdraw s) (toasts s)
  | Some _, Toast (Toasts.Add _ _ _) => s
  | Some _, Toast e => mkState (key s) (counts s) (apps s) (withdraw s) (Toasts.step (toasts s) e)
  end.

Definition after (k : option string) (es : list event) : state := fold_left step es (open_page k).

End page.

(** *** What the page shows *)

Inductive gauge_area := NoGauge | GaugeSkeleton | ShowGauge (v : Gauge.view).
Inductive cards_area := NoCards | CardsSkeleton | Cards (l : list card).
Inductive rows_area := RowsSkeleton | NoApplications | Rows (l : list row).

Record view := mkView {
  v_updated : option Z;
  v_refresh : bool;                         (** the button to refresh is enabled *)
  v_warning : option string;
  v_error : option string;
  v_gauge : gauge_area;
  v_cards : cards_area;
  v_pending : option json;                  (** the number in the heading *)
  v_apps_error : option string;
  v_rows : rows_area;
  v_dialog : option Withdraw.target;
  v_dialog_busy : bool;
  v_toasts : list Toasts.Toast;
}.

Inductive shown_page := ConnectWallet | Dashboard (v : view).

Definition warning_text (d : DashboardData) : string :=
  "You are approaching your cap limits. You have " +:+ js_String (globalApplicationCount d) +:+
  " / " +:+ pretty GLOBAL_CAP +:+ " global applications pending" +:+
  (if existsb (λ o, at_least 3 (assignments o)) (orgUsage d)
   then " and at least one org is at 3+ active assignments" else "") +:+
  ". Withdraw or complete work to free capacity.".

Definition tooltip : string :=
  "You may have at most " +:+ pretty GLOBAL_CAP +:+ " pending applications across all organisations.".

(** The gauge and the cards: of the data, or a placeholder while it first loads. *)
Definition gauge_of (busy : bool) (d : option DashboardData) : gauge_area :=
  match d with
  | Some d => ShowGauge (Gauge.render (globalApplicationCount d) GLOBAL_CAP (Some "Applications") (Some tooltip))
  | None => if busy then GaugeSkeleton else NoGauge
  end.
Definition cards_of (busy : bool) (d : option DashboardData) : cards_area :=
  match d with
  | Some d => Cards (OrgCard <$> orgUsage d)
  | None => if busy then CardsSkeleton else NoCards
  end.

Definition rows_of (w : Withdraw.state) (a : Applications.state) : outcome rows_area :=
  if Applications.loading a then Ret RowsSkeleton
  else Withdraw.and_then (Applications.rows (Applications.applications a)) (λ l,
    match l with
    | [] => Ret NoApplications
    | _ => Withdraw.and_then (map_outcome (ApplicationRow w) l) (λ rs, Ret (Rows rs))
    end).

(** The page as it is drawn, or what drawing it throws. *)
Definition render (s : state) : outcome shown_page :=
  match filled (key s) with
  | None => Ret ConnectWallet
  | Some _ =>
      let c := shown (counts s) in
      let a := shown (apps s) in
      Withdraw.and_then (Applications.length_of (Applications.applications a)) (λ n,
      Withdraw.and_then (rows_of (withdraw s) a) (λ rs,
      Ret (Dashboard (mkView (lastRefreshed <$> data c) (negb (isLoading s))
        (if showWarning c then warning_text <$> data c else None)
        (match fetch_state c with
         | error => Some ("Failed to load dashboard: " +:+ default "" (message c) +:+ ". Please try refreshing.")
         | _ => None
         end)
        (gauge_of (isLoading s) (data c)) (cards_of (isLoading s) (data c)) n
        ((λ e, "Failed to load applications: " +:+ e) <$> filled (Applications.error a))
        rs (Withdraw.pendingTarget (withdraw s)) (Withdraw.loading (withdraw s))
        (Toasts.visible (toasts s))))))
  end.

End Page.

(** ** Gauges: lemmas and theorems *)

Section gauge.
Import Gauge.

Lemma quotient_jint v max : quotient (jint v) max = Q (v * 10 ^ 0) max.
Proof. done. Qed.

(** On a count, the clamped ratio compares with a proper fraction as the count does. *)
Lemma ratio_le v max p q : 0 < max → 0 ≤ p < q → q_le (ratio (jint v) max) p q = (v * q <=? p * max).
Proof.
  intros Hm Hp. unfold ratio. rewrite (proj2 (Z.ltb_lt _ _) Hm), quotient_jint. cbn [q_le].
  rewrite Z.pow_0_r, !Z.mul_1_r, Z.mul_0_l, Z.mul_1_l.
  destruct (Z.leb_spec v 0); [|destruct (Z.leb_spec v max)]; cbn [q_le]; [| |].
  - transitivity true; [apply Z.leb_le; nia|symmetry; apply Z.leb_le; nia].
  - done.
  - transitivity false; [apply Z.leb_gt; lia|symmetry; apply Z.leb_gt; nia].
Qed.

Lemma ratio_bounds v max : 0 < max → ∃ n d, ratio (jint v) max = Q n d ∧ 0 ≤ n ≤ d ∧ 0 < d ∧
  (0 ≤ v ≤ max → n * max = v * d).
Proof.
  intros Hm. unfold ratio. rewrite (proj2 (Z.ltb_lt _ _) Hm), quotient_jint. cbn [q_le].
  rewrite Z.pow_0_r, !Z.mul_1_r, Z.mul_0_l, Z.mul_1_l.
  destruct (Z.leb_spec v 0); [|destruct (Z.leb_spec v max)]; eexists _, _; split_and!; try done; lia.
Qed.

(** A count past the maximum is drawn like the maximum. *)
Lemma ratio_full v max : 0 < max → max < v → ratio (jint v) max = Q 1 1.
Proof.
  intros Hm Hv. unfold ratio. rewrite (proj2 (Z.ltb_lt _ _) Hm), quotient_jint. cbn [q_le].
  rewrite Z.pow_0_r, !Z.mul_1_r, Z.mul_0_l, Z.mul_1_l.
  by rewrite (proj2 (Z.leb_gt _ _)), (proj2 (Z.leb_gt _ _)) by lia.
Qed.

(** The percentage of a count up to the maximum, rounded to the nearest integer. *)
Lemma pct_of v max : 0 ≤ v ≤ max → 0 < max →
  ∃ p, pct (ratio (jint v) max) = Some p ∧ 200 * v - max < 2 * (max * p) ≤ 200 * v + max.
Proof.
  intros Hv Hm. destruct (ratio_bounds v max Hm) as (n & d & -> & Hn & Hd & He). specialize (He Hv).
  eexists. split; [done|].
  assert ((200 * n + d) / (2 * d) = (200 * v + max) / (2 * max)) as ->.
  { rewrite <- (Z.div_mul_cancel_r (200 * n + d) (2 * d) max) by lia.
    rewrite <- (Z.div_mul_cancel_r (200 * v + max) (2 * max) d) by lia.
    f_equal; nia. }
  pose proof (Z.mul_div_le (200 * v + max) (2 * max) ltac:(lia)).
  pose proof (Z.mul_succ_div_gt (200 * v + max) (2 * max) ltac:(lia)). lia.
Qed.

(** The bands in terms of the percentage. *)
Lemma band_of v max p : 0 ≤ v ≤ max → 0 < max ≤ 40 →
  200 * v - max < 2 * (max * p) ≤ 200 * v + max →
  0 ≤ p ≤ 100 ∧ (v * 2 ≤ max ↔ p ≤ 50) ∧ (v * 5 ≤ 4 * max ↔ p ≤ 80).
Proof.
  intros Hv Hm [H1 H2]. split; [assert (max * p < max * 101) by lia; nia|].
  split; split; intros Hc.
  - destruct (Z.le_gt_cases p 50) as [|Hp]; [done|]. assert (max * 51 ≤ max * p) by nia. lia.
  - destruct (Z.le_gt_cases (v * 2) max) as [|Hp]; [done|]. assert (max * p ≤ max * 50) by nia. lia.
  - destruct (Z.le_gt_cases p 80) as [|Hp]; [done|]. assert (max * 81 ≤ max * p) by nia. lia.
  - destruct (Z.le_gt_cases (v * 5) (4 * max)) as [|Hp]; [done|]. assert (max * p ≤ max * 80) by nia. lia.
Qed.

(** For the caps in use, and any up to 40, the colour of a gauge and the percentage printed in
    it agree with the legend, 50 % and less green, 51 to 80 % yellow, more red, whatever the
    count; the percentage never leaves 0 to 100. *)
Theorem gauge_bands v max label tooltip : 0 ≤ v → 0 < max ≤ 40 →
  let g := render (jint v) max label tooltip in
  ∃ p, v_pct g = pretty p +:+ "%" ∧ 0 ≤ p ≤ 100 ∧
    (v_class g = "gauge--green" ↔ p ≤ 50) ∧
    (v_class g = "gauge--yellow" ↔ 51 ≤ p ≤ 80) ∧
    (v_class g = "gauge--red" ↔ 81 ≤ p).
Proof.
  intros Hv Hm g. assert (0 < max) as H0 by lia.
  assert (∃ p, pct (ratio (jint v) max) = Some p ∧ 0 ≤ p ≤ 100 ∧
    (v * 2 ≤ max ↔ p ≤ 50) ∧ (v * 5 ≤ 4 * max ↔ p ≤ 80)) as (p & Hp & Hb & Hg & Hy).
  { destruct (Z.le_gt_cases v max) as [Hle|Hgt].
    - destruct (pct_of v max) as (p & Hp & Hd); [lia..|]. exists p. split; [done|]. by apply band_of.
    - exists 100. rewrite ratio_full by lia. split; [done|]. lia. }
  exists p. unfold g, render. cbn [v_pct v_class]. rewrite Hp. unfold gaugeColorClass.
  rewrite !ratio_le by lia. split; [done|]. split; [done|]. rewrite Z.mul_1_l.
  destruct (Z.leb_spec (v * 2) max), (Z.leb_spec (v * 5) (4 * max)); split_and!; split; intros;
    try done; lia.
Qed.

(** Where the colours change: the gauge of the applications is red from 13, one after the
    warning of the page; a card is marked exactly when its bar is not green. *)
Theorem cap_colours v a : 0 ≤ v →
  let g := ratio (jint v) Dashboard.GLOBAL_CAP in
  let c := Page.OrgCard (Dashboard.mkUsage None (jint a) (jint 0)) in
  gaugeColorClass g = (if v <=? 7 then "gauge--green" else if v <=? 12 then "gauge--yellow" else "gauge--red") ∧
  Page.c_color c = (if a <=? 2 then "var(--color-success-500)"
                    else if a <=? 3 then "var(--color-warning-500)" else "var(--color-error-500)") ∧
  (Page.c_warning c = true ↔ Page.c_color c ≠ "var(--color-success-500)").
Proof.
  intros Hv g c. unfold g, gaugeColorClass. rewrite !ratio_le by (unfold Dashboard.GLOBAL_CAP; lia).
  unfold c, Page.OrgCard, Dashboard.GLOBAL_CAP, Dashboard.ORG_CAP. cbn [Page.c_color Page.c_warning Dashboard.assignments].
  rewrite at_least_jint, quotient_jint. unfold Page.barColor. cbn [q_lt].
  rewrite Z.pow_0_r, Z.mul_1_r.
  replace (v * 2 <=? 1 * 15) with (v <=? 7) by (apply eq_bool_prop_intro; rewrite !Is_true_true, !Z.leb_le; lia).
  replace (v * 5 <=? 4 * 15) with (v <=? 12) by (apply eq_bool_prop_intro; rewrite !Is_true_true, !Z.leb_le; lia).
  replace (a * 100 <? 67 * 4) with (a <=? 2) by (apply eq_bool_prop_intro; rewrite !Is_true_true, Z.leb_le, Z.ltb_lt; lia).
  replace (a * 100 <? 93 * 4) with (a <=? 3) by (apply eq_bool_prop_intro; rewrite !Is_true_true, Z.leb_le, Z.ltb_lt; lia).
  split_and!; [done..|]. destruct (Z.leb_spec 3 a), (Z.leb_spec a 2), (Z.leb_spec a 3); split; intros; try done; lia.
Qed.

End gauge.

(** ** The page over the routes it reads *)

(** What the route knows of an issue. *)
Definition issue_of (d : db) (id : Z) : string * string :=
  match (if in_int4 id then filter (λ i, i_id i = id) (issues d) else []) with
  | i :: _ => (i_title i, i_status i)
  | [] => ("Unknown Issue", "open")
  end.

Definition application_json (date : Z → string) (d : db) (a : application_row) : json :=
  obj [("contributor", Some (JStr (ap_contributor a))); ("org_id", Some (JStr (ap_org_id a)));
       ("issue_id", Some (jint (ap_issue_id a))); ("created_at", Some (JStr (date (ap_created_at a))));
       ("title", Some (JStr (issue_of d (ap_issue_id a)).1));
       ("status", Some (JStr (issue_of d (ap_issue_id a)).2))].

Section routes.
Context {S : Type} `{HasDb S}.
Variable date : Z → string.

Lemma issue_meta_ok id (s : S) :
  issue_meta migrate_schema id (World s []) = (Ret (issue_of (get_db s) id), World s []).
Proof.
  unfold issue_meta, issue_of. destruct (in_int4 id) eqn:E.
  - apply try_Ret. erewrite bind_intro.
    2:{ apply select_ok. unfold unmet. cbn. by rewrite E. }
    by destruct (filter _ _).
  - erewrite try_Throw; [done|]. erewrite bind_throw; [done|]. apply query_unmet.
    unfold unmet. cbn. by rewrite E.
Qed.

Lemma enrich_all_ok {A} (f : A → M S json) g l (s : S) :
  (∀ a, f a (World s []) = (Ret (g a), World s [])) →
  enrich_all f l (World s []) = (Ret (g <$> l), World s []).
Proof.
  intros Hf. unfold enrich_all. set (body := λ (acc : list json) (r : A), _).
  enough (∀ acc, for_fold body acc l (World s []) = (Ret (acc ++ (g <$> l)), World s [])) as H' by apply H'.
  induction l as [|a l IH]; intros acc; cbn [for_fold]; [by rewrite app_nil_r|].
  erewrite bind_intro by (unfold body; erewrite bind_intro by apply Hf; done).
  rewrite IH, fmap_cons. by rewrite <- app_assoc.
Qed.

Lemma get_applications_ok address (s : S) : isValidStellarAddress address = true →
  get_applications migrate_schema date address (World s []) =
    (Ret (send_json 200 (JArr (application_json date (get_db s) <$>
       filter (λ a, ap_contributor a = address) (applications (get_db s))))), World s []).
Proof.
  intros Hv. unfold get_applications, guarded. rewrite Hv. apply try_Ret.
  erewrite bind_intro by (by apply select_ok).
  erewrite bind_intro; [done|]. apply enrich_all_ok. intros a. unfold enriched.
  by erewrite bind_intro by apply issue_meta_ok.
Qed.

End routes.

Section end_to_end.
Import Page.

(** The row the page shows of an application, while nothing is being withdrawn. *)
Definition row_of (d : db) (a : application_row) : row :=
  let '(title, status) := issue_of d (ap_issue_id a) in
  let assigned := String.eqb status "assigned" in
  mkRow (Withdraw.mkTarget (js_String (jint (ap_issue_id a))) title (ap_org_id a)) assigned false
    (if assigned then "Assigned" else "Withdraw")
    (if assigned then "Cannot withdraw: issue " +:+ title +:+ " is already assigned"
     else "Withdraw application for: " +:+ title).

Lemma ApplicationRow_ok date d a :
  ApplicationRow Withdraw.initial (application_json date d a) = Ret (row_of d a).
Proof.
  unfold application_json, row_of. destruct (issue_of d (ap_issue_id a)) as [title status]. cbn [fst snd].
  set (J := obj _).
  assert (isAssigned J = String.eqb status "assigned") as Hs by reflexivity.
  assert (Withdraw.row_target J = Withdraw.mkTarget (js_String (jint (ap_issue_id a))) title (ap_org_id a))
    as Ht by reflexivity.
  change (ApplicationRow Withdraw.initial J) with
    (Ret (mkRow (Withdraw.row_target J) (isAssigned J) false (if isAssigned J then "Assigned" else "Withdraw")
      (if isAssigned J
       then "Cannot withdraw: issue " +:+ Withdraw.issueTitle (Withdraw.row_target J) +:+ " is already assigned"
       else "Withdraw application for: " +:+ Withdraw.issueTitle (Withdraw.row_target J)))).
  by rewrite Hs, Ht.
Qed.

Lemma rows_of_ok date d l e :
  rows_of Withdraw.initial (Applications.mkState (JArr (application_json date d <$> l)) false e) =
    Ret (match l with [] => NoApplications | _ => Rows (row_of d <$> l) end).
Proof.
  unfold rows_of. cbn [Applications.loading Applications.applications Applications.rows Applications.length_of].
  assert (map_outcome (ApplicationRow Withdraw.initial) (application_json date d <$> l) = Ret (row_of d <$> l)) as Hm.
  { induction l as [|a l IH]; [done|]. rewrite !fmap_cons. cbn [map_outcome].
    by rewrite ApplicationRow_ok, IH. }
  destruct l as [|a l]; [done|]. rewrite fmap_cons in Hm. rewrite fmap_cons. cbn [Withdraw.and_then].
  by rewrite Hm.
Qed.

Lemma warning_iff n ls rs now f m :
  Dashboard.showWarning (Dashboard.mkState
    (Some (Dashboard.mkData (jint n) (usage_of <$> breakdown ls rs) now)) f m) = true ↔
  12 ≤ n ∨ ∃ o, 3 ≤ occ o rs.
Proof.
  unfold Dashboard.showWarning. cbn [Dashboard.data Dashboard.globalApplicationCount Dashboard.orgUsage].
  rewrite orb_true_iff, at_least_jint, Z.leb_le. destruct (usages_correct ls rs) as (_ & _ & ->). done.
Qed.

Lemma is_Some_if {A} (b : bool) (x : A) : is_Some (if b then Some x else None) ↔ b = true.
Proof. destruct b; split; (done || by intros []). Qed.

(** The page once both of its first requests have been answered, in either order. *)
Lemma opened_page base fr address c l es : filled (Some address) = Some address →
  es ≡ₚ [CountsReply 0 c; AppsReply 0 l] →
  let s := after base fr (Some address) es in
  let p := request base (Some address) in
  key s = Some address ∧
  shown (counts s) = Dashboard.receive c (Dashboard.mkState None Dashboard.loading None) ∧
  shown (apps s) = Applications.receive l (Applications.mkState (JArr []) true None) ∧
  withdraw s = Withdraw.initial ∧ toasts s = Toasts.init.
Proof.
  intros Hf. destruct address as [|ch rest]; [done|].
  intros [-> | ->]%symmetry%Permutation_length_2_inv; done.
Qed.


End end_to_end.

(** ** What the page keeps, whatever happens *)

Definition successes (cs : list Withdraw.call) : list string :=
  omap (λ c, match c with Withdraw.OnSuccess i => Some i | _ => None end) cs.

Definition notices (cs : list Withdraw.call) : list Withdraw.call := List.filter callback cs.

(** A list without the rows of these issues. *)
Definition remove_all (ids : list string) (v : json) : json :=
  match v with
  | JArr l => JArr (fold_left (λ l i, Withdraw.removeApplication i l) ids l)
  | _ => v
  end.

Lemma remove_all_app ids ids' v : remove_all (ids ++ ids') v = remove_all ids' (remove_all ids v).
Proof. destruct v; cbn; try done. by rewrite fold_left_app. Qed.

Lemma step_calls pk fr w e : ∃ new, Withdraw.calls (Withdraw.step pk fr w e) = Withdraw.calls w ++ new.
Proof.
  assert (∃ new, Withdraw.calls w = Withdraw.calls w ++ new) as H0 by (exists []; by rewrite app_nil_r).
  destruct e as [t| | |i x]; cbn [Withdraw.step]; [done|by unfold Withdraw.handleCancel; case_match|..].
  - case_match; [done|]. unfold Withdraw.handleConfirm. do 2 (case_match; [|done]). by eexists.
  - unfold Withdraw.resume. repeat (case_match; try done); by eexists.
Qed.

(** A withdrawal that has ended told the page once, one that has not did not. *)
Lemma progress_notices key t g at' : Withdraw.progress key t g at' →
  length (notices g) = match at' with None => 1%nat | Some _ => 0%nat end.
Proof.
  assert (∀ g st, Withdraw.progress key t g st → st ≠ None → notices g = []) as H0.
  { induction 1 as [|cs st c st' Hp IH Hf|cs Hp IH|cs st msg Hp IH]; intros; [done| |done..].
    unfold notices in *. rewrite List.filter_app, (IH ltac:(done)). by inv Hf. }
  intros Hp. destruct at' as [st|]; [by rewrite (H0 _ _ Hp)|].
  inversion Hp as [|?|cs H1|cs st msg H1]; subst; unfold notices in *;
    by rewrite List.filter_app, (H0 _ _ H1).
Qed.

Lemma sound_notices key w : sound key w →
  length (notices (Withdraw.calls w)) = length (filter (λ r, Withdraw.r_at r = None) (Withdraw.runs w)).
Proof.
  intros [_ (gs & -> & H2)]. induction H2 as [|g r gs rs Hp _ IH]; [done|].
  cbn [concat]. unfold notices in *. rewrite List.filter_app, length_app, IH, filter_cons.
  pose proof (progress_notices _ _ _ _ Hp) as Hn. unfold notices in Hn. rewrite Hn.
  by destruct (Withdraw.r_at r); case_decide.
Qed.

Section invariant.
Import Page.
Context (base : string) (fr : bool).

(** The list: an answer less rows of issues whose withdrawal succeeded. *)
Definition listed (c : component Dashboard.params reply Applications.state) (ids : list string) : Prop :=
  ∃ v gone, (v = JArr [] ∨ ∃ i p l r, runs c !! i = Some (Run p l (Replied r)) ∧ Applications.decode r = Ret v) ∧
    gone ⊆ ids ∧ Applications.applications (shown c) = remove_all gone v.

Record inv (s : state) : Prop := {
  i_requests : length (runs (counts s)) =
    (length (runs (apps s)) + length (successes (Withdraw.calls (withdraw s))))%nat;
  i_toasts : Toasts.nextId (toasts s) = length (notices (Withdraw.calls (withdraw s)));
  i_listed : listed (apps s) (successes (Withdraw.calls (withdraw s)));
  i_withdraw : if filled (key s) is Some k then sound k (withdraw s) else withdraw s = Withdraw.initial;
}.

Lemma refresh_runs s : filled (key s) = key s → is_Some (key s) →
  length (runs (counts (refresh base (key s) s))) = S (length (runs (counts s))).
Proof.
  intros Hf [k' Hk]. unfold refresh, Client.step, request. cbn [counts]. rewrite Hk in *.
  destruct k'; [done|]. cbn. rewrite length_app. cbn. lia.
Qed.

Lemma removed_one i a : Applications.applications (Applications.removeApplication i a) =
  remove_all [i] (Applications.applications a).
Proof. unfold Applications.removeApplication. by destruct (Applications.applications a) eqn:E; rewrite ?E. Qed.

(** The callbacks of a withdrawal. *)
Lemma callbacks_effect new : ∀ s, filled (key s) = key s → is_Some (key s) →
  let s' := fold_left (Page.callback base) new s in
  key s' = key s ∧ withdraw s' = withdraw s ∧ runs (apps s') = runs (apps s) ∧
  length (runs (counts s')) = (length (runs (counts s)) + length (successes new))%nat ∧
  Toasts.nextId (toasts s') = (Toasts.nextId (toasts s) + length (notices new))%nat ∧
  Applications.applications (shown (apps s')) =
    remove_all (successes new) (Applications.applications (shown (apps s))).
Proof.
  induction new as [|c new IH]; intros s Hf Hk; cbn [fold_left].
  - split_and!; try done; cbn; try lia. by destruct (Applications.applications _).
  - destruct c as [ky|b|x ky|b|i|m]; try by apply IH.
    + set (s1 := Page.callback base s (Withdraw.OnSuccess i)).
      destruct (IH s1) as (H1 & H2 & H3 & H4 & H5 & H6); [done..|].
      rewrite H1, H2, H3, H4, H5, H6. unfold s1, Page.callback.
      change (successes (Withdraw.OnSuccess i :: new)) with ([i] ++ successes new).
      change (notices (Withdraw.OnSuccess i :: new)) with (Withdraw.OnSuccess i :: notices new).
      rewrite (remove_all_app [i]). split_and!; [done..| | |].
      * match goal with |- context [refresh base _ ?s'] =>
          assert (length (runs (counts (refresh base (key s) s'))) = S (length (runs (counts s)))) as ->
            by exact (refresh_runs s' Hf Hk) end.
        rewrite length_app. cbn. lia.
      * cbn. unfold Toasts.add. case_match; cbn; lia.
      * f_equal. apply removed_one.
    + set (s1 := Page.callback base s (Withdraw.OnError m)).
      destruct (IH s1) as (H1 & H2 & H3 & H4 & H5 & H6); [done..|].
      change (notices (Withdraw.OnError m :: new)) with (Withdraw.OnError m :: notices new).
      rewrite H1, H2, H3, H4, H5, H6. unfold s1, Page.callback. split_and!; try done.
      unfold addToast. cbn [toasts length]. unfold Toasts.add. case_match; cbn; lia.
Qed.

Lemma successes_app a b : successes (a ++ b) = successes a ++ successes b.
Proof. apply omap_app. Qed.

Lemma inv_withdrawal e s : inv s → filled (key s) = key s → is_Some (key s) → inv (withdrawal base fr e s).
Proof.
  intros [I1 I2 I3 I4] Hf Hk. unfold withdrawal.
  destruct (step_calls (key s) fr (withdraw s) e) as [new Hn]. rewrite Hn, drop_app_length.
  set (s0 := mkState (key s) (counts s) (apps s) _ (toasts s)).
  destruct (callbacks_effect new s0 Hf Hk) as (H1 & H2 & H3 & H4 & H5 & H6).
  split.
  - rewrite H4, H3, H2. cbn [counts apps withdraw s0]. rewrite Hn, successes_app, length_app, I1. lia.
  - rewrite H5, H2. cbn [toasts withdraw s0]. unfold notices in *. rewrite Hn, List.filter_app, length_app. lia.
  - destruct I3 as (v & gone & Hv & Hg & Ha). exists v, (gone ++ successes new). rewrite H2, H3, H6.
    cbn [withdraw apps s0]. rewrite Hn, successes_app, remove_all_app, Ha. split_and!; [done|set_solver|done].
  - rewrite H1, H2. cbn [key withdraw s0]. rewrite Hf in *. destruct (key s) as [k|] eqn:Ek; [|by destruct Hk].
    by apply (sound_step (Some k) fr k).
Qed.

(** A reply keeps the number of requests; one to the list is an answer, or changes no row. *)
Lemma reply_runs {P R S} (h : hook P R S) (c : component P R S) i r :
  length (runs (Client.step h c (Reply i r))) = length (runs c).
Proof.
  cbn. destruct (runs c !! i) as [[p l [|?|?]]|]; try done. cbn [runs]. by rewrite length_insert.
Qed.

Lemma listed_reply c ids i r : listed c ids →
  listed (Client.step Applications.useApplications c (Reply i r)) ids.
Proof.
  intros (v & gone & Hv & Hg & Ha). cbn [Client.step].
  destruct (runs c !! i) as [[p l [|r'|r']]|] eqn:Ei; [|by exists v, gone..].
  assert (i < length (runs c))%nat as Hi by (by eapply lookup_lt_Some).
  assert (∀ v', v' = JArr [] ∨ (∃ j p l r, runs c !! j = Some (Run p l (Replied r)) ∧ Applications.decode r = Ret v') →
    v' = JArr [] ∨ ∃ j p' l' r', <[i:=Run p l (Replied r)]> (runs c) !! j = Some (Run p' l' (Replied r')) ∧
      Applications.decode r' = Ret v') as Hkeep.
  { intros v' [->|(j & p' & l' & r' & Hj & Hd)]; [by left|]. right. exists j, p', l', r'. split; [|done].
    rewrite list_lookup_insert_ne; [done|]. intros ->. congruence. }
  destruct l; [|exists v, gone; cbn [runs shown]; auto].
  cbn [runs shown on_reply Applications.useApplications]. unfold Applications.receive.
  destruct (Applications.decode r) as [v'|e] eqn:Ed.
  - exists v', []. cbn [runs shown Applications.applications]. split_and!; [|set_solver|by destruct v'].
    right. exists i, p, true, r. by rewrite list_lookup_insert_eq.
  - exists v, gone. cbn [runs shown Applications.applications]. auto.
Qed.

(** Both requests are sent again. *)
Lemma inv_load k s : inv s → filled (Some k) = Some k →
  (filled (key s) = Some k ∨ withdraw s = Withdraw.initial) →
  inv (reload base (Some k) (refresh base (Some k) s)).
Proof.
  intros [I1 I2 I3 I4] Hf Hw. unfold reload, refresh, Client.step, request.
  destruct k as [|ch k]; [done|].
  split; cbn [counts apps withdraw toasts runs key Applications.useApplications wanted Dashboard.address filled Dashboard.useDashboard cancels retire].
  - rewrite !length_app. cbn. lia.
  - done.
  - destruct I3 as (v & gone & Hv & Hg & Ha). exists v, gone. split_and!; [|done|done].
    destruct Hv as [->|(i & p & l & r & Hi & Hd)]; [by left|]. right. exists i, p, l, r. split; [|done].
    cbn [runs]. by apply lookup_app_l_Some.
  - destruct Hw as [Hk|Hw]; [by rewrite Hk in I4|]. rewrite Hw. exact (sound_history (Some (String ch k)) fr (String ch k) eq_refl []).
Qed.

Lemma inv_page_step s e : inv s → inv (Page.step base fr s e).
Proof.
  intros Hs. unfold Page.step. destruct (filled (key s)) as [k|] eqn:Ek.
  - assert (key s = Some k ∧ filled (Some k) = Some k) as [Hk Hf]
      by (destruct (key s) as [[|ch k']|]; cbn in Ek; by simplify_eq).
    assert (∀ e, inv (withdrawal base fr e s)) as Hw
      by (intros e'; apply inv_withdrawal; [done|by rewrite Hk|by rewrite Hk]).
    destruct e as [k'| |n|e|i r|i r|e]; [done| | | | | |].
    + destruct (isLoading s); [done|]. rewrite Hk. apply inv_load; auto.
    + destruct (buttons s !! n); [|done]. by case_match.
    + by destruct e.
    + destruct Hs as [I1 I2 I3 I4]. split; cbn [counts apps withdraw toasts key]; [by rewrite reply_runs|done..].
    + destruct Hs as [I1 I2 I3 I4]. split; cbn [counts apps withdraw toasts key]; [by rewrite reply_runs|done| |done].
      by apply listed_reply.
    + destruct Hs as [I1 I2 I3 I4]. destruct e as [m t du|i|n]; [done| |];
        (split; cbn [counts apps withdraw toasts key]; [done| |done..]); cbn; unfold Toasts.remove;
        repeat case_match; done.
  - destruct e as [k'| |n|e|i r|i r|e]; try done. destruct Hs as [I1 I2 I3 I4]. rewrite Ek in I4.
    destruct k' as [|ch k'].
    + split; cbn; try done. 
    + apply inv_load; [|done|by right]. by split; rewrite ?Ek.
Qed.

Lemma page_inv_after k es : inv (after base fr k es).
Proof.
  unfold after. assert (inv (open_page base k)) as H0.
  { set (s := mkState None (mount Dashboard.initial) (mount Applications.initial) Withdraw.initial Toasts.init).
    assert (inv s) as Hs.
    { split; try done. exists (JArr []), []. split_and!; [by left|set_solver|done]. }
    change (inv (reload base k (refresh base k (mkState k (counts s) (apps s) (withdraw s) (toasts s))))).
    destruct k as [[|ch k]|]; [|apply (inv_load (String ch k) s Hs eq_refl); by right|];
      destruct Hs as [I1 I2 I3 I4]; by split. }
  revert H0. generalize (open_page base k). induction es as [|e es IH]; intros s Hs; [done|].
  by apply IH, inv_page_step.
Qed.

End invariant.

Section accounts.
Import Page.

Lemma none_waiting rs : Forall (λ r, Withdraw.r_at r = None) rs →
  filter (λ r, is_Some (Withdraw.r_at r)) rs = [].
Proof. induction 1 as [|r rs Hr _ IH]; [done|]. rewrite filter_cons_False; [done|]. rewrite Hr. by intros []. Qed.

(** C26: Whatever the visitor clicks and whatever comes back in whatever order, the dashboard keeps its
    books: the counts are asked for once per load of the list and once more per withdrawal that
    succeeded; a notification is made exactly once per withdrawal that has ended; a row was in
    an answer to the list, and one of that answer is only missing if a withdrawal of its issue
    succeeded; and at most one withdrawal is on its way. *)
Theorem dashboard_page_accounts base fr k es :
  let s := after base fr k es in
  let done := successes (Withdraw.calls (withdraw s)) in
  length (runs (counts s)) = (length (runs (apps s)) + length done)%nat ∧
  Toasts.nextId (toasts s) =
    length (filter (λ r, Withdraw.r_at r = None) (Withdraw.runs (withdraw s))) ∧
  (∃ v gone, (v = JArr [] ∨ ∃ i p l r, runs (apps s) !! i = Some (Run p l (Replied r)) ∧
                                       Applications.decode r = Ret v) ∧
     gone ⊆ done ∧ Applications.applications (shown (apps s)) = remove_all gone v) ∧
  (length (filter (λ r, is_Some (Withdraw.r_at r)) (Withdraw.runs (withdraw s))) ≤ 1)%nat.
Proof.
  intros s d. destruct (page_inv_after base fr k es) as [I1 I2 I3 I4]. fold s in I1, I2, I3, I4.
  split; [done|]. rewrite I2. destruct (filled (key s)) as [k'|] eqn:Ek.
  - rewrite (sound_notices _ _ I4). split_and!; [done|done|].
    destruct I4 as [Hst _]. inversion Hst as [t rs Hf|t t' st rs Hf].
    + rewrite none_waiting by done. cbn. lia.
    + rewrite filter_app, none_waiting by done. done.
  - rewrite I4. split_and!; try done. cbn. lia.
Qed.

Lemma number_is_shown n a : 0 ≤ n → prop "issue_id" a = Some (jint n) →
  Withdraw.number_is (js_Number (Withdraw.issueId (Withdraw.row_target a))) (Some (jint n)) = true.
Proof.
  intros Hn Ha. unfold Withdraw.row_target. rewrite Ha. cbn [Withdraw.issueId default from_option Datatypes.id].
  rewrite js_String_jint by done. unfold Withdraw.number_is.
  pose proof (number_json_pretty n Hn) as Hp. destruct (js_Number (pretty n)) as [| |m e]; try done.
  rewrite Hp. cbn. by rewrite !Z.mul_1_r, Z.eqb_refl.
Qed.

(** When the submission of a withdrawal is accepted, the page closes the dialog, says so, asks for
    the counts again, and shows the rows it showed, in order, less those of that issue: the
    row that was withdrawn is gone. *)
Theorem withdrawn_row_leaves base fr s k i t code body l :
  filled (key s) = Some k →
  Withdraw.runs (withdraw s) !! i = Some (Withdraw.mkRun t (Some Withdraw.AtSubmit)) →
  ok code = true → Applications.applications (shown (apps s)) = JArr l →
  let s' := Page.step base fr s (Dialog (Withdraw.Settle i (Withdraw.Fetched (Answered code body)))) in
  ∃ l', Applications.applications (shown (apps s')) = JArr l' ∧ sublist l' l ∧
    (∀ a n, 0 ≤ n → a ∈ l → prop "issue_id" a = Some (jint n) → t = Withdraw.row_target a → a ∉ l') ∧
    (∀ a, a ∈ l → Withdraw.number_is (js_Number (Withdraw.issueId t)) (prop "issue_id" a) = false → a ∈ l') ∧
    Withdraw.pendingTarget (withdraw s') = None ∧ Withdraw.loading (withdraw s') = false ∧
    isLoading s' = true ∧ Toasts.nextId (toasts s') = S (Toasts.nextId (toasts s)).
Proof.
  intros Hk Hi Hok Hl s'. exists (Withdraw.removeApplication (Withdraw.issueId t) l).
  assert (s' = Page.callback base (mkState (key s) (counts s) (apps s)
    (Withdraw.mkState None false (<[i := Withdraw.mkRun t None]> (Withdraw.runs (withdraw s)))
      (Withdraw.calls (withdraw s) ++ [Withdraw.OnSuccess (Withdraw.issueId t)])) (toasts s))
    (Withdraw.OnSuccess (Withdraw.issueId t))) as ->.
  { unfold s', Page.step. rewrite Hk. unfold withdrawal. cbn [Withdraw.step]. unfold Withdraw.resume.
    rewrite Hi, Hk. cbn [Withdraw.expected Withdraw.advance]. rewrite Hok.
    cbn [Withdraw.calls]. by rewrite drop_app_length. }
  assert (∃ ch rest, key s = Some (String ch rest)) as (ch & rest & Ek)
    by (destruct (key s) as [[|ch rest]|]; try done; eauto).
  unfold Page.callback. split_and!; try done.
  - cbn. by rewrite removed_one, Hl.
  - unfold Withdraw.removeApplication. apply sublist_filter.
  - intros a n Hn Ha Hp -> [Hf _]%list_elem_of_filter. by rewrite Hp, number_is_shown in Hf.
  - intros a Ha Hf. by apply list_elem_of_filter.
  - unfold isLoading, refresh, request. cbn. by rewrite Ek.
  - cbn. unfold Toasts.add. by case_match.
Qed.

End accounts.

(** ** What the page says when it should not *)

Section surprises.
Import Page.

(** When the list cannot be loaded, the page also says that there are no applications. *)
Theorem failed_list_says_none base fr k r e : filled (Some k) = Some k →
  Applications.decode r = Throw e →
  ∃ v, render (after base fr (Some k) [AppsReply 0 r]) = Ret (Dashboard v) ∧
    v_rows v = NoApplications ∧ v_pending v = Some (jint 0) ∧
    v_apps_error v = (λ e, "Failed to load applications: " +:+ e) <$> filled (Some (error_message "Unknown error" e)).
Proof.
  intros Hf Hd. destruct k as [|ch k]; [done|].
  assert (shown (apps (after base fr (Some (String ch k)) [AppsReply 0 r])) =
    Applications.mkState (JArr []) false (Some (error_message "Unknown error" e))) as Ha.
  { cbn. unfold Applications.receive. by rewrite Hd. }
  eexists. split; [unfold render; rewrite Ha; reflexivity|done].
Qed.

(** Rows are taken away by the number of their issue alone: withdrawing one also takes away
    the row of another organisation with the same number. *)
Theorem removal_ignores_org a b n l : 0 ≤ n →
  prop "issue_id" a = Some (jint n) → prop "issue_id" b = Some (jint n) →
  b ∉ Withdraw.removeApplication (Withdraw.issueId (Withdraw.row_target a)) l.
Proof.
  intros Hn Ha Hb [Hf _]%list_elem_of_filter. by rewrite Hb, number_is_shown in Hf.
Qed.

End surprises.

(** ** Concrete runs *)

Definition demo_row (org : string) (n : Z) : json :=
  obj [("contributor", Some (JStr alice)); ("org_id", Some (JStr org)); ("issue_id", Some (jint n));
       ("created_at", Some (JStr "")); ("title", Some (JStr "Fix")); ("status", Some (JStr "open"))].

Definition answered (v : json) : reply := Answered 200 (Some v).

(** The visitor withdraws the first of three applications, up to the submission. *)
Definition demo_withdrawal : list Page.event :=
  [Page.AppsReply 0 (answered (JArr [demo_row "org_a" 1; demo_row "org_b" 1; demo_row "org_b" 2]));
   Page.ClickWithdraw 0; Page.Dialog Withdraw.Confirm;
   Page.Dialog (Withdraw.Settle 0 (Withdraw.Fetched (answered (obj [("sequence", Some (JStr "7"))]))));
   Page.Dialog (Withdraw.Settle 0 (Withdraw.Fetched (answered (obj [("xdr", Some (JStr "A"))]))));
   Page.Dialog (Withdraw.Settle 0 (Withdraw.Signed (Ret (obj [("signedTxXdr", Some (JStr "B"))]))))].

Notation demo_page := (Page.after "/api" true (Some alice) demo_withdrawal).

Lemma withdrawn_row_leaves_witness :
  let s' := Page.step "/api" true demo_page
    (Page.Dialog (Withdraw.Settle 0 (Withdraw.Fetched (answered JNull)))) in
  Withdraw.loading (Page.withdraw s') = false ∧ Page.isLoading s' = true ∧
  Applications.applications (shown (Page.apps s')) = JArr [demo_row "org_b" 2].
Proof.
  destruct (withdrawn_row_leaves "/api" true demo_page alice 0 (Withdraw.row_target (demo_row "org_a" 1))
    200 (Some JNull) [demo_row "org_a" 1; demo_row "org_b" 1; demo_row "org_b" 2])
    as (l' & _ & _ & _ & _ & _ & H1 & H2 & _); [vm_compute; reflexivity..|].
  split; [exact H1|]. split; [exact H2|]. vm_compute. reflexivity.
Defined.

Lemma gauge_bands_witness :
  let g := Gauge.render (jint 8) 15 None None in
  Gauge.v_class g = "gauge--yellow" ∧ Gauge.v_pct g = "53%" ∧
  ∃ p, Gauge.v_pct g = pretty p +:+ "%" ∧ 0 ≤ p ≤ 100.
Proof.
  split; [reflexivity|]. split; [vm_compute; reflexivity|].
  assert (0 ≤ 8) as H8 by (by vm_compute). assert (0 < 15 ≤ 40) as H15 by (by vm_compute).
  destruct (gauge_bands 8 15 None None H8 H15) as (p & H1 & H2 & _). exact (ex_intro _ p (conj H1 H2)).
Defined.

Lemma cap_colours_witness :
  Gauge.gaugeColorClass (Gauge.ratio (jint 12) Dashboard.GLOBAL_CAP) = "gauge--yellow".
Proof.
  assert (0 ≤ 12) as H by (by vm_compute). destruct (cap_colours 12 3 H) as [H1 _]. exact H1.
Defined.


Lemma failed_list_says_none_witness :
  ∃ v, Page.render (Page.after "/api" true (Some alice) [Page.AppsReply 0 (Answered 500 None)]) =
    Ret (Page.Dashboard v) ∧ Page.v_rows v = Page.NoApplications.
Proof.
  destruct (failed_list_says_none "/api" true alice (Answered 500 None)
    (Error "Failed to fetch applications: 500") eq_refl eq_refl) as (v & H1 & H2 & _).
  exact (ex_intro _ v (conj H1 H2)).
Defined.

Lemma removal_ignores_org_witness :
  demo_row "org_b" 1 ∉ Withdraw.removeApplication
    (Withdraw.issueId (Withdraw.row_target (demo_row "org_a" 1))) [demo_row "org_b" 1].
Proof.
  assert (0 ≤ 1) as H by (by vm_compute).
  exact (removal_ignores_org (demo_row "org_a" 1) (demo_row "org_b" 1) 1 [demo_row "org_b" 1] H eq_refl eq_refl).
Defined.
