(* ===== verification/Assignments.v ===== *)
(** * The active assignments of a contributor

    [frontend/src/hooks/useActiveAssignments.ts] and
    [components/ActiveAssignmentsDashboard.tsx]: what is asked of the contract client, in
    order, the groups made of its answers, the state of the hook and what the component shows;
    and the colours of the three bars the frontend draws for the same count.  The client is
    outside the repository: its methods, which the hook takes as optional, are parameters. *)

From Stdlib Require Import String.
From S2P Require Import Prelude Js Decimal Url Http Db Contributors Browser Client Pages TxFlows Widgets DashboardPage.

#[local] Open Scope string_scope.
#[local] Open Scope list_scope.
#[local] Open Scope Z_scope.

Module Assignments.

Record OrgAssignment := mkAssignment { a_org : string; issueId : string; assignedDate : string }.
Record OrgGroup := mkGroup { org : string; assignments : list OrgAssignment; count : Z; cap : Z }.

(** An assignment as the client gives it. *)
Record raw := mkRaw { issue_id : json; date : option string }.

(** The contract client: each method may be missing, and may throw. *)
Record client := mkClient {
  list_orgs : option (outcome (list string));
  get_org_assignment_count : option (string → string → outcome Z);
  list_org_assignments : option (string → string → outcome (list raw));
}.

(** [typeof client.m === "function" ? await client.m(...) : dflt]. *)
Definition ask {A} (m : option (outcome A)) (dflt : A) : outcome A := default (Ret dflt) m.

Section fetch.
Variable today : string.

Definition assignment_of (o : string) (a : raw) : OrgAssignment :=
  mkAssignment o (js_String (issue_id a)) (default today (date a)).

(** One turn of the loop. *)
Definition fetch_group (c : client) (contributor o : string) : outcome OrgGroup :=
  Withdraw.and_then (ask ((λ m, m contributor o) <$> get_org_assignment_count c) 0) (λ n,
  Withdraw.and_then (ask ((λ m, m contributor o) <$> list_org_assignments c) []) (λ rs,
  Ret (mkGroup o (assignment_of o <$> rs) n 4))).

Definition fetchGroups (c : option client) (contributor : string) : outcome (list OrgGroup) :=
  match c with
  | None => Ret []
  | Some c =>
      Withdraw.and_then (ask (list_orgs c) []) (λ orgs,
      Withdraw.and_then (map_outcome (fetch_group c contributor) orgs) (λ groups,
      Ret (filter (λ g, 0 < count g) groups)))
  end.

End fetch.

Inductive AssignmentsLoadState := idle | loading | loaded | error.

Record state := mkState { groups : list OrgGroup; loadState : AssignmentsLoadState; message : option string }.
Definition initial : state := mkState [] idle None.

(** The hook: [load] asks again, an earlier request is not cancelled. *)
Definition useActiveAssignments : hook (option string) (outcome (list OrgGroup)) state :=
  Hook false (λ p, match filled p with Some _ => true | None => false end)
    (λ s, mkState [] idle (message s))
    (λ _ s, mkState (groups s) loading None)
    (λ _ r s, match r with
              | Ret g => mkState g loaded (message s)
              | Throw e => mkState (groups s) error (Some (error_message "Failed to load assignments" e))
              end) id.

(** The bar of a group. *)
Definition barColor (count cap : Z) : string :=
  if cap <=? count then "var(--color-error-500, #ef4444)"
  else if 3 * cap <=? 4 * count then "var(--color-warning-500, #f59e0b)"
  else "var(--color-success-500, #22c55e)".

(** Its width as a share of [cap]. *)
Definition bar_width (count cap : Z) : Z * Z := (Z.min count cap, cap).

Record section := mkSection {
  s_org : string; s_text : string; s_color : string; s_width : Z * Z; s_rows : list (string * string);
}.

Definition OrgSection (g : OrgGroup) : section :=
  mkSection (org g) (pretty (count g) +:+ "/" +:+ pretty (cap g)) (barColor (count g) (cap g))
    (bar_width (count g) (cap g)) ((λ a, ("#" +:+ issueId a, assignedDate a)) <$> assignments g).

Inductive view := ConnectPrompt | Skeletons | Failed (msg : string) | Nothing | Sections (l : list section).

(** The component, for the contributor of its props. *)
Definition ActiveAssignmentsDashboard (contributor : option string) (s : state) : view :=
  match filled contributor with
  | None => ConnectPrompt
  | Some _ =>
      match loadState s with
      | loading | idle => Skeletons
      | error => Failed (default "Failed to load assignments." (message s))
      | loaded => match groups s with [] => Nothing | l => Sections (OrgSection <$> l) end
      end
  end.

(** ** Lemmas *)

Lemma map_outcome_Ret {A B} (f : A → outcome B) l ys : map_outcome f l = Ret ys ↔ Forall2 (λ x y, f x = Ret y) l ys.
Proof.
  revert ys. induction l as [|x l IH]; intros ys; cbn [map_outcome].
  - split; [intros [= <-]; constructor|]. intros H. by inv H.
  - split.
    + destruct (f x) as [y|e] eqn:E; [|done]. destruct (map_outcome f l) as [ys'|e]; [|done].
      intros [= <-]. constructor; [done|]. by apply IH.
    + intros H. inv H. rewrite H2. by rewrite (proj2 (IH _)) by done.
Qed.

(** The first failure is what is thrown. *)
Lemma map_outcome_Throw {A B} (f : A → outcome B) l e : map_outcome f l = Throw e →
  ∃ l1 x l2 ys, l = l1 ++ x :: l2 ∧ map_outcome f l1 = Ret ys ∧ f x = Throw e.
Proof.
  induction l as [|x l IH]; cbn [map_outcome]; [done|]. destruct (f x) as [y|e'] eqn:E.
  - destruct (map_outcome f l) as [ys'|e']; [done|]. intros [= ->].
    destruct (IH eq_refl) as (l1 & x' & l2 & ys & -> & Hl & Hx).
    exists (x :: l1), x', l2, (y :: ys). cbn [map_outcome]. by rewrite E, Hl.
  - intros [= ->]. by exists [], x, l, [].
Qed.

Lemma fetch_group_fields today c who o g : fetch_group today c who o = Ret g →
  org g = o ∧ cap g = 4 ∧ ask ((λ m, m who o) <$> get_org_assignment_count c) 0 = Ret (count g) ∧
  ∃ rs, ask ((λ m, m who o) <$> list_org_assignments c) [] = Ret rs ∧
        assignments g = assignment_of today o <$> rs.
Proof.
  unfold fetch_group. destruct (ask _ 0) as [n|]; [|done]. cbn [Withdraw.and_then].
  destruct (ask _ []) as [rs|]; [|done]. intros [= <-]. eauto 6.
Qed.

Lemma groups_of today c who orgs gs : Forall2 (λ o g, fetch_group today c who o = Ret g) orgs gs →
  Forall2 (λ o n, ask ((λ m, m who o) <$> get_org_assignment_count c) 0 = Ret n) orgs (count <$> gs) ∧
  (λ g, (org g, count g)) <$> filter (λ g, 0 < count g) gs =
    filter (λ p, 0 < p.2) (zip orgs (count <$> gs)) ∧
  ∀ g, g ∈ gs → cap g = 4 ∧ ∃ rs, ask ((λ m, m who (org g)) <$> list_org_assignments c) [] = Ret rs ∧
    assignments g = assignment_of today (org g) <$> rs.
Proof.
  induction 1 as [|o g orgs gs Hg _ (IH1 & IH2 & IH3)]; [split_and!; [constructor|done|set_solver]|].
  apply fetch_group_fields in Hg as (<- & Hc & Hn & Hr). split_and!.
  - rewrite fmap_cons. by constructor.
  - rewrite fmap_cons. cbn [zip zip_with]. rewrite !filter_cons. cbn [snd].
    case_decide; [by rewrite fmap_cons, IH2|done].
  - intros g' [->|Hin]%elem_of_cons; [done|by apply IH3].
Qed.

(** ** Theorems *)

(** When every call answers, the groups are the organisations the client lists, in its order, in
    which the contributor has an assignment by its count, each with that count and its list;
    otherwise what is thrown is the failure of the first organisation that has one. *)
Theorem fetchGroups_spec today c who orgs :
  ask (list_orgs c) [] = Ret orgs →
  match fetchGroups today (Some c) who with
  | Ret gs =>
      (∃ counts, Forall2 (λ o n, ask ((λ m, m who o) <$> get_org_assignment_count c) 0 = Ret n) orgs counts ∧
         (λ g, (org g, count g)) <$> gs = filter (λ p, 0 < p.2) (zip orgs counts)) ∧
      (∀ g, g ∈ gs → cap g = 4 ∧ ∃ rs, ask ((λ m, m who (org g)) <$> list_org_assignments c) [] = Ret rs ∧
         assignments g = assignment_of today (org g) <$> rs)
  | Throw e => ∃ o before after, orgs = before ++ o :: after ∧
      (∃ gs, map_outcome (fetch_group today c who) before = Ret gs) ∧ fetch_group today c who o = Throw e
  end.
Proof.
  intros Ho. unfold fetchGroups. rewrite Ho. cbn [Withdraw.and_then].
  destruct (map_outcome _ orgs) as [gs|e] eqn:E; cbn [Withdraw.and_then].
  - apply map_outcome_Ret, groups_of in E as (H1 & H2 & H3). split; [by exists (count <$> gs)|].
    intros g [_ Hg]%list_elem_of_filter. by apply H3.
  - apply map_outcome_Throw in E as (l1 & x & l2 & ys & -> & Hl & Hx). by exists x, l1, l2; eauto.
Qed.

(** A client without [list_orgs], which the contract does not have, shows no assignment,
    whatever the contributor has. *)
Theorem no_list_no_groups today c who k s : list_orgs c = None → filled (Some k) = Some k →
  fetchGroups today (Some c) who = Ret [] ∧
  ActiveAssignmentsDashboard (Some k)
    (on_reply useActiveAssignments (Some k) (fetchGroups today (Some c) who) s) = Nothing.
Proof.
  intros Hc Hk. assert (fetchGroups today (Some c) who = Ret []) as -> by (unfold fetchGroups; by rewrite Hc).
  split; [done|]. unfold ActiveAssignmentsDashboard. by rewrite Hk.
Qed.

(** The hook does not cancel: the answer for an earlier contributor that comes in last is
    shown for the one on screen. *)
Theorem assignments_race a b ga gb : filled (Some a) = Some a → filled (Some b) = Some b →
  let es := [Render (Some a); Render (Some b); Reply 1 (Ret gb); Reply 0 (Ret ga)] in
  rendered useActiveAssignments es = Some (Some b) ∧
  groups (shown (history useActiveAssignments initial es)) = ga ∧
  loadState (shown (history useActiveAssignments initial es)) = loaded.
Proof. intros Ha Hb. destruct a as [|x a], b as [|y b]; done. Qed.

(** The three bars of the frontend give a count of assignments the same colour, and mark it alike:
    those of the dashboard, of the contributor's page and of the active assignments, for the
    cap of four they all draw. *)
Theorem bars_agree n : 
  let card := Page.OrgCard (Dashboard.mkUsage None (jint n) (jint 0)) in
  match ProfilePage.barColor n with
  | ProfilePage.success => Page.c_color card = "var(--color-success-500)" ∧
      barColor n 4 = "var(--color-success-500, #22c55e)" ∧ Page.c_warning card = false
  | ProfilePage.warning => Page.c_color card = "var(--color-warning-500)" ∧
      barColor n 4 = "var(--color-warning-500, #f59e0b)" ∧ Page.c_warning card = true
  | ProfilePage.danger => Page.c_color card = "var(--color-error-500)" ∧
      barColor n 4 = "var(--color-error-500, #ef4444)" ∧ Page.c_warning card = true
  end.
Proof.
  intros card. unfold card, Page.OrgCard, ProfilePage.barColor, barColor, Dashboard.ORG_CAP, ProfilePage.ORG_CAP.
  cbn [Page.c_color Page.c_warning Dashboard.assignments]. rewrite at_least_jint, quotient_jint.
  unfold Page.barColor. cbn [Gauge.q_lt]. rewrite Z.pow_0_r, Z.mul_1_r.
  destruct (Z.ltb_spec (n * 100) (67 * 4)); [|destruct (Z.ltb_spec (n * 100) (93 * 4))];
    destruct (Z.leb_spec 4 n), (Z.leb_spec (3 * 4) (4 * n)), (Z.leb_spec 3 n); try done; lia.
Qed.

(** ** Concrete runs *)

Definition demo_client : client :=
  mkClient (Some (Ret ["org_a"; "org_b"; "org_c"]))
    (Some (λ _ o, Ret (if String.eqb o "org_b" then 0 else 2)))
    (Some (λ _ o, Ret [mkRaw (jint 7) None])).

Lemma fetchGroups_spec_witness :
  ask (list_orgs demo_client) [] = Ret ["org_a"; "org_b"; "org_c"] ∧
  match fetchGroups "2026-08-01" (Some demo_client) alice with
  | Ret gs => (λ g, (org g, count g)) <$> gs = [("org_a", 2); ("org_c", 2)] ∧ ∀ g, g ∈ gs → cap g = 4
  | Throw _ => False
  end.
Proof.
  split; [reflexivity|].
  pose proof (fetchGroups_spec "2026-08-01" demo_client alice ["org_a"; "org_b"; "org_c"] eq_refl) as H.
  destruct H as [_ H]. split; [reflexivity|]. intros g Hg. exact (proj1 (H g Hg)).
Defined.

Lemma no_list_no_groups_witness :
  fetchGroups "2026-08-01" (Some (mkClient None (Some (λ _ _, Ret 3)) None)) alice = Ret [].
Proof.
  exact (proj1 (no_list_no_groups "2026-08-01" (mkClient None (Some (λ _ _, Ret 3)) None) alice alice initial
    eq_refl eq_refl)).
Defined.

Lemma assignments_race_witness :
  let es := [Render (Some "GA"); Render (Some "GB"); Reply 1 (Ret []);
             Reply 0 (Ret [mkGroup "org_a" [] 2 4])] in
  groups (shown (history useActiveAssignments initial es)) = [mkGroup "org_a" [] 2 4].
Proof.
  exact (proj1 (proj2 (assignments_race "GA" "GB" [mkGroup "org_a" [] 2 4] [] eq_refl eq_refl))).
Defined.

End Assignments.
