(* ===== verification/OrgSelector.v ===== *)
(** * The organisation selector ([frontend/src/components/OrgSelector.tsx])

    The searchable list of organisations: what it loads, what it filters, the keys, the mouse,
    the parameter [?org=] and the callback, as a state machine, composed with the route it
    loads from.  Scrolling and the markup are left out. *)

From Stdlib Require Import String.
From S2P Require Import Prelude Js Url Http Contributors Orgs Client.

#[local] Open Scope string_scope.
#[local] Open Scope list_scope.
#[local] Open Scope Z_scope.

Module Selector.

Record Org := mkOrg { id : string; name : string; avatarUrl : option string; activeIssueCount : json }.

Definition ALL_ORGS_OPTION : Org := mkOrg "" "All Orgs" None (jint 0).

(** The letter shown for an organisation without a picture. *)
Definition monogram (o : Org) : string := toUpperCase (slice_to 1 (name o)).

(** [url]: the value of [?org=], empty if there is none; [calls]: what [onSelect] was given. *)
Record state := mkState {
  orgs : list Org; loading : bool; query : string; isOpen : bool; activeIndex : Z;
  selectedOrg : Org; url : string; calls : list string;
}.

Definition mount (url : string) : state := mkState [] true "" false (-1) ALL_ORGS_OPTION url [].

(** An entry of the answer; [None]: its id or its name is no string, which is not modelled. *)
Definition org_of (v : json) : option Org :=
  i ← prop "id" v ≫= as_string; n ← prop "name" v ≫= as_string;
  mret (mkOrg i n (prop "avatarUrl" v ≫= as_string) (default JNull (prop "activeIssueCount" v))).

(** [data.orgs ?? []] of a successful answer; anything thrown leaves an empty list. *)
Definition decode (r : reply) : option (list Org) :=
  match r with
  | Answered code (Some v) =>
      if ok code then
        match nullish_or (prop "orgs" v) (JArr []) with
        | JArr l => mapM org_of l
        | _ => None
        end
      else Some []
  | _ => Some []
  end.

Definition matches (q : string) (o : Org) : bool :=
  includes (toLowerCase q) (toLowerCase (name o)) || includes (toLowerCase q) (toLowerCase (id o)).

Definition filtered (s : state) : list Org :=
  ALL_ORGS_OPTION :: filter (λ o, matches (query s) o = true) (orgs s).

Definition text_of (o : Org) : string := if String.eqb (id o) "" then "" else name o.

(** The effect that follows a change of the parameter or of the list. *)
Definition resolve (s : state) : state :=
  if String.eqb (url s) "" then s
  else match list_find (λ o, id o = url s) (orgs s) with
       | Some (_, found) =>
           mkState (orgs s) (loading s) (name found) (isOpen s) (activeIndex s) found (url s) (calls s)
       | None => s
       end.

Definition setUrl (u : string) (s : state) : state :=
  if String.eqb u (url s) then s
  else resolve (mkState (orgs s) (loading s) (query s) (isOpen s) (activeIndex s) (selectedOrg s) u (calls s)).

Definition selectOrg (o : Org) (s : state) : state :=
  setUrl (id o) (mkState (orgs s) (loading s) (text_of o) false (-1) o (url s) (calls s ++ [id o])).

Definition set_open (b : bool) (i : Z) (s : state) : state :=
  mkState (orgs s) (loading s) (query s) b i (selectedOrg s) (url s) (calls s).

(** Closing with the text of the selection. *)
Definition close (s : state) : state :=
  mkState (orgs s) (loading s) (text_of (selectedOrg s)) false (-1) (selectedOrg s) (url s) (calls s).

Inductive key := ArrowDown | ArrowUp | Enter | Escape | Tab.

Definition handleKeyDown (k : key) (s : state) : state :=
  match k with
  | ArrowDown =>
      if isOpen s then set_open true (Z.min (activeIndex s + 1) (zlen (filtered s) - 1)) s
      else set_open true 0 s
  | ArrowUp => set_open (isOpen s) (Z.max (activeIndex s - 1) 0) s
  | Enter =>
      if isOpen s && (0 <=? activeIndex s) && (activeIndex s <? zlen (filtered s)) then
        match filtered s !! Z.to_nat (activeIndex s) with Some o => selectOrg o s | None => s end
      else set_open (negb (isOpen s)) (activeIndex s) s
  | Escape => if isOpen s then close s else s
  | Tab => set_open false (activeIndex s) s
  end.

(** The list arrives; the parameter is changed by a navigation; the input is focused, typed
    into, hears a key; the arrow is clicked, which may focus the input; the mouse over and on
    an option; a press elsewhere.  The input is disabled while the list is loading. *)
Inductive event :=
  | Loaded (r : reply) | Navigate (u : string)
  | Focus | Change (v : string) | Key (k : key)
  | Chevron (focuses : bool) | Hover (n : nat) | Press (n : nat) | Outside.

Definition onFocus (s : state) : state :=
  mkState (orgs s) (loading s) "" true (activeIndex s) (selectedOrg s) (url s) (calls s).

Definition step (s : state) (e : event) : state :=
  match e with
  | Loaded r =>
      match loading s, decode r with
      | true, Some l => resolve (mkState l false (query s) (isOpen s) (activeIndex s) (selectedOrg s) (url s) (calls s))
      | _, _ => s
      end
  | Navigate u => setUrl u s
  | Focus => if loading s then s else onFocus s
  | Change v =>
      if loading s then s
      else mkState (orgs s) (loading s) v true 0 (selectedOrg s) (url s) (calls s)
  | Key k => if loading s then s else handleKeyDown k s
  | Chevron focuses =>
      if isOpen s then set_open false (activeIndex s) s
      else if focuses && negb (loading s) then onFocus (set_open true (activeIndex s) s)
      else set_open true (activeIndex s) s
  | Hover n =>
      if isOpen s && (Z.of_nat n <? zlen (filtered s)) then set_open true (Z.of_nat n) s else s
  | Press n =>
      if isOpen s then match filtered s !! n with Some o => selectOrg o s | None => s end else s
  | Outside => close s
  end.

Definition after (s : state) (es : list event) : state := fold_left step es s.

(** What is drawn: the text of the input, what it says when empty, and the options, each with
    whether it is highlighted and selected; [None] when the list is closed. *)
Definition displayValue (s : state) : string := if isOpen s then query s else text_of (selectedOrg s).
Definition placeholder (s : state) : string :=
  if loading s then "Loading organisations…" else "Search or select an org…".
Definition options (s : state) : option (list (Org * bool * bool)) :=
  if isOpen s then
    Some (imap (λ i o, (o, Z.of_nat i =? activeIndex s, String.eqb (id (selectedOrg s)) (id o))) (filtered s))
  else None.

(** [aria-activedescendant]: the highlighted option. *)
Definition activeDescendant (s : state) : option string :=
  if isOpen s && (0 <=? activeIndex s)
  then Some ("org-option-" +:+ match filtered s !! Z.to_nat (activeIndex s) with
                               | Some o => id o
                               | None => "all"
                               end)
  else None.

Definition is_navigation (e : event) : bool := match e with Navigate _ => true | _ => false end.

(** The highlighted option is one of those shown, and what was selected, the parameter and the
    callback agree. *)
Record inv (s : state) : Prop := {
  i_index : -1 ≤ activeIndex s < zlen (filtered s);
  i_loading : loading s = true → orgs s = [];
  i_known : ∀ c, c ∈ calls s → c = "" ∨ c ∈ id <$> orgs s;
  i_agree : ∀ c, last (calls s) = Some c → c = url s ∧ id (selectedOrg s) = url s;
}.


(** ** Lemmas *)

Lemma filtered_length s : 1 ≤ zlen (filtered s).
Proof. unfold filtered, zlen. cbn [length]. lia. Qed.

Lemma filtered_id s n o : filtered s !! n = Some o → id o = "" ∨ id o ∈ id <$> orgs s.
Proof.
  destruct n as [|n]; [intros [= <-]; by left|]. intros Ho. right.
  change (filter (λ o, matches (query s) o = true) (orgs s) !! n = Some o) in Ho.
  apply list_elem_of_lookup_2, list_elem_of_filter in Ho as [_ Ho]. by apply list_elem_of_fmap_2.
Qed.

(** The effect leaves the list, the parameter and the callback alone; what it selects is the
    organisation of the parameter. *)
Lemma resolve_frame s :
  orgs (resolve s) = orgs s ∧ loading (resolve s) = loading s ∧ activeIndex (resolve s) = activeIndex s ∧
  url (resolve s) = url s ∧ calls (resolve s) = calls s ∧ isOpen (resolve s) = isOpen s ∧
  (id (selectedOrg s) = url s → id (selectedOrg (resolve s)) = url s).
Proof.
  unfold resolve. destruct (String.eqb (url s) ""); [by split_and!|].
  destruct (list_find _ _) as [[i o]|] eqn:E; [|by split_and!].
  apply list_find_Some in E as (_ & Ho & _). split_and!; [done..|]. intros _. exact Ho.
Qed.

Lemma setUrl_frame u s :
  orgs (setUrl u s) = orgs s ∧ loading (setUrl u s) = loading s ∧ activeIndex (setUrl u s) = activeIndex s ∧
  url (setUrl u s) = u ∧ calls (setUrl u s) = calls s ∧ isOpen (setUrl u s) = isOpen s ∧
  (id (selectedOrg s) = u → id (selectedOrg (setUrl u s)) = u).
Proof.
  unfold setUrl. destruct (String.eqb_spec u (url s)) as [->|_]; [by split_and!|].
  match goal with |- context [resolve ?s'] => destruct (resolve_frame s') as (-> & -> & -> & -> & -> & -> & H) end.
  split_and!; [done..|]. exact H.
Qed.

(** Closing a selection. *)
Lemma inv_select s n o : inv s → filtered s !! n = Some o → inv (selectOrg o s).
Proof.
  intros [H1 H2 H3 H4] Ho. unfold selectOrg.
  match goal with |- inv (setUrl _ ?s') =>
    destruct (setUrl_frame (id o) s') as (E1 & E2 & E3 & E4 & E5 & _ & E6) end.
  split.
  - rewrite E3. cbn [activeIndex]. match goal with |- context [filtered ?x] => pose proof (filtered_length x) end. lia.
  - by rewrite E1, E2.
  - rewrite E1, E5. cbn [calls orgs]. intros c [Hc| ->%list_elem_of_singleton]%elem_of_app; [by apply H3|].
    by eapply filtered_id.
  - rewrite E4, E5. cbn [calls]. intros c. rewrite last_snoc. intros [= <-]. split; [done|]. by apply E6.
Qed.

(** Moving within the list. *)
Lemma inv_set_open s b i : inv s → -1 ≤ i < zlen (filtered s) → inv (set_open b i s).
Proof. intros [H1 H2 H3 H4] Hi. by split. Qed.

(** The texts only matter to the list that is filtered. *)
Lemma inv_text s q b i sel : inv s → id sel = id (selectedOrg s) → (i = -1 ∨ i = 0) →
  inv (mkState (orgs s) (loading s) q b i sel (url s) (calls s)).
Proof.
  intros [H1 H2 H3 H4] Hs Hi. split; cbn [activeIndex loading orgs calls url selectedOrg]; try done.
  - match goal with |- context [filtered ?x] => pose proof (filtered_length x) end. lia.
  - by rewrite Hs.
Qed.

(** With an empty text every organisation is listed. *)
Lemma filtered_widens s b i : zlen (filtered s) ≤
  zlen (filtered (mkState (orgs s) (loading s) "" b i (selectedOrg s) (url s) (calls s))).
Proof.
  unfold filtered, zlen. cbn [orgs query length].
  assert (∀ l : list Org, (length (filter (λ o, matches (query s) o = true) l) ≤
    length (filter (λ o, matches "" o = true) l))%nat) as H.
  { induction l as [|o l IH]; [done|]. rewrite !filter_cons.
    rewrite (decide_True (P := matches "" o = true)) by (unfold matches; by destruct (toLowerCase (name o))).
    case_decide; cbn [length]; lia. }
  specialize (H (orgs s)). lia.
Qed.

Lemma inv_focus s : inv s → inv (onFocus s).
Proof.
  intros Hs. pose proof (filtered_widens s true (activeIndex s)). destruct Hs as [H1 H2 H3 H4].
  unfold onFocus. split; cbn [activeIndex loading orgs calls url selectedOrg]; try done. lia.
Qed.

Lemma inv_key k s : inv s → inv (handleKeyDown k s).
Proof.
  intros Hs. pose proof (filtered_length s). pose proof (i_index s Hs). destruct k; cbn [handleKeyDown].
  - destruct (isOpen s); apply inv_set_open; (done || lia).
  - apply inv_set_open; [done|lia].
  - destruct (_ && _ && _).
    + destruct (filtered s !! _) eqn:E; [by eapply inv_select|done].
    + by apply inv_set_open.
  - destruct (isOpen s); [|done]. by apply inv_text; [| |left].
  - by apply inv_set_open.
Qed.

Lemma inv_loaded l s : inv s → loading s = true →
  inv (resolve (mkState l false (query s) (isOpen s) (activeIndex s) (selectedOrg s) (url s) (calls s))).
Proof.
  intros [H1 H2 H3 H4] Hl. specialize (H2 Hl).
  match goal with |- inv (resolve ?s') => destruct (resolve_frame s') as (E1 & E2 & E3 & E4 & E5 & _ & E6) end.
  assert (zlen (filtered s) = 1) as Hn by (unfold filtered; rewrite H2; done).
  split.
  - rewrite E3. cbn [activeIndex]. match goal with |- context [filtered ?x] => pose proof (filtered_length x) end. lia.
  - by rewrite E2.
  - rewrite E1, E5. cbn [calls orgs]. intros c Hc. left. destruct (H3 c Hc) as [|Hin]; [done|].
    rewrite H2 in Hin. set_solver.
  - rewrite E4, E5. cbn [calls url selectedOrg] in *. intros c Hc. destruct (H4 c Hc) as [-> He]. auto.
Qed.

Lemma selector_inv_step s e : inv s → is_navigation e = false → inv (step s e).
Proof.
  intros Hs He. pose proof (filtered_length s). pose proof (i_index s Hs).
  destruct e as [r|u| |v|k|b|n|n|]; [| done| | | | | | |]; cbn [step].
  - destruct (loading s) eqn:El; [|done]. destruct (decode r); [|done]. by apply inv_loaded.
  - destruct (loading s); [done|]. by apply inv_focus.
  - destruct (loading s) eqn:El; [done|]. rewrite <- El. by apply inv_text; [| |right].
  - destruct (loading s); [done|]. by apply inv_key.
  - destruct (isOpen s); [by apply inv_set_open|].
    destruct (_ && _); [apply inv_focus|]; by apply inv_set_open.
  - destruct (isOpen s); [|done]. cbn [andb]. destruct (Z.ltb_spec (Z.of_nat n) (zlen (filtered s))); [|done].
    apply inv_set_open; [done|lia].
  - destruct (isOpen s); [|done]. destruct (filtered s !! n) eqn:E; [|done]. by eapply inv_select.
  - by apply inv_text; [| |left].
Qed.

Lemma selector_inv_after es : ∀ s, inv s → Forall (λ e, is_navigation e = false) es → inv (after s es).
Proof.
  induction es as [|e es IH]; intros s Hs Hes; [done|]. inv Hes.
  by apply IH; [apply selector_inv_step|].
Qed.

Lemma inv_mount u : inv (mount u).
Proof.
  pose proof (filtered_length (mount u)). split; [|done|set_solver|done].
  change (activeIndex (mount u)) with (-1). lia.
Qed.

(** ** Theorems *)

(** Whatever is typed, pressed, clicked or loaded in whatever order, as long as nobody else changes
    the parameter: the highlighted option is one of those shown, the callback was only given
    organisations of the list or none, and what it was given last is what the parameter says
    and what is shown as selected. *)
Theorem selector_consistent u es :
  Forall (λ e, is_navigation e = false) es →
  let s := after (mount u) es in
  -1 ≤ activeIndex s < zlen (filtered s) ∧
  (∀ c, c ∈ calls s → c = "" ∨ c ∈ id <$> orgs s) ∧
  (∀ c, last (calls s) = Some c → c = url s ∧ id (selectedOrg s) = url s).
Proof. intros Hes s. by destruct (selector_inv_after es (mount u) (inv_mount u) Hes). Qed.

Lemma arrows_down n : ∀ s, loading s = false → isOpen s = true →
  0 ≤ activeIndex s → activeIndex s + Z.of_nat n < zlen (filtered s) →
  after s (replicate n (Key ArrowDown)) = set_open true (activeIndex s + Z.of_nat n) s.
Proof.
  induction n as [|n IH]; intros s Hl Ho H0 Hn.
  - cbn. unfold set_open. rewrite Z.add_0_r, <- Ho. by destruct s.
  - cbn [replicate after fold_left step]. rewrite Hl. cbn [handleKeyDown]. rewrite Ho, Z.min_l by lia.
    etrans; [apply IH; try done; cbn [set_open activeIndex]; [lia|]|unfold set_open; cbn; f_equal; lia].
    change (filtered (set_open _ _ s)) with (filtered s). lia.
Qed.

(** Every option can be chosen with the keyboard alone: from the closed list, one press of the
    arrow opens it, [n] more and Enter choose the option at position [n], which is selected,
    written to the parameter and given to the callback, and the list closes. *)
Theorem keyboard_selects s n o :
  loading s = false → isOpen s = false → filtered s !! n = Some o →
  let s' := after s (replicate (S n) (Key ArrowDown) ++ [Key Enter]) in
  calls s' = calls s ++ [id o] ∧ url s' = id o ∧ id (selectedOrg s') = id o ∧ isOpen s' = false.
Proof.
  intros Hl Ho Hn s'. pose proof (lookup_lt_Some _ _ _ Hn) as Hlt.
  assert (after s (replicate (S n) (Key ArrowDown)) = set_open true (Z.of_nat n) s) as Hs.
  { cbn [replicate after fold_left step]. rewrite Hl. cbn [handleKeyDown]. rewrite Ho.
    apply (arrows_down n (set_open true 0 s)); try done.
    change (filtered (set_open _ _ s)) with (filtered s). cbn [set_open activeIndex]. unfold zlen. lia. }
  assert (s' = selectOrg o (set_open true (Z.of_nat n) s)) as ->.
  { unfold s', after in *. rewrite fold_left_app, Hs. cbn [fold_left step loading set_open]. rewrite Hl.
    cbn [handleKeyDown]. cbn [isOpen set_open activeIndex].
    change (filtered (set_open _ _ s)) with (filtered s). unfold zlen.
    rewrite (proj2 (Z.leb_le _ _)), (proj2 (Z.ltb_lt _ _)), Nat2Z.id by lia. cbn [andb]. by rewrite Hn. }
  unfold selectOrg. match goal with |- context [setUrl _ ?s0] =>
    destruct (setUrl_frame (id o) s0) as (_ & _ & _ & -> & -> & -> & H) end.
  split_and!; [done|done|by apply H|done].
Qed.

(** Typing highlights the first option, which always is "All Orgs": typing and Enter drop the
    selection, whatever was typed. *)
Theorem type_enter_selects_all s v : loading s = false →
  let s' := after s [Change v; Key Enter] in
  selectedOrg s' = ALL_ORGS_OPTION ∧ url s' = "" ∧ calls s' = calls s ++ [""].
Proof.
  intros Hl s'. assert (s' = selectOrg ALL_ORGS_OPTION
    (mkState (orgs s) (loading s) v true 0 (selectedOrg s) (url s) (calls s))) as ->.
  { unfold s', after. cbn [fold_left step]. rewrite Hl. cbn [loading handleKeyDown isOpen activeIndex].
    match goal with |- context [filtered ?x] => pose proof (filtered_length x) end.
    rewrite (proj2 (Z.ltb_lt 0 _)) by lia. done. }
  unfold selectOrg, setUrl, resolve. cbn [url id ALL_ORGS_OPTION].
  by destruct (String.eqb_spec "" (url s)) as [<-|].
Qed.

(** Over the route it loads from, the list holds no organisation: the route answers an array,
    the selector looks for its property [orgs]. *)
Theorem selector_lists_nothing u q : decode (reply_of list_orgs) = Some [] ∧
  filtered (after (mount u) [Loaded (reply_of list_orgs); Change q]) = [ALL_ORGS_OPTION].
Proof. split; [by vm_compute|]. cbn. unfold resolve. cbn. by destruct (String.eqb u ""). Qed.

(** A parameter that goes away leaves the organisation selected. *)
Theorem parameter_dropped s : selectedOrg (step s (Navigate "")) = selectedOrg s ∧ url (step s (Navigate "")) = "".
Proof. cbn. unfold setUrl. by destruct (String.eqb_spec "" (url s)) as [<-|]. Qed.

(** The highlighted "All Orgs" is announced under an id no option has: its element is called
    [org-option-all]. *)
Theorem all_orgs_announced s : isOpen s = true → activeIndex s = 0 → activeDescendant s = Some "org-option-".
Proof. intros Ho Ha. unfold activeDescendant. by rewrite Ho, Ha. Qed.

(** ** Concrete runs *)

Definition demo_answer : reply := Answered 200 (Some (obj [("orgs", Some (JArr
  [obj [("id", Some (JStr "a")); ("name", Some (JStr "Stellar"))];
   obj [("id", Some (JStr "b")); ("name", Some (JStr "Lumen"))]]))])).

Example selector_finds :
  id <$> filtered (after (mount "") [Loaded demo_answer; Change "LUM"]) = [""; "b"].
Proof. vm_compute. reflexivity. Qed.

Lemma selector_consistent_witness :
  let s := after (mount "") [Loaded demo_answer; Focus; Key ArrowDown; Key ArrowDown; Key Enter] in
  url s = "a" ∧ last (calls s) = Some "a" ∧ id (selectedOrg s) = "a".
Proof.
  assert (Forall (λ e, is_navigation e = false)
    [Loaded demo_answer; Focus; Key ArrowDown; Key ArrowDown; Key Enter]) as H by (repeat constructor).
  destruct (selector_consistent "" _ H) as (_ & _ & Ha). cbv zeta in Ha.
  split; [vm_compute; reflexivity|]. split; [vm_compute; reflexivity|].
  exact (proj2 (Ha "a" ltac:(vm_compute; reflexivity))).
Defined.

Lemma keyboard_selects_witness :
  let s := after (mount "") [Loaded demo_answer] in
  url (after s (replicate 3 (Key ArrowDown) ++ [Key Enter])) = "b".
Proof.
  exact (proj1 (proj2 (keyboard_selects (after (mount "") [Loaded demo_answer]) 2
    (mkOrg "b" "Lumen" None JNull) eq_refl eq_refl eq_refl))).
Defined.

Lemma type_enter_selects_all_witness :
  url (after (after (mount "") [Loaded demo_answer]) [Change "lum"; Key Enter]) = "".
Proof. exact (proj1 (proj2 (type_enter_selects_all (after (mount "") [Loaded demo_answer]) "lum" eq_refl))). Defined.

Lemma all_orgs_announced_witness :
  activeDescendant (after (mount "") [Loaded demo_answer; Key ArrowDown]) = Some "org-option-".
Proof. exact (all_orgs_announced (after (mount "") [Loaded demo_answer; Key ArrowDown]) eq_refl eq_refl). Defined.

End Selector.
