(* ===== verification/Shell.v ===== *)
(** * The frame of the frontend

    The button that copies ([hooks/useCopyToClipboard.ts], [components/CopyButton.tsx]), the
    animated numbers ([components/AnimatedCount.tsx], both copies), the network banner
    ([frontend/components/NetworkBanner.tsx], [src/horizon.ts]) over the routes of the
    application, the breadcrumbs ([hooks/useBreadcrumbs.ts]), the focus trap
    ([hooks/useFocusTrap.ts]) and the navigation bars over the wallet of Preferences.  Times
    are milliseconds. *)

From Stdlib Require Import String Ascii.
From S2P Require Import Prelude Js Decimal Url Http Db Contributors Browser Preferences Client Wiring.

#[local] Open Scope string_scope.
#[local] Open Scope list_scope.
#[local] Open Scope Z_scope.

(** ** Copying *)

Module Clipboard.

(** [timers]: the timeouts that are pending, by their id, with the time they fire at;
    [timerRef]: the one the hook still knows; [waiting]: writes that have not settled. *)
Record state := mkState {
  copied : bool; error : option string; timerRef : option nat; timers : list (nat * Z);
  nextTimer : nat; waiting : nat;
}.
Definition initial : state := mkState false None None [] 0 0.

Inductive event :=
  | Click (now : Z)                    (** [copy] until the text is handed to the clipboard *)
  | Settle (now : Z) (o : outcome unit)
  | Fire (n : nat).                    (** the [n]-th pending timeout *)

Definition remove_timer (i : nat) (l : list (nat * Z)) : list (nat * Z) := filter (λ t, t.1 ≠ i) l.

Definition clear (s : state) : state :=
  mkState (copied s) None None
    (match timerRef s with Some i => remove_timer i (timers s) | None => timers s end)
    (nextTimer s) (waiting s).

Definition succeeded (now : Z) (s : state) : state :=
  mkState true (error s) (Some (nextTimer s)) (timers s ++ [(nextTimer s, now + 2000)])
    (S (nextTimer s)) (waiting s).

Definition copy_error (e : exn) : string := error_message "Error" e.

Definition failed (e : exn) (s : state) : state :=
  mkState false (Some (copy_error e)) (timerRef s) (timers s) (nextTimer s) (waiting s).

Definition step (s : state) (e : event) : state :=
  match e with
  | Click _ => let s := clear s in
      mkState (copied s) (error s) (timerRef s) (timers s) (nextTimer s) (S (waiting s))
  | Settle now o =>
      match waiting s with
      | O => s
      | S n =>
          let s := mkState (copied s) (error s) (timerRef s) (timers s) (nextTimer s) n in
          match o with Ret _ => succeeded now s | Throw e => failed e s end
      end
  | Fire n =>
      match timers s !! n with
      | Some _ => mkState false (error s) None (delete n (timers s)) (nextTimer s) (waiting s)
      | None => s
      end
  end.

Definition after (es : list event) : state := fold_left step es initial.

(** What the button says, and what is announced. *)
Definition effectiveLabel (label copiedLabel errorLabel : string) (s : state) : string :=
  match error s with Some _ => errorLabel | None => if copied s then copiedLabel else label end.
Definition announced (copiedLabel errorLabel : string) (s : state) : string :=
  if copied s then copiedLabel
  else match error s with Some m => errorLabel +:+ ": " +:+ m | None => "" end.

Lemma copied_pending s e : (copied s = true → timers s ≠ [] ∨ (0 < waiting s)%nat) →
  copied (step s e) = true → timers (step s e) ≠ [] ∨ (0 < waiting (step s e))%nat.
Proof.
  intros Hs. destruct e as [now|now o|n]; cbn [step].
  - intros _. right. cbn. lia.
  - destruct (waiting s) as [|k] eqn:Ew; [by rewrite Ew|]. destruct o as [[]|e]; [|done].
    intros _. left. cbn. by destruct (timers s).
  - by destruct (timers s !! n).
Qed.

(** The check mark never stays: whatever is clicked and however the copies settle, while it is
    shown a timeout is pending that takes it away, or a copy is being made. *)
Theorem check_mark_goes es :
  copied (after es) = true → timers (after es) ≠ [] ∨ (0 < waiting (after es))%nat.
Proof.
  unfold after. induction es as [|e es IH] using rev_ind; [done|]. rewrite fold_left_app.
  by apply copied_pending.
Qed.

(** One copy alone: the mark goes with the timeout set two seconds after it. *)
Theorem one_copy t0 t1 :
  let s := after [Click t0; Settle t1 (Ret tt)] in
  copied s = true ∧ timers s = [(0%nat, t1 + 2000)] ∧ copied (step s (Fire 0)) = false.
Proof. done. Qed.

(** Two copies under way at once: the timeout of the first takes away the mark of the second,
    up to two seconds early. *)
Theorem overlapping_copies t0 t1 t2 :
  let s := after [Click t0; Click t0; Settle t1 (Ret tt); Settle t2 (Ret tt)] in
  copied s = true ∧ timers s !! 0%nat = Some (0%nat, t1 + 2000) ∧ copied (step s (Fire 0)) = false.
Proof. done. Qed.

(** And when the first fails and the second succeeds, the button shows the check mark under
    the label of the failure. *)
Theorem mixed_messages t e a b c :
  let s := after [Click t; Click t; Settle t (Throw e); Settle t (Ret tt)] in
  effectiveLabel a b c s = c ∧ announced b c s = b.
Proof. done. Qed.

Lemma check_mark_goes_witness :
  copied (after [Click 0; Settle 5 (Ret tt)]) = true ∧
  (timers (after [Click 0; Settle 5 (Ret tt)]) ≠ [] ∨ (0 < waiting (after [Click 0; Settle 5 (Ret tt)]))%nat).
Proof. split; [reflexivity|]. exact (check_mark_goes [Click 0; Settle 5 (Ret tt)] eq_refl). Defined.

End Clipboard.

(** ** Animated numbers *)

Module Count.

(** [from]: the value the last finished animation ended at; [run]: the animation under way, its
    start, what it goes to. *)
Record anim := mkAnim { a_from : Z; a_to : Z; a_start : Z }.
Record state := mkState { display : Z; from : Z; run : option anim }.

Definition initial (target : Z) : state := mkState target target None.

(** [Math.round(n / d)] for [0 < d]. *)
Definition round (n d : Z) : Z := (2 * n + d) / (2 * d).

(** [Math.round(from + diff * easeOutCubic(elapsed / duration))], the progress at most 1:
    [easeOutCubic(p / q) = 1 - (q - p)^3 / q^3]. *)
Definition eased (a b elapsed duration : Z) : Z :=
  let p := Z.min elapsed duration in
  round (a * duration ^ 3 + (b - a) * (duration ^ 3 - (duration - p) ^ 3)) (duration ^ 3).

(** The copy of [frontend/components] goes at one speed. *)
Definition linear (a b elapsed duration : Z) : Z :=
  let p := Z.min elapsed duration in round (a * duration + (b - a) * p) duration.

Inductive event :=
  | Target (v now : Z)     (** another value is to be shown *)
  | Tick (now : Z).        (** a frame *)

Section count.
Variables (reduced : bool) (duration : Z).

(** The effect, after the cleanup of the one before. *)
Definition retarget (v now : Z) (s : state) : state :=
  if reduced then mkState v v None
  else if v - from s =? 0 then mkState (display s) (from s) None
  else mkState (display s) (from s) (Some (mkAnim (from s) v now)).

Definition tick (now : Z) (s : state) : state :=
  match run s with
  | None => s
  | Some a =>
      let elapsed := now - a_start a in
      if elapsed <? duration
      then mkState (eased (a_from a) (a_to a) elapsed duration) (from s) (run s)
      else mkState (a_to a) (a_to a) None
  end.

Definition step (s : state) (e : event) : state :=
  match e with Target v now => retarget v now s | Tick now => tick now s end.

Definition after (v : Z) (es : list event) : state := fold_left step es (initial v).
End count.

Lemma round_between a b n d : 0 < d → Z.min a b * d ≤ n ≤ Z.max a b * d → Z.min a b ≤ round n d ≤ Z.max a b.
Proof.
  intros Hd Hn. unfold round. pose proof (Z.mul_div_le (2 * n + d) (2 * d) ltac:(lia)).
  pose proof (Z.mul_succ_div_gt (2 * n + d) (2 * d) ltac:(lia)).
  set (q := (2 * n + d) / (2 * d)) in *. set (lo := Z.min a b) in *. set (hi := Z.max a b) in *. split.
  - destruct (Z.le_gt_cases lo q) as [|Hq]; [done|]. assert (d * (q + 1) ≤ d * lo) by nia. nia.
  - destruct (Z.le_gt_cases q hi) as [|Hq]; [done|]. assert (d * (hi + 1) ≤ d * q) by nia. nia.
Qed.

(** Whatever the frame, the number shown lies between the one it starts from and the one it
    goes to. *)
Lemma eased_between a b elapsed duration : 0 < duration → 0 ≤ elapsed →
  Z.min a b ≤ eased a b elapsed duration ≤ Z.max a b.
Proof.
  intros Hd He. unfold eased. set (p := Z.min elapsed duration). assert (0 ≤ p ≤ duration) as Hp by (unfold p; lia).
  assert (0 < duration ^ 3) as H3 by (by apply Z.pow_pos_nonneg).
  assert (0 ≤ (duration - p) ^ 3 ≤ duration ^ 3) as Hq
    by (split; [apply Z.pow_nonneg; lia|apply Z.pow_le_mono_l; lia]).
  apply round_between; [done|]. set (x := duration ^ 3) in *. set (y := (duration - p) ^ 3) in *.
  destruct (Z.le_ge_cases a b); [rewrite Z.min_l, Z.max_r by lia|rewrite Z.min_r, Z.max_l by lia]; nia.
Qed.

Lemma frames duration v w t0 ts : 0 < duration → Forall (λ t, 0 ≤ t - t0 < duration) ts →
  ∀ x, Z.min v w ≤ x ≤ Z.max v w →
  ∃ y, fold_left (step false duration) (Tick <$> ts) (mkState x v (Some (mkAnim v w t0))) =
         mkState y v (Some (mkAnim v w t0)) ∧ Z.min v w ≤ y ≤ Z.max v w.
Proof.
  intros Hd. induction 1 as [|t ts Ht Hts IH]; intros x Hx; [by exists x|]. cbn [fmap list_fmap fold_left step].
  unfold tick. cbn [run a_start]. rewrite (proj2 (Z.ltb_lt _ _)) by lia. cbn [from a_from a_to].
  apply IH. apply eased_between; lia.
Qed.

(** An animation that is left alone shows numbers between the old and the new one and ends with
    exactly the new one, in the first frame after its duration. *)
Theorem count_arrives duration v w t0 ts t : 0 < duration → v ≠ w →
  Forall (λ t, 0 ≤ t - t0 < duration) ts → duration ≤ t - t0 →
  let s := after false duration v (Target w t0 :: (Tick <$> ts)) in
  Z.min v w ≤ display s ≤ Z.max v w ∧
  after false duration v (Target w t0 :: (Tick <$> ts) ++ [Tick t]) = initial w.
Proof.
  intros Hd Hvw Hts Ht s.
  assert (∃ y, s = mkState y v (Some (mkAnim v w t0)) ∧ Z.min v w ≤ y ≤ Z.max v w) as (y & Hs & Hb).
  { unfold s, after. cbn [fold_left step]. unfold retarget. cbn [from initial display].
    destruct (Z.eqb_spec (w - v) 0); [lia|]. apply frames; lia || done. }
  split; [by rewrite Hs|]. unfold s, after in *. rewrite app_comm_cons, fold_left_app, Hs. cbn [fold_left step].
  unfold tick. cbn [run a_start]. by rewrite (proj2 (Z.ltb_ge _ _)) by lia.
Qed.

(** An animation that is taken back before it ends stops where it is: the number shown then
    is not the one it should show, and no frame is left to change it. *)
Theorem count_sticks duration v w t0 t1 t2 : 0 < duration → v ≠ w → 0 ≤ t1 - t0 < duration →
  let s := after false duration v [Target w t0; Tick t1; Target v t2] in
  display s = eased v w (t1 - t0) duration ∧ ∀ ts, fold_left (step false duration) (Tick <$> ts) s = s.
Proof.
  intros Hd Hvw Ht s. assert (s = mkState (eased v w (t1 - t0) duration) v None) as ->.
  { unfold s, after. cbn [fold_left step]. unfold retarget at 2. cbn [from initial display].
    destruct (Z.eqb_spec (w - v) 0); [lia|]. unfold tick. cbn [run a_start].
    rewrite (proj2 (Z.ltb_lt _ _)) by lia. cbn [a_from a_to from]. unfold retarget. cbn [from].
    by rewrite Z.sub_diag. }
  split; [done|]. intros ts. by induction ts.
Qed.

Lemma count_arrives_witness :
  after false 500 3 [Target 7 0; Tick 100; Tick 500] = initial 7.
Proof.
  assert (0 < 500) as Hd by reflexivity. assert (3 ≠ 7) as Hne by (intros [=]).
  assert (Forall (λ t, 0 ≤ t - 0 < 500) [100]) as Hts by (repeat constructor; by vm_compute).
  assert (500 ≤ 500 - 0) as Ht by (by vm_compute).
  exact (proj2 (count_arrives 500 3 7 0 [100] 500 Hd Hne Hts Ht)).
Defined.

Lemma count_sticks_witness :
  let s := after false 500 3 [Target 4 0; Tick 400; Target 3 410] in
  display s = 4 ∧ ∀ ts, fold_left (step false 500) (Tick <$> ts) s = s.
Proof.
  assert (0 < 500) as Hd by reflexivity. assert (3 ≠ 4) as Hne by (intros [=]).
  assert (0 ≤ 400 - 0 < 500) as Ht by (by vm_compute).
  split; [vm_compute; reflexivity|]. exact (proj2 (count_sticks 500 3 4 0 400 410 Hd Hne Ht)).
Defined.

End Count.

(** ** The network banner *)

Module Banner.

(** The latency is the number [m / 10^k]. *)
Record snapshot := mkSnapshot { rpcAvailable : json; latencyMs : option (Z * nat) }.
Definition unavailable : snapshot := mkSnapshot (JBool false) None.

(** A request that takes longer than 1.5 seconds is aborted, and so rejected. *)
Definition fetchNetworkHealth (r : reply) : snapshot :=
  match r with
  | Answered code (Some v) =>
      if negb (ok code) then unavailable
      else match v with
           | JNull => unavailable
           | _ => mkSnapshot (nullish_or (prop "rpcAvailable" v) (JBool false))
                    (match prop "latencyMs" v with Some (JNum m k) => Some (m, k) | _ => None end)
           end
  | _ => unavailable
  end.

Inductive BannerState := hidden | warning | error.

(** [stored]: the item of the session storage. *)
Record state := mkState {
  bannerState : BannerState; latency : option (Z * nat); dismissedUntil : option numval; stored : option string;
}.

(** [n > z]. *)
Definition numval_gt (n : numval) (z : Z) : bool :=
  match n with
  | NumNaN => false
  | NumInf neg => negb neg
  | NumDec m e => if 0 <=? e then z <? m * 10 ^ e else z * 10 ^ (- e) <? m
  end.

Definition mount (now : Z) (item : option string) : state :=
  mkState hidden None
    (match filled item with
     | Some s => if numval_gt (js_Number s) now then Some (js_Number s) else None
     | None => None
     end) item.

Definition poll (r : reply) (s : state) : state :=
  let n := fetchNetworkHealth r in
  let b := if negb (truthy (rpcAvailable n)) then error
           else match latencyMs n with
                | Some (m, k) => if 2000 * pow10 k <? m then warning else hidden
                | None => hidden
                end in
  mkState b (latencyMs n) (dismissedUntil s) (stored s).

Definition handleDismiss (now : Z) (s : state) : state :=
  let until := now + 60 * 60 * 1000 in
  mkState (bannerState s) (latency s) (Some (NumDec until 0)) (Some (pretty until)).

(** What is drawn at a time: the message, the figure, and whether the faucet is linked. *)
Inductive view := WrongNetwork (text : string) | Nothing | Shown (message figure : string) (faucet : bool).

Definition seconds (l : Z * nat) : string :=
  let d := 1000 * pow10 l.2 in pretty ((2 * l.1 + d) / (2 * d)) +:+ "s".

Definition render (mismatch : bool) (network : option string) (now : Z) (s : state) : view :=
  if mismatch then
    WrongNetwork ("⚠ Wrong network — switch your Freighter wallet to " +:+ toUpperCase (default "TESTNET" network))
  else
    let isDismissed := match dismissedUntil s with Some u => numval_gt u now | None => false end in
    let faucet := String.eqb (toLowerCase (default "testnet" network)) "testnet" in
    if isDismissed then Nothing
    else match bannerState s with
         | hidden => Nothing
         | error => Shown "Stellar RPC is currently unavailable."
                      ("Estimated recovery: " +:+ match latency s with Some l => seconds l | None => "pending" end) faucet
         | warning => Shown "Stellar network latency is elevated."
                        ("Latency: " +:+ match latency s with Some l => seconds l | None => "normal" end) faucet
         end.

Lemma stored_number n now : 0 ≤ n → numval_gt (js_Number (pretty n)) now = (now <? n).
Proof.
  intros Hn. pose proof (number_json_pretty n Hn) as H. destruct (js_Number (pretty n)) as [| |m e]; try done.
  unfold number_json, numval_gt in *. destruct (Z.leb_spec 0 e).
  - unfold jint in H. by injection H as ->.
  - unfold jint in H. injection H as -> H. lia.
Qed.

Lemma polls_keep rs s : let s' := fold_left (λ s r, poll r s) rs s in
  dismissedUntil s' = dismissedUntil s ∧ stored s' = stored s.
Proof. revert s. induction rs as [|r rs IH]; intros s; [done|]. apply (IH (poll r s)). Qed.

(** Whether the banner is dismissed at a time, and what is drawn otherwise. *)
Definition dismissed (now : Z) (s : state) : bool :=
  match dismissedUntil s with Some u => numval_gt u now | None => false end.

Lemma render_dismissed net now s : dismissed now s = true → render false net now s = Nothing.
Proof. unfold render, dismissed. by intros ->. Qed.

Lemma render_same net now s1 s2 : dismissed now s1 = false → dismissed now s2 = false →
  bannerState s1 = bannerState s2 → latency s1 = latency s2 → render false net now s1 = render false net now s2.
Proof. unfold render, dismissed. by intros -> -> -> ->. Qed.

Lemma polls_same rs : ∀ s1 s2, bannerState s1 = bannerState s2 → latency s1 = latency s2 →
  let later s := fold_left (λ s r, poll r s) rs s in
  bannerState (later s1) = bannerState (later s2) ∧ latency (later s1) = latency (later s2).
Proof. induction rs as [|r rs IH]; intros s1 s2 H1 H2; [done|]. by apply (IH (poll r s1) (poll r s2)). Qed.

Lemma filled_pretty n : 0 ≤ n → filled (Some (pretty n)) = Some (pretty n).
Proof. intros Hn. destruct (pretty_digits n Hn) as (_ & _ & Hne & _). by destruct (pretty n). Qed.

(** Entering the page again reads the time back. *)
Lemma remounted t now s now' : 0 ≤ t → let u := t + 60 * 60 * 1000 in
  dismissed now' (mount now (stored (handleDismiss t s))) = (now <? u) && (now' <? u).
Proof.
  intros Ht u. unfold dismissed, mount, handleDismiss. cbn [stored dismissedUntil].
  rewrite filled_pretty, stored_number by (unfold u; lia). fold u.
  destruct (now <? u); [|done]. rewrite stored_number by (unfold u; lia). done.
Qed.

(** A banner that is dismissed stays away for an hour and no longer, whatever the network does
    and however often the page is left and entered again: until then nothing is drawn, and
    from then on what would be drawn had it never been dismissed. *)
Theorem dismissed_for_an_hour t now0 item rs net t' : 0 ≤ t →
  let s := handleDismiss t (mount now0 item) in
  let later s := fold_left (λ s r, poll r s) rs s in
  (t' < t + 3600000 → render false net t' (later s) = Nothing ∧
     ∀ t'', t'' ≤ t' → render false net t' (later (mount t'' (stored s))) = Nothing) ∧
  (t + 3600000 ≤ t' → render false net t' (later s) = render false net t' (later (mount t' None)) ∧
     ∀ t'', t'' ≤ t' →
       render false net t' (later (mount t'' (stored s))) = render false net t' (later (mount t' None))).
Proof.
  intros Ht s later.
  assert (∀ s, dismissed t' (later s) = dismissed t' s) as Hd
    by (intros s'; unfold dismissed, later; by destruct (polls_keep rs s') as [-> _]).
  assert (dismissed t' s = (t' <? t + 60 * 60 * 1000)) as Hs
    by (unfold dismissed, s; cbn [dismissedUntil handleDismiss numval_gt Z.leb Z.compare]; f_equal; lia).
  assert (∀ t'', dismissed t' (mount t'' (stored s)) = (t'' <? t + 60 * 60 * 1000) && (t' <? t + 60 * 60 * 1000)) as Hm
    by (intros t''; by apply remounted).
  split; intros Hlt; (split; [|intros t'' Ht'']).
  - apply render_dismissed. rewrite Hd, Hs. by apply Z.ltb_lt.
  - apply render_dismissed. rewrite Hd, Hm. apply andb_true_iff. split; apply Z.ltb_lt; lia.
  - destruct (polls_same rs s (mount t' None)) as [H1 H2]; [done..|].
    apply render_same; [rewrite Hd, Hs; apply Z.ltb_ge; lia|by rewrite Hd|done|done].
  - destruct (polls_same rs (mount t'' (stored s)) (mount t' None)) as [H1 H2]; [done..|].
    apply render_same; [rewrite Hd, Hm; apply andb_false_iff; right; apply Z.ltb_ge; lia|by rewrite Hd|done|done].
Qed.

(** Over the application, which has no such route, the banner always says that the network is
    down, whatever the network does. *)
Theorem banner_always_error now net s : dismissed now s = false →
  handled_by GET network_url = None ∧
  ∃ faucet, render false net now (poll not_found s) =
    Shown "Stellar RPC is currently unavailable." "Estimated recovery: pending" faucet.
Proof.
  intros Hd. split; [by vm_compute|]. eexists. unfold render, dismissed in *. cbn [dismissedUntil poll] in *.
  by rewrite Hd.
Qed.

Lemma dismissed_for_an_hour_witness :
  let s := handleDismiss 1000 (mount 0 None) in
  stored s = Some "3601000" ∧
  render false None 3600999 (poll (Rejected (Error "")) (mount 2000 (stored s))) = Nothing.
Proof.
  assert (0 ≤ 1000) as H0 by (by vm_compute). assert (3600999 < 1000 + 3600000) as H1 by reflexivity.
  assert (2000 ≤ 3600999) as H2 by (by vm_compute).
  split; [vm_compute; reflexivity|].
  exact (proj2 (proj1 (dismissed_for_an_hour 1000 0 None [Rejected (Error "")] None 3600999 H0) H1) 2000 H2).
Defined.

Lemma banner_always_error_witness :
  ∃ faucet, render false None 5 (poll not_found (mount 0 None)) =
    Shown "Stellar RPC is currently unavailable." "Estimated recovery: pending" faucet.
Proof. exact (proj2 (banner_always_error 5 None (mount 0 None) eq_refl)). Defined.

End Banner.

(** ** Breadcrumbs *)

Module Crumbs.

Record item := mkItem { label : string; path : option string }.
Record context := mkContext { orgName : option string; issueTitle : option string; contributorName : option string }.

Definition HOME : item := mkItem "Home" (Some "/").

Definition truncateAddress (addr : string) : string :=
  if 16 <? strlen addr then slice_to 8 addr +:+ "…" +:+ slice_from (length (lst addr) - 6) addr else addr.

(** A group [([^/]+)] of a pattern. *)
Definition group (s : string) : bool := negb (String.eqb s "").

Definition org_crumb (ctx : context) (o : string) (linked : bool) : item :=
  mkItem (default o (orgName ctx)) (if linked then Some ("/orgs/" +:+ o) else None).

(** The patterns, on the segments of the path; no two of them fit the same path. *)
Definition useBreadcrumbs (ctx : context) (pathname : string) : list item :=
  match split "/" pathname with
  | [root; kind; x] =>
      if String.eqb root "" && group x then
        if String.eqb kind "maintainer" then [HOME; org_crumb ctx x true; mkItem "Maintainer Dashboard" None]
        else if String.eqb kind "orgs" then [HOME; org_crumb ctx x false]
        else if String.eqb kind "contributors"
             then [HOME; mkItem (default (truncateAddress x) (contributorName ctx)) None]
             else [HOME]
      else [HOME]
  | [root; kind; o; sub; x] =>
      if String.eqb root "" && String.eqb kind "orgs" && group o && group x then
        if String.eqb sub "issues"
        then [HOME; org_crumb ctx o true; mkItem (default ("Issue " +:+ x) (issueTitle ctx)) None]
        else if String.eqb sub "contributors"
             then [HOME; org_crumb ctx o true; mkItem (default (truncateAddress x) (contributorName ctx)) None]
             else [HOME]
      else [HOME]
  | _ => [HOME]
  end.

Lemma split_orgs o : "/"%char ∉ lst o → split "/" ("/orgs/" +:+ o) = [""; "orgs"; o].
Proof.
  intros Ho. change ("/orgs/" +:+ o) with (join "/" [""; "orgs"; o]). apply split_join; [done|].
  repeat constructor; [apply not_elem_of_nil|set_solver|done].
Qed.

Lemma segment_plain p o : o ∈ split "/" p → "/"%char ∉ lst o.
Proof.
  unfold split. enough (∀ l cur, "/"%char ∉ cur → o ∈ split_list "/" cur l → "/"%char ∉ lst o) as H
    by (apply H; apply not_elem_of_nil).
  induction l as [|c l IH]; intros cur Hc; cbn [split_list].
  - intros ->%list_elem_of_singleton. rewrite lst_str. by rewrite list_elem_of_In, <- in_rev, <- list_elem_of_In.
  - destruct (Ascii.eqb_spec c "/") as [->|Hne].
    + intros [->|Hin]%elem_of_cons; [rewrite lst_str; by rewrite list_elem_of_In, <- in_rev, <- list_elem_of_In|].
      apply (IH [] (not_elem_of_nil _) Hin).
    + apply IH. set_solver.
Qed.

(** What the crumbs can be: home alone, home and a page, or home, an organisation and a page
    of it. *)
Lemma crumbs_shape ctx p :
  useBreadcrumbs ctx p = [HOME] ∨
  (∃ l, useBreadcrumbs ctx p = [HOME; mkItem l None]) ∨
  ∃ o l, "/"%char ∉ lst o ∧ group o = true ∧ useBreadcrumbs ctx p = [HOME; org_crumb ctx o true; mkItem l None].
Proof.
  assert (∀ o, o ∈ split "/" p → "/"%char ∉ lst o) as Hs by (intros o; apply segment_plain).
  unfold useBreadcrumbs. destruct (split "/" p) as [|r [|k [|o [|s [|x [|]]]]]]; try by left.
  - destruct (String.eqb r "" && group o) eqn:E; [|by left]. apply andb_true_iff in E as [_ Hg].
    destruct (String.eqb k "maintainer"); [|destruct (String.eqb k "orgs"); [|destruct (String.eqb k "contributors")]];
      [right; right|right; left; by eexists|right; left; by eexists|by left].
    eexists o, _. split_and!; [apply Hs; set_solver|done|done].
  - destruct (_ && group x) eqn:E; [|by left]. rewrite !andb_true_iff in E. destruct E as [[[_ _] Hg] _].
    destruct (String.eqb s "issues"); [|destruct (String.eqb s "contributors"); [|by left]];
      right; right; eexists o, _; (split_and!; [apply Hs; set_solver|done|done]).
Qed.

(** The crumbs are nested: they start at home, only the page itself has no link, and following
    the link of a crumb leads to a page whose crumbs are those up to it. *)
Theorem crumbs_nested ctx p :
  head (useBreadcrumbs ctx p) = Some HOME ∧
  ∀ j c, useBreadcrumbs ctx p !! j = Some c →
    match path c with
    | None => (0 < j)%nat ∧ S j = length (useBreadcrumbs ctx p)
    | Some link => label <$> useBreadcrumbs ctx link = take (S j) (label <$> useBreadcrumbs ctx p)
    end.
Proof.
  destruct (crumbs_shape ctx p) as [->|[[l ->]|(o & l & Ho & Hg & ->)]]; (split; [done|]);
    intros [|[|[|j]]] c; intros [= <-]; try done; cbn [path org_crumb HOME]; try (split; [lia|done]).
  unfold useBreadcrumbs. rewrite split_orgs by done. cbn [String.eqb Ascii.eqb Bool.eqb andb]. by rewrite Hg.
Qed.

Example crumbs_of_issue : label <$> useBreadcrumbs (mkContext None (Some "Fix") None) "/orgs/acme/issues/7" =
  ["Home"; "acme"; "Fix"].
Proof. reflexivity. Qed.

End Crumbs.

(** ** The focus trap *)

Module Trap.

(** The document: the focused element, whether scrolling is locked, how many handlers listen. *)
Record document := mkDoc { active : option nat; locked : bool; listeners : nat }.

(** The hook: its parameter, and its three references. *)
Record trap := mkTrap { on : bool; previous : option nat; handler : bool; frame : bool }.

(** The listener and the frame of an effect that goes away. *)
Definition release (t : trap) (d : document) : trap * document :=
  (mkTrap (on t) (previous t) false false,
   mkDoc (active d) false (if handler t then pred (listeners d) else listeners d)).

Definition activate (t : trap) (d : document) : trap * document :=
  (mkTrap true (active d) true true, mkDoc (active d) true (S (listeners d))).

Definition deactivate (t : trap) (d : document) : trap * document :=
  let '(t, d) := release t d in
  (mkTrap false (previous t) (handler t) (frame t),
   mkDoc (match previous t with Some e => Some e | None => active d end) (locked d) (listeners d)).

(** The effect runs when [active] changes, after the cleanup of the one before. *)
Definition set_active (a : bool) (s : trap * document) : trap * document :=
  let '(t, d) := s in
  if eqb (on t) a then s
  else if a then activate t d
  else let '(t, d) := release t d in deactivate t d.

(** The first run: [useRef(null)]. *)
Definition mount (a : bool) (d : document) : trap * document :=
  let t := mkTrap false None false false in if a then activate t d else deactivate t d.

(** The frame focuses the first element. *)
Definition paint (fs : list nat) (s : trap * document) : trap * document :=
  let '(t, d) := s in
  if frame t then (mkTrap (on t) (previous t) (handler t) false,
                   mkDoc (match head fs with Some e => Some e | None => active d end) (locked d) (listeners d))
  else s.

(** Where the handler moves the focus, [None] if it leaves the key to the browser. *)
Definition onTab (shift : bool) (fs : list nat) (a : option nat) : option nat :=
  match fs with
  | [] => None
  | first :: _ =>
      let final := List.last fs first in
      if shift && bool_decide (a = Some first) then Some final
      else if negb shift && bool_decide (a = Some final) then Some first else None
  end.

(** The browser moves the focus along the document. *)
Definition neighbour (shift : bool) (order : list nat) (a : nat) : option nat :=
  '(i, _) ← list_find (λ e, e = a) order;
  if shift then match i with O => None | S i => order !! i end else order !! S i.

Definition press_tab (shift : bool) (fs order : list nat) (a : nat) : option nat :=
  match onTab shift fs (Some a) with Some e => Some e | None => neighbour shift order a end.

Lemma find_at (order : list nat) i a : NoDup order → order !! i = Some a → list_find (λ e, e = a) order = Some (i, a).
Proof.
  intros Hn Hi. apply list_find_Some. split_and!; [done|done|]. intros j y Hj Hlt ->.
  pose proof (NoDup_lookup _ _ _ _ Hn Hi Hj). lia.
Qed.

Lemma last_at (fs : list nat) x n : length fs = S n → fs !! n = Some (List.last fs x).
Proof.
  revert n. induction fs as [|f fs IH]; intros n Hl; [done|]. destruct fs as [|g fs].
  - by destruct n.
  - destruct n as [|n]; [done|]. injection Hl as Hl. apply IH. by cbn in *; congruence.
Qed.

Lemma onTab_first shift fs f a : fs !! 0%nat = Some f →
  onTab shift fs a = if shift && bool_decide (a = Some f) then Some (List.last fs f)
                     else if negb shift && bool_decide (a = Some (List.last fs f)) then Some f else None.
Proof. destruct fs as [|f' fs]; [done|]. by intros [= ->]. Qed.

(** As long as the focus is on one of the elements of the dialog, Tab goes round them: the next one
    in the order of the page, and from the last to the first; with Shift the other way round. *)
Theorem tab_goes_round pre fs post i a (shift : bool) :
  NoDup (pre ++ fs ++ post) → fs !! i = Some a →
  press_tab shift fs (pre ++ fs ++ post) a =
    fs !! (if shift then (i + (length fs - 1)) mod length fs else (i + 1) mod length fs)%nat.
Proof.
  intros Hn Hi. pose proof (lookup_lt_Some _ _ _ Hi) as Hlt.
  assert (NoDup fs) as Hf by (apply NoDup_app in Hn as (_ & _ & Hn); by apply NoDup_app in Hn as (? & _)).
  assert (∃ f, fs !! 0%nat = Some f) as [f H0] by (apply lookup_lt_is_Some_2; lia).
  assert (∃ n, length fs = n ∧ 0 < n)%nat as (n & En & H0n) by (eexists; split; [done|lia]). rewrite En in *.
  assert (fs !! (n - 1)%nat = Some (List.last fs f)) as Hl by (apply last_at; lia).
  assert (∀ j b, fs !! j = Some b → (pre ++ fs ++ post) !! (length pre + j)%nat = Some b) as Hp.
  { intros j b Hj. rewrite lookup_app_r by lia. replace (length pre + j - length pre)%nat with j by lia.
    by apply lookup_app_l_Some. }
  pose proof (find_at _ _ _ Hn (Hp _ _ Hi)) as Hfind.
  unfold press_tab, neighbour. rewrite (onTab_first _ _ _ _ H0), Hfind. cbn [mbind option_bind].
  destruct shift; cbn [andb negb].
  - case_bool_decide as Ha.
    + injection Ha as ->. assert (i = 0)%nat as -> by (by eapply NoDup_lookup).
      rewrite Nat.add_0_l, Nat.mod_small by lia. by rewrite Hl.
    + assert (i ≠ 0)%nat by (intros ->; congruence).
      replace ((i + (n - 1)) mod n)%nat with (i - 1)%nat
        by (replace (i + (n - 1))%nat with ((i - 1) + 1 * n)%nat by lia; rewrite Nat.Div0.mod_add, Nat.mod_small by lia; done).
      replace (length pre + i)%nat with (S (length pre + (i - 1))) by lia.
      destruct (lookup_lt_is_Some_2 fs (i - 1)) as [b Hb]; [lia|]. rewrite Hb. by apply Hp.
  - case_bool_decide as Ha.
    + injection Ha as Ha. rewrite Ha in Hi. assert (i = n - 1)%nat as -> by (by eapply NoDup_lookup).
      replace (n - 1 + 1)%nat with n by lia. by rewrite Nat.Div0.mod_same.
    + assert (i ≠ n - 1)%nat by (intros ->; congruence).
      rewrite Nat.mod_small by lia. replace (S (length pre + i)) with (length pre + (i + 1))%nat by lia.
      destruct (lookup_lt_is_Some_2 fs (i + 1)) as [b Hb]; [lia|]. rewrite Hb. by apply Hp.
Qed.

(** A dialog that closes gives the focus back to where it was when it opened, unlocks the page
    and listens no more, wherever the focus went meanwhile. *)
Theorem trap_restores d e a : active d = Some e →
  let s := set_active true (mount false d) in
  let '(t, d') := s in
  let '(t', d'') := set_active false (t, mkDoc a (locked d') (listeners d')) in
  locked d' = true ∧ listeners d' = S (listeners d) ∧
  active d'' = Some e ∧ locked d'' = false ∧ listeners d'' = listeners d ∧ handler t' = false ∧ frame t' = false.
Proof. intros He. destruct d as [x l n]. cbn in He. subst x. done. Qed.

(** Two dialogs, the second opened over the first: closing it unlocks the page although the
    first is still open. *)
Theorem nested_trap_unlocks d :
  let '(t1, d1) := set_active true (mount false d) in
  let '(t2, d2) := set_active true (mount false d1) in
  let '(_, d3) := set_active false (t2, d2) in
  on t1 = true ∧ locked d3 = false.
Proof. done. Qed.

Lemma tab_goes_round_witness :
  press_tab false [4; 5; 6]%nat ([1; 2] ++ [4; 5; 6] ++ [9])%nat 6%nat = Some 4%nat.
Proof.
  assert (NoDup ([1; 2] ++ [4; 5; 6] ++ [9])%nat) as Hn by (apply (bool_decide_unpack _); vm_compute; exact I).
  exact (tab_goes_round [1; 2]%nat [4; 5; 6]%nat [9]%nat 2 6%nat false Hn eq_refl).
Defined.

Lemma trap_restores_witness :
  let '(t, d') := set_active true (mount false (mkDoc (Some 7%nat) false 0)) in
  let '(_, d'') := set_active false (t, mkDoc (Some 3%nat) (locked d') (listeners d')) in
  active d'' = Some 7%nat.
Proof.
  exact (proj1 (proj2 (proj2 (trap_restores (mkDoc (Some 7%nat) false 0) 7 (Some 3%nat) eq_refl)))).
Defined.

End Trap.

(** ** The navigation bars *)

Module Nav.

Inductive WalletStatus := connected | connecting | disconnected.

Definition resolveWalletStatus (publicKey : option string) (busy : bool) : WalletStatus :=
  if busy then connecting else match filled publicKey with Some _ => connected | None => disconnected end.

Definition STATUS_LABEL (s : WalletStatus) : string :=
  match s with
  | connected => "Wallet connected"
  | connecting => "Wallet connecting"
  | disconnected => "Wallet disconnected"
  end.

(** The address between its ends. *)
Definition short (k : string) : string := slice_to 6 k +:+ "…" +:+ slice_from (length (lst k) - 4) k.

(** The bar with its own wallet: is the drawer open, and how many connections wait for the
    extension. *)
Record state := mkState { wallet : Wallet.state; isOpen : bool; pending : nat }.

Inductive event := Hamburger | Close | ClickConnect | ClickDisconnect | Answer (f : Wallet.freighter).

Section nav.
Variable env : option string.

Definition close (s : state) : state := mkState (wallet s) false (pending s).

Definition step (s : state) (e : event) : state :=
  let w := wallet s in
  match e with
  | Hamburger => mkState w (negb (isOpen s)) (pending s)
  | Close => close s
  | ClickConnect =>
      match filled (Wallet.publicKey w) with
      | Some _ => s
      | None => if Wallet.connecting w then s
                else close (mkState (Wallet.step env w Wallet.Begin) (isOpen s) (S (pending s)))
      end
  | ClickDisconnect =>
      match filled (Wallet.publicKey w) with
      | Some _ => close (mkState (Wallet.step env w Wallet.Disconnect) (isOpen s) (pending s))
      | None => s
      end
  | Answer f =>
      match pending s with
      | O => s
      | S n => mkState (Wallet.step env w (Wallet.Finish f)) (isOpen s) n
      end
  end.

Definition after (store : storage) (es : list event) : state :=
  fold_left step es (mkState (Wallet.mount store) false 0).

(** What the wallet part shows: the address, or the button and whether it can be pressed. *)
Definition section (s : state) : string * bool :=
  match filled (Wallet.publicKey (wallet s)) with
  | Some k => (short k, true)
  | None => if Wallet.connecting (wallet s) then ("Connecting…", false) else ("Connect Wallet", true)
  end.

Lemma finish_connecting f w : Wallet.connecting (Wallet.finish env f w) = false.
Proof. unfold Wallet.finish, Wallet.caught, Wallet.fail. by repeat case_match. Qed.

Lemma nav_step s e : pending s = (if Wallet.connecting (wallet s) then 1 else 0)%nat →
  pending (step s e) = (if Wallet.connecting (wallet (step s e)) then 1 else 0)%nat.
Proof.
  intros Hs. destruct e as [| | | |f]; cbn [step]; [done|done| | |].
  - destruct (filled _); [done|]. destruct (Wallet.connecting (wallet s)) eqn:E; [by rewrite E|].
    cbn. by rewrite Hs.
  - by destruct (filled _).
  - destruct (pending s) as [|n] eqn:E; [by rewrite E|]. cbn [wallet pending Wallet.step].
    rewrite finish_connecting. by destruct (Wallet.connecting (wallet s)); [injection Hs|].
Qed.

(** The bar asks the extension for one connection at a time, whatever is clicked: it waits for
    an answer exactly while it says [Wallet connecting], and then the button is disabled. *)
Theorem nav_one_connection store es :
  let s := after store es in
  (pending s ≤ 1)%nat ∧
  (pending s = 1%nat ↔ resolveWalletStatus (Wallet.publicKey (wallet s)) (Wallet.connecting (wallet s)) = connecting) ∧
  (filled (Wallet.publicKey (wallet s)) = None → pending s = 1%nat → (section s).2 = false).
Proof.
  intros s. assert (pending s = (if Wallet.connecting (wallet s) then 1 else 0)%nat) as Hs.
  { unfold s, after. induction es as [|e es IH] using rev_ind; [done|]. rewrite fold_left_app. by apply nav_step. }
  unfold resolveWalletStatus, section. rewrite Hs.
  destruct (Wallet.connecting (wallet s)), (filled (Wallet.publicKey (wallet s))); split_and!; try done; lia.
Qed.

End nav.

End Nav.
