(* ===== verification/Gates.v ===== *)
(** * The gates of the continuous integration ([scripts/])

    [check-benchmarks.js]: the lines it reads, the comparison with the baseline, the update of
    the baseline and the exit code; [mutation-report.js]: its arguments, the tally, the score,
    the exit code and the text of its table.  The file system, the standard input and what
    [parseFloat] makes of [BENCH_THRESHOLD] are parameters; the page around the table is left
    out. *)

From Stdlib Require Import String Ascii.
From S2P Require Import Prelude Js Decimal Url Http Client.

#[local] Open Scope string_scope.
#[local] Open Scope list_scope.
#[local] Open Scope Z_scope.

(** ** Benchmarks *)

Module Bench.

(** [\w]. *)
Definition is_word (c : ascii) : bool := is_upper c || is_lower c || is_digit c || Ascii.eqb c "_".

(** The longest prefix in a class, and the rest. *)
Fixpoint span (p : ascii → bool) (l : list ascii) : list ascii * list ascii :=
  match l with
  | c :: l' => if p c then let '(a, b) := span p l' in (c :: a, b) else ([], l)
  | [] => ([], [])
  end.

(** A class repeated at least once. *)
Definition some_of (p : ascii → bool) (l : list ascii) : option (list ascii * list ascii) :=
  match span p l with ([], _) => None | (a, b) => Some (a, b) end.

Fixpoint literal (w l : list ascii) : option (list ascii) :=
  match w, l with
  | [], _ => Some l
  | c :: w', d :: l' => if Ascii.eqb c d then literal w' l' else None
  | _, [] => None
  end.

(** [/^bench_(\w+):\s+(\d+)\s+cpu_insns\s*$/] on the trimmed line: no class can give back what
    it took, so that the longest run is the only one. *)
Definition parse_line (line : string) : option (string * Z) :=
  l ← literal (lst "bench_") (lst (trim line));
  '(name, l) ← some_of is_word l;
  l ← literal (lst ":") l;
  '(_, l) ← some_of is_ws l;
  '(digits, l) ← some_of is_digit l;
  '(_, l) ← some_of is_ws l;
  l ← literal (lst "cpu_insns") l;
  match snd (span is_ws l) with
  | [] => Some ("bench_" +:+ str name, digits_value 0 digits)
  | _ => None
  end.

(** A property of an object is set: in place, or at the end. *)
Fixpoint put {A} (k : string) (v : A) (m : list (string * A)) : list (string * A) :=
  match m with
  | [] => [(k, v)]
  | (k', v') :: m' => if String.eqb k k' then (k, v) :: m' else (k', v') :: put k v m'
  end.

Definition parseBenchOutput (lines : list string) : list (string * Z) :=
  fold_left (λ m line, match parse_line line with Some (k, v) => put k v m | None => m end) lines [].

(** A number [n / d] with [0 < d]; [None]: not a number. *)
Definition number := option (Z * Z).

Definition number_of (v : json) : number :=
  match v with
  | JNum m k => Some (m, pow10 k)
  | JStr s => match js_Number s with
              | NumDec m e => Some (if 0 <=? e then (m * 10 ^ e, 1) else (m, 10 ^ (- e)))
              | _ => None
              end
  | JBool b => Some (if b then 1 else 0, 1)
  | _ => None
  end.

(** [actual > baseline * (1 + threshold)], exactly.  The script multiplies doubles: with its
    default of 0.10, whose double is the larger, and integers, the answer is the same. *)
Definition regressed (threshold : number) (actual : Z) (base : number) : bool :=
  match threshold, base with
  | Some (tn, td), Some (bn, bd) => bn * (td + tn) <? actual * bd * td
  | _, _ => false
  end.

(** An entry of the baseline against the measures: its verdict; it throws if it has no
    [cpu_insns]. *)
Inductive verdict := Missing | Regression | Within.

Definition check_entry (threshold : number) (measured : list (string * Z)) (e : string * json) : outcome verdict :=
  match e.2 with
  | JNull => Throw (null_property "cpu_insns")
  | v =>
      match assoc e.1 measured with
      | None => Ret Missing
      | Some actual =>
          match prop "cpu_insns" v with
          | None | Some JNull => Throw (null_property "toLocaleString")
          | Some b => Ret (if regressed threshold actual (number_of b) then Regression else Within)
          end
      end
  end.

(** [baseline.benchmarks[name].cpu_insns = value], or a new entry; a truthy entry that is no
    object throws. *)
Definition update_entry (entry : option json) (value : Z) : outcome json :=
  match entry with
  | Some (JObj l) => Ret (JObj (put "cpu_insns" (jint value) l))
  | Some v => if truthy v then Throw (ErrorObj "TypeError" "Cannot create property 'cpu_insns'")
              else Ret (obj [("cpu_insns", Some (jint value)); ("description", Some (JStr ""))])
  | None => Ret (obj [("cpu_insns", Some (jint value)); ("description", Some (JStr ""))])
  end.

Fixpoint update_all (measured : list (string * Z)) (benchmarks : list (string * json)) : outcome (list (string * json)) :=
  match measured with
  | [] => Ret benchmarks
  | (k, v) :: measured' =>
      match update_entry (assoc k benchmarks) v with
      | Ret e => update_all measured' (put k e benchmarks)
      | Throw e => Throw e
      end
  end.

(** The exit code, and the baseline that is written. *)
Record result := mkResult { code : Z; written : option json }.

(** [baseline]: the parsed file, [None] if it cannot be read.  What is thrown outside a [try]
    ends the process with code 1. *)
Definition main (update : bool) (threshold : number) (baseline : option json) (lines : list string) : result :=
  match baseline with
  | None => mkResult 2 None
  | Some JNull => mkResult 1 None
  | Some b =>
      match prop "benchmarks" b with
      | Some (JObj benchmarks) =>
          let measured := parseBenchOutput lines in
          match measured with
          | [] => mkResult 3 None
          | _ =>
              if update then
                match update_all measured benchmarks with
                | Ret m => mkResult 0 (Some (match b with JObj l => JObj (put "benchmarks" (JObj m) l) | _ => b end))
                | Throw _ => mkResult 1 None
                end
              else
                match map_outcome (check_entry threshold measured) benchmarks with
                | Throw _ => mkResult 1 None
                | Ret vs => mkResult (if existsb (λ v, match v with Regression => true | _ => false end) vs then 1 else 0) None
                end
          end
      | Some (JArr l) =>
          (* properties that are set on an array are not written *)
          match parseBenchOutput lines with
          | [] => mkResult 3 None
          | _ => if update then mkResult 0 (Some b)
                 else mkResult (if existsb (λ v, match v with JNull => true | _ => false end) l then 1 else 0) None
          end
      | _ => mkResult 2 None
      end
  end.

(** ** Lemmas *)

Lemma span_all p a b : Forall (λ c, p c = true) a → (∀ c, head b = Some c → p c = false) → span p (a ++ b) = (a, b).
Proof.
  intros Ha Hb. induction Ha as [|c a Hc Ha IH]; cbn [app span].
  - destruct b as [|c b]; [done|]. cbn. by rewrite (Hb c eq_refl).
  - by rewrite Hc, IH.
Qed.

Lemma some_of_all p a b : a ≠ [] → Forall (λ c, p c = true) a → (∀ c, head b = Some c → p c = false) →
  some_of p (a ++ b) = Some (a, b).
Proof. intros Hne Ha Hb. unfold some_of. rewrite span_all by done. by destruct a. Qed.

Lemma literal_app w l : literal w (w ++ l) = Some l.
Proof. induction w as [|c w IH]; [done|]. cbn. by rewrite Ascii.eqb_refl. Qed.

Lemma assoc_put {A} k k' (v : A) m : assoc k' (put k v m) = if String.eqb k' k then Some v else assoc k' m.
Proof.
  induction m as [|[k2 v2] m IH]; cbn [put assoc]; [by destruct (String.eqb k' k)|].
  destruct (String.eqb_spec k k2) as [->|Hne]; cbn [assoc].
  - by destruct (String.eqb k' k2).
  - rewrite IH. destruct (String.eqb_spec k' k2) as [->|]; [|done].
    by destruct (String.eqb_spec k2 k) as [->|].
Qed.

Lemma drop_ws_app pre l c : Forall (λ c, is_ws c = true) pre → head l = Some c → is_ws c = false →
  drop_ws (pre ++ l) = l.
Proof.
  intros Hp Hl Hc. induction Hp as [|d pre Hd Hp IH]; cbn [app drop_ws]; [|by rewrite Hd].
  destruct l as [|c' l]; [done|]. injection Hl as ->. cbn. by rewrite Hc.
Qed.

Lemma trim_around pre core post c d : Forall (λ c, is_ws c = true) pre → Forall (λ c, is_ws c = true) post →
  head core = Some c → is_ws c = false → last core = Some d → is_ws d = false →
  trim_list (pre ++ core ++ post) = core.
Proof.
  intros Hp Hq Hc Hcw Hd Hdw. unfold trim_list. rewrite (drop_ws_app pre (core ++ post) c); [|done| |done].
  2:{ destruct core; [done|]. exact Hc. }
  rewrite rev_app_distr, (drop_ws_app (rev post) (rev core) d); [by rewrite rev_involutive|by apply Forall_rev| |done].
  apply last_Some in Hd as [l ->]. by rewrite rev_app_distr.
Qed.

Lemma str_inj_app a b c : str (a ++ b ++ c) = str a +:+ str b +:+ str c.
Proof. by rewrite !str_app. Qed.

(** ** Theorems *)

(** The line a benchmark prints is read back, name and number, whatever white space is around
    it. *)
Theorem parse_printed name n pre post : name ≠ "" → Forall (λ c, is_word c = true) (lst name) → 0 ≤ n →
  Forall (λ c, is_ws c = true) (lst pre) → Forall (λ c, is_ws c = true) (lst post) →
  parse_line (pre +:+ ("bench_" +:+ name +:+ ": " +:+ pretty n +:+ " cpu_insns") +:+ post) = Some ("bench_" +:+ name, n).
Proof.
  intros Hne Hw Hn Hpre Hpost. destruct (pretty_digits n Hn) as (Hd & Hv & Hnn & _).
  set (w := lst name) in *. set (ds := lst (pretty n)) in *.
  assert (w ≠ []) as Hw0 by (unfold w; by destruct name).
  set (core := lst "bench_" ++ w ++ lst ": " ++ ds ++ lst " cpu_insns").
  assert (lst (trim (pre +:+ ("bench_" +:+ name +:+ ": " +:+ pretty n +:+ " cpu_insns") +:+ post)) = core) as Ht.
  { unfold trim. rewrite lst_str, !lst_app. fold w ds core.
    apply (trim_around _ core _ "b" "s"); try done.
    unfold core. rewrite !app_assoc. change (lst " cpu_insns") with (lst " cpu_insn" ++ ["s"%char]).
    rewrite app_assoc. apply last_snoc. }
  unfold parse_line. rewrite Ht. unfold core. rewrite literal_app. cbn [mbind option_bind].
  rewrite some_of_all; [|done|done|by intros c [= <-]]. cbn [mbind option_bind].
  change (lst ": " ++ ds ++ lst " cpu_insns") with (lst ":" ++ [" "%char] ++ ds ++ lst " cpu_insns").
  rewrite literal_app. cbn [mbind option_bind].
  assert (∀ c, head (ds ++ lst " cpu_insns") = Some c → is_ws c = false) as Hds.
  { intros c Hc. unfold digits in Hd. destruct ds as [|d ds']; [done|]. injection Hc as ->.
    inv Hd. by apply digit_not_ws. }
  rewrite some_of_all; [|done|by repeat constructor|exact Hds]. cbn [mbind option_bind].
  rewrite some_of_all; [|done|exact Hd|by intros c [= <-]]. cbn [mbind option_bind].
  change (lst " cpu_insns") with ([" "%char] ++ lst "cpu_insns" ++ []).
  rewrite some_of_all; [|done|by repeat constructor|by intros c [= <-]]. cbn [mbind option_bind].
  rewrite literal_app. cbn [mbind option_bind snd span]. unfold w. rewrite str_lst. by rewrite digits_value_all, Hv.
Qed.


Definition is_regression (v : verdict) : bool := match v with Regression => true | _ => false end.

(** The verdicts of entries that all have a number. *)
Lemma verdicts threshold measured bs :
  Forall (λ e, ∃ l n, e.2 = JObj l ∧ assoc "cpu_insns" l = Some n ∧ n ≠ JNull) bs →
  ∃ vs, map_outcome (check_entry threshold measured) bs = Ret vs ∧
    (existsb is_regression vs = true ↔
     ∃ k e actual n, (k, e) ∈ bs ∧ assoc k measured = Some actual ∧ prop "cpu_insns" e = Some n ∧
       regressed threshold actual (number_of n) = true).
Proof.
  induction 1 as [|[k e] bs (l & n & He & Hn & Hnn) Hbs (vs & Hvs & IH)].
  - exists []. split; [done|]. split; [done|]. intros (k & e & a & n & Hin & _). by apply elem_of_nil in Hin.
  - cbn [snd] in He. subst e.
    assert (∃ v, check_entry threshold measured (k, JObj l) = Ret v ∧
      (is_regression v = true ↔ ∃ actual, assoc k measured = Some actual ∧ regressed threshold actual (number_of n) = true))
      as (v & Hv & Hr).
    { unfold check_entry. cbn [fst snd prop]. rewrite Hn. destruct (assoc k measured) as [a|].
      - destruct n; [done|..]; (eexists; split; [done|]); case_match; split; try done; try (by intros _; eauto);
          intros (? & [= <-] & ?); congruence.
      - exists Missing. split; [done|]. split; [done|]. by intros (? & ? & _). }
    exists (v :: vs). cbn [map_outcome existsb]. rewrite Hv, Hvs. split; [done|].
    rewrite orb_true_iff, Hr, IH. split.
    + intros [(a & Ha & Hreg)|(k' & e' & a & n' & Hin & Hrest)].
      * exists k, (JObj l), a, n. split_and!; [left|done|done|done].
      * exists k', e', a, n'. split; [by right|done].
    + intros (k' & e' & a & n' & [[= -> ->]|Hin]%elem_of_cons & Ha & Hp & Hreg).
      * left. exists a. cbn in Hp. rewrite Hn in Hp. by injection Hp as <-.
      * right. by exists k', e', a, n'.
Qed.

Definition well_formed (bs : list (string * json)) : Prop :=
  Forall (λ e, ∃ l n, e.2 = JObj l ∧ assoc "cpu_insns" l = Some n ∧ n ≠ JNull) bs.

(** The gate fails exactly when a benchmark of the baseline was measured above its threshold: for a
    baseline whose entries have a number, the exit code is 3 if no line was a result, 1 if some
    benchmark of both needs more than its baseline times one plus the threshold, 0 otherwise.
    A benchmark that is not measured, or not in the baseline, does not fail it. *)
Theorem gate_fails_on_regressions threshold l bs lines :
  assoc "benchmarks" l = Some (JObj bs) → well_formed bs →
  let measured := parseBenchOutput lines in
  let r := main false threshold (Some (JObj l)) lines in
  written r = None ∧
  (code r = 3 ↔ measured = []) ∧
  (code r = 1 ↔ ∃ k e actual n, (k, e) ∈ bs ∧ assoc k measured = Some actual ∧
     prop "cpu_insns" e = Some n ∧ regressed threshold actual (number_of n) = true) ∧
  (code r = 0 ∨ code r = 1 ∨ code r = 3).
Proof.
  intros Hb Hw measured r. destruct (verdicts threshold measured bs Hw) as (vs & Hvs & Hr).
  assert (r = match measured with [] => mkResult 3 None
              | _ => mkResult (if existsb is_regression vs then 1 else 0) None end) as ->.
  { unfold r, main. cbn [prop]. rewrite Hb. fold measured. rewrite Hvs. by destruct measured. }
  destruct measured as [|m ms] eqn:E.
  - split; [done|]. split; [done|]. split; [|by right; right].
    split; [done|]. intros (k & e & a & n & _ & Ha & _). done.
  - cbn [code written]. rewrite <- Hr.
    split; [done|]. split; [by destruct (existsb _ _)|]. split; [|destruct (existsb _ _); auto].
    by destruct (existsb _ _).
Qed.

(** Keys and entries after an update. *)
Lemma elem_put {A} k (v : A) m x : x ∈ put k v m → x = (k, v) ∨ x ∈ m.
Proof.
  induction m as [|[k' v'] m IH]; cbn [put]; [set_solver|]. destruct (String.eqb_spec k k') as [->|]; set_solver.
Qed.

Lemma put_measure value l : ∃ l', JObj (put "cpu_insns" (jint value) l) = JObj l' ∧
  assoc "cpu_insns" l' = Some (jint value).
Proof. eexists. split; [done|]. rewrite assoc_put. by rewrite String.eqb_refl. Qed.

Definition entry_of (value : Z) (e : json) : Prop := ∃ l, e = JObj l ∧ assoc "cpu_insns" l = Some (jint value).

Lemma elem_put_keys {A} k (v : A) m x : NoDup m.*1 → x ∈ put k v m → x.1 ≠ k → x ∈ m.
Proof.
  intros _ [->|]%elem_put; [done|done].
Qed.

Lemma put_keys {A} k (v : A) m : NoDup m.*1 → NoDup (put k v m).*1 ∧ ∀ x, x ∈ put k v m → x.1 = k → x.2 = v.
Proof.
  induction m as [|[k' v'] m IH]; intros Hn; cbn [put].
  - split; [apply NoDup_singleton|]. by intros x ->%list_elem_of_singleton.
  - inversion Hn as [|? ? Hk Hn']; subst. destruct (String.eqb_spec k k') as [->|Hne].
    + split; [by constructor|]. intros [k2 v2] [[= -> ->]|Hin]%elem_of_cons; cbn; [done|].
      intros ->. exfalso. apply Hk. change k' with ((k', v2).1). by apply list_elem_of_fmap_2.
    + destruct (IH Hn') as [H1 H2]. split.
      * rewrite fmap_cons. constructor; [|done]. intros (x & Hx & Hin)%list_elem_of_fmap. cbn in Hx.
        destruct (elem_put _ _ _ _ Hin) as [->|Hm]; [by cbn in Hx|].
        apply Hk. cbn. rewrite Hx. by apply list_elem_of_fmap_2.
      * intros x [->|Hin]%elem_of_cons; [by cbn; intros ->|by apply H2].
Qed.

(** After the update every measured benchmark has its measure, the others what they had. *)
Lemma update_all_spec measured : ∀ bs bs', NoDup bs.*1 → NoDup measured.*1 →
  update_all measured bs = Ret bs' →
  NoDup bs'.*1 ∧ ∀ k e, (k, e) ∈ bs' →
    match assoc k measured with Some v => entry_of v e | None => (k, e) ∈ bs end.
Proof.
  induction measured as [|[k v] measured IH]; intros bs bs' Hb Hm; cbn [update_all]; [by intros [= <-]|].
  destruct (update_entry (assoc k bs) v) as [e|] eqn:Ee; [|done]. intros Hu.
  inversion Hm as [|? ? Hk Hm']; subst. destruct (put_keys k e bs Hb) as [P1 P2].
  destruct (IH _ _ P1 Hm' Hu) as [H1 H2]. split; [done|]. intros k' e' Hin. specialize (H2 k' e' Hin).
  cbn [assoc]. destruct (String.eqb_spec k' k) as [->|Hne].
  - assert (assoc k measured = None) as Hnone.
    { destruct (assoc k measured) as [v'|] eqn:Ea; [|done]. exfalso. apply Hk. clear -Ea.
      induction measured as [|[k2 v2] m IH]; [done|]. cbn [assoc] in Ea. rewrite fmap_cons. cbn [fst].
      destruct (String.eqb_spec k k2) as [->|]; [left|right; by apply IH]. }
    rewrite Hnone in H2. specialize (P2 _ H2 eq_refl). cbn in P2. subst e'.
    unfold update_entry in Ee. unfold entry_of. destruct (assoc k bs) as [[]|]; cbn in Ee;
      repeat case_match; simplify_eq; eexists; (split; [done|]); try done; rewrite assoc_put; by rewrite String.eqb_refl.
  - destruct (assoc k' measured); [done|]. by destruct (elem_put _ _ _ _ H2) as [[= -> ->]|].
Qed.

Lemma not_regressed tn td v : 0 ≤ tn → 0 < td → 0 ≤ v → regressed (Some (tn, td)) v (number_of (jint v)) = false.
Proof. intros. cbn. unfold pow10. cbn. apply Z.ltb_ge. nia. Qed.

Lemma digits_value_pos l : ∀ acc, 0 ≤ acc → 0 ≤ digits_value acc l.
Proof.
  induction l as [|c l IH]; intros acc Ha; [done|]. cbn [digits_value]. destruct (is_digit c) eqn:E; [|done].
  apply IH. unfold digit_val. unfold is_digit, in_range in E. apply andb_true_iff in E as [E _].
  apply Z.leb_le in E. change (Js.code "0") with 48 in E. lia.
Qed.

(** What is measured: every name once, with a natural number. *)
Lemma measured_tidy lines : NoDup (parseBenchOutput lines).*1 ∧ Forall (λ m, 0 ≤ m.2) (parseBenchOutput lines).
Proof.
  unfold parseBenchOutput. induction lines as [|line lines IH] using rev_ind; [split; constructor|].
  rewrite fold_left_app. cbn [fold_left]. destruct IH as [H1 H2].
  destruct (parse_line line) as [[k v]|] eqn:E; [|done]. split; [by apply put_keys|].
  rewrite Forall_forall in *. intros x [->|Hx]%elem_put; [|by apply H2].
  cbn. unfold parse_line in E. repeat (simplify_option_eq; case_match); simplify_eq; by apply digits_value_pos.
Qed.

Lemma assoc_elem {A} k (v : A) m : assoc k m = Some v → (k, v) ∈ m.
Proof.
  induction m as [|[k' v'] m IH]; cbn [assoc]; [done|]. destruct (String.eqb_spec k k') as [->|].
  - intros [= ->]. left.
  - intros H. right. by apply IH.
Qed.

Lemma update_all_ok measured : ∀ bs, well_formed bs → ∃ bs', update_all measured bs = Ret bs' ∧ well_formed bs'.
Proof.
  induction measured as [|[k v] measured IH]; intros bs Hw; [by exists bs|]. cbn [update_all].
  assert (∃ e, update_entry (assoc k bs) v = Ret e ∧ entry_of v e) as (e & -> & He).
  { destruct (assoc k bs) as [e|] eqn:Ek; [|eexists; split; [done|eexists; by split]].
    apply assoc_elem in Ek. unfold well_formed in Hw. rewrite Forall_forall in Hw.
    destruct (Hw _ Ek) as (l & n & He & _). cbn in He. subst e. eexists. split; [done|].
    eexists. split; [done|]. rewrite assoc_put. by rewrite String.eqb_refl. }
  apply IH. unfold well_formed in *. rewrite Forall_forall in *. intros x [->|Hx]%elem_put; [|by apply Hw].
  destruct He as (l & -> & Hl). by exists l, (jint v).
Qed.

(** An update is one: for a baseline whose entries have a number, each under its own name, updating it
    with some results succeeds, and the baseline that is written passes the gate with the same
    results, whatever the threshold, as long as it is not negative. *)
Theorem updated_baseline_passes tn td l bs lines :
  assoc "benchmarks" l = Some (JObj bs) → NoDup bs.*1 → well_formed bs → 0 ≤ tn → 0 < td →
  parseBenchOutput lines ≠ [] →
  ∃ b', main true (Some (tn, td)) (Some (JObj l)) lines = mkResult 0 (Some b') ∧
    main false (Some (tn, td)) (Some b') lines = mkResult 0 None.
Proof.
  intros Hb Hn Hw Ht Hd Hm. destruct (update_all_ok (parseBenchOutput lines) bs Hw) as (bs' & Hu & Hw').
  destruct (measured_tidy lines) as [M1 M2]. rewrite Forall_forall in M2.
  destruct (update_all_spec _ _ _ Hn M1 Hu) as [_ Hs].
  exists (JObj (put "benchmarks" (JObj bs') l)). unfold main. cbn [prop]. rewrite Hb, Hu.
  rewrite assoc_put, String.eqb_refl.
  destruct (verdicts (Some (tn, td)) (parseBenchOutput lines) bs' Hw') as (vs & Hvs & Hr). rewrite Hvs.
  destruct (parseBenchOutput lines) as [|m ms] eqn:E; [done|]. split; [done|]. rewrite <- E in *.
  destruct (existsb _ vs) eqn:Ex; [|done]. exfalso.
  destruct (proj1 Hr eq_refl) as (k & e & a & n & Hin & Ha & Hp & Hreg). specialize (Hs _ _ Hin).
  rewrite Ha in Hs. destruct Hs as (l' & -> & Hl'). cbn in Hp. rewrite Hl' in Hp. injection Hp as <-.
  rewrite not_regressed in Hreg; [done|done|done|]. apply (M2 (k, a)). by apply assoc_elem.
Qed.

(** ** Concrete runs *)

Definition demo_entry (n : Z) : json := obj [("cpu_insns", Some (jint n)); ("description", Some (JStr ""))].
Definition demo_benchmarks : list (string * json) := [("bench_apply", demo_entry 100); ("bench_assign", demo_entry 200)].
Definition demo_baseline : list (string * json) := [("benchmarks", JObj demo_benchmarks)].

Lemma demo_well_formed : well_formed demo_benchmarks.
Proof. repeat (constructor; [by eexists _, _|]). constructor. Qed.

Example at_the_threshold :
  code (main false (Some (10, 100)) (Some (JObj demo_baseline)) ["bench_apply: 110 cpu_insns"]) = 0.
Proof. vm_compute. reflexivity. Qed.

Lemma parse_printed_witness : parse_line "  bench_apply: 110 cpu_insns" = Some ("bench_apply", 110).
Proof.
  assert ("apply" ≠ "") as H1 by discriminate.
  assert (Forall (λ c, is_word c = true) (lst "apply")) as H2 by (repeat constructor).
  assert (0 ≤ 110) as H3 by (by vm_compute).
  assert (Forall (λ c, is_ws c = true) (lst "  ")) as H4 by (repeat constructor).
  assert (Forall (λ c, is_ws c = true) (lst "")) as H5 by constructor.
  exact (parse_printed "apply" 110 "  " "" H1 H2 H3 H4 H5).
Defined.

Lemma gate_fails_on_regressions_witness :
  let r := main false (Some (10, 100)) (Some (JObj demo_baseline)) ["bench_apply: 111 cpu_insns"] in
  code r = 1 ∧ written r = None ∧ (code r = 0 ∨ code r = 1 ∨ code r = 3).
Proof.
  split; [vm_compute; reflexivity|].
  destruct (gate_fails_on_regressions (Some (10, 100)) demo_baseline demo_benchmarks ["bench_apply: 111 cpu_insns"]
    eq_refl demo_well_formed) as (H1 & _ & _ & H2). exact (conj H1 H2).
Defined.

Lemma updated_baseline_passes_witness :
  ∃ b', main true (Some (10, 100)) (Some (JObj demo_baseline)) ["bench_apply: 111 cpu_insns"] = mkResult 0 (Some b') ∧
    main false (Some (10, 100)) (Some b') ["bench_apply: 111 cpu_insns"] = mkResult 0 None.
Proof.
  assert (NoDup demo_benchmarks.*1) as H1 by (apply (bool_decide_unpack _); vm_compute; exact I).
  assert (0 ≤ 10) as H2 by (by vm_compute). assert (0 < 100) as H3 by reflexivity.
  assert (parseBenchOutput ["bench_apply: 111 cpu_insns"] ≠ []) as H4
    by (intros H; apply (f_equal length) in H; vm_compute in H; discriminate H).
  exact (updated_baseline_passes 10 100 demo_baseline demo_benchmarks _ eq_refl H1 demo_well_formed H2 H3 H4).
Defined.

End Bench.

(** ** The mutation report *)

Module Report.

(** The arguments: is only the text wanted, the threshold ([None] for [NaN]), the directory and
    the file. *)
Record arguments := mkArguments { textOnly : bool; threshold : option Z; outDir : string; outFile : string }.

Definition parse_threshold (a : string) : option Z :=
  match split "=" a with
  | _ :: v :: _ => match parseInt v with Fin z => Some z | NaN => None end
  | _ => None
  end.

(** [path.join(outDir, 'mutation-report.html')] is the parameter [join_report]. *)
Definition parse_args (join_report : string → string) (args : list string) : arguments :=
  let positional := filter (λ a, startsWith "--" a = false) args in
  let outDir := match positional with d :: _ => if String.eqb d "" then "mutants.out" else d | [] => "mutants.out" end in
  mkArguments (existsb (String.eqb "--text-only") args)
    (match filter (λ a, startsWith "--threshold=" a = true) args with
     | a :: _ => parse_threshold a
     | [] => Some 90
     end)
    outDir
    (match positional with _ :: f :: _ => if String.eqb f "" then join_report outDir else f | _ => join_report outDir end).

Record tally := mkTally { caught : Z; missed : Z; timeout : Z; unviable : Z; rows : list (string * string) }.

Section report.
(** [JSON.stringify] of a mutant without a name. *)
Variable stringify : json → string.

Definition mutant_name (scenario : option json) : string :=
  let mutant := match scenario with
                | Some (JObj l) => match assoc "Mutant" l with Some JNull | None => scenario | m => m end
                | _ => scenario
                end in
  match mutant with
  | Some (JStr s) => s
  | Some m => match prop "name" m with Some JNull | None => stringify m | Some n => js_String n end
  | None => "undefined"
  end.

Definition is_baseline (o : json) : bool :=
  match prop "scenario" o with Some (JStr s) => String.eqb s "Baseline" | _ => false end.

Definition summary_of (o : json) : string := js_String (nullish_or (prop "summary" o) (JStr "Unknown")).

(** The numbers only look at summaries that are strings. *)
Definition summary_is (s : string) (o : json) : bool :=
  match prop "summary" o with Some (JStr t) => String.eqb t s | _ => false end.

Definition count (t : tally) (o : json) : tally :=
  if is_baseline o then t else
  let t := if summary_is "MissedMutant" o then mkTally (caught t) (missed t + 1) (timeout t) (unviable t) (rows t)
           else if summary_is "CaughtMutant" o then mkTally (caught t + 1) (missed t) (timeout t) (unviable t) (rows t)
           else if summary_is "Timeout" o then mkTally (caught t) (missed t) (timeout t + 1) (unviable t) (rows t)
           else if summary_is "Unviable" o then mkTally (caught t) (missed t) (timeout t) (unviable t + 1) (rows t)
           else t in
  mkTally (caught t) (missed t) (timeout t) (unviable t) (rows t ++ [(mutant_name (prop "scenario" o), summary_of o)]).

Definition tally_of (outcomes : list json) : tally := fold_left count outcomes (mkTally 0 0 0 0 []).

End report.

Definition total (t : tally) : Z := caught t + missed t + timeout t.

(** The integer nearest to [n / d], and the double: a mantissa of 53 bits and the power of two
    that divides it; ties go to the even mantissa. *)
Definition nearest (n d : Z) : Z :=
  let '(q, r) := Z.div_eucl n d in
  if (2 * r <? d) || ((2 * r =? d) && Z.even q) then q else q + 1.
Definition double (n d : Z) : Z * Z :=
  let e := 52 - (Z.log2 n - Z.log2 d) in
  let e := if n * 2 ^ e <? 2 ^ 52 * d then e + 1 else e in
  (nearest (n * 2 ^ e) d, e).

(** [Math.round((caught / total) * 100)], with the two roundings to a double. *)
Definition score (t : tally) : Z :=
  if 0 <? total t then
    let '(m, e) := double (caught t) (total t) in
    let '(m, e) := double (100 * m) (2 ^ e) in
    (2 * m + 2 ^ e) / (2 * 2 ^ e)
  else 0.

(** What is printed, and the exit code: with [NaN] the one says it failed, the other that it
    passed. *)
Definition passFail (thr : option Z) (t : tally) : string :=
  match thr with Some n => if n <=? score t then "✅ PASS" else "❌ FAIL" | None => "❌ FAIL" end.
Definition exit_code (thr : option Z) (t : tally) : Z :=
  match thr with Some n => if score t <? n then 2 else 0 | None => 0 end.

(** [s.replace(/c/g, by)], and the three of [escHtml]. *)
Definition replace_all (c : ascii) (w : string) (l : list ascii) : list ascii :=
  concat ((λ d, if Ascii.eqb d c then lst w else [d]) <$> l).
Definition esc (l : list ascii) : list ascii :=
  replace_all ">" "&gt;" (replace_all "<" "&lt;" (replace_all "&" "&amp;" l)).
Definition escHtml (s : string) : string := str (esc (lst s)).

Definition color_of (summary : string) : string :=
  if String.eqb summary "CaughtMutant" then "#16a34a"
  else if String.eqb summary "MissedMutant" then "#dc2626"
  else if String.eqb summary "Timeout" then "#d97706" else "#6b7280".

Definition dq : string := String "034"%char EmptyString.
Definition table_row (r : string * string) : string :=
  "<tr><td>" +:+ escHtml r.1 +:+ "</td><td style=" +:+ dq +:+ "color:" +:+ color_of r.2 +:+
  ";font-weight:600" +:+ dq +:+ ">" +:+ escHtml r.2 +:+ "</td></tr>".

(** What a browser makes of the text of a cell: the three entities are read back. *)
Fixpoint unescape (l : list ascii) : list ascii :=
  match l with
  | "&"%char :: "a"%char :: "m"%char :: "p"%char :: ";"%char :: l' => "&"%char :: unescape l'
  | "&"%char :: "l"%char :: "t"%char :: ";"%char :: l' => "<"%char :: unescape l'
  | "&"%char :: "g"%char :: "t"%char :: ";"%char :: l' => ">"%char :: unescape l'
  | c :: l' => c :: unescape l'
  | [] => []
  end.


(** ** Lemmas and theorems *)

(** The tally so far. *)
Definition sound_tally (n : Z) (t : tally) : Prop :=
  0 ≤ caught t ∧ 0 ≤ missed t ∧ 0 ≤ timeout t ∧ 0 ≤ unviable t ∧
  caught t + missed t + timeout t + unviable t ≤ n ∧ Z.of_nat (length (rows t)) = n.

Lemma count_sound f o n t : sound_tally n t →
  sound_tally (if is_baseline o then n else n + 1) (count f t o).
Proof.
  unfold sound_tally, count. intros (H1 & H2 & H3 & H4 & H5 & H6). destruct (is_baseline o); [done|].
  repeat case_match; cbn [caught missed timeout unviable rows]; rewrite length_app; cbn [length]; lia.
Qed.

Lemma nearest_spec n d : 0 < d →
  - d ≤ 2 * (nearest n d * d - n) ≤ d ∧ (0 ≤ n → 0 ≤ nearest n d) ∧ ∀ k, n ≤ k * d → nearest n d ≤ k.
Proof.
  intros Hd. unfold nearest. pose proof (Z.div_eucl_eq n d ltac:(lia)) as He.
  pose proof (Z.mod_pos_bound n d Hd) as Hr. unfold Z.modulo in Hr. destruct (Z.div_eucl n d) as [q r].
  assert (∀ k, n ≤ k * d → q ≤ k) as Hk by (intros; nia).
  assert (0 ≤ n → 0 ≤ q) as H0 by (intros; nia).
  destruct (Z.ltb_spec (2 * r) d); cbn [orb]; [split_and!; [nia..|done|done]|].
  assert (0 < r) as Hr0 by lia.
  assert (∀ k, n ≤ k * d → q + 1 ≤ k) as Hk' by (intros; nia).
  destruct (Z.eqb_spec (2 * r) d), (Z.even q); cbn [andb]; split_and!; intros; try nia; auto.
Qed.

Lemma double_spec n d : 0 < d → 0 ≤ n ≤ 100 * d →
  let '(m, e) := double n d in
  45 ≤ e ∧ 0 ≤ m ∧ - d ≤ 2 * (m * d - n * 2 ^ e) ≤ d ∧ ∀ k, n ≤ k * d → m ≤ k * 2 ^ e.
Proof.
  intros Hd Hn. unfold double. set (e := 52 - (Z.log2 n - Z.log2 d)).
  assert (45 ≤ e) as He.
  { assert (Z.log2 n ≤ Z.log2 (100 * d)) by (apply Z.log2_le_mono; lia).
    pose proof (Z.log2_mul_above 100 d ltac:(lia) ltac:(lia)) as Hm. change (Z.log2 100) with 6 in Hm. lia. }
  set (e' := if n * 2 ^ e <? 2 ^ 52 * d then e + 1 else e).
  assert (45 ≤ e') as He' by (unfold e'; destruct (n * 2 ^ e <? 2 ^ 52 * d); lia).
  destruct (nearest_spec (n * 2 ^ e') d Hd) as (H1 & H2 & H3). pose proof (Z.pow_nonneg 2 e' ltac:(lia)).
  split_and!; [done|apply H2; nia|lia|lia|]. intros k Hk. apply H3. nia.
Qed.

Lemma pow_45 e : 45 ≤ e → 2 ^ 45 ≤ 2 ^ e.
Proof. intros. by apply Z.pow_le_mono_r. Qed.

(** What the two roundings do to a share. *)
Lemma two_roundings c t : 0 < t → 0 ≤ c ≤ t → ∃ E1 m1 E2 m2,
  2 ^ 45 ≤ E1 ∧ 2 ^ 45 ≤ E2 ∧ 0 ≤ m2 ≤ 100 * E2 ∧
  - t ≤ 2 * (m1 * t - c * E1) ≤ t ∧ - E1 ≤ 2 * (m2 * E1 - 100 * m1 * E2) ≤ E1 ∧
  (let '(m, e) := double c t in let '(m, e) := double (100 * m) (2 ^ e) in (2 * m + 2 ^ e) / (2 * 2 ^ e)) =
    (2 * m2 + E2) / (2 * E2).
Proof.
  intros Ht Hc. pose proof (double_spec c t Ht ltac:(lia)) as H1. destruct (double c t) as [m1 e1].
  destruct H1 as (He1 & Hm1 & Hb1 & Hk1). apply pow_45 in He1. specialize (Hk1 1 ltac:(lia)).
  pose proof (double_spec (100 * m1) (2 ^ e1) ltac:(lia) ltac:(lia)) as H2.
  destruct (double (100 * m1) (2 ^ e1)) as [m2 e2]. destruct H2 as (He2 & Hm2 & Hb2 & Hk2).
  apply pow_45 in He2. specialize (Hk2 100 ltac:(lia)). by exists (2 ^ e1), m1, (2 ^ e2), m2.
Qed.

(** Every outcome but the baseline is one row and counts at most once; the score is a percentage. *)
Theorem tally_counts f outcomes :
  let t := tally_of f outcomes in
  Z.of_nat (length (rows t)) = Z.of_nat (length (List.filter (λ o, negb (is_baseline o)) outcomes)) ∧
  caught t + missed t + timeout t + unviable t ≤ Z.of_nat (length (rows t)) ∧
  0 ≤ caught t ≤ total t ∧ 0 ≤ score t ≤ 100.
Proof.
  intros t. assert (sound_tally (Z.of_nat (length (List.filter (λ o, negb (is_baseline o)) outcomes))) t) as H.
  { unfold t, tally_of. induction outcomes as [|o os IH] using rev_ind; [by repeat split|].
    rewrite fold_left_app, List.filter_app, length_app. cbn [fold_left].
    apply (count_sound f o) in IH. cbn [List.filter]. destruct (is_baseline o); cbn [negb length] in *.
    - by rewrite Nat.add_0_r.
    - by rewrite Nat2Z.inj_add. }
  destruct H as (H1 & H2 & H3 & H4 & H5 & H6). split; [done|]. split; [lia|].
  assert (0 ≤ caught t ≤ total t) as Hc by (unfold total; lia). split; [done|]. unfold score.
  destruct (Z.ltb_spec 0 (total t)) as [Ht|]; [|lia].
  destruct (two_roundings (caught t) (total t) Ht Hc) as (E1 & m1 & E2 & m2 & HE1 & HE2 & Hm & _ & _ & ->). split.
  - apply Z.div_pos; lia.
  - apply Z.lt_succ_r, Z.div_lt_upper_bound; lia.
Qed.

(** The rounding of the doubles is not seen, up to four thousand million mutants, unless the
    exact share lies in the middle of two percentages: the score is then the nearest one. *)
Theorem score_exact t : 0 < total t < 2 ^ 32 → 0 ≤ caught t ≤ total t →
  (200 * caught t + total t) mod (2 * total t) ≠ 0 →
  2 * total t * score t < 200 * caught t + total t < 2 * total t * (score t + 1).
Proof.
  unfold score. generalize (caught t) (total t). intros c n Hn Hc Hmid. rewrite (proj2 (Z.ltb_lt 0 n)) by lia.
  destruct (two_roundings c n ltac:(lia) Hc) as (E1 & m1 & E2 & m2 & HE1 & HE2 & Hm & H1 & H2 & ->).
  pose proof (Z.div_mod (200 * c + n) (2 * n) ltac:(lia)) as Hq.
  pose proof (Z.mod_pos_bound (200 * c + n) (2 * n) ltac:(lia)) as Hr.
  set (q := (200 * c + n) / (2 * n)) in *. set (r := (200 * c + n) mod (2 * n)) in *.
  enough ((2 * m2 + E2) / (2 * E2) = q) as -> by lia.
  assert (200 * n ≤ E1 ∧ 2 * n ≤ E2) as [HnE1 HnE2] by lia.
  assert (100 * n * E2 + n * E1 < E1 * E2) as Hsmall by nia.
  assert (n * (2 * m2 * E1) ≤ E1 * E2 * (200 * c) + (100 * n * E2 + n * E1)) as Hup by nia.
  assert (E1 * E2 * (200 * c) - (100 * n * E2 + n * E1) ≤ n * (2 * m2 * E1)) as Hlo by nia.
  symmetry. apply (Z.div_unique_pos _ _ q (2 * m2 + E2 - 2 * E2 * q)); [|lia].
  assert (0 < n * E1) as HnE by lia. assert (0 < E1 * E2) as HEE by lia. split.
  - apply (Z.mul_le_mono_pos_l _ _ (n * E1)); [done|].
    replace (n * E1 * (2 * m2 + E2 - 2 * E2 * q)) with (n * (2 * m2 * E1) + E1 * E2 * (n - 2 * n * q)) by ring.
    assert (E1 * E2 * (n - 2 * n * q) = E1 * E2 * (r - 200 * c)) as -> by (f_equal; lia).
    assert (E1 * E2 * 1 ≤ E1 * E2 * r) by (apply Z.mul_le_mono_nonneg_l; lia).
    rewrite Z.mul_sub_distr_l. lia.
  - apply (Z.mul_lt_mono_pos_l (n * E1)); [done|].
    replace (n * E1 * (2 * m2 + E2 - 2 * E2 * q)) with (n * (2 * m2 * E1) + E1 * E2 * (n - 2 * n * q)) by ring.
    assert (E1 * E2 * (n - 2 * n * q) = E1 * E2 * (r - 200 * c)) as -> by (f_equal; lia).
    assert (E1 * E2 * r ≤ E1 * E2 * (2 * n - 1)) as Hlast by (apply Z.mul_le_mono_nonneg_l; lia).
    replace (E1 * E2 * (2 * n - 1)) with (2 * (E2 * (n * E1)) - E1 * E2) in Hlast by ring.
    replace (n * E1 * (2 * E2)) with (2 * (E2 * (n * E1))) by ring. rewrite Z.mul_sub_distr_l. lia.
Qed.

(** In the middle of two it is not: 29 of 200 are 14.5 percent and count as 14, 1 of 200 as 1. *)
Example score_in_the_middle :
  score (mkTally 29 171 0 0 []) = 14 ∧ score (mkTally 1 199 0 0 []) = 1.
Proof. by vm_compute. Qed.

(** What is printed and the exit code agree, for a threshold that is a number. *)
Theorem report_agrees n t : passFail (Some n) t = "✅ PASS" ↔ exit_code (Some n) t = 0.
Proof. unfold exit_code, passFail. destruct (Z.ltb_spec (score t) n), (Z.leb_spec n (score t)); done || lia. Qed.

(** A threshold that is no number says the report failed and ends with the code of a pass. *)
Theorem bad_threshold t : passFail None t = "❌ FAIL" ∧ exit_code None t = 0.
Proof. done. Qed.

(** The documented form [--threshold N] is not read: the threshold stays 90 and the number is
    taken for the directory. *)
Theorem threshold_with_space join_report :
  let a := parse_args join_report ["--threshold"; "80"] in
  threshold a = Some 90 ∧ outDir a = "80" ∧ threshold (parse_args join_report ["--threshold=80"]) = Some 80.
Proof. split_and!; by vm_compute. Qed.

(** The three replacements, one character at a time. *)
Definition esc1 (c : ascii) : list ascii :=
  if Ascii.eqb c "&" then lst "&amp;" else if Ascii.eqb c "<" then lst "&lt;"
  else if Ascii.eqb c ">" then lst "&gt;" else [c].

Lemma replace_all_app c w a b : replace_all c w (a ++ b) = replace_all c w a ++ replace_all c w b.
Proof. unfold replace_all. by rewrite fmap_app, concat_app. Qed.

Lemma esc_char c : esc [c] = esc1 c.
Proof.
  unfold esc, esc1, replace_all. cbn [fmap list_fmap concat].
  destruct (Ascii.eqb_spec c "&") as [->|H1]; [by vm_compute|]. cbn [app fmap list_fmap concat].
  destruct (Ascii.eqb_spec c "<") as [->|H2]; [by vm_compute|]. cbn [app fmap list_fmap concat].
  by destruct (Ascii.eqb_spec c ">") as [->|H3].
Qed.

Lemma esc_cons c l : esc (c :: l) = esc1 c ++ esc l.
Proof.
  rewrite <- esc_char. unfold esc. change (c :: l) with ([c] ++ l). by rewrite !replace_all_app.
Qed.

Lemma unescape_esc1 c l : unescape (esc1 c ++ l) = c :: unescape l.
Proof.
  unfold esc1. destruct (Ascii.eqb_spec c "&") as [->|H1]; [done|].
  destruct (Ascii.eqb_spec c "<") as [->|H2]; [done|]. destruct (Ascii.eqb_spec c ">") as [->|H3]; [done|].
  cbn [app]. destruct c as [[] [] [] [] [] [] [] []]; (done || by destruct H1).
Qed.

(** What the report writes into a cell is read back as it was, and holds no angle bracket: no name of a
    mutant can end its cell or open an element. *)
Theorem escHtml_safe s :
  unescape (lst (escHtml s)) = lst s ∧ "<"%char ∉ lst (escHtml s) ∧ ">"%char ∉ lst (escHtml s).
Proof.
  unfold escHtml. rewrite lst_str. induction (lst s) as [|c l (IH1 & IH2 & IH3)]; [by split_and!; [|apply not_elem_of_nil..]|].
  rewrite esc_cons, unescape_esc1, IH1. split; [done|].
  assert ("<"%char ∉ esc1 c ∧ ">"%char ∉ esc1 c) as [E1 E2].
  { unfold esc1. destruct (Ascii.eqb_spec c "&") as [->|]; [|destruct (Ascii.eqb_spec c "<") as [->|Hl];
      [|destruct (Ascii.eqb_spec c ">") as [->|Hg]]]; try (split; apply (bool_decide_unpack _); vm_compute; exact I).
    split; intros He%list_elem_of_singleton; congruence. }
  split; intros [?|?]%elem_of_app; tauto.
Qed.

Lemma score_exact_witness :
  let t := mkTally 9 1 0 0 [] in 2 * total t * score t < 200 * caught t + total t < 2 * total t * (score t + 1).
Proof.
  intros t. assert (0 < total t < 2 ^ 32) as Ht by (by vm_compute).
  assert (0 ≤ caught t ≤ total t) as Hc by (vm_compute; split; discriminate).
  assert ((200 * caught t + total t) mod (2 * total t) ≠ 0) as Hm by (vm_compute; discriminate).
  exact (score_exact t Ht Hc Hm).
Defined.

End Report.
