(* ===== verification/IssuesPage.v ===== *)
(** * The issue page of an organisation, as a whole ([frontend/src/pages/OrgIssuesPage.tsx])

    The page over the parts of IssueLists: the delayed search, the filters and the parameters
    of the URL they are kept in, what is drawn in every state, the element that asks for the
    next page when it comes into view, and the jobs started from the rows. *)

From Stdlib Require Import String.
From S2P Require Import Prelude Js Decimal Url Http Browser Client Db Contributors Orgs IssueLists.

#[local] Open Scope string_scope.
#[local] Open Scope list_scope.
#[local] Open Scope Z_scope.

(** ** Filters and their URL *)

Module Filters.

(** [sort] is whatever the URL says; the page compares it with the names it knows. *)
Record filters := mkFilters {
  searchText : string; selectedLabels : list string; selectedDifficulties : list string; sort : string;
}.

Definition difficulties : list string := ["beginner"; "intermediate"; "advanced"].

(** [URLSearchParams]: [get] and [getAll]. *)
Definition params := list (string * string).
Definition get_param (k : string) (ps : params) : option string := assoc k ps.
Definition getAll (k : string) (ps : params) : list string :=
  omap (λ p, if String.eqb p.1 k then Some p.2 else None) ps.

(** The parameters that are written, and what is read from them on the first render. *)
Definition nextParams (f : filters) : params :=
  (if String.eqb (searchText f) "" then [] else [("search", searchText f)]) ++
  (pair "label" <$> selectedLabels f) ++ (pair "difficulty" <$> selectedDifficulties f) ++
  (if String.eqb (sort f) "newest" then [] else [("sort", sort f)]).

Definition initial (ps : params) : filters :=
  mkFilters (default "" (get_param "search" ps)) (getAll "label" ps)
    (filter (λ d, d ∈ difficulties) (getAll "difficulty" ps)) (default "newest" (get_param "sort" ps)).

Definition sort_option (s : string) : Listing.SortOption :=
  if String.eqb s "oldest" then Listing.oldest
  else if String.eqb s "most-applicants" then Listing.most_applicants
  else if String.eqb s "fewest-applicants" then Listing.fewest_applicants else Listing.newest.

Definition applied_filters (f : filters) : Listing.filters :=
  Listing.mkFilters (searchText f) (selectedLabels f) (selectedDifficulties f) (sort_option (sort f)).

(** The number on the button that opens the filters. *)
Definition activeFilterCount (f : filters) : Z :=
  (if String.eqb (searchText f) "" then 0 else 1) + zlen (selectedLabels f) +
  zlen (selectedDifficulties f) + (if String.eqb (sort f) "newest" then 0 else 1).

(** A checkbox: off if it was on, else last. *)
Definition toggle (v : string) (l : list string) : list string :=
  if bool_decide (v ∈ l) then filter (λ x, x ≠ v) l else l ++ [v].

Lemma getAll_app k a b : getAll k (a ++ b) = getAll k a ++ getAll k b.
Proof. apply omap_app. Qed.

Lemma getAll_pairs k k' l : getAll k (pair k' <$> l) = if String.eqb k' k then l else [].
Proof.
  unfold getAll. induction l as [|x l IH]; [by destruct (String.eqb k' k)|]. rewrite fmap_cons. cbn [omap list_omap fst snd].
  rewrite IH. by destruct (String.eqb k' k).
Qed.

Lemma get_other k k' l ps : String.eqb k k' = false → get_param k ((pair k' <$> l) ++ ps) = get_param k ps.
Proof.
  intros Hk. unfold get_param. induction l as [|x l IH]; [done|]. rewrite fmap_cons. cbn [app assoc]. by rewrite Hk.
Qed.

(** C37: The filters live in the URL: a page opened at the address another one wrote has the same
    filters, whatever text, labels and order they are, as long as the difficulties are those
    of the boxes. *)
Theorem filters_survive_reload f :
  Forall (λ d, d ∈ difficulties) (selectedDifficulties f) → initial (nextParams f) = f.
Proof.
  intros Hd. destruct f as [text ls ds so]. unfold initial, nextParams.
  cbn [searchText selectedLabels selectedDifficulties sort] in *.
  set (A := if String.eqb text "" then [] else [("search", text)]).
  set (D := if String.eqb so "newest" then [] else [("sort", so)]).
  assert (get_param "search" (A ++ (pair "label" <$> ls) ++ (pair "difficulty" <$> ds) ++ D) =
    if String.eqb text "" then None else Some text) as ->.
  { unfold A. destruct (String.eqb text ""); [|done]. cbn [app]. rewrite !get_other by done.
    unfold D. by destruct (String.eqb so "newest"). }
  assert (get_param "sort" (A ++ (pair "label" <$> ls) ++ (pair "difficulty" <$> ds) ++ D) =
    if String.eqb so "newest" then None else Some so) as ->.
  { assert (∀ ps, get_param "sort" (A ++ ps) = get_param "sort" ps) as ->
      by (intros ps; unfold A; by destruct (String.eqb text "")).
    rewrite !get_other by done. unfold D. by destruct (String.eqb so "newest"). }
  rewrite !getAll_app, !getAll_pairs. cbn [String.eqb Ascii.eqb Bool.eqb].
  assert (∀ k, (k = "label" ∨ k = "difficulty") → getAll k A = [] ∧ getAll k D = []) as Hk
    by (intros k [-> | ->]; unfold A, D; by destruct (String.eqb text ""), (String.eqb so "newest")).
  destruct (Hk "label") as [-> ->]; [by left|]. destruct (Hk "difficulty") as [-> ->]; [by right|].
  cbn [app]. rewrite !app_nil_r. f_equal.
  - by destruct (String.eqb_spec text "") as [->|].
  - clear -Hd. induction Hd as [|d ds Hd Hds IH]; [done|]. rewrite filter_cons_True by done. by rewrite IH.
  - by destruct (String.eqb_spec so "newest") as [->|].
Qed.

Lemma filters_survive_reload_witness :
  initial (nextParams (mkFilters "fix" ["bug"; "docs"] ["advanced"] "oldest")) =
    mkFilters "fix" ["bug"; "docs"] ["advanced"] "oldest".
Proof.
  assert (Forall (λ d, d ∈ difficulties) ["advanced"]) as H
    by (repeat constructor; apply (bool_decide_unpack _); vm_compute; exact I).
  exact (filters_survive_reload (mkFilters "fix" ["bug"; "docs"] ["advanced"] "oldest") H).
Defined.

End Filters.

(** ** The page *)

#[export] Instance infinite_params_eq_dec : EqDecision Infinite.params.
Proof. solve_decision. Defined.

Module IssuesPage.
Import Filters.

(** [timer]: the text the pending timeout will search for; [pending]: the jobs that wait, each
    with the rows of the render it was started in; [observed]: the observer watches the
    element that is drawn. *)
Record state := mkState {
  wallet : option string;
  list_of : Infinite.state;
  busyIssue : option string;
  txHash : option string;
  toasts : list (string * string);
  pending : list (Listing.job * list Listing.Issue);
  searchInput : string;
  shownFilters : filters;
  timer : option string;
  showFilters : bool;
  observed : bool;
}.

(** A row whose fields have the types the page declares; the page throws, or compares texts it
    does not have, on others, which are not modelled. *)
Definition strings_of (v : json) : option (list string) := as_array v ≫= mapM as_string.
Definition optional {A} (read : json → option A) (v : option json) : option (option A) :=
  match v with None | Some JNull => Some None | Some v => Some <$> read v end.
Definition integer_of (v : json) : option Z :=
  match v with JNum m k => if jnum_is_int m k then Some (jnum_int m k) else None | _ => None end.

Definition issue_of (i : OrgIssue) : option Listing.Issue :=
  id ← oi_issue_id i ≫= as_string; t ← oi_title i ≫= as_string; c ← oi_created_at i ≫= as_string;
  ls ← optional strings_of (oi_labels i); d ← optional as_string (oi_difficulty i);
  n ← optional integer_of (oi_applicant_count i);
  mret (Listing.mkIssue id t (oi_status i) c ls d n).

Definition issues_of (s : state) : option (list Listing.Issue) := mapM issue_of (Infinite.issues (list_of s)).

Definition filtered (s : state) : option (list Listing.Issue) :=
  Listing.filteredIssues (applied_filters (shownFilters s)) <$> issues_of s.

(** [Array.from(new Set(issues.flatMap(issue => issue.labels ?? [])))], before it is sorted. *)
Definition availableLabels (l : list Listing.Issue) : list string :=
  remove_dups (i ← l; default [] (Listing.labels i)).

Inductive event :=
  | Type_ (v : string) | SearchTimer
  | ToggleLabel (l : string) | ToggleDifficulty (d : string) | SetSort (s : string)
  | ClearFilters | ToggleFilters
  | Load (e : Infinite.event)                        (** what IssueLists knows *)
  | InView                                           (** the observer sees its element *)
  | ClickApply (id : string) | ClickWithdraw (id : string) (confirmed : bool)
  | JobSettled (n : nat) (r : reply).

Definition with_filters (f : filters) (s : state) : state :=
  mkState (wallet s) (list_of s) (busyIssue s) (txHash s) (toasts s) (pending s) (searchInput s) f (timer s) (showFilters s) (observed s).
Definition with_input (v : string) (f : filters) (t : option string) (s : state) : state :=
  mkState (wallet s) (list_of s) (busyIssue s) (txHash s) (toasts s) (pending s) v f t (showFilters s) (observed s).
Definition with_list (l : Infinite.state) (s : state) : state :=
  mkState (wallet s) l (busyIssue s) (txHash s) (toasts s) (pending s) (searchInput s) (shownFilters s) (timer s) (showFilters s) (observed s).

Definition set_text (v : string) (f : filters) : filters :=
  mkFilters v (selectedLabels f) (selectedDifficulties f) (sort f).

(** [handleApply] and [handleWithdraw], up to the request, and from its reply. *)
Definition begin (j : Listing.job) (s : state) : state :=
  mkState (wallet s)
    (Infinite.step (list_of s) (Infinite.SetStatus (Some (JStr (Listing.job_id j)))
       (match j with Listing.Apply _ => applied | Listing.Withdraw _ => open end)))
    (Some (Listing.job_id j)) None (toasts s)
    (pending s ++ [(j, default [] (issues_of s))]) (searchInput s) (shownFilters s) (timer s) (showFilters s) (observed s).

Definition settle (n : nat) (r : reply) (s : state) : state :=
  match pending s !! n with
  | None => s
  | Some (j, seen) =>
      let p := Listing.settle seen j r (Listing.mkPage [] (busyIssue s) (txHash s) (toasts s)) in
      let l := match Listing.job_result j r with
               | Ret _ => list_of s
               | Throw _ => Infinite.step (list_of s) (Infinite.SetStatus (Some (JStr (Listing.job_id j)))
                              (match j with Listing.Apply _ => open | Listing.Withdraw _ => applied end))
               end in
      mkState (wallet s) l (Listing.busyIssue p) (Listing.txHash p) (Listing.toasts p) (delete n (pending s))
        (searchInput s) (shownFilters s) (timer s) (showFilters s) (observed s)
  end.

(** What is drawn where the issues are. *)
Inductive area := Skeletons | NoMatch | Listed (rows : list Listing.Issue) (more : bool) (sentinel : bool) (ending : option Z).

Definition area_of (s : state) : option area :=
  rows ← filtered s;
  let l := list_of s in
  let n := zlen (Infinite.issues l) in
  mret (if Infinite.loading l && (n =? 0) then Skeletons
        else if (zlen rows =? 0) && negb (Infinite.loading l) then NoMatch
        else Listed rows (Infinite.loading l) (Infinite.hasMore l && negb (Infinite.loading l))
               (if negb (Infinite.hasMore l) && (0 <? n) then Some n else None)).

(** Is there an element to observe? *)
Definition has_sentinel (s : state) : bool :=
  match area_of s with Some (Listed _ _ b _) => b | _ => false end.

Definition handle (s : state) (e : event) : state :=
  let f := shownFilters s in
  match e with
  | Type_ v => if String.eqb v (searchInput s) then s else with_input v f (Some v) s
  | SearchTimer => match timer s with Some v => with_input (searchInput s) (set_text v f) None s | None => s end
  | ToggleLabel l => with_filters (mkFilters (searchText f) (toggle l (selectedLabels f)) (selectedDifficulties f) (sort f)) s
  | ToggleDifficulty d => if bool_decide (d ∈ difficulties)
      then with_filters (mkFilters (searchText f) (selectedLabels f) (toggle d (selectedDifficulties f)) (sort f)) s else s
  | SetSort v => with_filters (mkFilters (searchText f) (selectedLabels f) (selectedDifficulties f) v) s
  | ClearFilters => with_input "" (mkFilters "" [] [] "newest") (if String.eqb (searchInput s) "" then timer s else Some "") s
  | ToggleFilters => mkState (wallet s) (list_of s) (busyIssue s) (txHash s) (toasts s) (pending s) (searchInput s) f (timer s)
                       (negb (showFilters s)) (observed s)
  | Load Infinite.LoadMore => s
  | Load e => with_list (Infinite.step (list_of s) e) s
  | InView => if observed s then with_list (Infinite.step (list_of s) Infinite.LoadMore) s else s
  | ClickApply id => match filled (wallet s) with Some _ => begin (Listing.Apply id) s | None => s end
  | ClickWithdraw id confirmed =>
      match filled (wallet s) with
      | Some _ => if confirmed then begin (Listing.Withdraw id) s else s
      | None => s
      end
  | JobSettled n r => settle n r s
  end.

Definition watch (b : bool) (s : state) : state :=
  mkState (wallet s) (list_of s) (busyIssue s) (txHash s) (toasts s) (pending s) (searchInput s) (shownFilters s)
    (timer s) (showFilters s) b.

(** The effect looks for the element again when [hasMore], [loading] or [loadMore], which
    follows them and the parameters, changes; otherwise the observer keeps the element it
    has, as long as that is drawn. *)
Definition deps (s : state) : bool * bool * Infinite.params :=
  (Infinite.hasMore (list_of s), Infinite.loading (list_of s), Infinite.current (list_of s)).

Definition step (s : state) (e : event) : state :=
  let s' := handle s e in
  watch (has_sentinel s' && (observed s || bool_decide (deps s ≠ deps s'))) s'.

Definition mount (w : option string) (org : string) (ps : params) : state :=
  let p := Infinite.mkParams org w in
  let f := initial ps in
  mkState w (Infinite.step (Infinite.initial p) (Infinite.Render p)) None None [] [] (searchText f) f
    (Some (searchText f)) false false.

Definition after (s : state) (es : list event) : state := fold_left step es s.

(** The link to the transaction, in the row of an issue. *)
Definition tx_link (network : string) (s : state) (id : string) : option string :=
  if bool_decide (busyIssue s = Some id)
  then (λ h, "https://stellar.expert/explorer/" +:+ toLowerCase network +:+ "/tx/" +:+ h) <$> filled (txHash s)
  else None.

(** The banner at the cap. *)
Definition showCapBanner (s : state) (g o : Z) : bool :=
  negb (Infinite.loading (list_of s)) && (match filled (wallet s) with Some _ => true | None => false end) &&
  ((Listing.GLOBAL_CAP <=? g) || (Listing.ORG_CAP <=? o)).


(** ** The search box *)

Definition search_tidy (s : state) : Prop :=
  match timer s with
  | Some v => v = searchInput s
  | None => searchText (shownFilters s) = searchInput s
  end.

Lemma settle_frame n r s : searchInput (settle n r s) = searchInput s ∧ shownFilters (settle n r s) = shownFilters s ∧
  timer (settle n r s) = timer s.
Proof. unfold settle. by destruct (pending s !! n) as [[j seen]|]. Qed.

Lemma search_step s e : search_tidy s → search_tidy (step s e).
Proof.
  unfold search_tidy. intros Hs. unfold step. cbn [watch timer shownFilters searchInput].
  destruct e as [v| |l|d|v| | |e| |id|id b|n r]; cbn [handle]; try exact Hs.
  - by destruct (String.eqb v (searchInput s)).
  - destruct (timer s) as [v|] eqn:E; [by cbn|]. by rewrite E.
  - by destruct (bool_decide _).
  - cbn. destruct (String.eqb_spec (searchInput s) "") as [He|_]; [|done]. rewrite He in Hs. by destruct (timer s).
  - by destruct e.
  - by destruct (observed s).
  - by destruct (filled (wallet s)).
  - by destruct (filled (wallet s)), b.
  - destruct (settle_frame n r s) as (-> & -> & ->). exact Hs.
Qed.

(** The search follows the box: as soon as no timeout is pending, the text searched for is the
    text in the box; and a pending timeout will search for exactly that text. *)
Theorem search_follows_box w org ps es :
  let s := after (mount w org ps) es in
  match timer s with
  | Some v => v = searchInput s ∧ searchText (shownFilters (step s SearchTimer)) = searchInput s
  | None => searchText (shownFilters s) = searchInput s
  end.
Proof.
  intros s. assert (search_tidy s) as Hs.
  { unfold s, after. induction es as [|e es IH] using rev_ind; [done|]. rewrite fold_left_app. by apply search_step. }
  unfold search_tidy in Hs. destruct (timer s) as [v|] eqn:E; [|done]. split; [done|].
  unfold step. cbn [handle]. rewrite E. by cbn.
Qed.

(** ** The link to the transaction *)

Lemma job_frame j s : busyIssue (begin j s) = Some (Listing.job_id j) ∧ txHash (begin j s) = None.
Proof. done. Qed.

Lemma settled_idle n r s p : pending s !! n = Some p → busyIssue (settle n r s) = None.
Proof.
  unfold settle. intros ->. destruct p as [j seen]. unfold Listing.settle.
  destruct (Listing.job_result j r); [done|]. by destruct j.
Qed.

(** The hash of a transaction is only kept while no row is busy, and is only drawn in the row
    that is busy: its link is never seen. *)
Theorem tx_link_never_drawn w org ps es network id : tx_link network (after (mount w org ps) es) id = None.
Proof.
  assert (busyIssue (after (mount w org ps) es) ≠ None → txHash (after (mount w org ps) es) = None) as H.
  { unfold after. induction es as [|e es IH] using rev_ind; [done|]. rewrite fold_left_app. cbn [fold_left].
    set (s := fold_left step es _) in *. unfold step. cbn [watch busyIssue txHash].
    destruct e as [v| |l|d|v| | |e| |i|i b|n r]; cbn [handle]; try exact IH.
    - by destruct (String.eqb v (searchInput s)).
    - by destruct (timer s).
    - by destruct (bool_decide _).
    - by destruct e.
    - by destruct (observed s).
    - destruct (filled (wallet s)); [|exact IH]. done.
    - destruct (filled (wallet s)), b; done || exact IH.
    - destruct (pending s !! n) as [p|] eqn:E; [by rewrite (settled_idle _ _ _ _ E)|].
      unfold settle. by rewrite E. }
  unfold tx_link. case_bool_decide as Hb; [|done]. by rewrite H by congruence.
Qed.

(** ** Scrolling *)

(** What the element and its observer depend on. *)
Lemma area_watch b s : area_of (watch b s) = area_of s.
Proof. done. Qed.

Lemma has_sentinel_of s rows : filtered s = Some rows →
  has_sentinel s = negb (zlen rows =? 0) && Infinite.hasMore (list_of s) && negb (Infinite.loading (list_of s)).
Proof.
  intros Hf. unfold has_sentinel, area_of. rewrite Hf. cbn [mbind option_bind mret option_ret].
  destruct (Infinite.loading (list_of s)), (Infinite.hasMore (list_of s)), (zlen rows =? 0), (zlen (Infinite.issues (list_of s)) =? 0);
    done.
Qed.

(** A page that settles while it is waited for starts the observer again, if the list is not
    empty; coming into view then asks for the next page. *)
Lemma settles_then_view s e rows :
  let s1 := with_list (Infinite.step (list_of s) e) s in
  e ≠ Infinite.LoadMore → Infinite.loading (list_of s) = true → Infinite.loading (list_of s1) = false →
  filtered s1 = Some rows → rows ≠ [] →
  list_of (after s [Load e; InView]) = Infinite.step (list_of s1) Infinite.LoadMore.
Proof.
  intros s1 He Hl Hl1 Hf Hr. cbn [after fold_left].
  assert (step s (Load e) = watch (Infinite.hasMore (list_of s1)) s1) as ->.
  { unfold step. assert (handle s (Load e) = s1) as -> by (by destruct e). f_equal.
    rewrite (has_sentinel_of s1 rows Hf), Hl1. rewrite (bool_decide_eq_true_2 (deps s ≠ deps s1)).
    2:{ unfold deps. rewrite Hl, Hl1. congruence. }
    rewrite orb_true_r, !andb_true_r. destruct rows; [done|]. by cbn. }
  unfold step. cbn [handle observed watch list_of]. cbn [Infinite.step]. rewrite Hl1. cbn [orb].
  by destruct (Infinite.hasMore (list_of s1)) eqn:Em; cbn [negb watch list_of with_list].
Qed.

(** When a further page fails, it is asked for again as soon as its failure is drawn, as often
    as it fails: no failure ends it and no time passes in between. *)
Theorem failed_page_asked_again s rows e n :
  let l := list_of s in
  filtered s = Some rows → rows ≠ [] → Infinite.loading l = true → Infinite.hasMore l = true →
  Infinite.error l = None → Infinite.offsetRef l ≠ 0 →
  Infinite.fetchingRef l = Some (Infinite.mkFetching (Infinite.current l) (Infinite.offsetRef l) Infinite.AwaitPage) →
  list_of (Nat.iter n (λ s, after s [Load (Infinite.PageArrived (Rejected e)); InView]) s) = l.
Proof.
  intros l Hf Hr Hl Hm He Ho Hg.
  assert (∀ s', list_of s' = l → shownFilters s' = shownFilters s →
    let s'' := after s' [Load (Infinite.PageArrived (Rejected e)); InView] in
    list_of s'' = l ∧ shownFilters s'' = shownFilters s) as Hstep.
  { intros s' Hl' Hf'. cbv zeta. split.
    - rewrite (settles_then_view s' _ rows).
      + cbn [with_list list_of]. rewrite Hl'. cbn [Infinite.step]. rewrite Hg. unfold Infinite.page_arrived, Infinite.failed.
        cbn [raw_issues Infinite.loading Infinite.hasMore Infinite.current Infinite.offsetRef orb]. rewrite Hm. cbn [negb].
        unfold Infinite.fetchPage. cbn [Infinite.fetchingRef]. rewrite (proj2 (Z.eqb_neq _ _) Ho). cbn [andb].
        destruct l. cbn in *. by subst.
      + done.
      + by rewrite Hl'.
      + cbn [with_list list_of]. rewrite Hl'. cbn [Infinite.step]. by rewrite Hg.
      + unfold filtered, issues_of. cbn [with_list list_of shownFilters]. rewrite Hl', Hf'. cbn [Infinite.step]. rewrite Hg.
        exact Hf.
      + done.
    - cbn [after fold_left]. unfold step at 1. cbn [watch shownFilters handle]. by destruct (observed _). }
  enough (list_of (Nat.iter n (λ s, after s [Load (Infinite.PageArrived (Rejected e)); InView]) s) = l ∧
    shownFilters (Nat.iter n (λ s, after s [Load (Infinite.PageArrived (Rejected e)); InView]) s) = shownFilters s) as [H _] by exact H.
  induction n as [|n [IH1 IH2]]; [done|]. apply (Hstep _ IH1 IH2).
Qed.

Lemma observed_drawn w org ps es : observed (after (mount w org ps) es) = true →
  has_sentinel (after (mount w org ps) es) = true.
Proof.
  unfold after. destruct es as [|e es _] using rev_ind; [done|]. rewrite fold_left_app. cbn [fold_left].
  unfold step. cbn [watch observed]. intros [H _]%andb_prop. exact H.
Qed.

(** Filters that match nothing take the observed element away, and clearing them does not put
    the observer back: however often the end of the list comes into view, the rest of it is
    never asked for. *)
Theorem cleared_filters_stop_scrolling w org ps es n :
  let s := after (mount w org ps) es in
  area_of s = Some NoMatch →
  list_of (after (step s ClearFilters) (replicate n InView)) = list_of s.
Proof.
  intros s Ha. assert (observed s = false) as Ho.
  { destruct (observed s) eqn:Ho; [|done]. apply observed_drawn in Ho. unfold has_sentinel in Ho. fold s in Ho.
    by rewrite Ha in Ho. }
  assert (list_of (step s ClearFilters) = list_of s ∧ observed (step s ClearFilters) = false) as [H1 H2].
  { unfold step. cbn [handle watch list_of observed with_input]. split; [done|]. rewrite Ho.
    rewrite bool_decide_eq_false_2; [by rewrite andb_false_r|]. intros Hd. by apply Hd. }
  rewrite <-H1. clear -H2. revert H2. generalize (step s ClearFilters). induction n as [|n IH]; intros s0 H2; [done|].
  cbn [replicate after fold_left]. fold (after (step s0 InView) (replicate n InView)). rewrite IH.
  - unfold step. cbn [handle]. by rewrite H2.
  - unfold step. cbn [handle]. rewrite H2. cbn [watch observed].
    rewrite bool_decide_eq_false_2; [by rewrite andb_false_r|]. intros Hd. by apply Hd.
Qed.

(** ** Concrete runs *)

Notation full_page := ((λ i, obj [("issue_id", Some (JStr (pretty (Z.of_nat i)))); ("title", Some (JStr "Fix"));
  ("created_at", Some (JStr "2024-01-01T00:00:00.000Z"))]) <$> seq 0 20).
Notation first_page ps := (after (mount None "org" ps) [Load (Infinite.PageArrived (Answered 200 (Some (JArr full_page))))]).

Lemma failed_page_asked_again_witness :
  let s := step (first_page []) InView in
  let s' := Nat.iter 7 (λ s, after s [Load (Infinite.PageArrived (Rejected (Error "down"))); InView]) s in
  Infinite.loading (list_of s) = true ∧ Infinite.loading (list_of s') = true.
Proof.
  intros s s'. assert (Infinite.loading (list_of s) = true) as Hl by (by vm_compute). split; [exact Hl|].
  assert (filtered s = Some (default [] (filtered s))) as Hf by (by vm_compute).
  assert (default [] (filtered s) ≠ []) as Hr by (vm_compute; discriminate).
  assert (Infinite.hasMore (list_of s) = true) as Hm by (by vm_compute).
  assert (Infinite.error (list_of s) = None) as He by (by vm_compute).
  assert (Infinite.offsetRef (list_of s) ≠ 0) as Ho by (vm_compute; discriminate).
  assert (Infinite.fetchingRef (list_of s) = Some (Infinite.mkFetching (Infinite.current (list_of s))
    (Infinite.offsetRef (list_of s)) Infinite.AwaitPage)) as Hg by (by vm_compute).
  unfold s'. rewrite (failed_page_asked_again s _ (Error "down") 7 Hf Hr Hl Hm He Ho Hg). exact Hl.
Defined.

Lemma cleared_filters_stop_scrolling_witness :
  let s := first_page [("search", "zzz")] in
  let s' := after (step s ClearFilters) (replicate 3 InView) in
  has_sentinel (step s ClearFilters) = true ∧ Infinite.loading (list_of s') = false.
Proof.
  intros s s'. split; [by vm_compute|]. assert (area_of s = Some NoMatch) as Ha by (by vm_compute).
  unfold s', s. rewrite (cleared_filters_stop_scrolling None "org" [("search", "zzz")]
    [Load (Infinite.PageArrived (Answered 200 (Some (JArr full_page))))] 3 Ha). by vm_compute.
Defined.

End IssuesPage.
