(* ===== verification/MaintainerScreens.v ===== *)
(** * The maintainer's screens

    What [pages/MaintainerDashboard.tsx], [components/MaintainerPanel.tsx] and
    [components/MaintainerPanelContainer.tsx] draw of the states of Maintainer, and what can
    be clicked on them: the gates of the role, the tables with their pagers, the dialogs, the
    rows that ask before they act, and the notifications. *)

From Stdlib Require Import String.
From S2P Require Import Prelude Js Url Http Paging Browser Client ContractErrors Maintainer Widgets.

#[local] Open Scope string_scope.
#[local] Open Scope list_scope.
#[local] Open Scope Z_scope.

(** ** The dashboard *)

Module BoardScreen.
Import Board.

(** [ActionConfirmModal]. *)
Definition title (a : ActionType) : string :=
  match a with assign => "Confirm Assignment" | complete => "Mark as Complete?" | revoke => "Revoke Assignment?" end.
Definition description (a : ActionType) (i : WorkItem) : string :=
  match a with
  | assign => "Assign issue " +:+ wi_issueId i +:+ " to " +:+ truncate (wi_contributor i) +:+ "?"
  | complete => "Mark issue " +:+ wi_issueId i +:+ " as complete for " +:+ truncate (wi_contributor i) +:+ "?"
  | revoke => "Revoke the assignment of issue " +:+ wi_issueId i +:+ " from " +:+ truncate (wi_contributor i) +:+
              "? This action cannot be undone on-chain."
  end.
Definition button_label (a : ActionType) : string :=
  match a with assign => "Assign" | complete => "Complete" | revoke => "Revoke" end.

Record dialog := mkDialog { d_title : string; d_text : string; d_button : string; d_busy : bool }.

Definition ActionConfirmModal (s : board) : option dialog :=
  (λ p : WorkItem * ActionType,
     mkDialog (title p.2) (description p.2 p.1) (button_label p.2 +:+ (if confirmBusy s then "…" else ""))
       (confirmBusy s)) <$> pendingAction s.

(** [RowActions]: what a button does, what it says, whether it is disabled, what is read aloud. *)
Record button := mkButton { b_action : ActionType; b_text : string; b_disabled : bool; b_aria : string }.

Definition RowActions (busy : option string) (i : WorkItem) : list button :=
  let isBusy := bool_decide (busy = Some (wi_id i)) in
  let off := match busy with Some _ => true | None => false end in
  let who := truncate (wi_contributor i) in
  match wi_type i with
  | application =>
      [mkButton assign (if isBusy then "Assigning…" else "Assign") (isBusy || off)
         ("Assign issue " +:+ wi_issueId i +:+ " to " +:+ who)]
  | assignment =>
      [mkButton complete (if isBusy then "…" else "Complete") (isBusy || off)
         ("Complete issue " +:+ wi_issueId i +:+ " for " +:+ who);
       mkButton revoke "Revoke" off ("Revoke assignment of issue " +:+ wi_issueId i +:+ " from " +:+ who)]
  end.

Definition same_action (a b : ActionType) : bool :=
  match a, b with assign, assign | complete, complete | revoke, revoke => true | _, _ => false end.

Record row := mkRow {
  r_badge : string; r_contributor : string; r_cap : string; r_issue : string; r_buttons : list button;
}.

Definition row_of (busy : option string) (i : WorkItem) : row :=
  mkRow (match wi_type i with application => "Pending" | assignment => "Assigned" end)
    (truncate (wi_contributor i))
    (match cap_column i with Some (u, l, _) => pretty u +:+ "/" +:+ pretty l | None => "—" end)
    (wi_issueId i) (RowActions busy i).

Inductive area :=
  | AreaLoading | AreaFailed (msg : string) | NoItems
  | Table (caption : string) (rows : list row) (pager_of : option (string * pager)).

Definition caption (orgId : string) (n : Z) : string :=
  pretty n +:+ " item" +:+ (if n =? 1 then "" else "s") +:+ " for " +:+ orgId.

Definition area_of (orgId : string) (s : board) : area :=
  let n := Z.of_nat (length (items s)) in
  if loading s then AreaLoading
  else match filled (fetchError s) with
       | Some e => AreaFailed e
       | None =>
           if n =? 0 then NoItems
           else Table (caption orgId n) (row_of (busyId s) <$> pageItems s)
                  ((λ p, ("Page " +:+ pretty (page s) +:+ " / " +:+ pretty (last_page n PAGE_SIZE), p)) <$>
                     Pagination (page s) n)
       end.

Inductive view :=
  | Checking | WalletNotConnected | ForbiddenPage
  | Page (wallet : option string) (pending active : Z) (problem : option string) (a : area) (d : option dialog).

(** The screen: the role, the board, and what was posted, with what the accepted ones did. *)
Record screen := mkScreen {
  auth : component (option string * string) bool Role.MaintainerStatus;
  on : board;
  sent : list (ActionType * json);
  accepted : list (WorkItem * ActionType);
}.

Inductive event :=
  | AuthAnswer (i : nat) (b : bool)
  | Loaded (r : outcome (list WorkItem))
  | ClickRow (n : nat) (a : ActionType)      (** a button of the [n]-th row that is drawn *)
  | ClickConfirm | ClickCancel
  | Answered (r : reply)
  | ClickDismiss | ClickPrev | ClickNext | ClickRetry.

Section screen.
Variables (key : option string) (orgId : string).

Definition render (s : screen) : view :=
  match shown (auth s) with
  | Role.loading => Checking
  | Role.no_wallet => WalletNotConnected
  | Role.forbidden => ForbiddenPage
  | Role.authorized =>
      Page (truncate <$> filled key) (Z.of_nat (pending_count (on s))) (Z.of_nat (active_count (on s)))
        (filled (actionError (on s))) (area_of orgId (on s)) (ActionConfirmModal (on s))
  end.

(** The page before its role is known: nothing is loaded without it. *)
Definition open_screen : screen :=
  mkScreen (Client.step Role.useMaintainerAuth (Client.mount Role.loading) (Render (key, orgId)))
    (mkBoard [] true None 1 None None None false None) [] [].

Definition with_board (b : board) (s : screen) : screen := mkScreen (auth s) b (sent s) (accepted s).

(** The rows and the pager that are drawn. *)
Definition table (s : screen) : option (list WorkItem * option pager) :=
  match shown (auth s), area_of orgId (on s) with
  | Role.authorized, Table _ _ p => Some (pageItems (on s), snd <$> p)
  | _, _ => None
  end.

(** The dialog is modal: while it is open no button of a row can be clicked. *)
Definition step (s : screen) (e : event) : screen :=
  let b := on s in
  match e with
  | AuthAnswer i ok =>
      let a := Client.step Role.useMaintainerAuth (auth s) (Reply i ok) in
      mkScreen a (match shown (auth s), shown a with
                  | Role.loading, Role.authorized => Board.step b FetchItems
                  | _, _ => b
                  end) (sent s) (accepted s)
  | Loaded r =>
      match shown (auth s), loading b with
      | Role.authorized, true => with_board (Board.step b (Fetched r)) s
      | _, _ => s
      end
  | ClickRow n a =>
      match table s, pendingAction b with
      | Some (rows, _), None =>
          match rows !! n with
          | Some i =>
              if existsb (λ x, same_action (b_action x) a && negb (b_disabled x)) (RowActions (busyId b) i)
              then with_board (Board.step b (RequestAction i a)) s else s
          | None => s
          end
      | _, _ => s
      end
  | ClickConfirm =>
      match pendingAction b, confirmBusy b with
      | Some (i, a), false =>
          mkScreen (auth s) (Board.step b Confirm) (sent s ++ [(a, action_body key orgId i)]) (accepted s)
      | _, _ => s
      end
  | ClickCancel => with_board (Board.step b Cancel) s
  | Answered r =>
      match prev b, pendingAction b with
      | Some _, Some p =>
          mkScreen (auth s) (Board.step b (Answer r)) (sent s)
            (match refusal r with None => accepted s ++ [p] | Some _ => accepted s end)
      | _, _ => s
      end
  | ClickDismiss => with_board (Board.step b Dismiss) s
  | ClickPrev =>
      match table s with
      | Some (_, Some p) => if prev_disabled p then s else with_board (Board.step b (GoTo (page b - 1))) s
      | _ => s
      end
  | ClickNext =>
      match table s with
      | Some (_, Some p) => if next_disabled p then s else with_board (Board.step b (GoTo (page b + 1))) s
      | _ => s
      end
  | ClickRetry =>
      match shown (auth s), area_of orgId b with
      | Role.authorized, AreaFailed _ => with_board (Board.step b FetchItems) s
      | _, _ => s
      end
  end.

Definition after (es : list event) : screen := fold_left step es open_screen.

End screen.

(** *** What is on the board *)

(** The rows of an answer with the accepted actions applied to them, in order. *)
Definition rows (acc : list (WorkItem * ActionType)) (l : list WorkItem) : list WorkItem :=
  fold_left (λ l p, optimistic p.1 p.2 l) acc l.

Lemma rows_snoc acc p l : rows (acc ++ [p]) l = optimistic p.1 p.2 (rows acc l).
Proof. unfold rows. by rewrite fold_left_app. Qed.

(** The actions a row offers. *)
Definition fits (a : ActionType) (i : WorkItem) : Prop :=
  match wi_type i with application => a = assign | assignment => a = complete ∨ a = revoke end.

Lemma offered_fits busy a i :
  existsb (λ x, same_action (b_action x) a && negb (b_disabled x)) (RowActions busy i) = true → fits a i ∧ busy = None.
Proof. unfold RowActions, fits. destruct (wi_type i), a, busy; cbn; rewrite ?andb_false_r, ?orb_true_r; intros; auto; done. Qed.

Section phases.
Variables (key : option string) (orgId : string).

(** Where the board can be, for the answers [L] it was given: before its first good answer,
    at rest, perhaps with a dialog open, or while an action is on its way. *)
Inductive phase (L : list WorkItem → Prop) : board → list (ActionType * json) → list (WorkItem * ActionType) → Prop :=
  | phase_unloaded pg fe ae : let ld := match fe with None => true | Some _ => false end in phase L (mkBoard [] ld fe pg None ae None false None) [] []
  | phase_idle l0 acc snt pg ae p : L l0 →
      (∀ i a, p = Some (i, a) → i ∈ rows acc l0 ∧ fits a i) →
      phase L (mkBoard (rows acc l0) false None pg None ae p false None) snt acc
  | phase_busy l0 acc snt pg ae i a : L l0 → i ∈ rows acc l0 → fits a i →
      phase L (mkBoard (optimistic i a (rows acc l0)) false None pg (Some (wi_id i)) ae (Some (i, a)) true
                 (Some (rows acc l0))) (snt ++ [(a, action_body key orgId i)]) acc.

Lemma phase_mono (L L' : list WorkItem → Prop) b snt acc : (∀ l, L l → L' l) → phase L b snt acc → phase L' b snt acc.
Proof. intros HL. destruct 1; [by apply phase_unloaded|eapply phase_idle; eauto|eapply phase_busy; eauto]. Qed.

(** The role: asked for once, and answered once. *)
Inductive role_phase : component (option string * string) bool Role.MaintainerStatus → Prop :=
  | role_none : role_phase (Component Role.no_wallet [])
  | role_asked : role_phase (Component Role.loading [Run (key, orgId) true Waiting])
  | role_known ok : role_phase (Component (if ok : bool then Role.authorized else Role.forbidden)
                                 [Run (key, orgId) true (Replied ok)]).

Definition loaded_in (es : list event) (l : list WorkItem) : Prop := Loaded (Ret l) ∈ es.

Definition screen_inv (es : list event) (s : screen) : Prop :=
  role_phase (auth s) ∧
  (shown (auth s) = Role.authorized → phase (loaded_in es) (on s) (sent s) (accepted s)) ∧
  (shown (auth s) ≠ Role.authorized → on s = on (open_screen key orgId) ∧ sent s = [] ∧ accepted s = []).

(** What a step that is not the answer about the role does to an authorized screen. *)
Definition goes_on (L : list WorkItem → Prop) (s : screen) (e : event) : Prop :=
  let s' := step key orgId s e in auth s' = auth s ∧ phase L (on s') (sent s') (accepted s').

Definition not_auth (e : event) : Prop := match e with AuthAnswer _ _ => False | _ => True end.

Lemma step_unloaded L au pg fe ae e : shown au = Role.authorized → not_auth e → (∀ l, e = Loaded (Ret l) → L l) →
  goes_on L (mkScreen au (mkBoard [] (match fe with None => true | Some _ => false end) fe pg None ae None false None) [] []) e.
Proof.
  intros Ha He Hl. set (b := mkBoard _ _ _ _ _ _ _ _ _).
  assert (table orgId (mkScreen au b [] []) = None) as Ht.
  { unfold table. cbn [auth on]. rewrite Ha. unfold area_of. subst b. destruct fe as [m|]; [|done].
    cbn [loading fetchError]. by destruct (filled (Some m)). }
  assert (phase L b [] []) as Hb by constructor.
  destruct e as [n ok|r|n a'| | |r| | | |]; [done| | | | | | | | |]; unfold goes_on; cbn [step auth on sent accepted]; rewrite ?Ha, ?Ht.
  all: try by split.
  - subst b. destruct fe as [m|]; [by split|]. split; [done|]. destruct r as [l|x].
    + apply (phase_idle L l [] [] pg ae None); [by apply Hl|done].
    + apply (phase_unloaded L pg (Some _) ae).
  - split; [done|]. apply (phase_unloaded L pg fe None).
  - subst b. unfold area_of. destruct fe as [m|]; [|by split]. cbn [loading fetchError].
    destruct (filled (Some m)); [|by split]. split; [done|]. apply (phase_unloaded L pg None ae).
Qed.

Lemma step_idle L au l0 acc snt pg ae p e : shown au = Role.authorized → not_auth e → L l0 →
  (∀ i a, p = Some (i, a) → i ∈ rows acc l0 ∧ fits a i) →
  goes_on L (mkScreen au (mkBoard (rows acc l0) false None pg None ae p false None) snt acc) e.
Proof.
  intros Ha He Hl Hp. set (b := mkBoard _ _ _ _ _ _ _ _ _).
  assert (phase L b snt acc) as Hb by by constructor.
  assert (∀ pg', phase L (Board.step b (GoTo pg')) snt acc) as Hgo by (intros; by constructor).
  destruct e as [n ok|r|n a'| | |r| | | |]; [done| | | | | | | | |]; unfold goes_on; cbn [step auth on sent accepted]; rewrite ?Ha.
  all: try by split.
  - destruct (table orgId _) as [[rs pgr]|] eqn:Et; [|by split]. destruct p as [p|]; [by split|]. cbn [pendingAction b].
    destruct (rs !! n) as [i|] eqn:Ei; [|by split]. destruct (existsb _ _) eqn:Ex; [|by split]. split; [done|].
    apply (phase_idle L l0 acc snt pg None (Some (i, a'))); [done|]. intros i' a'' [= <- <-].
    apply offered_fits in Ex as [Hf _]. split; [|done]. unfold table in Et. cbn [auth on] in Et. rewrite Ha in Et.
    destruct (area_of orgId b); try done. injection Et as <- _. by eapply window_lookup_in.
  - subst b. cbn [pendingAction confirmBusy]. destruct p as [[i a]|]; [|by split]. destruct (Hp i a eq_refl). split; [done|].
    by apply phase_busy.
  - split; [done|]. by apply (phase_idle L l0 acc snt pg ae None).
  - split; [done|]. by apply (phase_idle L l0 acc snt pg None p).
  - destruct (table orgId _) as [[rs [pgr|]]|]; try by split. destruct (prev_disabled pgr); (split; [done|]); [exact Hb|apply Hgo].
  - destruct (table orgId _) as [[rs [pgr|]]|]; try by split. destruct (next_disabled pgr); (split; [done|]); [exact Hb|apply Hgo].
  - unfold area_of. subst b. cbn [loading fetchError filled]. destruct (_ =? 0); by split.
Qed.

Lemma step_busy L au l0 acc snt pg ae i a e : shown au = Role.authorized → not_auth e → L l0 →
  i ∈ rows acc l0 → fits a i →
  goes_on L (mkScreen au (mkBoard (optimistic i a (rows acc l0)) false None pg (Some (wi_id i)) ae (Some (i, a)) true
    (Some (rows acc l0))) (snt ++ [(a, action_body key orgId i)]) acc) e.
Proof.
  intros Ha He Hl Hi Hf. set (b := mkBoard _ _ _ _ _ _ _ _ _).
  assert (phase L b (snt ++ [(a, action_body key orgId i)]) acc) as Hb by by constructor.
  assert (∀ pg', phase L (Board.step b (GoTo pg')) (snt ++ [(a, action_body key orgId i)]) acc) as Hgo by (intros; by constructor).
  destruct e as [n ok|r|n a'| | |r| | | |]; [done| | | | | | | | |]; unfold goes_on; cbn [step auth on sent accepted]; rewrite ?Ha.
  all: try by split.
  - cbn [pendingAction b]. destruct (table orgId _) as [[rs pgr]|]; by split.
  - subst b. cbn [prev pendingAction Board.step]. split; [done|]. destruct (refusal r) as [x|]; cbn [on sent accepted].
    + by apply phase_idle.
    + change (optimistic i a (rows acc l0)) with (optimistic (i, a).1 (i, a).2 (rows acc l0)). rewrite <- rows_snoc.
      by apply phase_idle.
  - split; [done|]. by apply (phase_busy L l0 acc snt pg None i a).
  - destruct (table orgId _) as [[rs [pgr|]]|]; try by split. destruct (prev_disabled pgr); (split; [done|]); [exact Hb|apply Hgo].
  - destruct (table orgId _) as [[rs [pgr|]]|]; try by split. destruct (next_disabled pgr); (split; [done|]); [exact Hb|apply Hgo].
  - unfold area_of. subst b. cbn [loading fetchError filled]. destruct (_ =? 0); by split.
Qed.

Lemma phase_goes_on L s e : shown (auth s) = Role.authorized → not_auth e → (∀ l, e = Loaded (Ret l) → L l) →
  phase L (on s) (sent s) (accepted s) → goes_on L s e.
Proof.
  destruct s as [au b snt acc]. cbn [auth on sent accepted]. intros Ha He Hl [pg fe ae ld|l0 acc' snt' pg ae p|l0 acc' snt' pg ae i a].
  - by apply step_unloaded.
  - by apply step_idle.
  - by apply step_busy.
Qed.

Lemma role_step au i ok : role_phase au →
  let au' := Client.step Role.useMaintainerAuth au (Reply i ok) in
  role_phase au' ∧ (au' = au ∨ shown au = Role.loading).
Proof.
  destruct 1; cbn [Client.step runs].
  - split; [constructor|by left].
  - split; [|by right]. destruct i as [|i]; [|by constructor]. apply (role_known ok).
  - split; [|left]; destruct i as [|i]; done || constructor.
Qed.

Lemma role_open : role_phase (auth (open_screen key orgId)).
Proof. unfold open_screen. cbn -[Role.connected]. unfold Role.connected. cbn [fst]. destruct (filled key); constructor. Qed.

Lemma step_hidden s e : shown (auth s) ≠ Role.authorized → not_auth e →
  on s = on (open_screen key orgId) → sent s = [] → accepted s = [] → step key orgId s e = s.
Proof.
  destruct s as [au b snt acc]. cbn [auth on sent accepted]. intros Ha He -> -> ->.
  assert (∀ b, table orgId (mkScreen au b [] []) = None) as Ht by (intros b; unfold table; cbn [auth on]; by destruct (shown au)).
  destruct e; try done; cbn [step auth on]; rewrite ?Ht; try done; by destruct (shown au).
Qed.

Lemma screen_inv_step es s e : screen_inv es s → screen_inv (es ++ [e]) (step key orgId s e).
Proof.
  intros (Hr & Hon & Hoff).
  assert (∀ l, loaded_in es l → loaded_in (es ++ [e]) l) as Hmono by (unfold loaded_in; set_solver).
  destruct e as [i ok|r|n a| | |r| | | |].
  { pose proof (role_step (auth s) i ok Hr) as [Hr' Hcase]. split; [exact Hr'|]. cbn [step auth on sent accepted].
    set (au' := Client.step _ _ _) in *. destruct Hcase as [-> | Hld].
    - split; [|destruct (shown (auth s)); try done; intros _; by apply Hoff].
      intros Ha. rewrite Ha. eapply phase_mono; [exact Hmono|]. by apply Hon.
    - destruct Hoff as (Hb & Hs & Hc); [by rewrite Hld|]. rewrite Hld, Hb, Hs, Hc.
      split; intros Ha; [rewrite Ha; apply (phase_unloaded _ 1 None None)|by destruct (shown au')]. }
  all: match goal with |- screen_inv _ (step _ _ _ ?e) => set (e0 := e) in * end;
    assert (not_auth e0) as Hna by exact I;
    destruct (Role.status_eq_dec (shown (auth s)) Role.authorized) as [Ha|Ha];
    [assert (goes_on (loaded_in (es ++ [e0])) s e0) as [H1 H2];
     [apply phase_goes_on; [done|done|intros l ->; unfold loaded_in; set_solver|by eapply phase_mono, Hon]
     |split; [by rewrite H1|split; [done|by rewrite H1]]]
    |destruct (Hoff Ha) as (Hb & Hs & Hc); rewrite (step_hidden s e0 Ha Hna Hb Hs Hc); by split].
Qed.

Lemma screen_inv_after es : screen_inv es (after key orgId es).
Proof.
  unfold after. induction es as [|e es IH] using rev_ind.
  - split; [apply role_open|]. split; [intros _; apply (phase_unloaded _ 1 None None)|done].
  - rewrite fold_left_app. by apply screen_inv_step.
Qed.

(** C22: Nothing is asked for, shown or posted before the role is known to be held; from then on the
    rows are those of the answer with every accepted action applied, in the order they were
    accepted, and with the one action that may be on its way: it was confirmed in the dialog
    of a row that is there and offers it, and its request is the last one posted. A refused
    action leaves no trace but its message. *)
Theorem board_shows_accepted es :
  let s := after key orgId es in
  let b := on s in
  (shown (auth s) ≠ Role.authorized → sent s = [] ∧ items b = []) ∧
  ((items b = [] ∧ sent s = [] ∧ accepted s = []) ∨
   ∃ l0, Loaded (Ret l0) ∈ es ∧
     match prev b with
     | None => items b = rows (accepted s) l0 ∧ busyId b = None ∧ confirmBusy b = false
     | Some _ => ∃ i a, i ∈ rows (accepted s) l0 ∧ fits a i ∧
         items b = optimistic i a (rows (accepted s) l0) ∧
         pendingAction b = Some (i, a) ∧ busyId b = Some (wi_id i) ∧ confirmBusy b = true ∧
         list.last (sent s) = Some (a, action_body key orgId i)
     end).
Proof.
  intros s b. destruct (screen_inv_after es) as (_ & Hon & Hoff). fold s in Hon, Hoff. split.
  { intros Ha. destruct (Hoff Ha) as (Hb & -> & _). unfold b. by rewrite Hb. }
  destruct (Role.status_eq_dec (shown (auth s)) Role.authorized) as [Ha|Ha].
  - specialize (Hon Ha). unfold b. destruct Hon as [pg fe ae ld|l0 acc snt pg ae p Hl Hp|l0 acc snt pg ae i a Hl Hi Hf].
    + by left.
    + right. by exists l0.
    + right. exists l0. split; [done|]. cbn. exists i, a. by rewrite list.last_snoc.
  - left. destruct (Hoff Ha) as (Hb & -> & ->). unfold b. by rewrite Hb.
Qed.

(** Twenty-five items while the second page is on screen. *)
Definition stranded (l : list WorkItem) (s : screen) : Prop :=
  role_phase (auth s) ∧ shown (auth s) = Role.authorized ∧
  ∃ ae, on s = mkBoard l false None 2 None ae None false None.

Lemma stranded_area l s : length l = 25%nat → stranded l s → area_of orgId (on s) = Table (caption orgId 25) [] None.
Proof.
  intros Hl (_ & _ & ae & ->). unfold area_of, pageItems. cbn [items loading fetchError filled page busyId]. rewrite Hl.
  by rewrite (window_past 2 PAGE_SIZE l) by (rewrite Hl; by vm_compute).
Qed.

Lemma stranded_step l s e : length l = 25%nat → stranded l s → stranded l (step key orgId s e).
Proof.
  intros Hl Hs. pose proof (stranded_area l s Hl Hs) as Harea. destruct Hs as (Hr & Ha & ae & Hb).
  assert (table orgId s = Some ([], None)) as Ht.
  { unfold table. rewrite Ha, Harea. unfold pageItems. rewrite Hb. cbn [page items].
    by rewrite (window_past 2 PAGE_SIZE l) by (rewrite Hl; by vm_compute). }
  destruct e as [i ok|r|n a| | |r| | | |]; cbn [step]; rewrite ?Ht, ?Hb, ?Ha, ?lookup_nil; cbn [loading pendingAction prev];
    try (split_and!; [exact Hr|exact Ha|by eexists]).
  - destruct (role_step (auth s) i ok Hr) as [Hr' [He|He]]; [|by rewrite Ha in He]. rewrite He.
    split_and!; [exact Hr|exact Ha|by eexists].
  - unfold area_of. cbn [loading fetchError filled items]. rewrite Hl. split_and!; [exact Hr|exact Ha|by eexists].
Qed.

Lemma phase_stranded L b snt acc : phase L b snt acc → items b ≠ [] → page b = 2 → busyId b = None →
  pendingAction b = None → ∃ ae, b = mkBoard (items b) false None 2 None ae None false None.
Proof.
  destruct 1 as [pg fe ae ld|l0 acc' snt' pg ae p|l0 acc' snt' pg ae i a];
    cbn [items page busyId pendingAction]; intros; simplify_eq; by eexists.
Qed.

(** When the last item of the second page is done, the table is empty, twenty-five items are left,
    and the pager is not drawn: whatever is clicked then, the table stays empty. *)
Theorem page_left_behind es es' :
  let b := on (after key orgId es) in
  length (items b) = 25%nat → page b = 2 → busyId b = None → pendingAction b = None →
  area_of orgId (on (after key orgId (es ++ es'))) = Table (caption orgId 25) [] None.
Proof.
  intros b Hl Hpg Hbusy Hpend. destruct (screen_inv_after es) as (Hr & Hon & Hoff).
  assert (stranded (items b) (after key orgId es)) as Hs.
  { destruct (Role.status_eq_dec (shown (auth (after key orgId es))) Role.authorized) as [Ha|Ha].
    2: { unfold b in Hl. by rewrite (proj1 (Hoff Ha)) in Hl. }
    split_and!; [done|done|]. eapply phase_stranded; [by apply Hon|intros He; change (items b = []) in He; by rewrite He in Hl|done..]. }
  apply (stranded_area (items b)); [done|]. unfold after. rewrite fold_left_app. fold (after key orgId es).
  revert Hs Hl. generalize (items b), (after key orgId es). clear. intros l s Hs Hl. revert s Hs.
  induction es' as [|e es' IH]; intros s Hs; [done|]. cbn [fold_left]. by apply IH, stranded_step.
Qed.

End phases.

(** *** A concrete run *)

Notation many_items := ((λ n, mkItem (pretty (Z.of_nat n)) "GA" "1" "2026-07-20" assignment None None) <$> seq 0 26).
Notation last_done := [AuthAnswer 0 true; Loaded (Ret many_items); ClickNext; ClickRow 0 complete; ClickConfirm;
  Answered (Client.Answered 200 None)].

Lemma page_left_behind_witness :
  area_of "org" (on (after (Some "GM") "org" (last_done ++ [ClickPrev; ClickNext]))) = Table "25 items for org" [] None.
Proof.
  assert (length (items (on (after (Some "GM") "org" last_done))) = 25%nat) as Hl by (by vm_compute).
  assert (page (on (after (Some "GM") "org" last_done)) = 2) as Hp by (by vm_compute).
  assert (busyId (on (after (Some "GM") "org" last_done)) = None) as Hb by (by vm_compute).
  assert (pendingAction (on (after (Some "GM") "org" last_done)) = None) as Hq by (by vm_compute).
  exact (page_left_behind (Some "GM") "org" last_done [ClickPrev; ClickNext] Hl Hp Hb Hq).
Defined.

End BoardScreen.

(** ** The panel in its container *)

Module PanelScreen.
Import Panel.

Definition truncate (addr : string) : string := shorten 16 8 6 addr.

Definition caps (g o : option Z) : list (string * cap_class) :=
  (match g with Some n => [(pretty n +:+ "/15", CapBadge n 15)] | None => [] end) ++
  (match o with Some n => [(pretty n +:+ "/4", CapBadge n 4)] | None => [] end).

(** A row: its texts, its caps, and its buttons with whether they are disabled. *)
Record row := mkRow {
  r_contributor : string; r_org : string; r_title : string; r_caps : list (string * cap_class);
  r_buttons : list (string * bool);
}.

(** [AppRow], with its two states. *)
Record app_state := mkAppState { confirming : bool; busy : bool }.
Definition fresh : app_state := mkAppState false false.

Definition AppRow (st : app_state) (a : Application) : row :=
  mkRow (truncate (ap_contributor a)) (ap_org a) (ap_issueTitle a) (caps (ap_globalCount a) (ap_orgCount a))
    (if confirming st then [(if busy st then "Assigning…" else "Confirm", busy st); ("Cancel", false)]
     else [("Assign", false)]).

(** [AssignRow], with the action it is busy with. *)
Inductive which := completing | revoking.
Definition AssignRow (st : option which) (x : Assignment) : row :=
  let off := match st with Some _ => true | None => false end in
  mkRow (truncate (as_contributor x)) (as_org x) (as_issueTitle x) (caps (as_globalCount x) (as_orgCount x))
    [(match st with Some completing => "…" | _ => "Complete" end, off);
     (match st with Some revoking => "…" | _ => "Revoke" end, off)].

(** The screen: the role, the panel, whether it is open and pinned, the states of the rows that
    are mounted and have left their first state, by their keys, and the notifications. *)
Record screen := mkScreen {
  role : component Role.params (outcome (list bool)) Role.MaintainerStatus;
  on : panel;
  shell : bool * bool;
  app_rows : gmap string app_state;
  asgn_rows : gmap string which;
  toasts : Toasts.state;
}.

Definition open_screen : screen :=
  mkScreen (Client.mount Role.loading) (mkPanel (mkLists [] []) [] false None) (true, false) ∅ ∅ Toasts.init.

Definition is_authorized (s : screen) : bool :=
  match Client.shown (role s) with Role.authorized => true | _ => false end.

(** The rows that are drawn, in their order. *)
Definition drawn_apps (s : screen) : list Application :=
  if is_authorized s && (shell s).1 then sortedApps (applications (Panel.shown (on s))) else [].
Definition drawn_asgns (s : screen) : list Assignment :=
  if is_authorized s && (shell s).1 then assignments (Panel.shown (on s)) else [].

(** Rows that are not drawn any more are unmounted. *)
Definition tidy (s : screen) : screen :=
  mkScreen (role s) (on s) (shell s)
    (filter (λ kv, kv.1 ∈ ap_id <$> drawn_apps s) (app_rows s))
    (filter (λ kv, kv.1 ∈ as_id <$> drawn_asgns s) (asgn_rows s)) (toasts s).

Inductive event :=
  | RoleEvent (e : Client.event Role.params (outcome (list bool)))
  | Loaded (r : outcome (list (list Application) * list (list Assignment)))
  | Shell (e : shell_event)
  | StartConfirm (n : nat) | CancelConfirm (n : nat) | EscapeIn (n : nat) | ConfirmRow (n : nat)
  | ClickComplete (n : nat) | ClickRevoke (n : nat)
  | Settled (i : nat) (o : outcome unit).

Definition app_row (s : screen) (a : Application) : app_state := default fresh (app_rows s !! ap_id a).

Definition set_app (a : Application) (st : app_state) (s : screen) : screen :=
  mkScreen (role s) (on s) (shell s) (<[ap_id a := st]> (app_rows s)) (asgn_rows s) (toasts s).
Definition set_asgn (x : Assignment) (st : which) (s : screen) : screen :=
  mkScreen (role s) (on s) (shell s) (app_rows s) (<[as_id x := st]> (asgn_rows s)) (toasts s).
Definition set_panel (p : panel) (s : screen) : screen :=
  mkScreen (role s) p (shell s) (app_rows s) (asgn_rows s) (toasts s).
Definition set_shell (sh : bool * bool) (s : screen) : screen :=
  mkScreen (role s) (on s) sh (app_rows s) (asgn_rows s) (toasts s).

(** [onAssign], [onComplete] and [onRevoke], when their call has settled: the notification. *)
Definition notice (x : action) (o : outcome unit) : string * Toasts.ToastType :=
  match o with
  | Throw e => (panel_error e, Toasts.error)
  | Ret _ =>
      match x with
      | Assign a => ("Assigned " +:+ quoted (ap_issueTitle a) +:+ " to " +:+ slice_to 8 (ap_contributor a) +:+ "…",
                     Toasts.success)
      | Complete x => ("Completed " +:+ quoted (as_issueTitle x), Toasts.success)
      | Revoke x => ("Revoked " +:+ quoted (as_issueTitle x), Toasts.info)
      end
  end.

Definition handle (s : screen) (e : event) : screen :=
  match e with
  | RoleEvent e =>
      let r := Client.step Role.checkRole (role s) e in
      let s' := mkScreen r (on s) (shell s) (app_rows s) (asgn_rows s) (toasts s) in
      if is_authorized s' then (if is_authorized s then s' else set_panel (Panel.step true (on s) StartLoad) s')
      else set_shell (true, false) s'
  | Loaded r => if Panel.loading (on s) then set_panel (Panel.step true (on s) (Load r)) s else s
  | Shell e => if is_authorized s then set_shell (shell_step (shell s) e) s else s
  | StartConfirm n =>
      match drawn_apps s !! n with
      | Some a => if confirming (app_row s a) then s else set_app a (mkAppState true (busy (app_row s a))) s
      | None => s
      end
  | CancelConfirm n =>
      match drawn_apps s !! n with
      | Some a => if confirming (app_row s a) then set_app a (mkAppState false (busy (app_row s a))) s else s
      | None => s
      end
  | EscapeIn n =>
      match drawn_apps s !! n with
      | Some a => set_shell (shell_step (shell s) Escape) (set_app a (mkAppState false (busy (app_row s a))) s)
      | None => s
      end
  | ConfirmRow n =>
      match drawn_apps s !! n with
      | Some a =>
          if confirming (app_row s a) && negb (busy (app_row s a))
          then set_panel (Panel.step true (on s) (Click (Assign a))) (set_app a (mkAppState true true) s)
          else s
      | None => s
      end
  | ClickComplete n =>
      match drawn_asgns s !! n with
      | Some x => match asgn_rows s !! as_id x with
                  | None => set_panel (Panel.step true (on s) (Click (Complete x))) (set_asgn x completing s)
                  | Some _ => s
                  end
      | None => s
      end
  | ClickRevoke n =>
      match drawn_asgns s !! n with
      | Some x => match asgn_rows s !! as_id x with
                  | None => set_panel (Panel.step true (on s) (Click (Revoke x))) (set_asgn x revoking s)
                  | Some _ => s
                  end
      | None => s
      end
  | Settled i o =>
      match calls (on s) !! i with
      | Some (x, None) =>
          mkScreen (role s) (Panel.step true (on s) (Settle i (match o with Ret _ => true | Throw _ => false end)))
            (shell s) (app_rows s) (asgn_rows s)
            (let '(m, t) := notice x o in Toasts.add m t None (toasts s))
      | _ => s
      end
  end.

Definition step (s : screen) (e : event) : screen := tidy (handle s e).
Definition after (es : list event) : screen := fold_left step es open_screen.

(** What is drawn. *)
Inductive view :=
  | CheckingRole | Hidden
  | ClosedPanel (busy : bool) (problem : option string)
  | OpenPanel (busy : bool) (problem : option string) (pinned : bool) (apps asgns : list row).

Definition render (s : screen) : view :=
  match Client.shown (role s) with
  | Role.loading => CheckingRole
  | Role.no_wallet | Role.forbidden => Hidden
  | Role.authorized =>
      let problem := filled (Panel.error (on s)) in
      if (shell s).1 then
        OpenPanel (Panel.loading (on s)) problem (shell s).2
          ((λ a, AppRow (app_row s a) a) <$> drawn_apps s)
          ((λ x, AssignRow (asgn_rows s !! as_id x) x) <$> drawn_asgns s)
      else ClosedPanel (Panel.loading (on s)) problem
  end.

(** *** Lemmas and theorems *)

(** No row that is mounted is busy: the row that asks for an action goes away with it. *)
Definition calm (s : screen) : Prop :=
  (∀ k st, app_rows s !! k = Some st → busy st = false) ∧ asgn_rows s = ∅.

Lemma tidy_app s k st : app_rows (tidy s) !! k = Some st → app_rows s !! k = Some st ∧ k ∈ ap_id <$> drawn_apps s.
Proof. cbn [tidy app_rows]. by rewrite map_lookup_filter_Some. Qed.

Lemma tidy_calm s : calm s → calm (tidy s).
Proof.
  intros [H1 H2]. split.
  - intros k st [Hk _]%tidy_app. by eapply H1.
  - cbn [tidy asgn_rows]. by rewrite H2, map_filter_empty.
Qed.

Lemma calm_row s a : calm s → busy (app_row s a) = false.
Proof. intros [H _]. unfold app_row. destruct (app_rows s !! ap_id a) as [st|] eqn:E; [by eapply H|done]. Qed.

Lemma calm_set_app s a b : calm s → calm (set_app a (mkAppState b (busy (app_row s a))) s).
Proof.
  intros H. rewrite (calm_row s a H). destruct H as [H1 H2]. split; [|done]. intros k st. cbn [set_app app_rows].
  intros [[_ <-]|[_ Hk]]%lookup_insert_Some; [done|by eapply H1].
Qed.

(** A row that goes away takes its state with it. *)
Lemma assigned_gone s a : calm s →
  calm (tidy (set_panel (Panel.step true (on s) (Click (Assign a))) (set_app a (mkAppState true true) s))).
Proof.
  intros [H1 H2]. split; [|cbn; by rewrite H2, map_filter_empty].
  intros k st [Hk Hd]%tidy_app. cbn [set_panel set_app app_rows] in Hk.
  apply lookup_insert_Some in Hk as [[<- _]|[_ Hk]]; [|by eapply H1]. exfalso.
  unfold drawn_apps in Hd. destruct (_ && _); [|by apply not_elem_of_nil in Hd].
  apply list_elem_of_fmap in Hd as (b & Hb & Hin). unfold sortedApps in Hin. rewrite sort_by_perm in Hin.
  cbn in Hin. unfold drop_application in Hin. apply list_elem_of_filter in Hin as [Hne _]. by apply Hne.
Qed.

Lemma dropped_gone s x st y : (y = Complete x ∨ y = Revoke x) → calm s →
  calm (tidy (set_panel (Panel.step true (on s) (Click y)) (set_asgn x st s))).
Proof.
  intros Hy [H1 H2]. split; [intros k b [Hk _]%tidy_app; by eapply H1|].
  apply map_empty. intros k. cbn [tidy asgn_rows set_panel set_asgn]. apply map_lookup_filter_None. right.
  intros b Hk Hd. rewrite H2 in Hk. apply lookup_insert_Some in Hk as [[<- _]|[_ Hk]]; [|done].
  unfold drawn_asgns in Hd. destruct (_ && _); [|by apply not_elem_of_nil in Hd].
  apply list_elem_of_fmap in Hd as (b' & Hb & Hin).
  destruct Hy as [-> | ->]; cbn in Hin; unfold drop_assignment in Hin; apply list_elem_of_filter in Hin as [Hne _]; by apply Hne.
Qed.

Lemma calm_step s e : calm s → calm (step s e).
Proof.
  intros H. unfold step. destruct e as [e|r|e|n|n|n|n|n|n|i o]; cbn [handle].
  - apply tidy_calm. destruct (is_authorized _); [destruct (is_authorized s)|]; exact H.
  - apply tidy_calm. by destruct (Panel.loading (on s)).
  - apply tidy_calm. by destruct (is_authorized s).
  - apply tidy_calm. destruct (drawn_apps s !! n) as [a|]; [|done]. destruct (confirming _); [done|by apply calm_set_app].
  - apply tidy_calm. destruct (drawn_apps s !! n) as [a|]; [|done]. destruct (confirming _); [by apply calm_set_app|done].
  - apply tidy_calm. destruct (drawn_apps s !! n) as [a|]; [|done]. by apply (calm_set_app s a false H).
  - destruct (drawn_apps s !! n) as [a|]; [|by apply tidy_calm]. destruct (_ && _); [by apply assigned_gone|by apply tidy_calm].
  - destruct (drawn_asgns s !! n) as [x|]; [|by apply tidy_calm]. destruct (asgn_rows s !! as_id x); [by apply tidy_calm|].
    apply dropped_gone; auto.
  - destruct (drawn_asgns s !! n) as [x|]; [|by apply tidy_calm]. destruct (asgn_rows s !! as_id x); [by apply tidy_calm|].
    apply dropped_gone; auto.
  - apply tidy_calm. destruct (calls (on s) !! i) as [[x [b|]]|]; [done| |done]. by destruct (notice x o).
Qed.

Lemma calm_after es : calm (after es).
Proof. unfold after. induction es as [|e es IH] using rev_ind; [done|]. rewrite fold_left_app. by apply calm_step. Qed.

(** No button of the panel is ever disabled and no row ever says that it is busy: the row of an
    action leaves the list before its call is made. *)
Theorem panel_never_busy es pinned ld er apps asgns :
  render (after es) = OpenPanel ld er pinned apps asgns →
  Forall (λ r, Forall (λ b, b.2 = false) (r_buttons r)) (apps ++ asgns).
Proof.
  unfold render. destruct (Client.shown _); try done. destruct (shell _).1; [|done]. intros [= <- <- <- <- <-].
  pose proof (calm_after es) as Hc. apply Forall_app. split; apply Forall_fmap, Forall_forall.
  - intros a _. unfold compose, AppRow. cbn [r_buttons]. rewrite (calm_row _ a Hc). destruct (confirming _); by repeat constructor.
  - intros x _. unfold compose, AssignRow. rewrite (proj2 Hc), lookup_empty. by repeat constructor.
Qed.

(** The calls that have settled. *)
Definition settled (s : screen) : nat := length (filter (λ c, is_Some c.2) (calls (on s))).

Lemma settle_one (l : list (action * option bool)) i x b : l !! i = Some (x, None) →
  length (filter (λ c, is_Some c.2) (<[i := (x, Some b)]> l)) = S (length (filter (λ c, is_Some c.2) l)).
Proof.
  revert i. induction l as [|c l IH]; intros [|i] Hi; try done; cbn in Hi.
  - injection Hi as ->. cbn [insert list_insert]. rewrite filter_cons_True by by eexists.
    rewrite filter_cons_False; [done|]. by intros [? [=]].
  - change (<[S i := (x, Some b)]> (c :: l)) with (c :: <[i := (x, Some b)]> l). rewrite !filter_cons. case_decide; cbn [length].
    + by rewrite (IH i Hi).
    + by apply IH.
Qed.

Lemma click_settles_none (l : list (action * option bool)) x :
  length (filter (λ c, is_Some c.2) (l ++ [(x, None)])) = length (filter (λ c, is_Some c.2) l).
Proof. rewrite filter_app, length_app. rewrite (filter_cons_False _ (x, None)); [|by intros [? [=]]]. cbn. lia. Qed.

(** Every call that has settled was notified exactly once, and nothing else was. *)
Theorem panel_notices es : Toasts.nextId (toasts (after es)) = settled (after es).
Proof.
  unfold after. induction es as [|e es IH] using rev_ind; [done|]. rewrite fold_left_app. cbn [fold_left].
  set (s := fold_left step es open_screen) in *. unfold step, settled in *. cbn [tidy toasts on].
  destruct e as [e|r|e|n|n|n|n|n|n|i o]; cbn [handle].
  - destruct (is_authorized _); [destruct (is_authorized s)|]; exact IH.
  - destruct (Panel.loading (on s)); [|done]. by destruct r as [[? ?]|?].
  - by destruct (is_authorized s).
  - destruct (drawn_apps s !! n) as [a|]; [|done]. by destruct (confirming _).
  - destruct (drawn_apps s !! n) as [a|]; [|done]. by destruct (confirming _).
  - by destruct (drawn_apps s !! n).
  - destruct (drawn_apps s !! n) as [a|]; [|done]. destruct (_ && _); [|done]. cbn -[filter]. by rewrite click_settles_none.
  - destruct (drawn_asgns s !! n) as [x|]; [|done]. destruct (asgn_rows s !! _); [done|]. cbn -[filter]. by rewrite click_settles_none.
  - destruct (drawn_asgns s !! n) as [x|]; [|done]. destruct (asgn_rows s !! _); [done|]. cbn -[filter]. by rewrite click_settles_none.
  - destruct (calls (on s) !! i) as [[x [b|]]|] eqn:Ei; [done| |done]. cbn [Panel.step]. rewrite Ei. cbn [calls toasts on].
    rewrite (settle_one _ _ _ _ Ei). destruct (notice x o) as [m t]. unfold Toasts.add.
    destruct (_ <=? _)%nat; cbn; by rewrite IH.
Qed.

Lemma hidden_calls s e : is_authorized s = false → calls (on s) = [] → calls (on (step s e)) = [].
Proof.
  intros Ha Hc. unfold step. cbn [tidy on]. unfold drawn_apps, drawn_asgns.
  destruct e as [e|r|e|n|n|n|n|n|n|i o]; cbn [handle]; unfold drawn_apps, drawn_asgns; rewrite ?Ha; cbn [andb]; try done.
  - case_match; exact Hc.
  - destruct (Panel.loading (on s)); [|exact Hc]. by destruct r as [[? ?]|?].
  - by rewrite Hc.
Qed.

(** Nobody acts on the panel before the role was found to be held. *)
Theorem panel_gate es : calls (on (after es)) ≠ [] → ∃ es1 es2, es = es1 ++ es2 ∧ is_authorized (after es1) = true.
Proof.
  induction es as [|e es IH] using rev_ind; [done|]. intros Hc.
  destruct (is_authorized (after es)) eqn:Ha; [by exists es, [e]|].
  destruct (calls (on (after es))) as [|c l] eqn:Hl.
  - exfalso. apply Hc. unfold after in *. rewrite fold_left_app. exact (hidden_calls _ e Ha Hl).
  - destruct IH as (es1 & es2 & -> & H); [done|]. exists es1, (es2 ++ [e]). by rewrite app_assoc.
Qed.

(** ** Concrete runs *)

Notation demo_params := (Role.mkParams (Some "GM") ["org"] true).
Notation demo_open := [RoleEvent (Render demo_params); RoleEvent (Reply 0 (Ret [true]));
  Loaded (Ret ([[demo_row "GA" "1"]], []))].
Notation lost := (Throw (Error "lost")).

(** An assignment can be completed while it is being made: when both calls fail, the row is both
    an application and an assignment. *)
Theorem phantom_by_clicks :
  let s := after (demo_open ++ [StartConfirm 0; ConfirmRow 0; ClickComplete 0; Settled 0 lost; Settled 1 lost]) in
  applications (Panel.shown (on s)) = [demo_row "GA" "1"] ∧ assignments (Panel.shown (on s)) = [newAsgn (demo_row "GA" "1")].
Proof. by vm_compute. Qed.

(** Escape in a row that asks for a confirmation also closes the panel, unless it is pinned. *)
Theorem escape_closes_panel :
  shell (after (demo_open ++ [StartConfirm 0; EscapeIn 0])) = (false, false) ∧
  shell (after (demo_open ++ [Shell TogglePin; StartConfirm 0; EscapeIn 0])) = (true, true).
Proof. by vm_compute. Qed.

Lemma panel_never_busy_witness :
  ∃ apps asgns, render (after (demo_open ++ [StartConfirm 0; ConfirmRow 0])) = OpenPanel false None false apps asgns ∧
    length (apps ++ asgns) = 1%nat ∧ Forall (λ r, Forall (λ b, b.2 = false) (r_buttons r)) (apps ++ asgns).
Proof.
  pose (s := after (demo_open ++ [StartConfirm 0; ConfirmRow 0])).
  pose (apps := (λ a, AppRow (app_row s a) a) <$> drawn_apps s).
  pose (asgns := (λ x, AssignRow (asgn_rows s !! as_id x) x) <$> drawn_asgns s).
  assert (render s = OpenPanel false None false apps asgns) as H by (by vm_compute).
  exists apps, asgns. split; [exact H|]. split; [by vm_compute|].
  exact (panel_never_busy _ false false None apps asgns H).
Defined.

Lemma panel_gate_witness :
  ∃ es1 es2, demo_open ++ [StartConfirm 0; ConfirmRow 0] = es1 ++ es2 ∧ is_authorized (after es1) = true.
Proof.
  assert (calls (on (after (demo_open ++ [StartConfirm 0; ConfirmRow 0]))) ≠ []) as H by (vm_compute; discriminate).
  exact (panel_gate _ H).
Defined.

End PanelScreen.
