(* ===== verification/FormScreens.v ===== *)
(** * The screens of the forms

    What [components/TransactionForms.tsx], [pages/RegisterOrgPage.tsx] and
    [pages/OrgManagementPage.tsx] draw of the states of Forms, and that what is drawn agrees
    with what is sent: a form that is not sent says why, and the organisation that is reviewed
    is the one that is registered. *)

From Stdlib Require Import String.
From S2P Require Import Prelude Js Url Http Browser Client Forms.

#[local] Open Scope string_scope.
#[local] Open Scope list_scope.
#[local] Open Scope Z_scope.

(** ** The forms of the transactions *)

Module TxFormScreen.
Import TxForm.

(** [RevokeForm] checks what the other two of its kind do. *)
Definition RevokeForm (registeredOrgs : list string) : form :=
  mkForm [Fields.validateStellarAddress; Fields.validateOrgIdRegistered registeredOrgs;
          Fields.validateIssueIdNotApplied []] None.

(** The texts of a form: its title, its fields with their placeholders and hints, and its button. *)
Record texts := mkTexts {
  t_title : string; t_fields : list (string * string * option string); t_button : string; t_busy : string;
}.

Definition contributor_field (hint : option string) : string * string * option string :=
  ("Contributor Address", "GXXXXXXXXXX…", hint).
Definition org_field (hint : option string) : string * string * option string :=
  ("Organisation ID", "e.g. stellar-org", hint).
Definition issue_field (hint : option string) : string * string * option string := ("Issue ID", "e.g. 42", hint).

Definition apply_texts (registeredOrgs : list string) : texts :=
  mkTexts "Apply for Issue"
    [org_field (match registeredOrgs with [] => Some "Enter the exact org ID as registered." | _ => None end);
     issue_field (Some "Must be a positive integer. Cannot apply twice to the same issue.")] "Apply" "Applying…".
Definition assign_texts : texts :=
  mkTexts "Assign Issue"
    [contributor_field (Some "Must be a valid Stellar public key starting with G."); org_field None; issue_field None]
    "Assign" "Assigning…".
Definition complete_texts : texts :=
  mkTexts "Complete Assignment" [contributor_field None; org_field None; issue_field None] "Complete" "Completing…".
Definition revoke_texts : texts :=
  mkTexts "Revoke Assignment" [contributor_field None; org_field None; issue_field None] "Revoke" "Revoking…".

(** [FormField]: its texts, its value, its error, and which of error and hint describe it. *)
Record field := mkField { f_texts : string * string * option string; f_value : string; f_error : option string; f_described : list string }.

Definition FormField (t : string * string * option string) (value : string) (error : option string) : field :=
  mkField t value error
    ((match error with Some _ => ["error"] | None => [] end) ++ (match t.2 with Some _ => ["hint"] | None => [] end)).

Record view := mkView {
  v_title : string; v_warning : option string; v_fields : list field; v_button : string; v_disabled : bool;
}.

Definition is_some {A} (o : option A) : bool := match o with Some _ => true | None => false end.

Definition render (f : form) (t : texts) (s : state) : view :=
  mkView (t_title t) (blocked f)
    (zip_with (λ (p : (string * string * option string) * string) e, FormField p.1 p.2 e)
       (zip (t_fields t) (values s)) (shown_errors f s))
    (if busy s then t_busy t else t_button t) (busy s || is_some (blocked f)).

(** The form and its texts have the same fields, all of them have a value. *)
Definition fits (f : form) (t : texts) (s : state) : Prop :=
  length (t_fields t) = length (validators f) ∧ length (values s) = length (validators f) ∧
  length (touched s) = length (validators f).

Lemma fits_initial f t : length (t_fields t) = length (validators f) → fits f t (initial f).
Proof. intros H. unfold fits, initial. cbn [values touched]. by rewrite !length_fmap. Qed.

Lemma fits_step f t s e : fits f t s → fits f t (step f s e).
Proof.
  intros (H1 & H2 & H3). destruct e; cbn [step]; unfold fits; cbn [values touched]; rewrite ?length_insert; try done.
  destruct (busy s || _); [done|]. by destruct (isValid f s).
Qed.

(** The errors that are drawn. *)
Definition drawn (v : view) : list string := omap f_error (v_fields v).

Lemma drawn_shown f t s : fits f t s → drawn (render f t s) = omap id (shown_errors f s).
Proof.
  intros (H1 & H2 & H3). unfold drawn, render. cbn [v_fields].
  assert (length (shown_errors f s) = length (zip (t_fields t) (values s))) as Hl.
  { unfold shown_errors, problems. rewrite length_zip_with, length_zip_with, length_zip_with. lia. }
  revert Hl. generalize (shown_errors f s), (zip (t_fields t) (values s)). clear.
  intros es ps. revert es. induction ps as [|p ps IH]; intros [|e es] Hl; try done. cbn.
  destruct e; cbn; by rewrite IH by (cbn in Hl; lia).
Qed.

Lemma shown_submitted f t s : fits f t s → submitted s = true → shown_errors f s = problems f (values s).
Proof.
  intros (H1 & H2 & H3) Hs. unfold shown_errors. rewrite Hs.
  assert (length (touched s) = length (problems f (values s))) as Hl by (unfold problems; rewrite length_zip_with; lia).
  revert Hl. generalize (touched s), (problems f (values s)). clear. intros ts ps. revert ts.
  induction ps as [|p ps IH]; intros [|b ts] Hl; try done. cbn. rewrite orb_true_r. f_equal. apply IH. cbn in Hl. lia.
Qed.

Lemma no_problem (ps : list (option string)) : omap id ps = [] ↔ forallb (λ e, match e with None => true | Some _ => false end) ps = true.
Proof. induction ps as [|[e|] ps IH]; [done|done|]. exact IH. Qed.

(** A click on the button of a form either hands over exactly the trimmed values that are drawn,
    and then no error and no warning is on the form, or hands over nothing, and then one is. *)
Theorem form_tells_why f t es :
  length (t_fields t) = length (validators f) →
  let s := fold_left (step f) es (initial f) in
  let s' := step f s Submit in
  busy s = false →
  (sent s' = sent s ++ [trim ∘ f_value <$> v_fields (render f t s')] ∧ drawn (render f t s') = [] ∧ v_warning (render f t s') = None) ∨
  (sent s' = sent s ∧ (drawn (render f t s') ≠ [] ∨ is_Some (v_warning (render f t s')))).
Proof.
  intros Hl s s' Hb. assert (fits f t s) as Hf.
  { unfold s. clear s' Hb s. induction es as [|e es IH] using rev_ind; [by apply fits_initial|]. rewrite fold_left_app. by apply fits_step. }
  assert (fits f t s') as Hf' by (by apply fits_step). rewrite (drawn_shown f t s' Hf').
  assert (v_warning (render f t s') = blocked f) as -> by done. unfold s'. cbn [step]. rewrite Hb. cbn [orb].
  destruct (blocked f) as [w|] eqn:Ew; [by right; split; [|right]|].
  unfold isValid. rewrite Ew, andb_true_r.
  destruct (forallb _ (problems f (values s))) eqn:Ev.
  - left. cbn [sent]. split.
    + f_equal. f_equal. destruct Hf as (H1 & H2 & H3). unfold render. cbn [v_fields values].
      set (ers := shown_errors f _). assert (length ers = length (validators f)) as He
        by (unfold ers, shown_errors, problems; cbn [values touched]; rewrite length_zip_with, length_zip_with; lia).
      revert H1 H2 He. generalize ers, (validators f), (t_fields t), (values s). clear. intros ers vs ts xs.
      revert vs ts ers. induction xs as [|x xs IH]; intros [|v vs] [|t ts] [|e ers] H1 H2 He; try done. cbn.
      f_equal. apply (IH vs ts ers); cbn in *; lia.
    + split; [|done]. rewrite (shown_submitted f t _) by done. by apply no_problem.
  - right. split; [done|]. left. rewrite (shown_submitted f t _) by done. cbn [values]. intros H%no_problem. by rewrite Ev in H.
Qed.

Notation demo_form := (CompleteForm ["acme"]).
Notation demo_typing := [Change 0 long_address; Change 1 " acme "; Submit; Change 2 "42"].

Lemma form_tells_why_witness :
  let s := fold_left (step demo_form) demo_typing (initial demo_form) in
  let s' := step demo_form s Submit in
  busy s = false ∧
  ((sent s' = sent s ++ [trim ∘ f_value <$> v_fields (render demo_form complete_texts s')] ∧
    drawn (render demo_form complete_texts s') = [] ∧ v_warning (render demo_form complete_texts s') = None) ∨
   (sent s' = sent s ∧ (drawn (render demo_form complete_texts s') ≠ [] ∨ is_Some (v_warning (render demo_form complete_texts s'))))).
Proof.
  intros s s'. assert (busy s = false) as Hb by (by vm_compute). split; [done|].
  exact (form_tells_why demo_form complete_texts demo_typing eq_refl Hb).
Defined.

End TxFormScreen.

(** ** The registration of an organisation *)

Module WizardScreen.
Import Wizard.

(** The bar over the steps: for each its number or a check mark, its name, whether it is the
    current one. *)
Definition StepBar (current : Z) : list (string * string * bool) :=
  (λ s, (if s <? current then "✓" else pretty s, stepLabel s, s =? current)) <$> [1; 2; 3; 4].

(** What the first step says of the name: nothing, a status or an alert. *)
Definition statusMsg (orgId : string) (g : GithubCheckStatus) : option (string * bool) :=
  match g with
  | idle => None
  | checking => Some ("Checking GitHub…", false)
  | found => Some ("✓ " +:+ quoted orgId +:+ " exists on GitHub", false)
  | not_found => Some ("✗ No GitHub organisation named " +:+ quoted orgId, true)
  | failed => Some ("Could not reach GitHub — please try again", true)
  end.

Record review := mkReview { rv_org : string; rv_maintainers : list string; rv_cap : Z; rv_key : string }.

Inductive panel :=
  | LookupPanel (value : string) (hint : option (string * bool)) (next_disabled : bool)
  | MaintainersPanel (value error : string) (listed : list string) (next_disabled : bool)
  | CapPanel (value : Z) (error impact : string) (next_disabled : bool)
  | ReviewPanel (r : review) (error : option string) (busy : bool).

Definition Step1 (orgId : string) (status : GithubCheckStatus) : panel :=
  LookupPanel orgId (statusMsg orgId status) (match status with found => false | _ => true end).
Definition Step2 (input error : string) (maintainers : list string) : panel :=
  MaintainersPanel input error maintainers (match maintainers with [] => true | _ => false end).
Definition Step3 (cap : Z) (error : string) : panel :=
  CapPanel cap error (capDescription cap) (negb (String.eqb error "")).
Definition Step4 (orgId : string) (maintainers : list string) (cap : Z) (apiKey : string) (submitting : bool)
    (submitError : option string) : panel :=
  ReviewPanel (mkReview orgId maintainers cap (masked apiKey)) (filled submitError) submitting.

Inductive view :=
  | KeyForm (error : string)
  | Steps (bar : list (string * string * bool)) (p : option panel).

Definition render (s : wizard) : view :=
  if negb (authenticated s) then KeyForm (keyError s)
  else Steps (StepBar (step_no s))
    (if step_no s =? 1 then Some (Step1 (orgId s) (githubStatus s))
     else if step_no s =? 2 then Some (Step2 (input s) (addError s) (maintainers s))
     else if step_no s =? 3 then Some (Step3 (cap s) (capError s))
     else if step_no s =? 4 then
       Some (Step4 (orgId s) (maintainers s) (cap s) (apiKey s) (submitting s) (submitError s))
     else None).

(** The organisation a body registers. *)
Definition registered (r : review) : json :=
  obj [("org_id", Some (JStr (rv_org r))); ("maintainers", Some (JArr (JStr <$> rv_maintainers r)));
       ("cap", Some (jint (rv_cap r)))].

Definition is_answer (e : event) : bool := match e with Answer _ => true | _ => false end.

(** While a registration is on its way the wizard stays at the review, with the same data. *)
Definition frozen (s0 s : wizard) : Prop :=
  submitting s = true ∧ step_no s = 4 ∧ orgId s = orgId s0 ∧ maintainers s = maintainers s0 ∧ cap s = cap s0.

Lemma frozen_step s0 s e : is_answer e = false → frozen s0 s → frozen s0 (step s e).
Proof.
  intros He (H1 & H2 & H3 & H4 & H5).
  assert (∀ n, n ≠ 4 → on n s = false) as Hon.
  { intros n Hn. unfold on. rewrite H2. apply andb_false_iff. right. by apply Z.eqb_neq. }
  destruct e as [|k| |v| |i g|v| |a|raw| | | |r]; cbn [step]; rewrite ?Hon by done; try done.
  - by destruct (authenticated s).
  - destruct (authenticated s); [done|]. unfold handleSaveKey. by destruct (String.eqb _ _).
  - by destruct (authenticated s).
  - by destruct (timer s).
  - by destruct (checks s !! i) as [[?|]|].
  - unfold can_go_on. rewrite H2. cbn. by rewrite andb_false_r.
  - rewrite H1, H2. cbn. by rewrite andb_false_r.
  - rewrite H1. by rewrite andb_false_r.
Qed.

(** What is registered is what was reviewed: the request that a click on the last button sends
    holds exactly the organisation, the maintainers and the cap that are drawn, and until its
    answer comes, whatever else is clicked, typed and comes back, the page shows either that
    same review or, after its key was cleared, the form for a key. *)
Theorem reviewed_is_registered st es es' bar r er :
  let s := history st es in
  render s = Steps bar (Some (ReviewPanel r er false)) → Forall (λ e, is_answer e = false) es' →
  body s = registered r ∧ submitting (step s Submit) = true ∧
  match render (fold_left step es' (step s Submit)) with
  | KeyForm _ => True
  | Steps _ (Some (ReviewPanel r' _ busy)) => busy = true ∧ registered r' = body s
  | _ => False
  end.
Proof.
  intros s Hr He. assert (authenticated s = true ∧ step_no s = 4 ∧ submitting s = false ∧
    r = mkReview (orgId s) (maintainers s) (cap s) (masked (apiKey s))) as (Ha & Hs & Hb & ->).
  { unfold render in Hr. destruct (authenticated s); [|done]. cbn [negb] in Hr.
    destruct (step_no s =? 1); [done|]. destruct (step_no s =? 2); [done|]. destruct (step_no s =? 3); [done|].
    destruct (Z.eqb_spec (step_no s) 4); [|done]. by injection Hr. }
  split; [done|]. assert (step s Submit = with_submission true None (location s) s) as Hsub.
  { cbn [step]. unfold on. by rewrite Ha, Hs, Hb. }
  rewrite Hsub. split; [done|]. assert (frozen s (fold_left step es' (with_submission true None (location s) s))) as H.
  { assert (frozen s (with_submission true None (location s) s)) as H0 by (by unfold frozen; cbn).
    revert H0. generalize (with_submission true None (location s) s). clear -He.
    induction He as [|e es' He Hes IH]; intros s0 H0; [done|]. by apply IH, frozen_step. }
  destruct H as (H1 & H2 & H3 & H4 & H5). unfold render. destruct (negb _); [done|]. rewrite H2. cbn.
  split; [done|]. unfold registered, body. cbn. by rewrite H3, H4, H5.
Qed.

(** Whether the button to the next step can be clicked. *)
Definition next_enabled (v : view) : bool :=
  match v with
  | Steps _ (Some (LookupPanel _ _ d | MaintainersPanel _ _ _ d | CapPanel _ _ _ d)) => negb d
  | _ => false
  end.

(** The button to the next step can be clicked exactly where the wizard goes on. *)
Theorem next_button_goes_on s : step_no (step s Next) = step_no s + (if next_enabled (render s) then 1 else 0).
Proof.
  assert (next_enabled (render s) = authenticated s && can_go_on s) as H.
  { unfold render, can_go_on. destruct (authenticated s); [cbn [negb next_enabled andb]|done].
    destruct (step_no s =? 1); [by destruct (githubStatus s)|]. destruct (step_no s =? 2); [by destruct (maintainers s)|].
    destruct (step_no s =? 3); [cbn; by rewrite negb_involutive|]. by destruct (step_no s =? 4). }
  rewrite H. cbn [step]. destruct (authenticated s && can_go_on s); cbn; lia.
Qed.

(** The step after a name is open as soon as any check of any name has succeeded: a page that
    waits for the check of another name, or has none, says that it exists. *)
Theorem stale_name_found :
  render (history (setItem admin_key "k" ∅) [TypeOrg "stellar"; TimerFires; TypeOrg ""; CheckSettles 0 found]) =
    Steps (StepBar 1) (Some (LookupPanel "" (Some ("✓ " +:+ quoted "" +:+ " exists on GitHub", false)) false)).
Proof. by vm_compute. Qed.

Notation demo_steps := [TypeOrg "stellar"; TimerFires; CheckSettles 0 found; Next; TypeAddress long_address; Add; Next;
  TypeCap "5"; Next].

Lemma reviewed_is_registered_witness :
  let s := history (setItem admin_key "k" ∅) demo_steps in
  let r := mkReview "stellar" [long_address] 5 (masked "k") in
  render s = Steps (StepBar 4) (Some (ReviewPanel r None false)) ∧ body s = registered r ∧ submitting (step s Submit) = true ∧
  match render (fold_left step [Back; TypeOrg "evil"; ClearKey; SaveKey "k2"] (step s Submit)) with
  | KeyForm _ => True
  | Steps _ (Some (ReviewPanel r' _ busy)) => busy = true ∧ registered r' = body s
  | _ => False
  end.
Proof.
  intros s r. assert (render s = Steps (StepBar 4) (Some (ReviewPanel r None false))) as Hr by (by vm_compute).
  split; [exact Hr|]. apply (reviewed_is_registered _ _ _ _ _ _ Hr). repeat constructor.
Defined.

End WizardScreen.

(** ** The administration of maintainers *)

Module ManagementScreen.
Import OrgManagement.

Inductive list_area := ListLoading | NoMaintainers | Maintainers (l : list json).

Inductive view :=
  | AccessDenied
  | Form (admin : string) (org : string) (org_problem : option string) (address : string) (address_problem : option string)
      (button : string) (disabled : bool) (status : option (string * string)) (l : list_area).

Definition render (wallet admin : string) (s : state) : view :=
  if negb (isAdmin wallet admin) then AccessDenied
  else Form (slice_to 8 admin +:+ "...") (orgId s) (orgError s) (maintainerAddress s) (addressError s)
    (if isSubmitting s then "Registering Maintainer on-chain..." else "Register Maintainer") (negb (canSubmit s))
    (statusMessage s)
    (if isLoadingList s then ListLoading else match maintainers s with [] => NoMaintainers | l => Maintainers l end).

(** A click on the button, if it can be clicked, registers the two values on the form. *)
Theorem enabled_button_registers wallet admin s a o op adr adp b st l :
  render wallet admin s = Form a o op adr adp b false st l →
  op = None ∧ adp = None ∧ registrations (handleSubmit s) = registrations s ++ [(adr, o)] ∧
  isSubmitting (handleSubmit s) = true.
Proof.
  unfold render. destruct (negb (isAdmin wallet admin)); [done|]. intros [= <- <- <- <- <- <- Hc <- <-].
  apply negb_false_iff in Hc. unfold canSubmit in Hc.
  apply andb_true_iff in Hc as [[[[[H1 H2]%andb_true_iff H3]%andb_true_iff H4]%andb_true_iff H5]%andb_true_iff H6].
  destruct (addressError s); [done|]. destruct (orgError s); [done|]. apply negb_true_iff in H5.
  unfold handleSubmit. rewrite H6, H5. by cbn.
Qed.

Notation demo_entry := (handleOrgIdChange "acme" (handleMaintainerAddressChange long_address initial)).

Lemma enabled_button_registers_witness :
  ∃ a st l, render "ga" "GA" demo_entry = Form a "acme" None long_address None "Register Maintainer" false st l ∧
    registrations (handleSubmit demo_entry) = [(long_address, "acme")].
Proof.
  destruct (render "ga" "GA" demo_entry) as [|a o op adr adp b d st l] eqn:E; [vm_compute in E; discriminate|].
  assert (d = false ∧ o = "acme" ∧ adr = long_address ∧ op = None ∧ adp = None ∧ b = "Register Maintainer")
    as (-> & -> & -> & -> & -> & ->).
  { assert (Form a o op adr adp b d st l = render "ga" "GA" demo_entry) as E' by (by symmetry). clear E. vm_compute in E'.
    injection E'; intros; subst. by vm_compute. }
  destruct (enabled_button_registers _ _ _ _ _ _ _ _ _ _ _ E) as (_ & _ & H & _).
  exists a, st, l. split; [done|exact H].
Defined.

End ManagementScreen.
