(* ===== verification/ContractPage.v ===== *)
(** * The maintainer page on screen

    [pages/MaintainerPage.tsx] as a state machine over the calls it has in flight: what it draws
    of the state [Page] of Maintainer, its tabs, pagers and dialog, and what happens when more
    than one action is on its way.  One action at a time the machine does what the handlers of
    Maintainer do. *)

From Stdlib Require Import String.
From S2P Require Import Prelude Js Url Http Paging Browser Client Maintainer.

#[local] Open Scope string_scope.
#[local] Open Scope list_scope.
#[local] Open Scope Z_scope.

Module PageScreen.
Import Page.

Inductive TabId := applications_tab | assignments_tab.
Inductive kind := assign | complete | revoke.

(** What an [async] function waits for: the call of its action, the two lists, nothing more. *)
Inductive stage := Calling | Listing | Done.

#[export] Instance kind_eq_dec : EqDecision kind.
Proof. solve_decision. Defined.
#[export] Instance stage_eq_dec : EqDecision stage.
Proof. solve_decision. Defined.
#[export] Instance contract_row_eq_dec : EqDecision ContractRow.
Proof. solve_decision. Defined.

(** A call of a handler, or of the effect that loads the lists ([None]). *)
Record job := mkJob { what : option (kind * ContractRow); at_stage : stage }.

#[export] Instance job_eq_dec : EqDecision job.
Proof. solve_decision. Defined.

Record screen := mkScreen {
  check : component (string * option string) (outcome bool) Role.check;
  tab : TabId;
  on : page;
  jobs : list job;
}.

Definition authorized (s : screen) : bool := Role.checked (Client.shown (check s)).

(** *** What is drawn *)

Record row := mkDrawn { r_contributor : string; r_issue : string; r_buttons : list (string * bool) }.

Definition is_busy (s : page) (r : ContractRow) : bool := bool_decide (busy s = Some (issue_id r)).

Definition draw_row (t : TabId) (s : page) (r : ContractRow) : row :=
  let b := is_busy s r in
  mkDrawn (truncAddr (contributor r)) (issue_id r)
    match t with
    | applications_tab => [(if b then "…" else "Assign", b)]
    | assignments_tab => [(if b then "…" else "Complete", b); ("Revoke", b)]
    end.

Definition slice (t : TabId) (s : page) : list ContractRow :=
  match t with applications_tab => appSlice s | assignments_tab => asnSlice s end.

Definition tab_page (t : TabId) (s : page) : Z :=
  match t with applications_tab => appPage s | assignments_tab => asnPage s end.

Definition tab_total (t : TabId) (s : page) : Z :=
  Z.of_nat (length (match t with applications_tab => applications s | assignments_tab => assignments s end)).

Definition tab_pager (t : TabId) (s : page) : option pager := Pagination (tab_page t s) (tab_total t s).

Inductive area :=
  | AreaLoading
  | Table (empty : option string) (rows : list row) (pager_of : option (string * pager)).

Definition empty_text (t : TabId) : string :=
  match t with applications_tab => "No pending applications" | assignments_tab => "No active assignments" end.

Definition area_of (t : TabId) (s : page) : area :=
  if loading s then AreaLoading
  else Table (match slice t s with [] => Some (empty_text t) | _ => None end) (draw_row t s <$> slice t s)
    ((λ p, (pretty (tab_page t s) +:+ " / " +:+ pretty (pages (tab_total t s) PAGE_SIZE), p)) <$> tab_pager t s).

Definition question (r : ContractRow) : string :=
  "Revoke assignment for issue " +:+ issue_id r +:+ " from " +:+ truncAddr (contributor r) +:+ "? This cannot be undone.".

Inductive view :=
  | Nothing
  | Drawn (problem : option string) (t : TabId) (counts : Z * Z) (a : area) (dialog : option string).

Definition render (s : screen) : view :=
  if authorized s then
    Drawn (filled (error (on s))) (tab s) (tab_total applications_tab (on s), tab_total assignments_tab (on s))
      (area_of (tab s) (on s)) (question <$> revokeTarget (on s))
  else Nothing.

(** *** What happens *)

Inductive event :=
  | Checked (i : nat) (o : outcome bool)
  | ClickTab (t : TabId)
  | ClickAct (k : kind) (n : nat)        (** a button of the [n]-th row that is drawn *)
  | ClickCancel | ClickConfirm           (** the dialog *)
  | ClickPrev | ClickNext
  | Acted (i : nat) (o : outcome unit)
  | Listed (i : nat) (o : outcome (list ContractRow * list ContractRow)).

Section screen.
Variables (org_id : string) (publicKey : option string).

Definition open_screen : screen :=
  mkScreen (Client.step Role.useMaintainerCheck (Client.mount (Role.mkCheck false 0)) (Render (org_id, publicKey)))
    applications_tab (mkPage [] [] false None None 1 1 None) [].

Definition with_page (p : page) (s : screen) : screen := mkScreen (check s) (tab s) p (jobs s).
Definition with_jobs (js : list job) (s : screen) : screen := mkScreen (check s) (tab s) (on s) js.

(** The dialog is modal: while it is open, and while the lists load, no row can be clicked. *)
Definition table (s : screen) : list ContractRow :=
  match authorized s && negb (loading (on s)), revokeTarget (on s) with
  | true, None => slice (tab s) (on s)
  | _, _ => []
  end.

(** Which buttons the rows of a tab have. *)
Definition offers (t : TabId) (k : kind) : bool :=
  match t, k with
  | applications_tab, assign | assignments_tab, (complete | revoke) => true
  | _, _ => false
  end.

(** A handler up to the call of the contract. *)
Definition begin (k : kind) (r : ContractRow) (close : page → page) (s : screen) : screen :=
  match filled publicKey with
  | None => s
  | Some _ => mkScreen (check s) (tab s) (close (set_busy (Some (issue_id r)) (on s)))
                (jobs s ++ [mkJob (Some (k, r)) Calling])
  end.

(** [load] up to the calls of the contract. *)
Definition start_load (p : page) : page := set_error None (set_loading true p).

Definition failed (k : kind) : string :=
  match k with assign => "Assign failed" | complete => "Complete failed" | revoke => "Revoke failed" end.

Definition set_tab_page (t : TabId) (n : Z) (s : page) : page :=
  mkPage (applications s) (assignments s) (loading s) (error s) (busy s)
    (match t with applications_tab => n | assignments_tab => appPage s end)
    (match t with applications_tab => asnPage s | assignments_tab => n end) (revokeTarget s).

(** A pager can be clicked where it is drawn. *)
Definition pager_on (s : screen) : option pager :=
  match authorized s && negb (loading (on s)), revokeTarget (on s) with
  | true, None => tab_pager (tab s) (on s)
  | _, _ => None
  end.

Definition step (s : screen) (e : event) : screen :=
  match e with
  | Checked i o =>
      let c := Client.step Role.useMaintainerCheck (check s) (Reply i o) in
      let s' := mkScreen c (tab s) (on s) (jobs s) in
      if negb (authorized s) && authorized s'
      then mkScreen c (tab s) (start_load (on s)) (jobs s ++ [mkJob None Listing])
      else s'
  | ClickTab t =>
      match authorized s, revokeTarget (on s) with
      | true, None => mkScreen (check s) t (on s) (jobs s)
      | _, _ => s
      end
  | ClickAct k n =>
      match table s !! n with
      | Some r =>
          if offers (tab s) k && negb (is_busy (on s) r) then
            match k with
            | revoke => with_page (set_target (Some r) (on s)) s
            | _ => begin k r id s
            end
          else s
      | None => s
      end
  | ClickCancel => with_page (set_target None (on s)) s
  | ClickConfirm =>
      match revokeTarget (on s) with
      | Some r => begin revoke r (set_target None) s
      | None => s
      end
  | ClickPrev =>
      match pager_on s with
      | Some p => if prev_disabled p then s else with_page (set_tab_page (tab s) (tab_page (tab s) (on s) - 1) (on s)) s
      | None => s
      end
  | ClickNext =>
      match pager_on s with
      | Some p => if next_disabled p then s else with_page (set_tab_page (tab s) (tab_page (tab s) (on s) + 1) (on s)) s
      | None => s
      end
  | Acted i o =>
      match jobs s !! i with
      | Some (mkJob (Some (k, r)) Calling) =>
          match o with
          | Ret _ => mkScreen (check s) (tab s) (start_load (on s)) (<[i := mkJob (Some (k, r)) Listing]> (jobs s))
          | Throw e =>
              mkScreen (check s) (tab s) (set_busy None (set_error (Some (error_message (failed k) e)) (on s)))
                (<[i := mkJob (Some (k, r)) Done]> (jobs s))
          end
      | _ => s
      end
  | Listed i o =>
      match jobs s !! i with
      | Some (mkJob w Listing) =>
          let p := set_loading false
                     (match o with
                      | Ret r => set_lists r.1 r.2 (on s)
                      | Throw e => set_error (Some (error_message "Failed to load data" e)) (on s)
                      end) in
          mkScreen (check s) (tab s) (match w with Some _ => set_busy None p | None => p end)
            (<[i := mkJob w Done]> (jobs s))
      | _ => s
      end
  end.

Definition after (es : list event) : screen := fold_left step es open_screen.

End screen.

(** *** What is in flight *)

Lemma elem_of_update {A} (l : list A) i j j' x : l !! i = Some j → x ≠ j → x ∈ l → x ∈ <[i := j']> l.
Proof.
  intros Hi Hx (k & Hk)%list_elem_of_lookup. apply list_elem_of_lookup. exists k.
  destruct (decide (i = k)) as [->|Hn]; [congruence|by rewrite list_lookup_insert_ne].
Qed.

Lemma elem_of_updated {A} (l : list A) i j j' : l !! i = Some j → j' ∈ <[i := j']> l.
Proof. intros Hi. apply list_elem_of_insert. by eapply lookup_lt_Some. Qed.

(** The lists load only while a job waits for them, a row is busy only while its own job runs. *)
Definition in_flight (p : page) (js : list job) : Prop :=
  (loading p = true → ∃ w, mkJob w Listing ∈ js) ∧
  (∀ k, busy p = Some k → ∃ a r stg, mkJob (Some (a, r)) stg ∈ js ∧ stg ≠ Done ∧ issue_id r = k).

Lemma in_flight_same p p' js : loading p' = loading p → busy p' = busy p → in_flight p js → in_flight p' js.
Proof. intros H1 H2. unfold in_flight. by rewrite H1, H2. Qed.

Lemma in_flight_more p js j : in_flight p js → in_flight p (js ++ [j]).
Proof.
  intros [H1 H2]. split.
  - intros (w & Hw)%H1. exists w. set_solver.
  - intros k (a & r & stg & Hin & ?)%H2. exists a, r, stg. split; [set_solver|done].
Qed.

(** A handler or a load begins. *)
Lemma in_flight_begin p js k r : in_flight p js →
  in_flight (set_busy (Some (issue_id r)) p) (js ++ [mkJob (Some (k, r)) Calling]).
Proof.
  intros [H1 H2]. split; cbn.
  - intros (w & Hw)%H1. exists w. set_solver.
  - intros _ [= <-]. exists k, r, Calling. split; [set_solver|done].
Qed.

Lemma in_flight_load p js w : in_flight p js → mkJob w Listing ∈ js → in_flight (start_load p) js.
Proof. intros [_ H2] Hw. split; [by exists w|exact H2]. Qed.

(** The job [i] goes from a stage to the next, or ends. *)
Lemma in_flight_called p js i k r : js !! i = Some (mkJob (Some (k, r)) Calling) → in_flight p js →
  in_flight (start_load p) (<[i := mkJob (Some (k, r)) Listing]> js).
Proof.
  intros Hi [_ H2]. split; [intros _; eexists; by eapply elem_of_updated|].
  intros key (a & r' & stg & Hin & Hs & <-)%H2.
  destruct (decide (mkJob (Some (a, r')) stg = mkJob (Some (k, r)) Calling)) as [[= -> -> ->]|Hn].
  - exists k, r, Listing. split; [by eapply elem_of_updated|done].
  - exists a, r', stg. split; [by eapply elem_of_update|done].
Qed.

Lemma in_flight_end p p' js i w stg : js !! i = Some (mkJob w stg) → in_flight p js →
  (loading p' = true → loading p = true ∧ stg ≠ Listing) → (∀ k, busy p' = Some k → busy p = Some k ∧ w = None) →
  in_flight p' (<[i := mkJob w Done]> js).
Proof.
  intros Hi [H1 H2] Hl Hb. split.
  - intros [(w' & Hw)%H1 Hs]%Hl. exists w'. eapply elem_of_update; [done| |done]. congruence.
  - intros k [(a & r & stg' & Hin & ?)%H2 ->]%Hb. exists a, r, stg'. split; [|done]. by eapply elem_of_update.
Qed.

Section runs.
Variables (org_id : string) (publicKey : option string).
Notation step := (step publicKey).

Lemma authorized_stays s e : authorized s = true → authorized (step s e) = true.
Proof.
  unfold authorized. intros Ha. destruct e as [i o|t|k n| | | | |i o|i o]; cbn [step PageScreen.step].
  - assert (Role.checked (Client.shown (Client.step Role.useMaintainerCheck (check s) (Reply i o))) = true) as H.
    { cbn [Client.step]. destruct (Client.runs (check s) !! i) as [[p [] []]|]; try done; by destruct o as [[]|]. }
    unfold authorized. cbn [check]. by rewrite Ha.
  - by destruct (authorized s), (revokeTarget (on s)).
  - destruct (table s !! n) as [r|]; [|done]. destruct (_ && _); [|done].
    destruct k; unfold begin; by destruct (filled publicKey).
  - done.
  - destruct (revokeTarget (on s)); [|done]. unfold begin. by destruct (filled publicKey).
  - destruct (pager_on s); [|done]. by destruct (prev_disabled _).
  - destruct (pager_on s); [|done]. by destruct (next_disabled _).
  - destruct (jobs s !! i) as [[[[k r]|] []]|]; try done. by destruct o.
  - by destruct (jobs s !! i) as [[w []]|].
Qed.

Lemma in_flight_step s e : in_flight (on s) (jobs s) → in_flight (on (step s e)) (jobs (step s e)).
Proof.
  intros H. destruct e as [i o|t|k n| | | | |i o|i o]; cbn [step PageScreen.step].
  - destruct (_ && _); [|done]. apply in_flight_load with (w := None); [by apply in_flight_more|set_solver].
  - by destruct (authorized s), (revokeTarget (on s)).
  - destruct (table s !! n) as [r|]; [|done]. destruct (_ && _); [|done]. unfold begin.
    destruct k, (filled publicKey); try done; by apply in_flight_begin.
  - by apply (in_flight_same (on s)).
  - destruct (revokeTarget (on s)) as [r|]; [|done]. unfold begin. destruct (filled publicKey); [|done].
    by apply (in_flight_same (set_busy (Some (issue_id r)) (on s))), in_flight_begin.
  - destruct (pager_on s); [|done]. by destruct (prev_disabled _).
  - destruct (pager_on s); [|done]. by destruct (next_disabled _).
  - destruct (jobs s !! i) as [[[[k r]|] []]|] eqn:Ei; try done.
    destruct o; [by apply in_flight_called|]. eapply in_flight_end; [done|exact H| |done]. by intros.
  - destruct (jobs s !! i) as [[w []]|] eqn:Ei; try done. eapply in_flight_end; [done|exact H| |].
    + by destruct w.
    + intros key. destruct w; [done|]. by destruct o.
Qed.

(** *** Where the rows come from *)

(** An answer has listed the row where the action is offered. *)
Definition listed (es : list event) (k : kind) (r : ContractRow) : Prop :=
  ∃ i a b, Listed i (Ret (a, b)) ∈ es ∧ r ∈ match k with assign => a | _ => b end.

Record origin (es : list event) (p : page) (js : list job) : Prop := {
  o_apps : Forall (listed es assign) (applications p);
  o_asns : Forall (listed es complete) (assignments p);
  o_target : ∀ r, revokeTarget p = Some r → listed es revoke r;
  o_jobs : Forall (λ j, match what j with Some (k, r) => listed es k r | None => True end) js;
}.

Lemma listed_more es es' k r : listed es k r → listed (es ++ es') k r.
Proof. intros (i & a & b & ? & ?). exists i, a, b. split; [set_solver|done]. Qed.

Lemma origin_more es es' p js : origin es p js → origin (es ++ es') p js.
Proof.
  intros [H1 H2 H3 H4]. split.
  - eapply Forall_impl; [exact H1|]. intros; by apply listed_more.
  - eapply Forall_impl; [exact H2|]. intros; by apply listed_more.
  - intros r Hr. by apply listed_more, H3.
  - eapply Forall_impl; [exact H4|]. intros [[[k r]|] stg] Hj; [by apply listed_more|done].
Qed.

Lemma origin_same es p p' js : applications p' = applications p → assignments p' = assignments p →
  (∀ r, revokeTarget p' = Some r → revokeTarget p = Some r) → origin es p js → origin es p' js.
Proof. intros E1 E2 E3 [H1 H2 H3 H4]. split; rewrite ?E1, ?E2; auto. Qed.

Lemma origin_job es p js i w stg stg' : js !! i = Some (mkJob w stg) → origin es p js →
  origin es p (<[i := mkJob w stg']> js).
Proof.
  intros Hi [H1 H2 H3 H4]. split; [done..|]. apply Forall_insert; [done|].
  exact (proj1 (Forall_lookup _ _) H4 i _ Hi).
Qed.

Lemma table_listed es s k n r : origin es (on s) (jobs s) → table s !! n = Some r → offers (tab s) k = true →
  listed es k r.
Proof.
  intros [H1 H2 _ _] Hn Hk. unfold table in Hn. destruct (_ && _); [|done]. destruct (revokeTarget (on s)); [done|].
  rewrite Forall_forall in H1, H2. unfold slice in Hn.
  destruct (tab s), k; try done; [apply H1|apply H2|apply H2]; by eapply window_lookup_in.
Qed.

Lemma origin_begin es p close js k r : origin es p js → listed es k r →
  (∀ q, applications (close q) = applications q ∧ assignments (close q) = assignments q ∧
        ∀ x, revokeTarget (close q) = Some x → revokeTarget q = Some x) →
  origin es (close (set_busy (Some (issue_id r)) p)) (js ++ [mkJob (Some (k, r)) Calling]).
Proof.
  intros H Hr Hc. destruct (Hc (set_busy (Some (issue_id r)) p)) as (E1 & E2 & E3).
  eapply origin_same; [exact E1|exact E2|exact E3|]. destruct H as [H1 H2 H3 H4]. split; [done..|].
  apply Forall_app. split; [done|]. by apply Forall_singleton.
Qed.

Lemma origin_job_more es p js : origin es p js → origin es p (js ++ [mkJob None Listing]).
Proof. intros [H1 H2 H3 H4]. split; [done..|]. apply Forall_app. split; [done|]. by apply Forall_singleton. Qed.

Lemma origin_lists es p js i a b : Listed i (Ret (a, b)) ∈ es → origin es p js → origin es (set_lists a b p) js.
Proof.
  intros Hin [H1 H2 H3 H4]. split; [| |done..]; apply Forall_forall; intros r Hr; exists i, a, b; by split.
Qed.

Lemma origin_step es s e : origin es (on s) (jobs s) → origin (es ++ [e]) (on (step s e)) (jobs (step s e)).
Proof.
  intros H0. pose proof (origin_more es [e] _ _ H0) as H.
  assert (∀ q, applications q = applications (on s) → assignments q = assignments (on s) →
    revokeTarget q = revokeTarget (on s) → origin (es ++ [e]) q (jobs s)) as Hs.
  { intros q E1 E2 E3. eapply origin_same; [exact E1|exact E2| |exact H]. intros r. by rewrite E3. }
  destruct e as [i o|t|k n| | | | |i o|i o]; cbn [step PageScreen.step].
  - destruct (_ && _); [|done]. by apply origin_job_more, Hs.
  - by destruct (authorized s), (revokeTarget (on s)).
  - destruct (table s !! n) as [r|] eqn:Et; [|done]. destruct (_ && _) eqn:Eo; [|done].
    apply andb_true_iff in Eo as [Eo _]. pose proof (table_listed _ _ _ _ _ H Et Eo) as Hr.
    destruct k; unfold begin; [destruct (filled publicKey); [|done]; by apply (origin_begin _ _ id)..|].
    destruct H as [H1 H2 H3 H4]. split; [done|done| |done]. by intros r' [= <-].
  - by eapply origin_same; [..|exact H].
  - destruct (revokeTarget (on s)) as [r|] eqn:Er; [|done]. unfold begin. destruct (filled publicKey); [|done].
    apply origin_begin; [exact H|by apply (o_target _ _ _ H)|done].
  - destruct (pager_on s); [|done]. destruct (prev_disabled _); [done|]. by apply Hs.
  - destruct (pager_on s); [|done]. destruct (next_disabled _); [done|]. by apply Hs.
  - destruct (jobs s !! i) as [[[[k r]|] []]|] eqn:Ei; try done.
    destruct o; cbn [on jobs]; (eapply origin_job; [done|]); by apply Hs.
  - destruct (jobs s !! i) as [[w []]|] eqn:Ei; try done. cbn [on jobs]. eapply origin_job; [done|].
    destruct o as [[a b]|x]; [|by destruct w; apply Hs].
    eapply (origin_same _ (set_lists a b (on s))); [by destruct w..|].
    apply (origin_lists _ _ _ i); [set_solver|exact H].
Qed.

(** Nothing runs, and no dialog is open, before the wallet was let in. *)
Definition gated (s : screen) : Prop := authorized s = false → jobs s = [] ∧ revokeTarget (on s) = None.

Lemma gated_step s e : gated s → gated (step s e).
Proof.
  intros H Ha'. destruct (authorized s) eqn:Ha; [by rewrite (authorized_stays s e Ha) in Ha'|].
  destruct (H Ha) as [Hj Ht]. revert Ha'.
  destruct e as [i o|t|k n| | | | |i o|i o]; cbn [step PageScreen.step]; unfold table, pager_on;
    rewrite ?Ha, ?Hj, ?Ht, ?lookup_nil; cbn [negb andb]; rewrite ?lookup_nil; try done.
  set (c := Client.step _ _ _). unfold authorized. cbn [check].
  destruct (Role.checked (Client.shown c)) eqn:E; cbn [check jobs on]; by rewrite ?E, ?Ht.
Qed.

Definition sound (es : list event) (s : screen) : Prop :=
  in_flight (on s) (jobs s) ∧ origin es (on s) (jobs s) ∧ gated s.

Lemma sound_after es : sound es (after org_id publicKey es).
Proof.
  unfold after. induction es as [|e es IH] using rev_ind.
  - unfold open_screen. split_and!.
    + by split.
    + by split.
    + by intros _.
  - rewrite fold_left_app. destruct IH as (H1 & H2 & H3). split_and!.
    + by apply in_flight_step.
    + by apply origin_step.
    + by apply gated_step.
Qed.

(** C23: Whatever is clicked on the maintainer page and whatever comes back: a call of the contract is
    only made by a wallet that was let in, for a row that an answer has listed under the tab that
    offers the action. When every call has settled, nothing is said to be loading and every
    button of every row can be clicked. *)
Theorem page_calls_listed_rows es :
  let s := after org_id publicKey es in
  (∀ j k r, j ∈ jobs s → what j = Some (k, r) → authorized s = true ∧ listed es k r) ∧
  (authorized s = true → Forall (λ j, at_stage j = Done) (jobs s) →
   ∃ err t n empty rows pg d, render s = Drawn err t n (Table empty rows pg) d ∧
     Forall (λ r, Forall (λ b, b.2 = false) (r_buttons r)) rows).
Proof.
  intros s. destruct (sound_after es : sound es s) as ([H1 H2] & Ho & Hg). split.
  - intros j k r Hj Hw. split.
    + destruct (authorized s) eqn:Ea; [done|]. destruct (Hg Ea) as [E _]. rewrite E in Hj. set_solver.
    + pose proof (o_jobs _ _ _ Ho) as Hf. rewrite Forall_forall in Hf. specialize (Hf j Hj). by rewrite Hw in Hf.
  - intros Ha Hd. rewrite Forall_forall in Hd.
    assert (loading (on s) = false) as Hl.
    { apply not_true_iff_false. intros (w & Hw%Hd)%H1. done. }
    assert (busy (on s) = None) as Hb.
    { destruct (busy (on s)) as [k|] eqn:E; [|done]. destruct (H2 k eq_refl) as (a & r & stg & Hin%Hd & Hn & _). done. }
    unfold render, area_of. rewrite Ha, Hl. repeat eexists. apply Forall_fmap, Forall_forall. intros r _. cbn.
    unfold is_busy. rewrite Hb. by destruct (tab s); repeat constructor.
Qed.

End runs.

(** *** One action at a time *)

Section handlers.
Context {C : Type} `{Page.Client C}.
Variable org_id : string.
Implicit Types w : world (site C).

(** What a call answers does not depend on what is drawn. *)
Lemma with_client_same {A} (f : C → outcome A * C) v v' c fs :
  let '(o, w) := with_client f (World (Site v c) fs) in
  with_client f (World (Site v' c) fs) = (o, World (Site v' (contract (st w))) (sched w)) ∧ Page.view (st w) = v.
Proof. unfold with_client, call. destruct c as [c|], fs as [|[|e|e] fs]; cbn; try done; by destruct (f c). Qed.

Lemma both_same v v' c fs :
  let '(o, w) := both org_id (World (Site v c) fs) in
  both org_id (World (Site v' c) fs) = (o, World (Site v' (contract (st w))) (sched w)) ∧ Page.view (st w) = v.
Proof.
  unfold both. unfold mbind, M_bind. rewrite !attempt_eq.
  pose proof (with_client_same (list_applications org_id) v v' c fs) as H1.
  destruct (with_client (list_applications org_id) (World (Site v c) fs)) as [o1 [[v1 c1] fs1]].
  destruct H1 as [-> Hv1]. cbn [fst snd st contract sched Page.view] in *. subst v1.
  pose proof (with_client_same (list_assignments org_id) v v' c1 fs1) as H2.
  destruct (with_client (list_assignments org_id) (World (Site v c1) fs1)) as [o2 [[v2 c2] fs2]].
  destruct H2 as [-> Hv2]. cbn [fst snd st contract sched Page.view] in *. subst v2. by destruct o1, o2.
Qed.

(** What the end of a load draws. *)
Definition end_load (o : outcome (list ContractRow * list ContractRow)) (p : page) : page :=
  set_loading false
    (match o with
     | Ret r => set_lists r.1 r.2 p
     | Throw e => set_error (Some (error_message "Failed to load data" e)) p
     end).

Lemma load_view v c fs :
  Page.view (st (load org_id true (World (Site v c) fs)).2) =
  end_load (both org_id (World (Site v c) fs)).1 (start_load v).
Proof.
  unfold load. unfold mbind, M_bind. rewrite !render_eq. cbn [st sched Page.view contract]. unfold try_catch. cbv beta.
  pose proof (both_same v (start_load v) c fs) as H1.
  destruct (both org_id (World (Site v c) fs)) as [o w] eqn:E. destruct H1 as [H1 _].
  unfold start_load in H1 |- *. rewrite H1. by destruct o.
Qed.

(** The action, and the call it makes. *)
Definition subject (a : page_action) (s : page) : option (kind * ContractRow) :=
  match a with
  | PAssign r => Some (assign, r)
  | PComplete r => Some (complete, r)
  | PRevoke => (λ r, (revoke, r)) <$> revokeTarget s
  end.

Definition call_of (k : kind) (r : ContractRow) (key : string) : C → outcome unit * C :=
  match k with
  | assign => assign_issue key (contributor r) org_id (issue_id r)
  | complete => complete_assignment key (contributor r) org_id (issue_id r)
  | revoke => revoke_assignment key (contributor r) org_id (issue_id r)
  end.

Definition closing (k : kind) : page → page := match k with revoke => set_target None | _ => id end.

Lemma act_view k r key v c fs :
  let '(o1, w1) := with_client (call_of k r key) (World (Site v c) fs) in
  let p := closing k (set_busy (Some (issue_id r)) v) in
  Page.view (st (act org_id true (failed k) (λ key, call_of k r key) r (closing k) key (World (Site v c) fs)).2) =
  set_busy None (match o1 with
                 | Ret _ => end_load (both org_id w1).1 (start_load p)
                 | Throw e => set_error (Some (error_message (failed k) e)) p
                 end).
Proof.
  unfold act. unfold mbind, M_bind. rewrite !render_eq. cbn [st sched Page.view contract]. unfold try_catch.
  set (p := closing k (set_busy (Some (issue_id r)) v)).
  pose proof (with_client_same (call_of k r key) v p c fs) as H1.
  destruct (with_client (call_of k r key) (World (Site v c) fs)) as [o1 [[v1 c1] fs1]].
  destruct H1 as [H1 Hv]. cbn in Hv. subst v1. fold p. rewrite H1. cbn [st contract sched].
  destruct o1 as [[]|e]; [|done].
  pose proof (load_view p c1 fs1) as Hl. pose proof (both_same v p c1 fs1) as Hb.
  destruct (both org_id (World (Site v c1) fs1)) as [o2 w2]. destruct Hb as [Hb _]. rewrite Hb in Hl. cbn [fst] in Hl |- *.
  destruct (load_spec org_id (World (Site p c1) fs1)) as (w' & Hw & _). rewrite Hw in Hl |- *. cbn [snd] in Hl.
  rewrite render_eq. cbn. by rewrite Hl.
Qed.

End handlers.

Definition click (a : page_action) (n : nat) : event :=
  match a with PAssign _ => ClickAct assign n | PComplete _ => ClickAct complete n | PRevoke => ClickConfirm end.

Definition can_click (a : page_action) (n : nat) (s : screen) : Prop :=
  match a with
  | PAssign r => table s !! n = Some r ∧ tab s = applications_tab ∧ is_busy (on s) r = false
  | PComplete r => table s !! n = Some r ∧ tab s = assignments_tab ∧ is_busy (on s) r = false
  | PRevoke => revokeTarget (on s) ≠ None
  end.

Lemma click_begins key a n s : filled key ≠ None → can_click a n s →
  ∃ k r, subject a (on s) = Some (k, r) ∧
    step key s (click a n) =
      mkScreen (check s) (tab s) (closing k (set_busy (Some (issue_id r)) (on s))) (jobs s ++ [mkJob (Some (k, r)) Calling]).
Proof.
  intros Hk Hc. destruct (filled key) as [k'|] eqn:Ek; [|done].
  destruct a as [r|r|]; cbn [can_click click subject step] in *.
  - destruct Hc as (-> & Ht & ->). exists assign, r. split; [done|]. unfold begin. by rewrite Ht, Ek.
  - destruct Hc as (-> & Ht & ->). exists complete, r. split; [done|]. unfold begin. by rewrite Ht, Ek.
  - destruct (revokeTarget (on s)) as [r|]; [|done]. exists revoke, r. split; [done|]. unfold begin. by rewrite Ek.
Qed.

Lemma handler_acts {C} `{Page.Client C} org key a k r (w : world (site C)) :
  filled (Some key) = Some key → subject a (Page.view (st w)) = Some (k, r) →
  (page_handler org (Some key) a w).2 = (act org true (failed k) (λ key, call_of org k r key) r (closing k) key w).2.
Proof.
  intros Hf Ha. destruct a as [r'|r'|]; cbn [subject page_handler] in *.
  - injection Ha as <- <-. unfold handleAssign, with_key. by rewrite Hf.
  - injection Ha as <- <-. unfold handleComplete, with_key. by rewrite Hf.
  - unfold handleRevokeConfirm, with_key. unfold_m. rewrite Hf. destruct (revokeTarget _) as [r'|] eqn:E; [|done].
    injection Ha as <- <-. by destruct w.
Qed.

(** One action at a time the page does what its handlers do: a click, then the answer of the
    contract, then that of the two lists, lead to what the handler draws when it runs to its
    end, whatever the contract answers and whatever fails. *)
Theorem one_at_a_time {C} `{Page.Client C} org key a n s (w : world (site C)) :
  key ≠ "" → Page.view (st w) = on s → can_click a n s →
  ∃ k r, subject a (on s) = Some (k, r) ∧
    let '(o1, w1) := with_client (call_of org k r key) w in
    let s' := fold_left (step (Some key))
                [click a n; Acted (length (jobs s)) o1; Listed (length (jobs s)) (both org w1).1] s in
    jobs s' = jobs s ++ [mkJob (Some (k, r)) Done] ∧
    on s' = Page.view (st (page_handler org (Some key) a w).2).
Proof.
  intros Hk Hv Hc. assert (filled (Some key) = Some key) as Hf by (by destruct key).
  destruct (click_begins (Some key) a n s) as (k & r & Hs & Hstep); [by rewrite Hf|done|].
  exists k, r. split; [done|]. rewrite <- Hv in Hs. pose proof (handler_acts org key a k r w Hf Hs) as Ha.
  rewrite Ha. destruct w as [[v c] fs]. cbn [Page.view st] in Hv. subst v.
  pose proof (act_view org k r key (on s) c fs) as Hact.
  destruct (with_client (call_of org k r key) (World (Site (on s) c) fs)) as [o1 w1]. rewrite Hact.
  cbn [fold_left]. rewrite Hstep. cbn [step jobs on check tab].
  assert (∀ (l : list job) x, (l ++ [x]) !! length l = Some x) as Hlast by (intros l x; by rewrite lookup_app_r, Nat.sub_diag).
  assert (∀ (l : list job) x y, <[length l := y]> (l ++ [x]) = l ++ [y]) as Hins
    by (intros l x y; by rewrite insert_app_r_alt, Nat.sub_diag).
  rewrite Hlast. destruct o1 as [[]|e]; cbn [jobs on check tab]; rewrite Hins, Hlast; cbn [jobs on]; [|done].
  by rewrite Hins.
Qed.

Lemma click_assign key n r s :
  filled key ≠ None → tab s = applications_tab → table s !! n = Some r → is_busy (on s) r = false →
  step key s (ClickAct assign n) =
    mkScreen (check s) (tab s) (set_busy (Some (issue_id r)) (on s)) (jobs s ++ [mkJob (Some (assign, r)) Calling]).
Proof. intros Hk Ht Hn Hb. by destruct (click_begins key (PAssign r) n s) as (k & r' & [= <- <-] & H). Qed.

(** Only the row of the last click is busy: after a click on another row, the first can be
    clicked again, and its call is made twice. *)
Theorem clicked_twice key n m a b s :
  filled key ≠ None → tab s = applications_tab → table s !! n = Some a → table s !! m = Some b →
  issue_id a ≠ issue_id b → busy (on s) = None →
  jobs (fold_left (step key) [ClickAct assign n; ClickAct assign m; ClickAct assign n] s) =
    jobs s ++ [mkJob (Some (assign, a)) Calling; mkJob (Some (assign, b)) Calling; mkJob (Some (assign, a)) Calling].
Proof.
  intros Hk Ht Ha Hb Hne Hbusy. cbn [fold_left].
  rewrite (click_assign key n a s) by (done || unfold is_busy; by rewrite Hbusy). set (s1 := mkScreen _ _ _ _).
  assert (table s1 = table s) as H1 by done. assert (tab s1 = tab s) as T1 by done.
  rewrite (click_assign key m b s1); [|done|by rewrite T1|by rewrite H1|by apply bool_decide_false; cbn; congruence].
  set (s2 := mkScreen _ _ _ _). assert (table s2 = table s) as H2 by done. assert (tab s2 = tab s) as T2 by done.
  rewrite (click_assign key n a s2); [|done|by rewrite T2|by rewrite H2|by apply bool_decide_false; cbn; congruence].
  cbn [jobs]. unfold s2, s1. cbn [jobs]. by rewrite <- !app_assoc.
Qed.

(** After the last row of a second page is gone, the tab says that it has none, over the number
    of those it has, and draws no pager to go back. *)
Theorem says_none_of_many t s :
  loading s = false → tab_page t s = 2 → 0 < tab_total t s ≤ PAGE_SIZE →
  area_of t s = Table (Some (empty_text t)) [] None.
Proof.
  intros Hl Hp [H1 H2]. unfold area_of. rewrite Hl.
  assert (slice t s = []) as ->.
  { unfold tab_total, PAGE_SIZE in *.
    destruct t; unfold slice, appSlice, asnSlice, tab_page in *; rewrite Hp; apply window_past; unfold PAGE_SIZE; lia. }
  assert (tab_pager t s = None) as ->; [|done].
  unfold tab_pager, Pagination. assert (pages (tab_total t s) PAGE_SIZE ≤ 1) as Hle.
  { unfold pages, PAGE_SIZE in *. pose proof (ceil_div_spec (tab_total t s) 20). lia. }
  unfold draw_pager. by rewrite (proj2 (Z.leb_le _ _) Hle).
Qed.

(** *** Concrete runs *)

Notation row_a := (mkRow "GA" "1" "2026-07-20").
Notation row_b := (mkRow "GB" "2" "2026-07-21").
Notation run := (after "org" (Some "GM")).
Notation demo_open := [Checked 0 (Ret true); Listed 0 (Ret ([row_a; row_b], []))].

(** The lists of an older load replace those of a newer one, and the page says it is ready while
    they are still to come: both issues are assigned, and one is drawn as an application. *)
Theorem older_lists_win :
  let newer := demo_open ++ [ClickAct assign 0; ClickAct assign 1; Acted 1 (Ret tt); Acted 2 (Ret tt);
                 Listed 2 (Ret ([], [row_a; row_b]))] in
  render (run newer) = Drawn None applications_tab (0, 2) (Table (Some "No pending applications") [] None) None ∧
  ∃ buttons, render (run (newer ++ [Listed 1 (Ret ([row_b], [row_a]))])) =
    Drawn None applications_tab (1, 1) (Table None [mkDrawn "GB" "2" buttons] None) None.
Proof. split; [by vm_compute|]. eexists. by vm_compute. Qed.

#[local] Instance demo_client : Page.Client (list ContractRow * list ContractRow) := {
  assign_issue _ who _ issue c :=
    (Ret tt, (filter (λ r, issue_id r ≠ issue) c.1, c.2 ++ filter (λ r, issue_id r = issue) c.1));
  complete_assignment _ _ _ issue c := (Ret tt, (c.1, filter (λ r, issue_id r ≠ issue) c.2));
  revoke_assignment _ _ _ issue c := (Throw (Error "Error code: 10"), c);
  list_applications _ c := (Ret c.1, c);
  list_assignments _ c := (Ret c.2, c);
}.

Lemma one_at_a_time_witness :
  let s := run demo_open in
  let w := World (Site (on s) (Some ([row_a; row_b], []))) [] in
  ∃ k r, subject (PAssign row_b) (on s) = Some (k, r) ∧
    let '(o1, w1) := with_client (call_of "org" k r "GM") w in
    let s' := fold_left (step (Some "GM"))
                [click (PAssign row_b) 1; Acted (length (jobs s)) o1; Listed (length (jobs s)) (both "org" w1).1] s in
    jobs s' = jobs s ++ [mkJob (Some (k, r)) Done] ∧
    on s' = Page.view (st (page_handler "org" (Some "GM") (PAssign row_b) w).2).
Proof.
  intros s w. assert (can_click (PAssign row_b) 1 s) as Hc by (by vm_compute).
  apply (one_at_a_time "org" "GM" (PAssign row_b) 1 s w); [discriminate|reflexivity|exact Hc].
Defined.

Lemma clicked_twice_witness :
  what <$> jobs (run (demo_open ++ [ClickAct assign 0; ClickAct assign 1; ClickAct assign 0])) =
    [None; Some (assign, row_a); Some (assign, row_b); Some (assign, row_a)].
Proof.
  assert (filled (Some "GM") ≠ None) as Hk by discriminate.
  assert (table (run demo_open) !! 0%nat = Some row_a) as Ha by (by vm_compute).
  assert (table (run demo_open) !! 1%nat = Some row_b) as Hb by (by vm_compute).
  assert (issue_id row_a ≠ issue_id row_b) as Hn by discriminate.
  assert (tab (run demo_open) = applications_tab) as Ht by (by vm_compute).
  assert (busy (on (run demo_open)) = None) as Hu by (by vm_compute).
  pose proof (clicked_twice (Some "GM") 0 1 row_a row_b (run demo_open) Hk Ht Ha Hb Hn Hu) as H.
  unfold after. rewrite fold_left_app. fold (run demo_open). rewrite H. by vm_compute.
Defined.

Notation many_rows n := ((λ i, mkRow "GA" (pretty (Z.of_nat i)) "2026-07-20") <$> seq 0 n).
Notation last_of_page := [Checked 0 (Ret true); Listed 0 (Ret ([], many_rows 21)); ClickTab assignments_tab; ClickNext;
  ClickAct complete 0; Acted 1 (Ret tt); Listed 1 (Ret ([], many_rows 20))].

Lemma says_none_of_many_witness :
  render (run last_of_page) =
    Drawn None assignments_tab (0, 20) (Table (Some "No active assignments") [] None) None.
Proof.
  assert (loading (on (run last_of_page)) = false) as Hl by (by vm_compute).
  assert (tab_page assignments_tab (on (run last_of_page)) = 2) as Hp by (by vm_compute).
  assert (0 < tab_total assignments_tab (on (run last_of_page)) ≤ PAGE_SIZE) as Ht by (split; by vm_compute).
  pose proof (says_none_of_many assignments_tab _ Hl Hp Ht) as H. vm_compute. vm_compute in H. reflexivity.
Defined.

End PageScreen.
